(* ===== verification/_CoqProject ===== *)
-Q . S2P
Prelude.v
Clib.v
Sys.v
Errors.v
Frame.v
GetNum.v
RdWr.v
Getopt.v
Posix.v
Sockets.v
Status.v
Timer.v
Terminal.v
Locks.v
Daemon.v
FileIO.v
Services.v
Pipes.v
UnixProgs.v
InetProgs.v
Echo.v
Scm.v
Polling.v
Threads.v
Workers.v
Producers.v
Multijoin.v
Strerror.v
Sigs.v
Exec.v
PosixIpc.v
Reaper.v
Stops.v
Script.v
SigProgs.v
Explore.v
Cancel.v
Dirs.v
Clocks.v
Buffering.v
Forks.v
Sessions.v
Mappings.v
SysInfo.v
Types.v
