(* ===== verification/Prelude.v ===== *)
(** * A verification library for the my-linux-programming-interface programs

    The repository is a collection of Linux system programs in C: the library of
    src/lib/, which they share, and some hundred programs, one folder for each
    chapter they belong to.  The parts interact through a few functions: every
    program reports through error_functions, reads its numbers through get_num
    and talks to its peers through the socket, line-input and transfer functions
    of the library; servers, clients and commands then meet in the operating
    system.  The development follows that structure, a file for each part.

    ** How a program is modelled

    Sequential code (files Sys to PosixIpc).  A program is a computation of the
    monad [Sys.M] over a world: the answers the system will give, the events so
    far, and errno.  A system or library call that is not code of the repository
    is an event [Called c r]: its arguments [c] are computed by the model, its
    answer [r] (return value, errno, stored bytes and structures) is any answer;
    so every theorem holds for every behaviour of the system, except where it
    names a law, such as [RdWr.posix_io] for read and write, that says what is
    documented.  Output on stdio streams is an event of its own.  exit, _exit,
    abort and a successful exec end the process; a call that has no answer left
    is one the process still waits in.  fork is one call with two possible
    answers: the theorems about it hold for the parent and for the child.
    A signal handler runs at the calls that let it: the answer of pause,
    sigsuspend, nanosleep or an interrupted read says which signal was caught, and
    [SigProgs.signals] delivers any number of signals at the other points a
    program marks.  What the kernel keeps (signal dispositions and masks, pending
    signals, children, terminal attributes, file offsets, the buffer of stdout) is
    computed from the trace, or is a history the trace must fit.  Arguments of one
    printf that make calls are evaluated from right to left, as gcc does; texts of
    floating-point numbers are parameters.
    [Sys.spec law m w Q] says that running [m] from [w], under answers that obey
    the law, ends in an outcome and a list of events that satisfy [Q].  C's [int]
    and [unsigned] are [Z] with explicit wrap-around (below), strings and buffers
    are [string] and may hold any byte.

    Loops are [Sys.loop]; its fuel is the number of answers left plus one, and as
    each iteration uses an answer ([Progress]) the fuel is never what ends a loop
    ([Sys.loop_terminates], and [Total] in file Frame).

    Concurrent code (files Threads to Strerror).  A process is a step relation on
    the state of all its threads, the lock and the condition variable; the
    theorems quantify over every interleaving, every failure of a call and every
    spurious wakeup.  Termination is the absence of infinite executions, by a
    measure; absence of deadlock is a step from every reachable state in which the
    process has not ended.

    ** The files

    - Prelude: integers, byte strings, shared automation.  Clib: the C library's
      string and number functions.  Sys: the process model and its program logic.
      Posix: constants and the descriptors a trace leaves open.  Frame: rules for
      sub-programs whose details do not matter.  Getopt: getopt(3).
    - Errors (lib/error_functions.c, ename.c.inc): the diagnostics.  errMsg keeps
      errno; the others never return and end the process as documented.
    - GetNum (lib/get_num.c): exactly which arguments are accepted; round trip.
    - RdWr (lib/rdwrn.c, read_line.c): complete transfers and line input.
    - Sockets (lib/inet_sockets.c, unix_sockets.c): no descriptor is leaked (with
      the one exception found), order of the calls, errno.
    - Status (lib/print_wait_status.c, curr_time.c, signal_functions.c, my.c),
      Timer (itimerspec_from_str.c), Terminal (tty_functions.c,
      pty_master_open.c, pty_fork.c), Locks (region_locking.c, create_pid_file.c
      and 55-filelock/), Daemon (become_daemon.c).
    - FileIO (4-fileio/, 5-*/): copying and seeking.  Pipes (44-ipc-pipe-fifo/):
      pipes, popen, the FIFO sequence-number server and its client.  Services:
      the abstract services; the FIFO and the TCP sequence-number servers are
      proved to refine the same one.
    - UnixProgs (57-socket-unix/), InetProgs (59-socket-internet/), Echo
      (60-socket-design/ and is_echo_cl.c, socknames.c of 61), Scm
      (61-socket-advanced/scm_*.c), Polling (63-io-advanced/): clients and
      servers over sockets, descriptor passing, multiplexed input.
    - Threads (30-thread-sync/thread_incr*.c, the spin-lock and the semaphore
      version): an interface for locks with its specification, three
      implementations, and the counter programs proved once against it; the
      unprotected program loses updates.  Workers: a process of [main] and any
      number of threads that share a mutex and a condition variable.  Producers
      (prod_condvar.c, prod_no_condvar.c), Multijoin (thread_multijoin.c) are such
      processes.  Strerror (31-thread-safe-specific/): an interface for per-thread
      buffers, and the equivalence of its two implementations.
    - Sigs: the signal attributes a trace leaves.  Exec (27-process-execute/):
      system() and the exec programs.  PosixIpc (52-posix-msgqueue/,
      53-posix-semaphore/, 54-posix-sharedmem/): message queues, semaphores,
      shared memory.
    - Reaper (26-process-watch/multi_SIGCHLD.c, multi_wait.c): parents that wait
      for all their children, under merged and late SIGCHLDs.
    - Stops (34-process-credentials/handling_SIGTSTP.c, 62-terminal/), Script
      (64-pty/script.c): the terminal is handed back in the state of its user.
    - SigProgs (20-signal-basic/ to 22-signal-advanced/): senders, receivers and
      a queue of pending signals.
    - Explore: step relations whose states can be enumerated.  Cancel
      (29-thread-basic/, 32-thread-cancel/): cancellation and cleanup handlers.
    - Dirs (18-directory-and-link/), Clocks (10-time/, 23-timer/), Buffering
      (13-io-buffering/, 13-experimental/): directories, timers and what reaches
      a file when.
    - Forks (24 to 26, 28): processes created and awaited; the interleavings of
      the parent and the child of fork_sig_sync.c.  Sessions (34-process-
      credentials/): process groups and the numbers a pipeline of job_mon
      processes hands on.
    - Mappings (49-mmap/, 50-mmap-control/): what mappings show and which ranges
      are locked.  SysInfo (6 to 8, 11, 12, dynload.c of 42): the environment as a
      finite map, jumps as values, the blocks freed, authentication, limits.
    - Types: a type system for computations whose base type is well-formed
      terminal attributes; the programs of 62, 63 and 64 that set them are typed.

    ** What the theorems show

    Each theorem that is a property of the programs has a numbered comment.  The
    groups: exact functional behaviour of the library functions on every branch;
    round trips (numbers, timer specifications, wait statuses, requests,
    messages, descriptors, credentials); resources (descriptors, terminal, locks,
    signal attributes) on success and failure; refinement of abstract services;
    invariants, mutual exclusion, termination and freedom from deadlock of the
    threaded programs; equivalence of implementations; bounds of memory ranges
    and of indices; typing of terminal attributes.  Some theorems state
    behaviour the authors will not have wanted, such as the leak in
    inetPassiveSocket, the disposition of SIGQUIT after system() and the updates
    thread_incr.c loses; they follow the code.

    ** Not modelled

    Calls are answered, not simulated: the kernel, libc and other processes are
    outside, so a client and a server meet only through what one is proved to
    send and the other to receive.  An answer never carries more bytes than its
    return value says are used; reads of uninitialised variables take a parameter
    or are excluded, as said where they occur.  Signal handlers that only set a
    flag are answers of the environment.  In the threaded programs the text of a
    failure's message is not modelled, and memory is sequentially consistent.
    A call that reads or writes shared memory is an event, ReadMem or WriteMem; the
    memory of one process is the values the definitions carry.
    Left out: demo_SIGFPE.c, nonreentrant.c and t_vfork.c, whose behaviour C leaves
    undefined (a division by zero, a handler inside crypt(), a child that writes its
    parent's variables after vfork); the examples of linking and symbol versions of
    41 and 42, whose behaviour is the linker's; the two loops of 3 that only use up
    time.  Where a program prints addresses or timings, they are answers. *)

From stdpp Require Export base list strings gmap.
From Stdlib Require Export ZArith Ascii String Lia.

#[export] Set Warnings "-notation-overridden".
#[global] Open Scope Z_scope.

(** ** Notations of the development *)

(** [length] is the length of lists; buffers use [slen]. *)
Abbreviation length := Datatypes.length.

Declare Scope c_scope.
Delimit Scope c_scope with c.

(** C's bit operators on flag words. *)
Infix ".|" := Z.lor (at level 50, left associativity) : c_scope.
Infix ".&" := Z.land (at level 40, left associativity) : c_scope.
#[global] Open Scope c_scope.

(** [has flags bit] is C's [(flags & bit) != 0]. *)
Definition has (flags bit : Z) : bool := negb (Z.land flags bit =? 0).

(** ** Machine-width integers *)

Definition INT_MAX : Z := 2147483647.
Definition INT_MIN : Z := -2147483648.
Definition LONG_MAX : Z := 9223372036854775807.
Definition LONG_MIN : Z := -9223372036854775808.
Definition UINT_MAX : Z := 4294967295.

(** Reduction to 32 bits, unsigned and two's complement, and to 64 bits. *)
Definition wrap_u32 (z : Z) : Z := z mod 2 ^ 32.
Definition wrap_s32 (z : Z) : Z := (z + 2 ^ 31) mod 2 ^ 32 - 2 ^ 31.
Definition wrap_u64 (z : Z) : Z := z mod 2 ^ 64.
Definition wrap_s64 (z : Z) : Z := (z + 2 ^ 63) mod 2 ^ 64 - 2 ^ 63.

Definition in_int (z : Z) : Prop := INT_MIN <= z <= INT_MAX.
Definition in_long (z : Z) : Prop := LONG_MIN <= z <= LONG_MAX.

#[export] Instance in_int_dec z : Decision (in_int z).
Proof. unfold in_int. apply _. Defined.
#[export] Instance in_long_dec z : Decision (in_long z).
Proof. unfold in_long. apply _. Defined.

(** ** Byte strings: a buffer or a C string is a [string] *)

Definition nul : ascii := "000"%char.
Definition nlc : ascii := "010"%char.
Definition nl : string := String nlc EmptyString.
Definition tab : string := String "009"%char EmptyString.
Definition dquote : string := String "034"%char EmptyString.

(** The length of a buffer as a [Z]. *)
Definition slen (s : string) : Z := Z.of_nat (String.length s).

(** First [n] bytes, and what follows them. *)
Fixpoint stake (n : nat) (s : string) : string :=
  match n, s with
  | S n, String c s => String c (stake n s)
  | _, _ => EmptyString
  end.

Fixpoint sdrop (n : nat) (s : string) : string :=
  match n, s with
  | S n, String c s => sdrop n s
  | _, _ => s
  end.

Definition ztake (n : Z) (s : string) : string := stake (Z.to_nat n) s.
Definition zdrop (n : Z) (s : string) : string := sdrop (Z.to_nat n) s.

(** The byte at an index; [nul] past the end, as for a terminated string. *)
Fixpoint schar (n : nat) (s : string) : ascii :=
  match s, n with
  | EmptyString, _ => nul
  | String c _, O => c
  | String _ s, S n => schar n s
  end.

Fixpoint smap (f : ascii -> ascii) (s : string) : string :=
  match s with
  | EmptyString => EmptyString
  | String c s => String (f c) (smap f s)
  end.

Fixpoint sforall (f : ascii -> bool) (s : string) : bool :=
  match s with
  | EmptyString => true
  | String c s => f c && sforall f s
  end.

(** [n] copies of a byte. *)
Fixpoint srep (n : nat) (c : ascii) : string :=
  match n with
  | O => EmptyString
  | S n => String c (srep n c)
  end.

(** Store [s] at offset [i] of buffer [b], the way a copy into a C array does;
    a store past the end of [b] extends it here and is undefined in C. *)
Definition sstore (b : string) (i : Z) (s : string) : string :=
  ztake i b +:+ s +:+ zdrop (i + slen s) b.

(** ** Lemmas on byte strings *)

Lemma sapp_nil_l s : EmptyString +:+ s = s.
Proof. reflexivity. Qed.

Lemma sapp_cons c s t : String c s +:+ t = String c (s +:+ t).
Proof. reflexivity. Qed.

Lemma sapp_nil_r s : s +:+ EmptyString = s.
Proof. induction s as [|c s IH]; [done|]. rewrite ?sapp_cons. simpl. by rewrite ?sapp_cons, IH. Qed.

Lemma sapp_assoc s t u : s +:+ (t +:+ u) = (s +:+ t) +:+ u.
Proof. induction s as [|c s IH]; [done|]. rewrite ?sapp_cons. simpl. by rewrite ?sapp_cons, IH. Qed.

Lemma slength_app s t : String.length (s +:+ t) = (String.length s + String.length t)%nat.
Proof. induction s as [|c s IH]; [done|]. rewrite ?sapp_cons. simpl. by rewrite ?sapp_cons, IH. Qed.

Lemma slen_app s t : slen (s +:+ t) = slen s + slen t.
Proof. unfold slen. rewrite slength_app. lia. Qed.

Lemma slen_nil : slen EmptyString = 0.
Proof. reflexivity. Qed.

Lemma slen_cons c s : slen (String c s) = 1 + slen s.
Proof. unfold slen. simpl String.length. lia. Qed.

Lemma slen_nonneg s : 0 <= slen s.
Proof. unfold slen. lia. Qed.

Lemma slen_zero s : slen s = 0 -> s = EmptyString.
Proof. destruct s; [done|]. rewrite slen_cons. pose proof (slen_nonneg s). lia. Qed.

Lemma stake_all n s : (String.length s <= n)%nat -> stake n s = s.
Proof.
  revert n; induction s as [|c s IH]; intros [|n] H; simpl in *; try done; try lia.
  by rewrite IH by lia.
Qed.

Lemma stake_length n s : String.length (stake n s) = Nat.min n (String.length s).
Proof. revert s; induction n as [|n IH]; intros [|c s]; simpl; try done. by rewrite IH. Qed.

Lemma stake_sdrop n s : stake n s +:+ sdrop n s = s.
Proof. revert s; induction n as [|n IH]; intros [|c s]; simpl; try done. by rewrite sapp_cons, IH. Qed.

Lemma sdrop_length n s : String.length (sdrop n s) = (String.length s - n)%nat.
Proof. revert s; induction n as [|n IH]; intros [|c s]; simpl; try done. Qed.

Lemma sdrop_all n s : (String.length s <= n)%nat -> sdrop n s = EmptyString.
Proof. revert n; induction s as [|c s IH]; intros [|n] H; simpl in *; try done; try lia. apply IH; lia. Qed.

Lemma stake_app_length n s t : String.length s = n -> stake n (s +:+ t) = s.
Proof. intros <-. induction s as [|c s IH]; [by destruct t|]. rewrite sapp_cons. simpl. by rewrite IH. Qed.

Lemma sdrop_app_length n s t : String.length s = n -> sdrop n (s +:+ t) = t.
Proof. intros <-. induction s as [|c s IH]; [by destruct t|]. rewrite sapp_cons. simpl. done. Qed.

Lemma ztake_all n s : slen s <= n -> ztake n s = s.
Proof. intros H. apply stake_all. unfold slen in H. lia. Qed.

Lemma ztake_zdrop n s : ztake n s +:+ zdrop n s = s.
Proof. apply stake_sdrop. Qed.

Lemma slen_ztake n s : 0 <= n -> slen (ztake n s) = Z.min n (slen s).
Proof. intros H. unfold slen, ztake. rewrite stake_length. lia. Qed.

Lemma slen_zdrop n s : 0 <= n -> slen (zdrop n s) = Z.max 0 (slen s - n).
Proof. intros H. unfold slen, zdrop. rewrite sdrop_length. lia. Qed.

Lemma ztake_app s t : ztake (slen s) (s +:+ t) = s.
Proof. apply stake_app_length. unfold slen. lia. Qed.

Lemma zdrop_app s t : zdrop (slen s) (s +:+ t) = t.
Proof. apply sdrop_app_length. unfold slen. lia. Qed.

Lemma stake_split n m s : stake n s +:+ stake m (sdrop n s) = stake (n + m) s.
Proof.
  revert s; induction n as [|n IH]; intros [|c s]; simpl; try done; [by destruct m|].
  by rewrite sapp_cons, IH.
Qed.
Lemma stake_stake n m s : (n <= m)%nat -> stake n (stake m s) = stake n s.
Proof. revert m s; induction n as [|n IH]; intros [|m] [|c s] H; simpl; try done; try lia. rewrite IH by lia. done. Qed.

(** A prefix of the part that follows a prefix. *)
Lemma ztake_split_take t k m s : 0 <= t -> 0 <= k <= m ->
  ztake t s +:+ ztake k (ztake m (zdrop t s)) = ztake (t + k) s.
Proof.
  intros Ht Hk. unfold ztake, zdrop. rewrite stake_stake by lia.
  rewrite stake_split. f_equal. lia.
Qed.

Lemma stake_app_l n s t : (n <= String.length s)%nat -> stake n (s +:+ t) = stake n s.
Proof.
  revert n; induction s as [|c s IH]; intros n H.
  - simpl in H. by replace n with O by lia.
  - destruct n as [|n]; [done|]. rewrite sapp_cons. simpl in *. by rewrite IH by lia.
Qed.
Lemma ztake_app_l m s t : m <= slen s -> ztake m (s +:+ t) = ztake m s.
Proof. intros H. apply stake_app_l. unfold slen in H. lia. Qed.

Lemma ztake_nil n : ztake n EmptyString = EmptyString.
Proof. unfold ztake. by destruct (Z.to_nat n). Qed.

Lemma ztake_0 s : ztake 0 s = EmptyString.
Proof. reflexivity. Qed.

Lemma zdrop_0 s : zdrop 0 s = s.
Proof. by destruct s. Qed.

Lemma zdrop_all n s : slen s <= n -> zdrop n s = EmptyString.
Proof. intros H. apply sdrop_all. unfold slen in H. lia. Qed.

Lemma slen_srep n c : slen (srep n c) = Z.of_nat n.
Proof. induction n as [|n IH]; [done|]. simpl srep. rewrite slen_cons, IH. lia. Qed.

Lemma slen_smap f s : slen (smap f s) = slen s.
Proof. induction s as [|c s IH]; [done|]. simpl smap. by rewrite !slen_cons, IH. Qed.

Lemma smap_app f s t : smap f (s +:+ t) = smap f s +:+ smap f t.
Proof. induction s as [|c s IH]; [done|]. rewrite ?sapp_cons. simpl. by rewrite ?sapp_cons, IH. Qed.

Lemma smap_smap f s : (forall c, f (f c) = f c) -> smap f (smap f s) = smap f s.
Proof. intros Hf. induction s as [|c s IH]; simpl; [done|by rewrite Hf, IH]. Qed.

Lemma sapp_inj_l s t u : s +:+ t = s +:+ u -> t = u.
Proof. induction s as [|c s IH]; [done|]. rewrite !sapp_cons. intros [=]. by apply IH. Qed.

(** ** Lemmas on machine integers *)

Lemma wrap_s32_id z : in_int z -> wrap_s32 z = z.
Proof. unfold in_int, INT_MIN, INT_MAX, wrap_s32. intros H. rewrite Z.mod_small by lia. lia. Qed.

Lemma wrap_s32_range z : in_int (wrap_s32 z).
Proof.
  unfold in_int, INT_MIN, INT_MAX, wrap_s32.
  pose proof (Z.mod_pos_bound (z + 2 ^ 31) (2 ^ 32)). lia.
Qed.

Lemma wrap_u32_id z : 0 <= z <= UINT_MAX -> wrap_u32 z = z.
Proof. unfold UINT_MAX, wrap_u32. intros H. apply Z.mod_small. lia. Qed.

Lemma wrap_u32_range z : 0 <= wrap_u32 z <= UINT_MAX.
Proof. unfold UINT_MAX, wrap_u32. pose proof (Z.mod_pos_bound z (2 ^ 32)). lia. Qed.

Lemma wrap_u64_id z : 0 <= z < 2 ^ 64 -> wrap_u64 z = z.
Proof. intros. by apply Z.mod_small. Qed.
Lemma wrap_s64_id z : - 2 ^ 63 <= z < 2 ^ 63 -> wrap_s64 z = z.
Proof. intros H. unfold wrap_s64. rewrite Z.mod_small by lia. lia. Qed.

Lemma wrap_u32_add z w : wrap_u32 (wrap_u32 z + w) = wrap_u32 (z + w).
Proof. unfold wrap_u32. by rewrite Zplus_mod_idemp_l. Qed.

Lemma wrap_s32_add z w : wrap_s32 (wrap_s32 z + w) = wrap_s32 (z + w).
Proof.
  unfold wrap_s32. f_equal.
  replace ((z + 2 ^ 31) mod 2 ^ 32 - 2 ^ 31 + w + 2 ^ 31) with ((z + 2 ^ 31) mod 2 ^ 32 + w) by lia.
  rewrite Zplus_mod_idemp_l. f_equal. lia.
Qed.

(** ** Strides: how many ranges of [k] cells, [step] apart, lie within [len] cells *)

Definition stride_count (len step k : Z) : Z := if k <=? len then (len - k) / step + 1 else 0.
Lemma stride_count_lt len step k i : 0 < step -> 0 <= i -> i < stride_count len step k <-> i * step + k <= len.
Proof.
  intros Hstep Hi. unfold stride_count. pose proof (Z.mul_div_le (len - k) step Hstep).
  pose proof (Z.mul_succ_div_gt (len - k) step Hstep).
  destruct (k <=? len) eqn:E; [apply Z.leb_le in E|apply Z.leb_gt in E; nia]. split; nia.
Qed.
Lemma stride_count_nonneg len step k : 0 < step -> 0 <= stride_count len step k.
Proof.
  intros Hstep. unfold stride_count. destruct (k <=? len) eqn:E; [apply Z.leb_le in E|lia].
  pose proof (Z.div_pos (len - k) step). lia.
Qed.

(** ** Automation shared by the components *)

Create HintDb cdb.
#[export] Hint Resolve slen_nonneg wrap_s32_range wrap_u32_range : cdb.
Create Rewrite HintDb bytes.
#[export] Hint Rewrite slen_app slen_nil slen_cons slen_srep slen_smap : bytes.

(** Length arithmetic: push [slen] through the operations, add the sign facts, [lia]. *)
Ltac slen_lia :=
  autorewrite with bytes in *;
  repeat match goal with
  | |- context [slen ?s] =>
      lazymatch goal with
      | _ : 0 <= slen s |- _ => fail
      | _ => pose proof (slen_nonneg s)
      end
  | _ : context [slen ?s] |- _ =>
      lazymatch goal with
      | _ : 0 <= slen s |- _ => fail
      | _ => pose proof (slen_nonneg s)
      end
  end; lia.

(** Turn boolean comparisons of the code into facts [lia] can use. *)
Ltac zbool :=
  repeat match goal with
  | H : _ && _ = true |- _ => apply andb_true_iff in H as [??]
  | H : _ || _ = false |- _ => apply orb_false_iff in H as [??]
  | H : (_ =? _) = true |- _ => apply Z.eqb_eq in H
  | H : (_ =? _) = false |- _ => apply Z.eqb_neq in H
  | H : (_ <? _) = true |- _ => apply Z.ltb_lt in H
  | H : (_ <? _) = false |- _ => apply Z.ltb_ge in H
  | H : (_ <=? _) = true |- _ => apply Z.leb_le in H
  | H : (_ <=? _) = false |- _ => apply Z.leb_gt in H
  | H : (_ >? _) = true |- _ => rewrite Z.gtb_ltb in H
  | H : (_ >? _) = false |- _ => rewrite Z.gtb_ltb in H
  | H : (_ >=? _) = true |- _ => rewrite Z.geb_leb in H
  | H : (_ >=? _) = false |- _ => rewrite Z.geb_leb in H
  | H : negb _ = true |- _ => apply negb_true_iff in H
  | H : negb _ = false |- _ => apply negb_false_iff in H
  end.

(** Case split on the test the goal is stuck on. *)
Ltac case_if :=
  match goal with
  | |- context [if ?b then _ else _] => destruct b eqn:?
  end.
