(* ===== verification/Clib.v ===== *)
(** * Clib: the standard-library functions the programs call

    The C-locale character classes, string functions on NUL-terminated
    strings, [strtol]/[atoi], the [printf] conversions the programs use and
    [snprintf]'s truncation.  They are part of the language, so they are
    defined here rather than left as parameters; what the programs obtain from
    the operating system is an answered call (file Sys). *)

From S2P Require Import Prelude.

(** ** Characters *)

Definition ascii_Z (c : ascii) : Z := Z.of_N (N_of_ascii c).
Definition Z_ascii (z : Z) : ascii := ascii_of_N (Z.to_N (z mod 256)).

Definition in_range (lo hi : Z) (c : ascii) : bool :=
  (lo <=? ascii_Z c) && (ascii_Z c <=? hi).

Definition isdigit : ascii -> bool := in_range 48 57.
Definition isupper : ascii -> bool := in_range 65 90.
Definition islower : ascii -> bool := in_range 97 122.
Definition isalpha (c : ascii) : bool := isupper c || islower c.
Definition isalnum (c : ascii) : bool := isalpha c || isdigit c.
Definition isprint : ascii -> bool := in_range 32 126.
Definition isspace (c : ascii) : bool := in_range 9 13 c || (ascii_Z c =? 32).
Definition toupper (c : ascii) : ascii :=
  if islower c then Z_ascii (ascii_Z c - 32) else c.

Definition ceqb (a b : ascii) : bool := Ascii.eqb a b.

(** ** NUL-terminated strings *)

(** The string a [char *] pointing at these bytes denotes. *)
Fixpoint cstr (s : string) : string :=
  match s with
  | EmptyString => EmptyString
  | String c s => if ceqb c nul then EmptyString else String c (cstr s)
  end.

Definition strlen (s : string) : Z := slen (cstr s).
Definition strcmp_eq (a b : string) : bool := String.eqb (cstr a) (cstr b).

(** [strchr]: the index of the first [c]; the terminator counts as a character. *)
Fixpoint strchr (s : string) (c : ascii) : option nat :=
  match s with
  | EmptyString => if ceqb c nul then Some O else None
  | String d s =>
      if ceqb d c then Some O
      else if ceqb d nul then None
      else option_map S (strchr s c)
  end.

Definition strchr_found (s : string) (c : ascii) : bool :=
  match strchr s c with Some _ => true | None => false end.

(** ** Number parsing: [strtol] and [atoi] *)

Definition digit_val (c : ascii) : Z :=
  if isdigit c then ascii_Z c - 48
  else if islower c then ascii_Z c - 87
  else if isupper c then ascii_Z c - 55
  else 99.

Fixpoint skip_ws (s : string) : string :=
  match s with
  | String c r => if isspace c then skip_ws r else s
  | EmptyString => s
  end.

(** The value of the digits in front of [s], and what follows them. *)
Fixpoint digits (base acc : Z) (s : string) : Z * string :=
  match s with
  | String c r =>
      if digit_val c <? base then digits base (acc * base + digit_val c) r
      else (acc, s)
  | EmptyString => (acc, s)
  end.

Definition split_sign (s : string) : bool * string :=
  match s with
  | String c r =>
      if ceqb c "-"%char then (true, r)
      else if ceqb c "+"%char then (false, r) else (false, s)
  | EmptyString => (false, s)
  end.

(** [0x] or [0X] followed by a hexadecimal digit. *)
Definition hex_prefix (s : string) : bool :=
  match s with
  | String z (String x (String d _)) =>
      ceqb z "0"%char && (ceqb x "x"%char || ceqb x "X"%char) && (digit_val d <? 16)
  | _ => false
  end.

Definition split_base (base : Z) (s : string) : Z * string :=
  if ((base =? 0) || (base =? 16)) && hex_prefix s then (16, sdrop 2 s)
  else if base =? 0 then
    (if ceqb (schar 0 s) "0"%char then 8 else 10, s)
  else (base, s).

Definition starts_digit (base : Z) (s : string) : bool :=
  match s with String c _ => digit_val c <? base | EmptyString => false end.

Definition ERANGE : Z := 34.

(** Result, the string [endptr] points at, and the error number set (0: none). *)
Definition strtol (arg : string) (base : Z) : Z * string * Z :=
  let s := cstr arg in
  let '(neg, s2) := split_sign (skip_ws s) in
  let '(b, s3) := split_base base s2 in
  if starts_digit b s3 then
    let '(m, rest) := digits b 0 s3 in
    let v := if neg then - m else m in
    if v >? LONG_MAX then (LONG_MAX, rest, ERANGE)
    else if v <? LONG_MIN then (LONG_MIN, rest, ERANGE)
    else (v, rest, 0)
  else (0, s, 0).

(** [atoi(s)] is [(int) strtol(s, NULL, 10)]. *)
Definition atoi (s : string) : Z := wrap_s32 (fst (fst (strtol s 10))).

(** ** [printf] conversions *)

Definition digit_char (d : Z) : ascii :=
  if d <? 10 then Z_ascii (48 + d) else Z_ascii (87 + d).

(** Digits of [n] in front of [acc]; [fuel] bounds the number of digits, and
    [Z.log2 n + 1] is always enough for a base of at least 2. *)
Fixpoint udigits (fuel : nat) (base n : Z) (acc : string) : string :=
  match fuel with
  | O => acc
  | S f =>
      let acc := String (digit_char (n mod base)) acc in
      if n / base =? 0 then acc else udigits f base (n / base) acc
  end.

Definition unum (base n : Z) : string := udigits (S (Z.to_nat (Z.log2 n))) base n EmptyString.

(** [%d], [%ld], [%u] (the argument already reduced to its type). *)
Definition dec (n : Z) : string :=
  if n <? 0 then String "-"%char (unum 10 (- n)) else unum 10 n.
(** [%x], [%o] on an unsigned argument. *)
Definition hex (n : Z) : string := unum 16 n.
Definition oct (n : Z) : string := unum 8 n.
(** [%#x]: no prefix for zero. *)
Definition hex_alt (n : Z) : string :=
  if n =? 0 then "0"%string else ("0x" +:+ hex n)%string.

(** Field widths: [%5s] and [%-5s], and zero padding of unsigned numbers. *)
Definition lpad (w : Z) (c : ascii) (s : string) : string :=
  srep (Z.to_nat (w - slen s)) c +:+ s.
Definition rpad (w : Z) (s : string) : string :=
  s +:+ srep (Z.to_nat (w - slen s)) " "%char.

(** [%s] of a buffer, and [%.*s]. *)
Definition fmt_s (s : string) : string := cstr s.
Definition fmt_prec (n : Z) (s : string) : string := cstr (ztake n s).

(** What [snprintf(buf, size, ...)] leaves in [buf] as a C string. *)
Definition snprintf (size : Z) (s : string) : string := ztake (size - 1) s.
(** The C string in a zeroed array after [strncpy(dst, src, n)], for an array
    longer than [n]: at most [n] bytes are copied. *)
Definition strncpy_str (src : string) (n : Z) : string := ztake n (cstr src).

(** [htons]/[ntohs] on a little-endian machine: the two bytes swapped. *)
Definition htons (x : Z) : Z :=
  Z.lor (Z.shiftl (Z.land x 255) 8) (Z.land (Z.shiftr x 8) 255).
Definition ntohs : Z -> Z := htons.

(** An [int] stored in memory, little-endian, and read back. *)
Fixpoint le_bytes (n : nat) (z : Z) : string :=
  match n with
  | O => EmptyString
  | S n => String (Z_ascii (z mod 256)) (le_bytes n (z / 256))
  end.
Fixpoint le_value (s : string) : Z :=
  match s with
  | EmptyString => 0
  | String c s => ascii_Z c + 256 * le_value s
  end.
Definition int_bytes (z : Z) : string := le_bytes 4 (wrap_u32 z).
Definition int_of_bytes (s : string) : Z := wrap_s32 (le_value s).

(** ** [sscanf]

    The conversions the programs use: [%d] ([int]), [%lld] and [%ld] (64 bits),
    [%c] (one byte, no white space skipped) and white space in the format.  The
    values assigned, in order; a matching failure or the end of the input stops
    the scan.  [sscanf]'s result is their number, or -1 when the input ended
    before the first conversion. *)
Inductive scan_item := ScanD | ScanLL | ScanC | ScanWs.

Definition scan_number (s : string) : option (Z * string) :=
  let '(neg, s2) := split_sign (skip_ws s) in
  if starts_digit 10 s2 then
    let '(v, rest, _) := strtol s 10 in Some (v, rest)
  else None.

Fixpoint scan (fmt : list scan_item) (s : string) : list Z :=
  match fmt with
  | [] => []
  | ScanWs :: fmt => scan fmt (skip_ws s)
  | ScanC :: fmt => match s with String c r => ascii_Z c :: scan fmt r | EmptyString => [] end
  | ScanD :: fmt => match scan_number s with
                    | Some (v, r) => wrap_s32 v :: scan fmt r | None => [] end
  | ScanLL :: fmt => match scan_number s with
                     | Some (v, r) => v :: scan fmt r | None => [] end
  end.

Definition sscanf (s : string) (fmt : list scan_item) : Z * list Z :=
  let l := scan fmt (cstr s) in
  (match l with
   | [] => if String.eqb (skip_ws (cstr s)) EmptyString then -1 else 0
   | _ => Z.of_nat (length l)
   end, l).

(** ** Command-line arguments *)

Definition argc_of (argv : list string) : Z := Z.of_nat (length argv).
(** [argv[j]]; [argv_opt] where the null pointer at [argv[argc]] may be read. *)
Definition argv_at (argv : list string) (j : nat) : string := nth j argv EmptyString.
Definition argv_opt (argv : list string) (j : nat) : option string := nth_error argv j.
(** [strcmp(argv[1], "--help") == 0] *)
Definition wants_help (argv : list string) : bool := strcmp_eq (argv_at argv 1) "--help".

(** ** Lemmas *)

Lemma ascii_Z_range c : 0 <= ascii_Z c < 256.
Proof. unfold ascii_Z. pose proof (N_ascii_bounded c). lia. Qed.

Lemma ascii_Z_ascii z : ascii_Z (Z_ascii z) = z mod 256.
Proof.
  unfold ascii_Z, Z_ascii. pose proof (Z.mod_pos_bound z 256).
  rewrite N_ascii_embedding by lia. lia.
Qed.

Lemma Z_ascii_Z c : Z_ascii (ascii_Z c) = c.
Proof.
  unfold Z_ascii. rewrite Z.mod_small by apply ascii_Z_range.
  unfold ascii_Z. rewrite N2Z.id. apply ascii_N_embedding.
Qed.

Lemma ceqb_eq a b : ceqb a b = true <-> a = b.
Proof. apply Ascii.eqb_eq. Qed.

Lemma ceqb_refl a : ceqb a a = true.
Proof. by apply ceqb_eq. Qed.

Lemma toupper_idem c : toupper (toupper c) = toupper c.
Proof. destruct c as [[] [] [] [] [] [] [] []]; reflexivity. Qed.

(** A string without a NUL byte. *)
Definition nonul (s : string) : bool := sforall (fun c => negb (ceqb c nul)) s.

Lemma cstr_nonul s : nonul s = true -> cstr s = s.
Proof.
  unfold nonul. induction s as [|c s IH]; simpl; [done|].
  rewrite andb_true_iff, negb_true_iff. intros [-> H]. by rewrite IH.
Qed.

Lemma cstr_is_nonul s : nonul (cstr s) = true.
Proof. unfold nonul. induction s as [|c s IH]; simpl; [done|]. destruct (ceqb c nul) eqn:E; simpl; [done|]. by rewrite E, IH. Qed.

Lemma cstr_idem s : cstr (cstr s) = cstr s.
Proof. apply cstr_nonul, cstr_is_nonul. Qed.

Lemma sforall_app f s t : sforall f (s +:+ t) = sforall f s && sforall f t.
Proof. induction s as [|c s IH]; [done|]. rewrite sapp_cons. simpl. by rewrite IH, andb_assoc. Qed.

Lemma nonul_app s t : nonul (s +:+ t) = nonul s && nonul t.
Proof. apply sforall_app. Qed.

Lemma slen_cstr s : slen (cstr s) <= slen s.
Proof.
  induction s as [|c s IH]; simpl; [done|].
  destruct (ceqb c nul); autorewrite with bytes; pose proof (slen_nonneg s); lia.
Qed.

Lemma strlen_nonul s : nonul s = true -> strlen s = slen s.
Proof. intros H. unfold strlen. by rewrite cstr_nonul. Qed.

Lemma snprintf_slen size s : 1 <= size -> slen (snprintf size s) <= size - 1.
Proof. intros H. unfold snprintf. rewrite slen_ztake by lia. lia. Qed.

Lemma strncpy_str_short src n : strlen src <= n -> strncpy_str src n = cstr src.
Proof. intros H. apply ztake_all. exact H. Qed.

#[export] Hint Rewrite ascii_Z_ascii Z_ascii_Z cstr_idem toupper_idem : bytes.
#[export] Hint Resolve ascii_Z_range cstr_is_nonul slen_cstr : cdb.

(** *** Printing then parsing a number *)

(** Enumerate a variable known to lie between 0 and a small literal. *)
Ltac small_cases d n :=
  lazymatch n with
  | O => exfalso; lia
  | S ?m =>
      let z := eval vm_compute in (Z.of_nat m) in
      destruct (decide (d = z)) as [->|?]; [clear|small_cases d m]
  end.

Lemma digit_val_char d : 0 <= d < 16 -> digit_val (digit_char d) = d.
Proof.
  intros H. small_cases d 16%nat. all: reflexivity.
Qed.

Lemma digit_char_class d : 0 <= d < 10 ->
  isspace (digit_char d) = false /\ ceqb (digit_char d) nul = false
  /\ ceqb (digit_char d) "-"%char = false /\ ceqb (digit_char d) "+"%char = false.
Proof.
  intros H. small_cases d 10%nat. all: split_and!; reflexivity.
Qed.

Lemma digits_app base acc s t :
  sforall (fun c => digit_val c <? base) s = true ->
  starts_digit base t = false ->
  digits base acc (s +:+ t) = (fst (digits base acc s), t).
Proof.
  revert acc; induction s as [|c s IH]; intros acc Hs Ht.
  - rewrite sapp_nil_l. simpl. destruct t as [|d t]; simpl in *; [done|]. by rewrite Ht.
  - rewrite sapp_cons. simpl in *. apply andb_true_iff in Hs as [-> Hs]. by apply IH.
Qed.

(** What [udigits] puts in front of [acc]: digits whose value continues to [acc]'s. *)
Lemma udigits_spec fuel base n acc :
  2 <= base <= 16 -> 0 <= n -> (n < base ^ Z.of_nat fuel) -> fuel <> O ->
  exists ds, udigits fuel base n acc = ds +:+ acc /\ ds <> EmptyString
    /\ sforall (fun c => digit_val c <? base) ds = true
    /\ sforall (fun c => existsb (fun d => ceqb c (digit_char d)) (seqZ 0 base)) ds = true
    /\ forall a t, digits base a (ds +:+ t) = digits base (a * base ^ slen ds + n) t.
Proof.
  intros Hb. revert n acc; induction fuel as [|fuel IH]; intros n acc Hn Hlt Hf; [done|].
  simpl udigits.
  pose proof (Z.mod_pos_bound n base ltac:(lia)) as Hm.
  pose proof (Z.div_mod n base ltac:(lia)) as Hdm.
  assert (Hdig : digit_val (digit_char (n mod base)) = n mod base) by (apply digit_val_char; lia).
  assert (Hex : existsb (fun d => ceqb (digit_char (n mod base)) (digit_char d)) (seqZ 0 base) = true).
  { apply existsb_exists. exists (n mod base). split; [|apply ceqb_refl].
    apply list_elem_of_In, elem_of_seqZ. lia. }
  destruct (n / base =? 0) eqn:E; zbool.
  - exists (String (digit_char (n mod base)) EmptyString). split_and!; try done.
    + simpl. rewrite Hdig. apply andb_true_iff; split; [apply Z.ltb_lt; lia|done].
    + cbn [sforall]. by rewrite Hex.
    + intros a t. rewrite sapp_cons, sapp_nil_l. simpl digits. rewrite Hdig.
      replace (n mod base <? base) with true by (symmetry; apply Z.ltb_lt; lia).
      f_equal. rewrite slen_cons, slen_nil. lia.
  - assert (Hd0 : 0 <= n / base) by (apply Z.div_pos; lia).
    destruct fuel as [|fuel].
    { exfalso. rewrite Z.pow_1_r in Hlt. rewrite Z.div_small in E; lia. }
    assert (Hlt' : n / base < base ^ Z.of_nat (S fuel)).
    { apply Z.div_lt_upper_bound; [lia|].
      rewrite <- Z.pow_succ_r by lia. by rewrite <- Nat2Z.inj_succ. }
    destruct (IH (n / base) (String (digit_char (n mod base)) acc) Hd0 Hlt' ltac:(done))
      as (ds & -> & Hne & Hds & Hexs & Hval).
    exists (ds +:+ String (digit_char (n mod base)) EmptyString). split_and!.
    + by rewrite <- sapp_assoc, sapp_cons, sapp_nil_l.
    + by destruct ds.
    + rewrite sforall_app, Hds. simpl. rewrite Hdig. apply andb_true_iff; split; [apply Z.ltb_lt; lia|done].
    + rewrite sforall_app, Hexs. cbn [sforall]. by rewrite Hex.
    + intros a t. rewrite <- sapp_assoc, Hval, sapp_cons, sapp_nil_l. simpl digits. rewrite Hdig.
      replace (n mod base <? base) with true by (symmetry; apply Z.ltb_lt; lia).
      f_equal. autorewrite with bytes.
      replace (slen ds + (1 + 0)) with (Z.succ (slen ds)) by lia.
      rewrite Z.pow_succ_r by apply slen_nonneg. lia.
Qed.

Lemma unum_spec base n : 2 <= base <= 16 -> 0 <= n ->
  unum base n <> EmptyString
  /\ sforall (fun c => digit_val c <? base) (unum base n) = true
  /\ sforall (fun c => existsb (fun d => ceqb c (digit_char d)) (seqZ 0 base)) (unum base n) = true
  /\ forall a t, digits base a (unum base n +:+ t) = digits base (a * base ^ slen (unum base n) + n) t.
Proof.
  intros Hb Hn. unfold unum.
  assert (Hlt : n < base ^ Z.of_nat (S (Z.to_nat (Z.log2 n)))).
  { rewrite Nat2Z.inj_succ, Z2Nat.id by apply Z.log2_nonneg.
    destruct (decide (n = 0)) as [->|?]; [change (Z.succ (Z.log2 0)) with 1; lia|].
    eapply Z.lt_le_trans; [apply Z.log2_spec; lia|].
    apply Z.pow_le_mono_l. lia. }
  destruct (udigits_spec _ base n EmptyString Hb Hn Hlt ltac:(done)) as (ds & -> & H).
  by rewrite sapp_nil_r.
Qed.

(** Every character of a printed decimal number is one of the ten digits. *)
Lemma sforall_impl (f g : ascii -> bool) s :
  (forall c, f c = true -> g c = true) -> sforall f s = true -> sforall g s = true.
Proof.
  intros Hfg. induction s as [|c s IH]; simpl; [done|].
  rewrite !andb_true_iff. intros [??]; eauto.
Qed.

Lemma dec_digit_inv c :
  existsb (fun d => ceqb c (digit_char d)) (seqZ 0 10) = true ->
  exists d, 0 <= d < 10 /\ c = digit_char d.
Proof.
  intros (d & Hd & Hc)%existsb_exists. exists d.
  split; [|by apply ceqb_eq]. apply list_elem_of_In, elem_of_seqZ in Hd. lia.
Qed.

Lemma unum10_nonul n : 0 <= n -> nonul (unum 10 n) = true.
Proof.
  intros Hn. destruct (unum_spec 10 n ltac:(lia) Hn) as (_ & _ & H & _).
  revert H. apply sforall_impl. intros c (d & Hd & ->)%dec_digit_inv.
  by destruct (digit_char_class d Hd) as (_ & -> & _).
Qed.

Lemma dec_nonul z : nonul (dec z) = true.
Proof.
  unfold dec. destruct (z <? 0) eqn:E; zbool; [|apply unum10_nonul; lia].
  unfold nonul. cbn [sforall]. apply unum10_nonul. lia.
Qed.

Lemma cstr_app_nonul s t : nonul s = true -> cstr (s +:+ t) = s +:+ cstr t.
Proof.
  unfold nonul. induction s as [|c s IH]; [done|]. cbn [sforall].
  rewrite andb_true_iff, negb_true_iff. intros [Hc H].
  rewrite !sapp_cons. cbn [cstr]. by rewrite Hc, IH.
Qed.

(** The first character of a printed unsigned number. *)
Lemma unum10_head n : 0 <= n -> exists d s, 0 <= d < 10 /\ unum 10 n = String (digit_char d) s.
Proof.
  intros Hn. destruct (unum_spec 10 n ltac:(lia) Hn) as (Hne & _ & H & _).
  destruct (unum 10 n) as [|c s]; [done|]. cbn [sforall] in H.
  apply andb_true_iff in H as [(d & Hd & ->)%dec_digit_inv _]. eauto.
Qed.

(** Parsing an unsigned decimal number that ends where the digits end. *)
Lemma digits_unum10 n t : 0 <= n -> starts_digit 10 t = false ->
  starts_digit 10 (unum 10 n +:+ t) = true /\ digits 10 0 (unum 10 n +:+ t) = (n, t).
Proof.
  intros Hn Ht. destruct (unum_spec 10 n ltac:(lia) Hn) as (_ & _ & _ & Hval).
  split.
  - destruct (unum10_head n Hn) as (d & s & Hd & ->). rewrite sapp_cons. cbn [starts_digit].
    rewrite digit_val_char by lia. apply Z.ltb_lt. lia.
  - rewrite Hval. replace (0 * 10 ^ slen (unum 10 n) + n) with n by lia.
    destruct t as [|c t]; [done|]. simpl in *. by rewrite Ht.
Qed.

Lemma split_base_10 s : split_base 10 s = (10, s).
Proof. reflexivity. Qed.

(** [strtol] in base 10 inverts [%ld]: value, end pointer and error number. *)
(** A decimal has no white space in front, and splits into its sign and digits. *)
Lemma skip_ws_dec z u : skip_ws (dec z +:+ u) = dec z +:+ u.
Proof.
  unfold dec. destruct (z <? 0) eqn:E; zbool; [done|].
  destruct (unum10_head z ltac:(lia)) as (d & s & Hd & ->).
  rewrite sapp_cons. cbn [skip_ws]. by destruct (digit_char_class d Hd) as (-> & _).
Qed.

Lemma split_sign_dec z u : split_sign (dec z +:+ u) = (z <? 0, unum 10 (Z.abs z) +:+ u).
Proof.
  unfold dec. destruct (z <? 0) eqn:E; zbool.
  - rewrite sapp_cons. cbn. by replace (Z.abs z) with (- z) by lia.
  - replace (Z.abs z) with z by lia.
    destruct (unum10_head z ltac:(lia)) as (d & s & Hd & ->).
    rewrite sapp_cons. cbn [split_sign].
    by destruct (digit_char_class d Hd) as (_ & _ & -> & ->).
Qed.

Lemma strtol_dec z t :
  in_long z -> starts_digit 10 (cstr t) = false ->
  strtol (dec z +:+ t) 10 = (z, cstr t, 0).
Proof.
  intros Hz Ht. unfold strtol. rewrite cstr_app_nonul by apply dec_nonul.
  set (u := cstr t) in *.
  rewrite skip_ws_dec, split_sign_dec.
  destruct (digits_unum10 (Z.abs z) u ltac:(lia) Ht) as [Hsd Hdig].
  rewrite split_base_10, Hsd, Hdig.
  unfold in_long, LONG_MAX, LONG_MIN in *.
  destruct (z <? 0) eqn:E; zbool.
  - replace (- Z.abs z) with z by lia.
    replace (z >? 9223372036854775807) with false by (symmetry; rewrite Z.gtb_ltb; apply Z.ltb_ge; lia).
    by replace (z <? -9223372036854775808) with false by (symmetry; apply Z.ltb_ge; lia).
  - replace (Z.abs z) with z by lia.
    replace (z >? 9223372036854775807) with false by (symmetry; rewrite Z.gtb_ltb; apply Z.ltb_ge; lia).
    by replace (z <? -9223372036854775808) with false by (symmetry; apply Z.ltb_ge; lia).
Qed.

Lemma atoi_dec z t : in_int z -> starts_digit 10 (cstr t) = false -> atoi (dec z +:+ t) = z.
Proof.
  intros Hz Ht. unfold atoi. rewrite strtol_dec; [by apply wrap_s32_id| |done].
  unfold in_int, in_long, INT_MIN, INT_MAX, LONG_MIN, LONG_MAX in *. lia.
Qed.

(** *** Integers in memory *)

Lemma le_value_bytes n z : le_value (le_bytes n z) = z mod 2 ^ (8 * Z.of_nat n).
Proof.
  revert z; induction n as [|n IH]; intros z.
  - cbn. by rewrite Z.mod_1_r.
  - cbn [le_bytes le_value]. rewrite IH, ascii_Z_ascii, Zmod_mod.
    replace (8 * Z.of_nat (S n)) with (8 + 8 * Z.of_nat n) by lia.
    rewrite Z.pow_add_r by lia. change (2 ^ 8) with 256.
    rewrite Z.rem_mul_r by lia. lia.
Qed.

Lemma int_of_bytes_bytes z : in_int z -> int_of_bytes (int_bytes z) = z.
Proof.
  intros H. unfold int_of_bytes, int_bytes. rewrite le_value_bytes.
  change (8 * Z.of_nat 4) with 32. unfold wrap_u32. rewrite Zmod_mod.
  unfold wrap_s32. rewrite Zplus_mod_idemp_l. fold (wrap_s32 z). by apply wrap_s32_id.
Qed.

Lemma slen_int_bytes z : slen (int_bytes z) = 4.
Proof. reflexivity. Qed.

Lemma lor_shl8 b a : 0 <= a < 256 -> Z.lor (Z.shiftl b 8) a = 256 * b + a.
Proof.
  intros Ha. rewrite <- Z.add_nocarry_lor; [rewrite Z.shiftl_mul_pow2 by lia; lia|].
  apply Z.bits_inj'. intros n Hn. rewrite Z.land_spec, Z.bits_0.
  destruct (decide (n < 8)); [by rewrite Z.shiftl_spec_low|].
  destruct (decide (a = 0)) as [->|?]; [by rewrite Z.bits_0, andb_false_r|].
  rewrite (Z.bits_above_log2 a), andb_false_r; [done|lia|].
  eapply Z.lt_le_trans; [apply (Z.log2_lt_pow2 a 8); lia|lia].
Qed.

Lemma htons_arith x : 0 <= x < 65536 -> htons x = 256 * (x mod 256) + x / 256.
Proof.
  intros Hx. unfold htons. change 255 with (Z.ones 8).
  rewrite !Z.land_ones, Z.shiftr_div_pow2 by lia. change (2 ^ 8) with 256.
  pose proof (Z.div_lt_upper_bound x 256 256 ltac:(lia) ltac:(lia)).
  pose proof (Z.div_pos x 256 ltac:(lia) ltac:(lia)).
  rewrite (Z.mod_small (x / 256)) by lia. apply lor_shl8. lia.
Qed.

(** [ntohs] inverts [htons] on 16-bit values. *)
Lemma htons_involutive x : 0 <= x < 65536 -> ntohs (htons x) = x.
Proof.
  intros Hx. unfold ntohs.
  pose proof (Z.mod_pos_bound x 256 ltac:(lia)). pose proof (Z.div_mod x 256 ltac:(lia)).
  pose proof (Z.div_lt_upper_bound x 256 256 ltac:(lia) ltac:(lia)).
  pose proof (Z.div_pos x 256 ltac:(lia) ltac:(lia)).
  rewrite (htons_arith x), htons_arith by lia.
  replace (256 * (x mod 256) + x / 256) with (x / 256 + (x mod 256) * 256) by lia.
  rewrite Z.mod_add, Z.div_add by lia.
  rewrite (Z.mod_small (x / 256)), (Z.div_small (x / 256)) by lia. lia.
Qed.

(** The length of a decimal. *)
Lemma slen_udigits fuel base n acc :
  slen (udigits fuel base n acc) <= Z.of_nat fuel + slen acc.
Proof.
  revert n acc. induction fuel as [|fuel IH]; intros n acc; cbn [udigits]; [lia|].
  case_match; [rewrite slen_cons; lia|].
  etrans; [apply IH|]. rewrite slen_cons. lia.
Qed.

Lemma slen_dec z : in_long z -> slen (dec z) <= 65.
Proof.
  unfold in_long, LONG_MIN, LONG_MAX. intros Hz. unfold dec, unum.
  assert (Hl : forall n, 0 <= n <= 2 ^ 63 -> Z.of_nat (S (Z.to_nat (Z.log2 n))) <= 64).
  { intros n Hn. pose proof (Z.log2_le_mono n (2 ^ 63)) as H.
    rewrite Z.log2_pow2 in H by lia. pose proof (Z.log2_nonneg n). lia. }
  case_if; rewrite ?slen_cons;
    match goal with |- context [udigits (S (Z.to_nat (Z.log2 ?n))) 10 ?n ?a] =>
      pose proof (slen_udigits (S (Z.to_nat (Z.log2 n))) 10 n a);
      specialize (Hl n ltac:(lia)) end; rewrite ?slen_nil in *; lia.
Qed.

(** [sscanf] reads a decimal back. *)
Lemma scan_number_dec z t : in_long z -> starts_digit 10 t = false -> nonul t = true ->
  scan_number (dec z +:+ t) = Some (z, t).
Proof.
  intros Hz Ht Hn. unfold scan_number. rewrite skip_ws_dec, split_sign_dec.
  destruct (digits_unum10 (Z.abs z) t ltac:(lia) Ht) as [-> _].
  rewrite strtol_dec; rewrite ?cstr_nonul; done.
Qed.

(** A number below [10 ^ k] has at most [k] digits. *)
Lemma slen_udigits_10 k fuel n acc : 0 <= n < 10 ^ Z.of_nat (S k) ->
  slen (udigits fuel 10 n acc) <= Z.of_nat (S k) + slen acc.
Proof.
  revert k n acc. induction fuel as [|fuel IH]; intros k n acc Hn; cbn [udigits]; [lia|].
  destruct (n / 10 =? 0) eqn:E; [rewrite slen_cons; lia|]. zbool.
  destruct k as [|k].
  { destruct E. apply Z.div_small. change (10 ^ Z.of_nat 1) with 10 in Hn. lia. }
  etrans; [apply (IH k)|rewrite slen_cons; lia].
  split; [apply Z.div_pos; lia|]. apply Z.div_lt_upper_bound; [lia|].
  rewrite (Nat2Z.inj_succ (S k)), Z.pow_succ_r in Hn by lia. lia.
Qed.

Lemma slen_dec_int z : in_int z -> slen (dec z) <= 11.
Proof.
  unfold in_int, INT_MIN, INT_MAX. intros Hz. unfold dec, unum.
  case_if; rewrite ?slen_cons;
    match goal with |- context [udigits ?f 10 ?n ?a] =>
      pose proof (slen_udigits_10 9 f n a) as H end;
    change (10 ^ Z.of_nat 10) with 10000000000 in H; change (slen "") with 0 in H; lia.
Qed.

Lemma cstr_app_nul s t : cstr (s +:+ String nul t) = cstr s.
Proof.
  induction s as [|c s IH]; [done|].
  rewrite sapp_cons. cbn [cstr]. destruct (ceqb c nul); [done|]. by f_equal.
Qed.

Lemma atoi_cstr s : atoi (cstr s) = atoi s.
Proof. unfold atoi, strtol. by rewrite cstr_idem. Qed.
