(* ===== verification/Sys.v ===== *)
(** * Sys: the process model

    A program is a computation [M A] over a [world]: the answers the operating
    system will give, in order ([script]), the events so far ([log], newest
    first) and [errno].  A system or library call whose result is not computed
    by code of the repository takes the next answer from the script; nothing is
    assumed of an answer except where a theorem says so.  [exit], [_exit],
    [abort] and a successful [exec] end the process ([Halt]); a call for which
    no answer is left has not returned ([Blocked]). *)

From S2P Require Import Prelude Clib.

(** ** Structures passed to and from the calls *)

Inductive sockaddr :=
  | SaNull
  | SaUnix (sun_family : Z) (sun_path : string)
  | SaInet6 (sin6_family sin6_port : Z) (sin6_addr : string)
  | SaOther (bytes : string).

Record addrinfo := AddrInfo {
  ai_family : Z; ai_socktype : Z; ai_protocol : Z; ai_addr : sockaddr; ai_addrlen : Z }.

(** Entries of the host and service databases. *)
Record hostent := Hostent {
  h_name : string; h_aliases : list string; h_addrtype : Z; h_addr_list : list string }.
Record servent := Servent {
  s_name : string; s_aliases : list string; s_port : Z; s_proto : string }.

(** The [hints] argument of [getaddrinfo]. *)
Record hints := Hints { h_family : Z; h_socktype : Z; h_flags : Z }.

Record flock := Flock {
  l_type : Z; l_whence : Z; l_start : Z; l_len : Z; l_pid : Z }.

Record termios := Termios {
  c_iflag : Z; c_oflag : Z; c_cflag : Z; c_lflag : Z; c_cc : list Z }.

Record timespec := Timespec { tv_sec : Z; tv_nsec : Z }.
Record itimerspec := Itimerspec { it_interval : timespec; it_value : timespec }.

Record mq_attr := MqAttr { mq_flags : Z; mq_maxmsg : Z; mq_msgsize : Z; mq_curmsgs : Z }.

(** One [select] or [poll] descriptor, one [epoll] event. *)
Record pollfd := Pollfd { p_fd : Z; p_events : Z; p_revents : Z }.
Record epoll_event := EpollEvent { ev_events : Z; ev_fd : Z }.

(** What [recvmsg]/[sendmsg] transfer: the data and the ancillary items, each
    with its level, type and contents (descriptors or credentials). *)
Record cmsg := Cmsg { cmsg_level : Z; cmsg_type : Z; cmsg_len : Z; cmsg_vals : list Z }.

Inductive stream := Stdin | Stdout | Stderr | OtherStream (fd : Z).

#[export] Instance stream_eq_dec : EqDecision stream.
Proof. solve_decision. Defined.

(** ** The calls *)

Inductive call :=
  (* files *)
  | Open (path : string) (flags mode : Z)
  | Close (fd : Z)
  | Read (fd n : Z)
  | Write (fd : Z) (data : string)
  | Readv (fd : Z) (lens : list Z)
  | Lseek (fd offset whence : Z)
  | Ftruncate (fd len : Z)
  | Dup2 (oldfd newfd : Z)
  | FcntlInt (fd cmd arg : Z)
  | FcntlLock (fd cmd : Z) (fl : flock)
  | Flock_ (fd op : Z)
  | Fstat (fd : Z)
  | Lstat (path : string)
  | Stat (path : string)
  | Unlink (path : string)
  | Remove (path : string)
  | Readlink (path : string) (n : Z)
  | Realpath (path : string)
  | Mkfifo (path : string) (mode : Z)
  | Pipe
  | Umask (mask : Z)
  | Chdir (path : string)
  | Opendir (path : string)
  | Readdir (dir : Z)
  | Closedir (dir : Z)
  | Fsync (fd : Z)
  (* processes *)
  | Fork
  | Vfork
  | Wait
  | Waitpid (pid options : Z)
  | Exec (path : string) (argv : list string) (envp : option (list string))
  | Execp (file : string) (argv : list string)
  | Getpid | Getppid | Gettid | Getpgrp | Getsid (pid : Z)
  | Setsid | Setpgid (pid pgid : Z) | Tcgetpgrp (fd : Z) | Tcsetpgrp (fd pgid : Z)
  | Kill (pid sig : Z)
  | Getenv (name : string)
  | Setenv (name value : string) (overwrite : Z)
  | Putenv (s : string)
  | Unsetenv (name : string)
  | Clearenv
  | Sysconf (name : Z)
  | System (cmd : string)
  | Popen (cmd mode : string)
  | Pclose (fp : Z)
  | Uname
  (* signals and time *)
  | Signal (sig handler : Z)
  | Sigaction (sig handler flags : Z) (mask : list Z)
  | SigactionGet (sig : Z)
  | Sigprocmask (how : Z) (set : option (list Z))
  | Sigpending
  | Sigismember (set : list Z) (sig : Z)
  | Sigsuspend (mask : list Z)
  | Pause
  | Raise (sig : Z)
  | Alarm (secs : Z)
  | Sigqueue (pid sig data : Z)
  | Sleep (secs : Z)
  | Nanosleep (req : timespec)
  | Setitimer (which : Z) (interval value : Z * Z)
  | Getitimer (which : Z)
  | Gettimeofday
  | Time
  | Clock
  | Times
  | Localtime (t : Z)
  | Strftime (max : Z) (format : string) (tm : list Z)
  | Strsignal (sig : Z)
  | Strerror (err : Z)
  (* terminals *)
  | Tcgetattr (fd : Z)
  | Tcsetattr (fd actions : Z) (t : termios)
  | Ioctl (fd request : Z) (arg : list Z)
  | PosixOpenpt (flags : Z)
  | Grantpt (fd : Z)
  | Unlockpt (fd : Z)
  | Ptsname (fd : Z)
  | Isatty (fd : Z)
  | Ttyname (fd : Z)
  (* stdio input, memory *)
  | Fgets (n : Z) (st : stream)
  | Fopen (path mode : string)
  | Fclose (fp : Z)
  | Getchar
  | Malloc (n : Z)
  | Free (p : Z)
  | Sbrk (incr : Z)
  | Mmap (len prot flags fd off : Z)
  | Munmap (addr len : Z)
  | Mprotect (addr len prot : Z)
  | Mlock (addr len : Z)
  | Mincore (addr len : Z)
  | ReadMem (addr len : Z)
  | WriteMem (addr : Z) (data : string)
  (* sockets *)
  | Socket (family type proto : Z)
  | Socketpair (family type proto : Z)
  | Bind (fd : Z) (a : sockaddr) (len : Z)
  | Connect (fd : Z) (a : sockaddr) (len : Z)
  | Listen (fd backlog : Z)
  | Accept (fd : Z)
  | Shutdown (fd how : Z)
  | Setsockopt (fd level opt : Z) (val : option Z)
  | Getsockname (fd len : Z)
  | Getpeername (fd len : Z)
  | Getsockopt (fd level opt : Z)
  | Sendto (fd : Z) (data : string) (to : sockaddr) (len : Z)
  | Recvfrom (fd n : Z)
  | Sendmsg (fd : Z) (to : sockaddr) (data : string) (ctl : list cmsg)
  | Recvmsg (fd n ctllen : Z)
  | Getaddrinfo (host : option string) (service : string) (h : hints)
  | Freeaddrinfo
  | Getnameinfo (a : sockaddr) (len hostlen servlen flags : Z)
  | InetPton (family : Z) (s : string)
  | InetNtop (family : Z) (a : string)
  | Gethostbyname (name : string)
  | Getservbyname (name : string) (proto : option string)
  | Syslog (prio : Z) (msg : string)
  (* descriptor polling *)
  | Select (nfds : Z) (rd wr : list Z) (timeout : option (Z * Z))
  | Poll (fds : list pollfd) (timeout : Z)
  | EpollCreate (size : Z)
  | EpollCtl (epfd op fd : Z) (ev : epoll_event)
  | EpollWait (epfd maxev timeout : Z)
  (* message queues, semaphores, shared memory *)
  | MqOpen (name : string) (flags mode : Z) (attr : option mq_attr)
  | MqGetattr (mqd : Z)
  | MqReceive (mqd n : Z)
  | MqSend (mqd : Z) (data : string) (prio : Z)
  | MqUnlink (name : string)
  | MqNotify (mqd notify : Z) (arg : Z)
  | SemOpen (name : string) (flags mode value : Z)
  | SemInit (pshared value : Z)
  | SemWait (sem : Z)
  | SemPost (sem : Z)
  | SemGetvalue (sem : Z)
  | SemUnlink (name : string)
  | SemDestroy (sem : Z)
  | ShmOpen (name : string) (flags mode : Z)
  | ShmUnlink (name : string)
  (* threads *)
  | PthreadCreate (start : Z) (arg : Z)
  | PthreadJoin (tid : Z)
  | PthreadCancel (tid : Z)
  | PthreadSelf
  | MutexLock (m : Z)
  | MutexUnlock (m : Z)
  | CondSignal (c : Z)
  | CondWait (c m : Z)
  (* other library entries, by name *)
  | Lib (name : string) (sargs : list string) (args : list Z).

(** ** Answers *)

Inductive payload :=
  | NoPay
  | Vals (l : list Z)
  | Strs (l : list string)
  | Addrs (l : list addrinfo)
  | Addr (a : sockaddr) (len : Z)
  | TermiosP (t : termios)
  | FlockP (f : flock)
  | Attr (a : mq_attr)
  | Polls (l : list pollfd)
  | Epolls (l : list epoll_event)
  | Cmsgs (l : list cmsg)
  | HostentP (h : hostent)
  | ServentP (s : servent)
  | Fdsets (rd wr : list Z) (left : Z * Z).

(** [r_ret] is the return value, [r_err] the value stored in [errno] (0: left
    alone), [r_buf] the bytes stored through a pointer argument, [r_pay] a
    structured result. *)
Record resp := Resp { r_ret : Z; r_err : Z; r_buf : string; r_pay : payload }.

Definition ok (n : Z) : resp := Resp n 0 EmptyString NoPay.
Definition err (e : Z) : resp := Resp (-1) e EmptyString NoPay.
Definition got (s : string) : resp := Resp (slen s) 0 s NoPay.

Definition r_vals (r : resp) : list Z := match r_pay r with Vals l => l | _ => [] end.
Definition r_strs (r : resp) : list string := match r_pay r with Strs l => l | _ => [] end.
Definition r_addrs (r : resp) : list addrinfo := match r_pay r with Addrs l => l | _ => [] end.
Definition r_addr (r : resp) : sockaddr := match r_pay r with Addr a _ => a | _ => SaNull end.
Definition r_addrlen (r : resp) : Z := match r_pay r with Addr _ n => n | _ => 0 end.
Definition r_termios (r : resp) : termios :=
  match r_pay r with TermiosP t => t | _ => Termios 0 0 0 0 [] end.
Definition r_flock (r : resp) : flock :=
  match r_pay r with FlockP f => f | _ => Flock 0 0 0 0 0 end.
Definition r_attr (r : resp) : mq_attr := match r_pay r with Attr a => a | _ => MqAttr 0 0 0 0 end.
Definition r_polls (r : resp) : list pollfd := match r_pay r with Polls l => l | _ => [] end.
Definition r_epolls (r : resp) : list epoll_event := match r_pay r with Epolls l => l | _ => [] end.
Definition r_cmsgs (r : resp) : list cmsg := match r_pay r with Cmsgs l => l | _ => [] end.
Definition r_hostent (r : resp) : hostent :=
  match r_pay r with HostentP h => h | _ => Hostent EmptyString [] 0 [] end.
Definition r_servent (r : resp) : servent :=
  match r_pay r with ServentP s => s | _ => Servent EmptyString [] 0 EmptyString end.
(** The descriptor sets and the time left that [select] stores. *)
Definition r_rdset (r : resp) : list Z := match r_pay r with Fdsets a _ _ => a | _ => [] end.
Definition r_wrset (r : resp) : list Z := match r_pay r with Fdsets _ b _ => b | _ => [] end.
Definition r_left (r : resp) : Z * Z := match r_pay r with Fdsets _ _ t => t | _ => (0, 0) end.
(** The [i]-th integer of the answer. *)
Definition r_val (i : nat) (r : resp) : Z := nth i (r_vals r) 0.

(** ** Worlds, events and computations *)

Inductive event :=
  | Called (c : call) (r : resp)
  | Printed (st : stream) (s : string)
  | Flushed (st : stream).

Record world := World { script : list resp; log : list event; errno : Z }.

Inductive halt :=
  | Exit (status : Z)          (* exit(3): handlers run, stdio flushed *)
  | QuickExit (status : Z)     (* _exit(2) *)
  | Abort
  | Replaced (c : call).       (* a successful exec *)

Inductive outcome (A : Type) :=
  | Ret (a : A)
  | Halt (h : halt)
  | Blocked (c : call)
  | Diverged.
Arguments Ret {A} a.
Arguments Halt {A} h.
Arguments Blocked {A} c.
Arguments Diverged {A}.

Definition M (A : Type) : Type := world -> outcome A * world.

#[export] Instance M_ret : MRet M := fun A a w => (Ret a, w).
#[export] Instance M_bind : MBind M := fun A B f m w =>
  match m w with
  | (Ret a, w') => f a w'
  | (Halt h, w') => (Halt h, w')
  | (Blocked c, w') => (Blocked c, w')
  | (Diverged, w') => (Diverged, w')
  end.

(** One call: the next answer, recorded; [errno] follows the answer. *)
Definition sys (c : call) : M resp := fun w =>
  match script w with
  | [] => (Blocked c, w)
  | r :: rs =>
      (Ret r, World rs (Called c r :: log w) (if r_err r =? 0 then errno w else r_err r))
  end.

(** The common case of a call of which only the return value is used. *)
Definition scall (c : call) : M Z := r ← sys c; mret (r_ret r).

Definition emit (e : event) : M unit := fun w => (Ret tt, World (script w) (e :: log w) (errno w)).
Definition fputs (st : stream) (s : string) : M unit := emit (Printed st s).
Definition printf (s : string) : M unit := fputs Stdout s.
Definition fflush (st : stream) : M unit := emit (Flushed st).
Definition get_errno : M Z := fun w => (Ret (errno w), w).
Definition set_errno (e : Z) : M unit := fun w => (Ret tt, World (script w) (log w) e).
Definition halt_ {A} (h : halt) : M A := fun w => (Halt h, w).
Definition exit {A} (status : Z) : M A := halt_ (Exit status).
Definition quick_exit {A} (status : Z) : M A := halt_ (QuickExit status).

Definition EXIT_SUCCESS : Z := 0.
Definition EXIT_FAILURE : Z := 1.

(** [atexit(h)]: from here on [h] runs when [m] calls [exit] (also inside the
    functions [m] calls); [_exit], a fatal signal and [exec] skip it. *)
Definition with_atexit {A} (h : M unit) (m : M A) : M A := fun w =>
  match m w with
  | (Halt (Exit n), w') =>
      match h w' with
      | (Ret _, w'') => (Halt (Exit n), w'')
      | (Halt k, w'') => (Halt k, w'')
      | (Blocked c, w'') => (Blocked c, w'')
      | (Diverged, w'') => (Diverged, w'')
      end
  | ow => ow
  end.

(** [exec] returns only when it fails. *)
Definition exec (c : call) : M Z :=
  r ← sys c; if r_ret r =? -1 then mret (-1) else halt_ (Replaced c).

(** Do nothing unless the test holds. *)
Definition when (b : bool) (m : M unit) : M unit := if b then m else mret tt.

(** ** Loops

    [loop body s] runs [body] from state [s] until it returns [inr].  Each
    iteration of a C loop modelled this way makes at least one call, so the
    number of answers left bounds the number of iterations ([loop_unfold]
    below: the bound is never the reason the loop stops). *)
Fixpoint loop_fuel {S A} (fuel : nat) (body : S -> M (S + A)) (s : S) : M A :=
  match fuel with
  | O => fun w => (Diverged, w)
  | Datatypes.S n => x ← body s; match x with inl s' => loop_fuel n body s' | inr a => mret a end
  end.

Definition loop {S A} (body : S -> M (S + A)) (s : S) : M A :=
  fun w => loop_fuel (Datatypes.S (length (script w))) body s w.

(** [for (;;)] without a loop-carried value; [body] leaves it by ending the process. *)
Definition forever {A} (body : M unit) : M A :=
  loop (fun _ : unit => _ ← body; mret (inl tt)) tt.

(** A [for] loop over a list: each element in turn, with a carried value. *)
Fixpoint fold_m {X S} (f : S -> X -> M S) (s : S) (l : list X) : M S :=
  match l with
  | [] => mret s
  | x :: l => s' ← f s x; fold_m f s' l
  end.
Definition for_each {X} (f : X -> M unit) (l : list X) : M unit :=
  fold_m (fun _ x => f x) tt l.

(** Run from the start of a process: the outcome and the events, oldest first. *)
Definition start (sc : list resp) : world := World sc [] 0.
Definition run {A} (m : M A) (sc : list resp) : outcome A * list event :=
  let '(o, w) := m (start sc) in (o, rev (log w)).

(** ** Running computations *)

Lemma bind_Ret {A B} (m : M A) (f : A -> M B) w a w' :
  m w = (Ret a, w') -> (m ≫= f) w = f a w'.
Proof. unfold mbind, M_bind. by intros ->. Qed.

Lemma bind_assoc {A B C} (m : M A) (f : A -> M B) (g : B -> M C) w :
  ((m ≫= f) ≫= g) w = (m ≫= fun a => f a ≫= g) w.
Proof. unfold mbind, M_bind. by destruct (m w) as [[]]. Qed.

Lemma sys_nil c l e : sys c (World [] l e) = (Blocked c, World [] l e).
Proof. reflexivity. Qed.

Lemma sys_cons c r rs l e :
  sys c (World (r :: rs) l e)
  = (Ret r, World rs (Called c r :: l) (if r_err r =? 0 then e else r_err r)).
Proof. reflexivity. Qed.

(** ** Traces

    [Emits P m]: every event [m] produces satisfies [P], and the calls among
    them took the answers of the script in order, one each. *)

Fixpoint answers (es : list event) : list resp :=
  match es with
  | [] => []
  | Called _ r :: es => r :: answers es
  | _ :: es => answers es
  end.

Lemma answers_app es fs : answers (es ++ fs) = answers es ++ answers fs.
Proof. induction es as [|[]]; simpl; [done|by f_equal|done|done]. Qed.

Class Emits (P : event -> Prop) {A} (m : M A) :=
  emits w : exists es,
    log (snd (m w)) = rev es ++ log w
    /\ script w = answers es ++ script (snd (m w))
    /\ Forall P es.

(** Every computation built from the operations above is [Sane]. *)
Abbreviation Sane := (Emits (fun _ => True)).

Section EmitsRules.
Context (P : event -> Prop).

#[export] Instance emits_ret {A} (a : A) : Emits P (mret a).
Proof. intros w. exists []. by repeat constructor. Qed.

#[export] Instance emits_bind {A B} (m : M A) (f : A -> M B) :
Emits P m -> (forall a, Emits P (f a)) -> Emits P (m ≫= f).
Proof.
intros Hm Hf w. destruct (Hm w) as (es & Hl & Hs & HP).
unfold mbind, M_bind. destruct (m w) as [o w'] eqn:E. simpl in *.
destruct o; simpl; try (by exists es).
destruct (Hf a w') as (fs & Hl' & Hs' & HP').
exists (es ++ fs). rewrite rev_app_distr, <- app_assoc, Hl', Hl.
rewrite answers_app, <- app_assoc, <- Hs'.
split_and!; [done|done|]. by apply Forall_app.
Qed.

Lemma emits_sys_pred c : (forall r, P (Called c r)) -> Emits P (sys c).
Proof.
intros HP [[|r rs] l e]; [exists []|exists [Called c r]]; by repeat constructor.
Qed.

Lemma emits_emit_pred e : answers [e] = [] -> P e -> Emits P (emit e).
Proof. intros He HP w. exists [e]. rewrite He. by repeat constructor. Qed.

#[export] Instance emits_get_errno : Emits P get_errno.
Proof. intros w. exists []. by repeat constructor. Qed.
#[export] Instance emits_set_errno e : Emits P (set_errno e).
Proof. intros w. exists []. by repeat constructor. Qed.
#[export] Instance emits_halt {A} h : Emits P (halt_ (A:=A) h).
Proof. intros w. exists []. by repeat constructor. Qed.

#[export] Instance emits_if {A} (b : bool) (m n : M A) :
Emits P m -> Emits P n -> Emits P (if b then m else n).
Proof. by destruct b. Qed.
#[export] Instance emits_when (b : bool) m : Emits P m -> Emits P (when b m).
Proof. intros ?. unfold when. apply _. Qed.

#[export] Instance emits_with_atexit {A} (h : M unit) (m : M A) :
Emits P m -> Emits P h -> Emits P (with_atexit h m).
Proof.
intros Hm Hh w. destruct (Hm w) as (es & Hl & Hs & HP). unfold with_atexit.
destruct (m w) as [[a|[n|n| |c]|c|] w']; simpl in *; try (by exists es).
destruct (Hh w') as (fs & Hl' & Hs' & HP').
destruct (h w') as [o w'']; simpl in *.
exists (es ++ fs). rewrite rev_app_distr, <- app_assoc, answers_app, <- app_assoc.
destruct o; simpl; rewrite ?Hl', Hl, <- Hs'; (split_and!; [done|done|]; by apply Forall_app).
Qed.

#[export] Instance emits_fold_m {X S} (f : S -> X -> M S) s l :
(forall s x, Emits P (f s x)) -> Emits P (fold_m f s l).
Proof. intros Hf. revert s. induction l as [|x l IH]; intros s; simpl; apply _. Qed.
#[export] Instance emits_for_each {X} (f : X -> M unit) l :
(forall x, Emits P (f x)) -> Emits P (for_each f l).
Proof. intros Hf. apply _. Qed.

#[export] Instance emits_loop_fuel {S A} n (body : S -> M (S + A)) s :
(forall s, Emits P (body s)) -> Emits P (loop_fuel n body s).
Proof.
intros Hb. revert s. induction n as [|n IH]; intros s; simpl.
- intros w. exists []. by repeat constructor.
- apply emits_bind; [done|]. intros []; apply _.
Qed.
#[export] Instance emits_loop {S A} (body : S -> M (S + A)) s :
(forall s, Emits P (body s)) -> Emits P (loop body s).
Proof. intros Hb w. apply (emits_loop_fuel _ body s Hb w). Qed.
#[export] Instance emits_forever {A} (body : M unit) : Emits P body -> Emits P (forever (A:=A) body).
Proof. intros Hb. apply emits_loop. intros []; apply _. Qed.
End EmitsRules.

(** Sanity needs no condition on the events. *)
#[export] Instance sane_sys c : Sane (sys c).
Proof. by apply emits_sys_pred. Qed.
#[export] Instance sane_fputs st s : Sane (fputs st s).
Proof. by apply emits_emit_pred. Qed.
#[export] Instance sane_fflush st : Sane (fflush st).
Proof. by apply emits_emit_pred. Qed.

#[export] Instance sane_scall c : Sane (scall c).
Proof. unfold scall. apply _. Qed.
#[export] Instance sane_printf s : Sane (printf s).
Proof. unfold printf. apply _. Qed.
#[export] Instance sane_exit {A} n : Sane (exit (A:=A) n).
Proof. unfold exit. apply _. Qed.
#[export] Instance sane_quick_exit {A} n : Sane (quick_exit (A:=A) n).
Proof. unfold quick_exit. apply _. Qed.
#[export] Instance sane_exec c : Sane (exec c).
Proof. unfold exec. apply _. Qed.

(** Splitting the matches of a program while looking for an [Emits] proof. *)
#[export] Hint Extern 5 (Emits _ (match ?x with _ => _ end)) => destruct x : typeclass_instances.

(** For another condition on events, decide it at each event. *)
Lemma emits_scall_pred P c : (forall r, P (Called c r)) -> Emits P (scall c).
Proof. intros H. unfold scall. apply emits_bind; [by apply emits_sys_pred|apply _]. Qed.
Lemma emits_exec_pred P c : (forall r, P (Called c r)) -> Emits P (exec c).
Proof. intros H. unfold exec. apply emits_bind; [by apply emits_sys_pred|apply _]. Qed.
Lemma emits_fputs_pred P st s : P (Printed st s) -> Emits P (fputs st s).
Proof. by apply emits_emit_pred. Qed.
Lemma emits_fflush_pred P st : P (Flushed st) -> Emits P (fflush st).
Proof. by apply emits_emit_pred. Qed.

Ltac emits_leaf := intros; simpl; first [exact I | done | congruence | tauto].
#[export] Hint Extern 8 (Emits _ (sys _)) => (apply emits_sys_pred; emits_leaf) : typeclass_instances.
#[export] Hint Extern 8 (Emits _ (scall _)) => (apply emits_scall_pred; emits_leaf) : typeclass_instances.
#[export] Hint Extern 8 (Emits _ (exec _)) => (apply emits_exec_pred; emits_leaf) : typeclass_instances.
#[export] Hint Extern 8 (Emits _ (fputs _ _)) => (apply emits_fputs_pred; emits_leaf) : typeclass_instances.
#[export] Hint Extern 8 (Emits _ (printf _)) => (apply emits_fputs_pred; emits_leaf) : typeclass_instances.
#[export] Hint Extern 8 (Emits _ (fflush _)) => (apply emits_fflush_pred; emits_leaf) : typeclass_instances.
#[export] Hint Extern 8 (Emits _ (exit _)) => (apply emits_halt) : typeclass_instances.
#[export] Hint Extern 8 (Emits _ (quick_exit _)) => (apply emits_halt) : typeclass_instances.

(** ** The fuel of a loop is enough *)

Lemma sane_script {A} (m : M A) `{!Sane m} w :
  (length (script (snd (m w))) <= length (script w))%nat.
Proof. destruct (emits (P:=fun _ => True) (m:=m) w) as (es & _ & -> & _). rewrite length_app. lia. Qed.

(** [Progress m]: when [m] asks for another iteration it has used an answer.
    [Uses m]: whenever [m] returns it has used one. *)
Class Progress {S A} (m : M (S + A)) : Prop :=
  progress w s w' : m w = (Ret (inl s), w') -> (length (script w') < length (script w))%nat.
Class Uses {A} (m : M A) : Prop :=
  uses w a w' : m w = (Ret a, w') -> (length (script w') < length (script w))%nat.

Lemma loop_fuel_enough {S A} (body : S -> M (S + A)) n n' s w :
  (forall s, Progress (body s)) ->
  (length (script w) < n)%nat -> (length (script w) < n')%nat ->
  loop_fuel n body s w = loop_fuel n' body s w.
Proof.
  intros Hp. revert n' s w. induction n as [|n IH]; intros [|n'] s w H H'; try lia.
  cbn [loop_fuel]. unfold mbind, M_bind.
  destruct (body s w) as [[[s'|a]| | |] w'] eqn:E; try done.
  pose proof (Hp s w s' w' E). apply IH; lia.
Qed.

(** One iteration of a loop: the fuel never shows. *)
Lemma loop_unfold {S A} (body : S -> M (S + A)) s w :
  (forall s, Progress (body s)) ->
  loop body s w
  = (x ← body s; match x with inl s' => loop body s' | inr a => mret a end) w.
Proof.
  intros Hp. unfold loop at 1. cbn [loop_fuel]. unfold mbind, M_bind.
  destruct (body s w) as [[[s'|a]| | |] w'] eqn:E; try done.
  pose proof (Hp s w s' w' E). unfold loop. apply loop_fuel_enough; [done|lia|lia].
Qed.

(** A loop that makes progress ends, stops the process, or waits for an answer. *)
Lemma loop_fuel_terminates {S A} (body : S -> M (S + A)) n s w :
  (forall s, Progress (body s)) -> (forall s w, fst (body s w) <> Diverged) ->
  (length (script w) < n)%nat -> fst (loop_fuel n body s w) <> Diverged.
Proof.
  intros Hp Hd. revert s w. induction n as [|n IH]; intros s w H; [lia|].
  cbn [loop_fuel]. unfold mbind, M_bind. specialize (Hd s w).
  destruct (body s w) as [[[s'|a]| | |] w'] eqn:E; try done.
  pose proof (Hp s w s' w' E). apply IH; lia.
Qed.

Lemma loop_terminates {S A} (body : S -> M (S + A)) s w :
  (forall s, Progress (body s)) -> (forall s w, fst (body s w) <> Diverged) ->
  fst (loop body s w) <> Diverged.
Proof. intros Hp Hd. apply loop_fuel_terminates; [done|done|lia]. Qed.

#[export] Instance uses_sys c : Uses (sys c).
Proof. intros [[|r rs] l e] a w' E; [done|]. inversion E; subst. simpl. lia. Qed.
Lemma uses_bind_l {A B} (m : M A) (f : A -> M B) :
  Uses m -> (forall a, Sane (f a)) -> Uses (m ≫= f).
Proof.
  intros Hm Hf w b w' E. unfold mbind, M_bind in E.
  destruct (m w) as [[a| | |] w1] eqn:E1; try done.
  pose proof (Hm w a w1 E1). pose proof (sane_script (f a) w1) as Hs.
  rewrite E in Hs. simpl in Hs. lia.
Qed.
Lemma uses_bind_r {A B} (m : M A) (f : A -> M B) :
  Sane m -> (forall a, Uses (f a)) -> Uses (m ≫= f).
Proof.
  intros Hm Hf w b w' E. unfold mbind, M_bind in E.
  pose proof (sane_script m w) as Hs.
  destruct (m w) as [[a| | |] w1] eqn:E1; try done.
  pose proof (Hf a w1 b w' E). simpl in Hs. lia.
Qed.
#[export] Instance uses_scall c : Uses (scall c).
Proof. apply uses_bind_l; apply _. Qed.
#[export] Instance uses_exec c : Uses (exec c).
Proof. apply uses_bind_l; apply _. Qed.
#[export] Instance uses_halt {A} h : Uses (halt_ (A:=A) h).
Proof. by intros w a w' E. Qed.
#[export] Instance uses_exit {A} n : Uses (exit (A:=A) n).
Proof. apply uses_halt. Qed.
#[export] Instance uses_quick_exit {A} n : Uses (quick_exit (A:=A) n).
Proof. apply uses_halt. Qed.
#[export] Instance uses_if {A} (b : bool) (m n : M A) : Uses m -> Uses n -> Uses (if b then m else n).
Proof. by destruct b. Qed.
#[export] Hint Extern 6 (Uses (mbind _ _)) =>
  (first [ apply uses_bind_l; [apply _|intros; apply _] | apply uses_bind_r; [apply _|intros; apply _]])
  : typeclass_instances.
#[export] Hint Extern 5 (Uses (match ?x with _ => _ end)) => destruct x : typeclass_instances.

Lemma progress_uses {S A} (m : M (S + A)) : Uses m -> Progress m.
Proof. intros Hm w s w' E. by eapply Hm. Qed.
#[export] Instance progress_inr {S A} (a : A) : Progress (S:=S) (mret (inr a)).
Proof. by intros w s w' E. Qed.
#[export] Instance progress_halt {S A} h : Progress (halt_ (A:=S + A) h).
Proof. by intros w a w' E. Qed.
#[export] Instance progress_if {S A} (b : bool) (m n : M (S + A)) :
  Progress m -> Progress n -> Progress (if b then m else n).
Proof. by destruct b. Qed.
Lemma progress_bind_l {S A B} (m : M B) (f : B -> M (S + A)) :
  Uses m -> (forall a, Sane (f a)) -> Progress (m ≫= f).
Proof. intros. apply progress_uses, uses_bind_l; done. Qed.
Lemma progress_bind_r {S A B} (m : M B) (f : B -> M (S + A)) :
  Sane m -> (forall b, Progress (f b)) -> Progress (b ← m; f b).
Proof.
  intros Hm Hf w s w' E. pose proof (sane_script m w) as Hs.
  unfold mbind, M_bind in E. destruct (m w) as [[b| | |] w1]; try done.
  pose proof (Hf b w1 s w' E). simpl in Hs. lia.
Qed.
#[export] Hint Extern 6 (Progress (mbind _ _)) =>
  (first [ apply progress_bind_l; [apply _|intros; apply _]
         | apply progress_bind_r; [apply _|intros; apply _]]) : typeclass_instances.
#[export] Hint Extern 5 (Progress (match ?x with _ => _ end)) => destruct x : typeclass_instances.

(** ** Specifications under a law

    [law c r] says that [r] is a documented answer to [c].  [spec law m w Q]:
    run from [w], if every answer [m] received is lawful then [Q] holds of the
    outcome, the events [m] added and the final world. *)

Definition lawful (law : call -> resp -> Prop) (e : event) : Prop :=
  match e with Called c r => law c r | _ => True end.

Definition spec (law : call -> resp -> Prop) {A} (m : M A) (w : world)
    (Q : outcome A -> list event -> world -> Prop) : Prop :=
  let '(o, w') := m w in
  forall es, log w' = rev es ++ log w -> Forall (lawful law) es -> Q o es w'.

(** What went to a stream, and the calls made, in order. *)
Fixpoint printed (st : stream) (es : list event) : string :=
  match es with
  | [] => EmptyString
  | Printed st' s :: es => if decide (st = st') then s +:+ printed st es else printed st es
  | _ :: es => printed st es
  end.
Fixpoint calls (es : list event) : list call :=
  match es with
  | [] => []
  | Called c _ :: es => c :: calls es
  | _ :: es => calls es
  end.

(** No assumption on the answers. *)
Definition any_answer : call -> resp -> Prop := fun _ _ => True.

(** An outcome that is not a return, at another type. *)
Definition pass {A B} (o : outcome A) : outcome B :=
  match o with Ret _ | Diverged => Diverged | Halt h => Halt h | Blocked c => Blocked c end.

(** [errno] after an answer. *)
Definition errno_after (e : Z) (r : resp) : Z := if r_err r =? 0 then e else r_err r.

Lemma log_same (l es : list event) : l = rev es ++ l -> es = [].
Proof.
  intros H. apply (f_equal length) in H. rewrite length_app, length_rev in H.
  destruct es; simpl in *; [done|lia].
Qed.

Lemma log_one (l es : list event) e : e :: l = rev es ++ l -> es = [e].
Proof.
  intros H. change (e :: l) with ([e] ++ l) in H. apply app_inv_tail in H.
  apply (f_equal (@rev event)) in H. by rewrite rev_involutive in H.
Qed.

Section SpecRules.
Context (law : call -> resp -> Prop).

Lemma spec_ret {A} (a : A) w (Q : outcome A -> list event -> world -> Prop) :
Q (Ret a) [] w -> spec law (mret a) w Q.
Proof. intros H es ->%log_same _. done. Qed.

Lemma spec_halt {A} h w (Q : outcome A -> list event -> world -> Prop) :
Q (Halt h) [] w -> spec law (halt_ h) w Q.
Proof. intros H es ->%log_same _. done. Qed.

Lemma spec_get_errno w (Q : outcome Z -> list event -> world -> Prop) :
Q (Ret (errno w)) [] w -> spec law get_errno w Q.
Proof. intros H es ->%log_same _. done. Qed.

Lemma spec_set_errno e w (Q : outcome unit -> list event -> world -> Prop) :
(forall w', errno w' = e -> Q (Ret tt) [] w') -> spec law (set_errno e) w Q.
Proof. intros H es ->%log_same _. by apply H. Qed.

Lemma spec_emit ev w (Q : outcome unit -> list event -> world -> Prop) :
(forall w', errno w' = errno w -> Q (Ret tt) [ev] w') -> spec law (emit ev) w Q.
Proof. intros H es ->%log_one _. by apply H. Qed.

Lemma spec_sys c w (Q : outcome resp -> list event -> world -> Prop) :
Q (Blocked c) [] w ->
(forall r w', errno w' = errno_after (errno w) r -> law c r -> Q (Ret r) [Called c r] w') ->
spec law (sys c) w Q.
Proof.
intros Hb Hr. destruct w as [[|r rs] l e].
- intros es ->%log_same _. done.
- intros es ->%log_one [Hlaw _]%Forall_cons. by apply Hr.
Qed.

Lemma spec_scall c w (Q : outcome Z -> list event -> world -> Prop) :
Q (Blocked c) [] w ->
(forall r w', errno w' = errno_after (errno w) r -> law c r -> Q (Ret (r_ret r)) [Called c r] w') ->
spec law (scall c) w Q.
Proof.
intros Hb Hr. destruct w as [[|r rs] l e].
- intros es ->%log_same _. done.
- intros es ->%log_one [Hlaw _]%Forall_cons. by apply Hr.
Qed.

Lemma spec_exec c w (Q : outcome Z -> list event -> world -> Prop) :
Q (Blocked c) [] w ->
(forall r w', errno w' = errno_after (errno w) r -> law c r -> r_ret r = -1 ->
 Q (Ret (-1)) [Called c r] w') ->
(forall r w', law c r -> r_ret r <> -1 -> Q (Halt (Replaced c)) [Called c r] w') ->
spec law (exec c) w Q.
Proof.
intros Hb Hr Hx. unfold exec, spec, mbind, M_bind. destruct w as [[|r rs] l e].
- intros es ->%log_same _. done.
- cbn. destruct (r_ret r =? -1) eqn:E; intros es ->%log_one [Hlaw _]%Forall_cons; zbool.
+ by apply Hr.
+ by apply Hx.
Qed.

Lemma spec_mono {A} (m : M A) w (Q Q' : outcome A -> list event -> world -> Prop) :
(forall o es w', Q o es w' -> Q' o es w') -> spec law m w Q -> spec law m w Q'.
Proof. unfold spec. destruct (m w). eauto. Qed.

Lemma spec_bind {A B} (m : M A) (f : A -> M B) w (Q : outcome B -> list event -> world -> Prop)
`{Hm : !Sane m} `{Hf : !forall a, Sane (f a)} :
spec law m w (fun o es w1 =>
match o with
| Ret a => spec law (f a) w1 (fun o' es' w2 => Q o' (es ++ es') w2)
| _ => Q (pass o) es w1
end) ->
spec law (m ≫= f) w Q.
Proof.
intros H. destruct (Hm w) as (es & Hl & _ & _).
unfold spec, mbind, M_bind in *. destruct (m w) as [o w1]. simpl in Hl.
destruct o as [a| | |]; try done.
destruct (Hf a w1) as (es' & Hl' & _ & _).
destruct (f a w1) as [o' w2]. simpl in Hl'.
intros es0 H0 Hlaw. assert (es0 = es ++ es') as ->.
{ rewrite Hl', Hl, app_assoc in H0. apply app_inv_tail in H0.
apply (f_equal (@rev event)) in H0. by rewrite rev_app_distr, !rev_involutive in H0. }
apply Forall_app in Hlaw as [??]. by eapply H.
Qed.

Lemma spec_with_atexit {A} (h : M unit) (m : M A) w (Q : outcome A -> list event -> world -> Prop)
`{Hm : !Sane m} `{Hh : !Sane h} :
spec law m w (fun o es w1 =>
match o with
| Halt (Exit n) => spec law h w1 (fun o' es' w2 =>
match o' with Ret _ => Q (Halt (Exit n)) (es ++ es') w2 | _ => Q (pass o') (es ++ es') w2 end)
| _ => Q o es w1
end) ->
spec law (with_atexit h m) w Q.
Proof.
intros H. destruct (Hm w) as (es & Hl & _ & _).
unfold spec, with_atexit in *. destruct (m w) as [o w1]. simpl in Hl.
destruct o as [a|[n|n| |c]|c|]; try done.
destruct (Hh w1) as (es' & Hl' & _ & _). destruct (h w1) as [o' w2]. simpl in Hl'.
assert (Hgen : forall es0, log w2 = rev es0 ++ log w -> es0 = es ++ es').
{ intros es0 H0. rewrite Hl', Hl, app_assoc in H0. apply app_inv_tail in H0.
apply (f_equal (@rev event)) in H0. by rewrite rev_app_distr, !rev_involutive in H0. }
destruct o'; intros es0 H0 Hlaw; rewrite (Hgen es0 H0) in *;
apply Forall_app in Hlaw as [??]; by eapply H.
Qed.

(** A loop invariant speaks of the carried value, the events since the loop
began and the world.  The body must use an answer before it goes round. *)
Lemma spec_loop_fuel {S A} n (body : S -> M (S + A)) (I : S -> list event -> world -> Prop)
(Q : outcome A -> list event -> world -> Prop) s es w `{Hb : !forall s, Sane (body s)} :
(forall s, Progress (body s)) ->
(forall s es w, I s es w -> spec law (body s) w (fun o es' w' =>
 match o with
 | Ret (inl s') => I s' (es ++ es') w'
 | Ret (inr a) => Q (Ret a) (es ++ es') w'
 | Diverged => False
 | _ => Q (pass o) (es ++ es') w'
 end)) ->
(length (script w) < n)%nat -> I s es w ->
spec law (loop_fuel n body s) w (fun o es' w' => Q o (es ++ es') w').
Proof.
intros Hp Hbody. revert s es w. induction n as [|n IH]; intros s es w Hn HI; [lia|].
cbn [loop_fuel]. specialize (Hp s w).
destruct (body s w) as [o w1] eqn:E.
apply spec_bind; [apply _|intros; apply _|]. specialize (Hbody s es w HI).
unfold spec in Hbody. unfold spec at 1. rewrite E in *.
intros es1 Hl1 Hlaw1. specialize (Hbody es1 Hl1 Hlaw1).
destruct o as [[s'|a]| | |]; try done.
- eapply spec_mono; [|apply (IH s' (es ++ es1)); [|done]].
+ simpl. intros o es' w'. by rewrite app_assoc.
+ specialize (Hp s' w1 eq_refl). lia.
- apply spec_ret. by rewrite app_nil_r.
Qed.

Lemma spec_loop {S A} (body : S -> M (S + A)) (I : S -> list event -> world -> Prop)
(Q : outcome A -> list event -> world -> Prop) s w `{!forall s, Sane (body s)} :
(forall s, Progress (body s)) ->
I s [] w ->
(forall s es w, I s es w -> spec law (body s) w (fun o es' w' =>
 match o with
 | Ret (inl s') => I s' (es ++ es') w'
 | Ret (inr a) => Q (Ret a) (es ++ es') w'
 | Diverged => False
 | _ => Q (pass o) (es ++ es') w'
 end)) ->
spec law (loop body s) w Q.
Proof.
intros Hp HI Hbody. unfold spec, loop.
apply (spec_loop_fuel (Datatypes.S (length (script w))) body I Q s [] w); try done; lia.
Qed.

Lemma spec_fold_m {X S} (f : S -> X -> M S) (I : S -> list X -> list event -> world -> Prop)
(Q : outcome S -> list event -> world -> Prop) l s es w
`{Hf : !forall s x, Sane (f s x)} :
I s l es w ->
(forall s es w, I s [] es w -> Q (Ret s) es w) ->
(forall s x l es w, I s (x :: l) es w -> spec law (f s x) w (fun o es' w' =>
 match o with
 | Ret s' => I s' l (es ++ es') w'
 | Diverged => False
 | _ => Q (pass o) (es ++ es') w'
 end)) ->
spec law (fold_m f s l) w (fun o es' w' => Q o (es ++ es') w').
Proof.
intros HI Hend Hstep. revert s es w HI.
induction l as [|x l IH]; intros s es w HI; simpl.
- apply spec_ret. rewrite app_nil_r. by apply Hend.
- apply spec_bind; [apply _|intros; apply _|]. eapply spec_mono; [|apply (Hstep s x l es w HI)].
simpl. intros [s'| | |] es' w' HQ; try done.
eapply spec_mono; [|apply (IH s' (es ++ es') w' HQ)].
simpl. intros o es'' w''. by rewrite app_assoc.
Qed.
End SpecRules.

Lemma printed_app st es fs : printed st (es ++ fs) = printed st es +:+ printed st fs.
Proof.
  induction es as [|[]]; simpl; try done. case_decide; [by rewrite <- sapp_assoc; f_equal|done].
Qed.
Lemma calls_app es fs : calls (es ++ fs) = calls es ++ calls fs.
Proof. induction es as [|[]]; simpl; try done. by f_equal. Qed.

Lemma in_calls c r es : In (Called c r) es -> In c (calls es).
Proof.
  induction es as [|[] es IH]; simpl; [done| |intros [?|?]; [done|auto]..].
  intros [H|H]; [left; congruence|right; auto].
Qed.

(** A specification only grows weaker with a stronger law. *)
Lemma spec_law_mono (law law' : call -> resp -> Prop) {A} (m : M A) w Q :
  (forall c r, law' c r -> law c r) -> spec law m w Q -> spec law' m w Q.
Proof.
  unfold spec. destruct (m w). intros Hi H es Hl Hf. apply H; [done|].
  eapply Forall_impl; [exact Hf|]. intros []; simpl; eauto.
Qed.

Ltac is_Zlit x := lazymatch x with Z0 => idtac | Zpos _ => idtac | Zneg _ => idtac end.

(** Apply the rule for the head of the program in a [spec] goal; the events are
    gathered in front by [app]. *)
Ltac spec_step :=
  match goal with
  | |- spec _ (mbind _ _) _ _ => apply spec_bind; [solve [apply _]|intros; solve [apply _]|]
  | |- spec _ (mret _) _ _ => apply spec_ret
  | |- spec _ (sys _) _ _ => apply spec_sys; [|intros ?r ?w ?He ?Hlaw]
  | |- spec _ (scall _) _ _ => apply spec_scall; [|intros ?r ?w ?He ?Hlaw]
  | |- spec _ (exec _) _ _ => apply spec_exec; [|intros ?r ?w ?He ?Hlaw ?Hret|intros ?r ?w ?Hlaw ?Hret]
  | |- spec _ (printf _) _ _ => unfold printf
  | |- spec _ (fputs _ _) _ _ => unfold fputs
  | |- spec _ (fflush _) _ _ => unfold fflush
  | |- spec _ (emit _) _ _ => apply spec_emit; intros ?w ?He
  | |- spec _ get_errno _ _ => apply spec_get_errno
  | |- spec _ (set_errno _) _ _ => apply spec_set_errno; intros ?w ?He
  | |- spec _ (exit _) _ _ => unfold exit
  | |- spec _ (quick_exit _) _ _ => unfold quick_exit
  | |- spec _ (halt_ _) _ _ => apply spec_halt
  | |- spec _ (when ?b _) _ _ => unfold when
  | |- spec _ (if ?b then _ else _) _ _ =>
      lazymatch b with
      | (?x =? ?y) => is_Zlit x; is_Zlit y; let v := eval vm_compute in b in change b with v
      | true => idtac
      | false => idtac
      end
  | |- spec _ (if ?b then _ else _) _ _ => destruct b eqn:?
  | |- spec _ (match ?x with _ => _ end) _ _ => destruct x eqn:?
  end; cbn beta iota match.
Ltac spec_run := repeat spec_step.
