(* ===== verification/Errors.v ===== *)
(** * Errors: the diagnostic functions of lib/error_functions.c

    [msg] stands for the already formatted message ([format] and its
    arguments).  [outputError] builds the 500-byte texts, prints to stderr and
    optionally flushes stdout; the functions that do not return end in
    [terminate] or [exit]. *)

From S2P Require Import Prelude Clib Sys.

(** ** The error names (lib/ename.c.inc) *)

Definition MAX_ENAME : Z := 133.

Definition ename : list string := [
  "";
  "EPERM"; "ENOENT"; "ESRCH"; "EINTR"; "EIO"; "ENXIO";
  "E2BIG"; "ENOEXEC"; "EBADF"; "ECHILD";
  "EAGAIN/EWOULDBLOCK"; "ENOMEM"; "EACCES"; "EFAULT";
  "ENOTBLK"; "EBUSY"; "EEXIST"; "EXDEV"; "ENODEV";
  "ENOTDIR"; "EISDIR"; "EINVAL"; "ENFILE"; "EMFILE";
  "ENOTTY"; "ETXTBSY"; "EFBIG"; "ENOSPC"; "ESPIPE";
  "EROFS"; "EMLINK"; "EPIPE"; "EDOM"; "ERANGE";
  "EDEADLK/EDEADLOCK"; "ENAMETOOLONG"; "ENOLCK"; "ENOSYS";
  "ENOTEMPTY"; "ELOOP"; ""; "ENOMSG"; "EIDRM"; "ECHRNG";
  "EL2NSYNC"; "EL3HLT"; "EL3RST"; "ELNRNG"; "EUNATCH";
  "ENOCSI"; "EL2HLT"; "EBADE"; "EBADR"; "EXFULL"; "ENOANO";
  "EBADRQC"; "EBADSLT"; ""; "EBFONT"; "ENOSTR"; "ENODATA";
  "ETIME"; "ENOSR"; "ENONET"; "ENOPKG"; "EREMOTE";
  "ENOLINK"; "EADV"; "ESRMNT"; "ECOMM"; "EPROTO";
  "EMULTIHOP"; "EDOTDOT"; "EBADMSG"; "EOVERFLOW";
  "ENOTUNIQ"; "EBADFD"; "EREMCHG"; "ELIBACC"; "ELIBBAD";
  "ELIBSCN"; "ELIBMAX"; "ELIBEXEC"; "EILSEQ"; "ERESTART";
  "ESTRPIPE"; "EUSERS"; "ENOTSOCK"; "EDESTADDRREQ";
  "EMSGSIZE"; "EPROTOTYPE"; "ENOPROTOOPT";
  "EPROTONOSUPPORT"; "ESOCKTNOSUPPORT";
  "EOPNOTSUPP/ENOTSUP"; "EPFNOSUPPORT"; "EAFNOSUPPORT";
  "EADDRINUSE"; "EADDRNOTAVAIL"; "ENETDOWN"; "ENETUNREACH";
  "ENETRESET"; "ECONNABORTED"; "ECONNRESET"; "ENOBUFS";
  "EISCONN"; "ENOTCONN"; "ESHUTDOWN"; "ETOOMANYREFS";
  "ETIMEDOUT"; "ECONNREFUSED"; "EHOSTDOWN"; "EHOSTUNREACH";
  "EALREADY"; "EINPROGRESS"; "ESTALE"; "EUCLEAN";
  "ENOTNAM"; "ENAVAIL"; "EISNAM"; "EREMOTEIO"; "EDQUOT";
  "ENOMEDIUM"; "EMEDIUMTYPE"; "ECANCELED"; "ENOKEY";
  "EKEYEXPIRED"; "EKEYREVOKED"; "EKEYREJECTED";
  "EOWNERDEAD"; "ENOTRECOVERABLE"; "ERFKILL"; "EHWPOISON" ]%string.

(** Error numbers the programs test for (Linux values). *)
Definition EPERM := 1.
Definition ENOENT := 2.
Definition EINTR := 4.
Definition ECHILD := 10.
Definition EAGAIN := 11.
Definition EWOULDBLOCK := 11.
Definition ENOMEM := 12.
Definition EACCES := 13.
Definition EEXIST := 17.
Definition EINVAL := 22.
Definition ENAMETOOLONG := 36.
Definition EDEADLK := 35.
Definition ENOSYS := 38.
Definition EOVERFLOW := 75.
Definition EINPROGRESS := 115.

(** ** The functions *)

Definition terminate {A} (useExit3 : bool) : M A :=
  s ← sys (Getenv "EF_DUMPCORE");
  if negb (r_ret s =? 0) && negb (ceqb (schar 0 (r_buf s)) nul) then halt_ Abort
  else if useExit3 then exit EXIT_FAILURE
  else quick_exit EXIT_FAILURE.

Definition ERR_BUF_SIZE : Z := 500.

Definition outputError (useErr : bool) (e : Z) (flushStdout : bool) (msg : string) : M unit :=
  let userMsg := snprintf ERR_BUF_SIZE msg in
  errText ← (if useErr
             then t ← sys (Strerror e);
                  mret (snprintf ERR_BUF_SIZE (" [" +:+
                    (if (e >? 0) && (e <=? MAX_ENAME) then nth (Z.to_nat e) ename "" else "?UNKNOWN?")
                    +:+ " " +:+ cstr (r_buf t) +:+ "]"))
             else mret (snprintf ERR_BUF_SIZE ":"));
  let buf := snprintf ERR_BUF_SIZE ("ERROR" +:+ errText +:+ " " +:+ userMsg +:+ nl) in
  _ ← when flushStdout (fflush Stdout);
  _ ← fputs Stderr buf;
  fflush Stderr.

Definition errMsg (msg : string) : M unit :=
  savedErrno ← get_errno;
  e ← get_errno;
  _ ← outputError true e true msg;
  set_errno savedErrno.

Definition errExit {A} (msg : string) : M A :=
  e ← get_errno;
  _ ← outputError true e true msg;
  terminate true.

Definition err_exit {A} (msg : string) : M A :=
  e ← get_errno;
  _ ← outputError true e false msg;
  terminate false.

Definition errExitEN {A} (errnum : Z) (msg : string) : M A :=
  _ ← outputError true errnum true msg;
  terminate true.

Definition fatal {A} (msg : string) : M A :=
  _ ← outputError false 0 true msg;
  terminate true.

Definition usageErr {A} (msg : string) : M A :=
  _ ← fflush Stdout;
  _ ← fputs Stderr "Usage: ";
  _ ← fputs Stderr msg;
  _ ← fflush Stderr;
  exit EXIT_FAILURE.

Definition cmdLineErr {A} (msg : string) : M A :=
  _ ← fflush Stdout;
  _ ← fputs Stderr "Command-line usage error: ";
  _ ← fputs Stderr msg;
  _ ← fflush Stderr;
  exit EXIT_FAILURE.

(** ** Instances: none of them leaves the discipline of the calls *)

#[export] Instance terminate_sane {A} b : Sane (terminate (A:=A) b).
Proof. unfold terminate. apply _. Qed.
#[export] Instance outputError_sane a e f m : Sane (outputError a e f m).
Proof. unfold outputError. apply _. Qed.
#[export] Instance errMsg_sane m : Sane (errMsg m).
Proof. unfold errMsg. apply _. Qed.
#[export] Instance errExit_sane {A} m : Sane (errExit (A:=A) m).
Proof. unfold errExit. apply _. Qed.
#[export] Instance err_exit_sane {A} m : Sane (err_exit (A:=A) m).
Proof. unfold err_exit. apply _. Qed.
#[export] Instance errExitEN_sane {A} e m : Sane (errExitEN (A:=A) e m).
Proof. unfold errExitEN. apply _. Qed.
#[export] Instance fatal_sane {A} m : Sane (fatal (A:=A) m).
Proof. unfold fatal. apply _. Qed.
#[export] Instance usageErr_sane {A} m : Sane (usageErr (A:=A) m).
Proof. unfold usageErr. apply _. Qed.
#[export] Instance cmdLineErr_sane {A} m : Sane (cmdLineErr (A:=A) m).
Proof. unfold cmdLineErr. apply _. Qed.

(** The functions that end the process return no value, so they count as
    having used an answer. *)
#[export] Instance errExit_uses {A} m : Uses (errExit (A:=A) m).
Proof. unfold errExit, terminate. apply _. Qed.
#[export] Instance err_exit_uses {A} m : Uses (err_exit (A:=A) m).
Proof. unfold err_exit, terminate. apply _. Qed.
#[export] Instance errExitEN_uses {A} e m : Uses (errExitEN (A:=A) e m).
Proof. unfold errExitEN, terminate. apply _. Qed.
#[export] Instance fatal_uses {A} m : Uses (fatal (A:=A) m).
Proof. unfold fatal, terminate. apply _. Qed.
#[export] Instance usageErr_uses {A} m : Uses (usageErr (A:=A) m).
Proof. unfold usageErr. apply _. Qed.

(** ** What the diagnostic functions do *)

(** The events of a diagnostic: nothing but its text on stderr, flushes and
    the two look-ups. *)
Definition diag (e : event) : Prop :=
  match e with
  | Called (Getenv _) _ | Called (Strerror _) _ | Printed Stderr _ | Flushed _ => True
  | _ => False
  end.

(** The process has failed, or is inside a diagnostic. *)
Definition fails {A} (o : outcome A) : Prop :=
  match o with
  | Halt (Exit n) | Halt (QuickExit n) => n = EXIT_FAILURE
  | Halt Abort => True
  | Blocked (Getenv _) | Blocked (Strerror _) => True
  | _ => False
  end.

Section ErrorSpecs.
Context (law : call -> resp -> Prop).

Lemma spec_outputError a e f msg w (Q : outcome unit -> list event -> world -> Prop) :
(a = true -> Q (Blocked (Strerror e)) [] w) ->
(forall es w', Forall diag es -> Q (Ret tt) es w') ->
spec law (outputError a e f msg) w Q.
Proof.
intros HB HR. unfold outputError. destruct a, f; spec_run;
try (by apply HB); apply HR; simpl; repeat constructor.
Qed.

Lemma spec_terminate {A} b w (Q : outcome A -> list event -> world -> Prop) :
(forall o es w', fails o -> Forall diag es -> Q o es w') -> spec law (terminate b) w Q.
Proof. intros H. unfold terminate. destruct b; spec_run; apply H; simpl; repeat constructor. Qed.

Ltac fail_tac HQ :=
spec_run; apply spec_outputError;
[intros _; apply HQ; simpl; repeat constructor
|intros ?es ?w ?Hes; apply spec_terminate; intros ?o ?es ?w ?Ho ?Hes'; apply HQ;
 [done|simpl; by apply Forall_app]].

Lemma spec_errExit {A} msg w (Q : outcome A -> list event -> world -> Prop) :
(forall o es w', fails o -> Forall diag es -> Q o es w') -> spec law (errExit msg) w Q.
Proof. intros HQ. unfold errExit. fail_tac HQ. Qed.
Lemma spec_err_exit {A} msg w (Q : outcome A -> list event -> world -> Prop) :
(forall o es w', fails o -> Forall diag es -> Q o es w') -> spec law (err_exit msg) w Q.
Proof. intros HQ. unfold err_exit. fail_tac HQ. Qed.
(** [err_exit] in particular never runs [exit(3)]. *)
Lemma spec_err_exit_quick {A} msg w (Q : outcome A -> list event -> world -> Prop) :
(forall o es w', match o with
 | Halt (QuickExit n) => n = EXIT_FAILURE
 | Halt Abort | Blocked _ => True
 | _ => False
 end -> Forall diag es -> Q o es w') -> spec law (err_exit msg) w Q.
Proof.
intros HQ. unfold err_exit, terminate. spec_run; apply spec_outputError;
[intros _; apply HQ; simpl; repeat constructor|].
intros es w' Hes. spec_run; apply HQ; simpl; try done;
rewrite ?Forall_app; repeat (split || constructor); done.
Qed.
Lemma spec_errExitEN {A} e msg w (Q : outcome A -> list event -> world -> Prop) :
(forall o es w', fails o -> Forall diag es -> Q o es w') -> spec law (errExitEN e msg) w Q.
Proof. intros HQ. unfold errExitEN. fail_tac HQ. Qed.
Lemma spec_fatal {A} msg w (Q : outcome A -> list event -> world -> Prop) :
(forall o es w', fails o -> Forall diag es -> Q o es w') -> spec law (fatal msg) w Q.
Proof. intros HQ. unfold fatal. fail_tac HQ. Qed.
Lemma spec_usageErr {A} msg w (Q : outcome A -> list event -> world -> Prop) :
(forall o es w', fails o -> Forall diag es -> Q o es w') -> spec law (usageErr msg) w Q.
Proof. intros HQ. unfold usageErr. spec_run. apply HQ; simpl; repeat constructor. Qed.
Lemma spec_cmdLineErr {A} msg w (Q : outcome A -> list event -> world -> Prop) :
(forall o es w', fails o -> Forall diag es -> Q o es w') -> spec law (cmdLineErr msg) w Q.
Proof. intros HQ. unfold cmdLineErr. spec_run. apply HQ; simpl; repeat constructor. Qed.

Lemma spec_errMsg msg w (Q : outcome unit -> list event -> world -> Prop) :
Q (Blocked (Strerror (errno w))) [] w ->
(forall es w', errno w' = errno w -> Forall diag es -> Q (Ret tt) es w') ->
spec law (errMsg msg) w Q.
Proof.
intros HB HR. unfold errMsg. spec_run. apply spec_outputError.
- intros _. exact HB.
- intros es w' Hes. spec_run. simpl. apply HR; [done|]. by rewrite app_nil_r.
Qed.
End ErrorSpecs.

(** Diagnostics print nothing on stdout. *)
Lemma printed_diag es : Forall diag es -> printed Stdout es = EmptyString.
Proof. intros H. induction H as [|[[]|[]|] es He _ IH]; simpl in *; try tauto; done. Qed.

(** [Dies m]: [m] prints a diagnostic and ends the process with a failure; it
    never returns. *)
Definition died (h : halt) : Prop :=
  match h with
  | Exit n | QuickExit n => n = EXIT_FAILURE
  | Abort => True
  | Replaced _ => False
  end.

Class Dies {A} (m : M A) : Prop :=
  dies law w : spec law m w (fun o es _ => fails o /\ Forall diag es).

#[export] Instance dies_errExit {A} msg : Dies (errExit (A:=A) msg).
Proof. intros law w. by apply spec_errExit. Qed.
#[export] Instance dies_err_exit {A} msg : Dies (err_exit (A:=A) msg).
Proof. intros law w. by apply spec_err_exit. Qed.
#[export] Instance dies_errExitEN {A} e msg : Dies (errExitEN (A:=A) e msg).
Proof. intros law w. by apply spec_errExitEN. Qed.
#[export] Instance dies_fatal {A} msg : Dies (fatal (A:=A) msg).
Proof. intros law w. by apply spec_fatal. Qed.
#[export] Instance dies_usageErr {A} msg : Dies (usageErr (A:=A) msg).
Proof. intros law w. by apply spec_usageErr. Qed.
#[export] Instance dies_cmdLineErr {A} msg : Dies (cmdLineErr (A:=A) msg).
Proof. intros law w. by apply spec_cmdLineErr. Qed.

Lemma spec_dies law {A} (m : M A) `{!Dies m} w (Q : outcome A -> list event -> world -> Prop) :
  (forall c es w', Forall diag es -> Q (Blocked c) es w') ->
  (forall h es w', died h -> Forall diag es -> Q (Halt h) es w') ->
  spec law m w Q.
Proof.
  intros HB HH. eapply spec_mono; [|apply dies]. cbn beta.
  intros [a|h|c|] es w' [Ho Hd]; try done; [|by apply HB].
  apply HH; [|done]. by destruct h.
Qed.

(** The calls a diagnostic makes. *)
Definition diag_call (c : call) : Prop := match c with Getenv _ | Strerror _ => True | _ => False end.
Lemma spec_dies_in law {A} (m : M A) `{!Dies m} w (Q : outcome A -> list event -> world -> Prop) :
  (forall c es w', diag_call c -> Forall diag es -> Q (Blocked c) es w') ->
  (forall h es w', died h -> Forall diag es -> Q (Halt h) es w') ->
  spec law m w Q.
Proof.
  intros HB HH. eapply spec_mono; [|apply dies]. cbn beta.
  intros [a|h|c|] es w' [Ho Hd]; try done; [|by apply HB; [destruct c|]].
  apply HH; [|done]. by destruct h.
Qed.

(** One step of a program whose postcondition [Q] is left abstract: [HB] closes
    the goals of a call that has not returned, [HD] those of a process that died. *)
Ltac die_step HB HD :=
  match goal with
  | |- spec _ _ _ _ =>
      first [ apply spec_dies; [apply _|intros ?c ?es ?w ?Hd|intros ?h ?es ?w ?Hh ?Hd]
            | spec_step ]; cbn [pass]
  | |- _ (Blocked _) _ _ => apply HB
  | H : died ?h |- _ (Halt ?h) _ _ => apply HD; [assumption|..]
  end.
Ltac die_run HB HD := repeat die_step HB HD.

(** [spec_run] extended with the diagnostic functions; their goals are left
    with the hypotheses [fails o] and [Forall diag es]. *)
Ltac err_step :=
  lazymatch goal with
  | |- spec _ (errExit _) _ _ => apply spec_errExit; intros ?o ?es ?w ?Ho ?Hd
  | |- spec _ (err_exit _) _ _ => apply spec_err_exit; intros ?o ?es ?w ?Ho ?Hd
  | |- spec _ (errExitEN _ _) _ _ => apply spec_errExitEN; intros ?o ?es ?w ?Ho ?Hd
  | |- spec _ (fatal _) _ _ => apply spec_fatal; intros ?o ?es ?w ?Ho ?Hd
  | |- spec _ (usageErr _) _ _ => apply spec_usageErr; intros ?o ?es ?w ?Ho ?Hd
  | |- spec _ (cmdLineErr _) _ _ => apply spec_cmdLineErr; intros ?o ?es ?w ?Ho ?Hd
  | |- spec _ (errMsg _) _ _ => apply spec_errMsg; [|intros ?es ?w ?He ?Hd]
  | |- _ => spec_step
  end; cbn beta iota match.
Ltac err_run := repeat err_step.

(** The text [outputError] prints, from the text [strerror] returns. *)
Definition error_text (useErr : bool) (e : Z) (strerror_text msg : string) : string :=
  snprintf 500 ("ERROR" +:+
    snprintf 500 (if useErr then
       " [" +:+ (if decide (0 < e <= 133) then nth (Z.to_nat e) ename "" else "?UNKNOWN?")
       +:+ " " +:+ cstr strerror_text +:+ "]"
     else ":")
    +:+ " " +:+ snprintf 500 msg +:+ nl).

Lemma ename_length : length ename = Z.to_nat (MAX_ENAME + 1).
Proof. reflexivity. Qed.

Lemma ename_test e : (e >? 0) && (e <=? MAX_ENAME) = bool_decide (0 < e <= 133).
Proof.
  apply eq_true_iff_eq. rewrite andb_true_iff, Z.gtb_ltb, Z.ltb_lt, Z.leb_le, bool_decide_eq_true.
  done.
Qed.

Lemma ename_if {A} e (a b : A) :
  (if (e >? 0) && (e <=? MAX_ENAME) then a else b) = if decide (0 < e <= 133) then a else b.
Proof. rewrite ename_test. case_bool_decide; case_decide; tauto. Qed.

(** [errMsg] always returns to its caller with [errno] as it was, whatever
    [strerror] does to it; it flushes stdout, then prints exactly one text of at
    most 499 bytes on stderr, and the index into [ename] is never outside the
    array. *)
Theorem errMsg_correct law msg w :
  spec law (errMsg msg) w (fun o es w' =>
    o = Blocked (Strerror (errno w))
    \/ o = Ret tt /\ errno w' = errno w
       /\ exists r, es = [Called (Strerror (errno w)) r; Flushed Stdout;
                          Printed Stderr (error_text true (errno w) (r_buf r) msg); Flushed Stderr]
          /\ slen (error_text true (errno w) (r_buf r) msg) <= 499)
  /\ (forall e, 0 < e <= MAX_ENAME -> is_Some (ename !! Z.to_nat e)).
Proof.
  split.
  - unfold errMsg, outputError. spec_run; [by left|right].
    split_and!; [done|done|]. exists r. simpl. rewrite ename_if.
    split; [done|]. by apply snprintf_slen.
  - intros e He. apply lookup_lt_is_Some. rewrite ename_length. unfold MAX_ENAME in *. lia.
Qed.

(** C40.  The three ways to die: [errExit] flushes stdout before it prints and
    ends in [exit(3)] (or [abort] when EF_DUMPCORE is set and not empty);
    [err_exit] prints the same text, never flushes stdout and ends in
    [_exit(2)]; [fatal] consults neither [errno] nor [strerror].  None returns. *)
Theorem error_exits_correct law A msg w :
  let dumps r := negb (r_ret r =? 0) && negb (ceqb (schar 0 (r_buf r)) nul) in
  spec law (errExit (A:=A) msg) w (fun o es _ =>
    match o with
    | Ret _ | Diverged => False
    | Blocked c => c = Strerror (errno w) \/ c = Getenv "EF_DUMPCORE"
    | Halt h => exists r s,
        h = (if dumps s then Abort else Exit EXIT_FAILURE)
        /\ es = [Called (Strerror (errno w)) r; Flushed Stdout;
                 Printed Stderr (error_text true (errno w) (r_buf r) msg); Flushed Stderr;
                 Called (Getenv "EF_DUMPCORE") s]
    end)
  /\ spec law (err_exit (A:=A) msg) w (fun o es _ =>
    match o with
    | Ret _ | Diverged => False
    | Blocked c => c = Strerror (errno w) \/ c = Getenv "EF_DUMPCORE"
    | Halt h => exists r s,
        h = (if dumps s then Abort else QuickExit EXIT_FAILURE)
        /\ es = [Called (Strerror (errno w)) r;
                 Printed Stderr (error_text true (errno w) (r_buf r) msg); Flushed Stderr;
                 Called (Getenv "EF_DUMPCORE") s]
    end)
  /\ spec law (fatal (A:=A) msg) w (fun o es _ =>
    match o with
    | Ret _ | Diverged => False
    | Blocked c => c = Getenv "EF_DUMPCORE"
    | Halt h => exists s,
        h = (if dumps s then Abort else Exit EXIT_FAILURE)
        /\ es = [Flushed Stdout; Printed Stderr (error_text false 0 "" msg); Flushed Stderr;
                 Called (Getenv "EF_DUMPCORE") s]
    end).
Proof.
  intros dumps. split_and!; unfold errExit, err_exit, fatal, outputError, terminate; spec_run;
    cbn [pass]; rewrite ?ename_if;
    lazymatch goal with
    | |- _ \/ _ => by first [left; reflexivity | right; reflexivity]
    | |- Getenv _ = _ => reflexivity
    | |- _ => repeat eexists; unfold dumps; by match goal with H : _ = _ |- _ => rewrite H end
    end.
Qed.
