(* ===== verification/Frame.v ===== *)
(** * Frame: running a part of a program whose details do not matter

    [Total m]: run on any finite supply of answers, [m] returns, ends the
    process or waits for an answer; it never loops without one.  [Calm m]: it
    also never ends the process.  Both are found by instance resolution, as
    [Emits] is; the frame rules then summarise a sub-program in a client's proof
    by a condition on its events. *)

From S2P Require Import Prelude Clib Sys Errors.

Class Total {A} (m : M A) : Prop := total w : fst (m w) <> Diverged.

(** An outcome that leaves the process running. *)
Definition calm_outcome {A} (o : outcome A) : Prop :=
  match o with Ret _ | Blocked _ => True | _ => False end.
Class Calm {A} (m : M A) : Prop := calm w : calm_outcome (fst (m w)).

(** ** Total computations *)

#[export] Instance total_ret {A} (a : A) : Total (mret a).
Proof. done. Qed.
#[export] Instance total_bind {A B} (m : M A) (f : A -> M B) :
  Total m -> (forall a, Total (f a)) -> Total (m ≫= f).
Proof.
  intros Hm Hf w. specialize (Hm w). unfold mbind, M_bind.
  destruct (m w) as [[a| | |] w1]; simpl in *; try done. by apply Hf.
Qed.
#[export] Instance total_sys c : Total (sys c).
Proof. by intros [[|r rs] l e]. Qed.
#[export] Instance total_scall c : Total (scall c).
Proof. unfold scall. apply _. Qed.
#[export] Instance total_halt {A} h : Total (halt_ (A:=A) h).
Proof. done. Qed.
#[export] Instance total_exit {A} n : Total (exit (A:=A) n).
Proof. done. Qed.
#[export] Instance total_quick_exit {A} n : Total (quick_exit (A:=A) n).
Proof. done. Qed.
#[export] Instance total_exec c : Total (exec c).
Proof. unfold exec. apply total_bind; [apply _|]. intros r. destruct (r_ret r =? -1); apply _. Qed.
#[export] Instance total_emit e : Total (emit e).
Proof. done. Qed.
#[export] Instance total_fputs st s : Total (fputs st s).
Proof. done. Qed.
#[export] Instance total_printf s : Total (printf s).
Proof. done. Qed.
#[export] Instance total_fflush st : Total (fflush st).
Proof. done. Qed.
#[export] Instance total_get_errno : Total get_errno.
Proof. done. Qed.
#[export] Instance total_set_errno e : Total (set_errno e).
Proof. done. Qed.
#[export] Instance total_if {A} (b : bool) (m n : M A) : Total m -> Total n -> Total (if b then m else n).
Proof. by destruct b. Qed.
#[export] Instance total_when b m : Total m -> Total (when b m).
Proof. unfold when. apply _. Qed.
#[export] Instance total_with_atexit {A} (h : M unit) (m : M A) :
  Total m -> Total h -> Total (with_atexit h m).
Proof.
  intros Hm Hh w. specialize (Hm w). unfold with_atexit.
  destruct (m w) as [[a|[n| | |]|c|] w1]; simpl in *; try done.
  specialize (Hh w1). by destruct (h w1) as [[] w2].
Qed.
#[export] Instance total_fold_m {X S} (f : S -> X -> M S) s l :
  (forall s x, Total (f s x)) -> Total (fold_m f s l).
Proof. intros Hf. revert s. induction l as [|x l IH]; intros s; simpl; apply _. Qed.
#[export] Instance total_for_each {X} (f : X -> M unit) l : (forall x, Total (f x)) -> Total (for_each f l).
Proof. intros Hf. apply total_fold_m. auto. Qed.
#[export] Instance total_loop {S A} (body : S -> M (S + A)) s :
  (forall s, Progress (body s)) -> (forall s, Total (body s)) -> Total (loop body s).
Proof. intros Hp Ht w. by apply loop_terminates. Qed.
#[export] Instance total_forever {A} (body : M unit) : Uses body -> Sane body -> Total body ->
  Total (forever (A:=A) body).
Proof. intros. unfold forever. apply _. Qed.
#[export] Hint Extern 5 (Total (match ?x with _ => _ end)) => destruct x : typeclass_instances.

(** ** Calm computations *)

#[export] Instance calm_ret {A} (a : A) : Calm (mret a).
Proof. done. Qed.
#[export] Instance calm_bind {A B} (m : M A) (f : A -> M B) :
  Calm m -> (forall a, Calm (f a)) -> Calm (m ≫= f).
Proof.
  intros Hm Hf w. specialize (Hm w). unfold mbind, M_bind.
  destruct (m w) as [[a| | |] w1]; simpl in *; try done. by apply Hf.
Qed.
#[export] Instance calm_sys c : Calm (sys c).
Proof. by intros [[|r rs] l e]. Qed.
#[export] Instance calm_scall c : Calm (scall c).
Proof. unfold scall. apply _. Qed.
#[export] Instance calm_emit e : Calm (emit e).
Proof. done. Qed.
#[export] Instance calm_fputs st s : Calm (fputs st s).
Proof. done. Qed.
#[export] Instance calm_printf s : Calm (printf s).
Proof. done. Qed.
#[export] Instance calm_fflush st : Calm (fflush st).
Proof. done. Qed.
#[export] Instance calm_get_errno : Calm get_errno.
Proof. done. Qed.
#[export] Instance calm_set_errno e : Calm (set_errno e).
Proof. done. Qed.
#[export] Instance calm_if {A} (b : bool) (m n : M A) : Calm m -> Calm n -> Calm (if b then m else n).
Proof. by destruct b. Qed.
#[export] Instance calm_when b m : Calm m -> Calm (when b m).
Proof. unfold when. apply _. Qed.
#[export] Instance calm_fold_m {X S} (f : S -> X -> M S) s l :
  (forall s x, Calm (f s x)) -> Calm (fold_m f s l).
Proof. intros Hf. revert s. induction l as [|x l IH]; intros s; simpl; apply _. Qed.
#[export] Instance calm_for_each {X} (f : X -> M unit) l : (forall x, Calm (f x)) -> Calm (for_each f l).
Proof. intros Hf. apply calm_fold_m. auto. Qed.
#[export] Hint Extern 5 (Calm (match ?x with _ => _ end)) => destruct x : typeclass_instances.

Lemma calm_loop_fuel {S A} n (body : S -> M (S + A)) s w :
  (forall s, Progress (body s)) -> (forall s, Calm (body s)) -> (length (script w) < n)%nat ->
  calm_outcome (fst (loop_fuel n body s w)).
Proof.
  intros Hp Hc. revert s w. induction n as [|n IH]; intros s w H; [lia|].
  cbn [loop_fuel]. unfold mbind, M_bind. specialize (Hc s w).
  destruct (body s w) as [[[s'|a]| | |] w'] eqn:E; try done.
  pose proof (Hp s w s' w' E). apply IH; lia.
Qed.
#[export] Instance calm_loop {S A} (body : S -> M (S + A)) s :
  (forall s, Progress (body s)) -> (forall s, Calm (body s)) -> Calm (loop body s).
Proof. intros Hp Hc w. apply calm_loop_fuel; [done|done|lia]. Qed.

(** ** The calls a computation may be waiting in *)

(** [Waits W m]: when [m] waits for an answer, it is to a call that satisfies [W]. *)
Class Waits (W : call -> Prop) {A} (m : M A) : Prop := waits w c : fst (m w) = Blocked c -> W c.

Section WaitsRules.
Context (W : call -> Prop).

#[export] Instance waits_ret {A} (a : A) : Waits W (mret a).
Proof. by intros w c. Qed.
#[export] Instance waits_bind {A B} (m : M A) (f : A -> M B) :
Waits W m -> (forall a, Waits W (f a)) -> Waits W (m ≫= f).
Proof.
intros Hm Hf w c. specialize (Hm w c). unfold mbind, M_bind.
destruct (m w) as [[a| | |] w1]; simpl in *; try done; [apply Hf|]. intros [= ->]. by apply Hm.
Qed.
Lemma waits_sys c : W c -> Waits W (sys c).
Proof. intros Hc [[|r rs] l e] d; simpl; by intros [= <-]. Qed.
Lemma waits_scall c : W c -> Waits W (scall c).
Proof. intros Hc. apply waits_bind; [by apply waits_sys|intros; apply _]. Qed.
#[export] Instance waits_emit e : Waits W (emit e).
Proof. by intros w c. Qed.
#[export] Instance waits_fputs st s : Waits W (fputs st s).
Proof. by intros w c. Qed.
#[export] Instance waits_printf s : Waits W (printf s).
Proof. by intros w c. Qed.
#[export] Instance waits_fflush st : Waits W (fflush st).
Proof. by intros w c. Qed.
#[export] Instance waits_get_errno : Waits W get_errno.
Proof. by intros w c. Qed.
#[export] Instance waits_set_errno e : Waits W (set_errno e).
Proof. by intros w c. Qed.
#[export] Instance waits_halt {A} h : Waits W (halt_ (A:=A) h).
Proof. by intros w c. Qed.
#[export] Instance waits_exit {A} n : Waits W (exit (A:=A) n).
Proof. by intros w c. Qed.
#[export] Instance waits_quick_exit {A} n : Waits W (quick_exit (A:=A) n).
Proof. by intros w c. Qed.
#[export] Instance waits_if {A} (b : bool) (m n : M A) : Waits W m -> Waits W n -> Waits W (if b then m else n).
Proof. by destruct b. Qed.
#[export] Instance waits_when b m : Waits W m -> Waits W (when b m).
Proof. unfold when. intros. apply _. Qed.
#[export] Instance waits_fold_m {X S} (f : S -> X -> M S) s l :
(forall s x, Waits W (f s x)) -> Waits W (fold_m f s l).
Proof. intros Hf. revert s. induction l as [|x l IH]; intros s; simpl; apply _. Qed.
#[export] Instance waits_for_each {X} (f : X -> M unit) l : (forall x, Waits W (f x)) -> Waits W (for_each f l).
Proof. intros Hf. apply waits_fold_m. auto. Qed.
#[export] Instance waits_loop_fuel {S A} n (body : S -> M (S + A)) s :
(forall s, Waits W (body s)) -> Waits W (loop_fuel n body s).
Proof.
intros Hb. revert s. induction n as [|n IH]; intros s; simpl; [by intros w c|].
apply waits_bind; [done|]. intros []; apply _.
Qed.
#[export] Instance waits_loop {S A} (body : S -> M (S + A)) s :
(forall s, Waits W (body s)) -> Waits W (loop body s).
Proof. intros Hb w. apply (waits_loop_fuel _ body s Hb w). Qed.
End WaitsRules.
#[export] Hint Extern 5 (Waits _ (match ?x with _ => _ end)) => destruct x : typeclass_instances.
#[export] Hint Extern 8 (Waits _ (sys _)) => (apply waits_sys; emits_leaf) : typeclass_instances.
#[export] Hint Extern 8 (Waits _ (scall _)) => (apply waits_scall; emits_leaf) : typeclass_instances.

(** ** The functions that print a diagnostic *)

#[export] Instance total_terminate {A} b : Total (terminate (A:=A) b).
Proof. unfold terminate. apply _. Qed.
#[export] Instance calm_outputError u e f s : Calm (outputError u e f s).
Proof. unfold outputError. apply _. Qed.
#[export] Instance total_outputError u e f s : Total (outputError u e f s).
Proof. unfold outputError. apply _. Qed.
#[export] Instance calm_errMsg msg : Calm (errMsg msg).
Proof. unfold errMsg. apply _. Qed.
#[export] Instance total_errMsg msg : Total (errMsg msg).
Proof. unfold errMsg. apply _. Qed.
#[export] Instance total_dies {A} (m : M A) : Dies m -> Sane m -> Total m.
Proof.
  intros Hd Hs w. destruct (Hs w) as (es & Hl & _ & _). specialize (Hd any_answer w).
  unfold spec in Hd. destruct (m w) as [o w']. simpl in *.
  assert (Hf : Forall (lawful any_answer) es).
  { apply Forall_forall. intros [] _; done. }
  destruct (Hd es Hl Hf) as [Ho _]. by destruct o.
Qed.

(** ** Frame rules *)

Section FrameRules.
Context (law : call -> resp -> Prop) (P : event -> Prop) {A : Type} (m : M A).
Context `{Hm : !Emits P m}.

Lemma spec_emits w (Q : outcome A -> list event -> world -> Prop) :
(forall es w', Forall P es -> Q (fst (m w)) es w') -> spec law m w Q.
Proof using Hm.
intros HQ. destruct (Hm w) as (es & Hl & _ & HP).
unfold spec. destruct (m w) as [o w']. simpl in *. intros es' Hl' _.
assert (es' = es) as ->; [|by apply HQ].
rewrite Hl in Hl'. apply app_inv_tail in Hl'. apply (f_equal (@rev event)) in Hl'.
by rewrite !rev_involutive in Hl'.
Qed.

(** What is known of the events comes on top of a specification. *)
Lemma spec_with_emits w (Q : outcome A -> list event -> world -> Prop) :
spec law m w (fun o es w' => Forall P es -> Q o es w') -> spec law m w Q.
Proof using Hm.
intros HQ. destruct (Hm w) as (es & Hl & _ & HP).
unfold spec in *. destruct (m w) as [o w']. simpl in *. intros es' Hl' Hlaw. apply HQ; [done|done|].
assert (es' = es) as ->; [|done].
rewrite Hl in Hl'. apply app_inv_tail in Hl'. apply (f_equal (@rev event)) in Hl'.
by rewrite !rev_involutive in Hl'.
Qed.

Lemma spec_frame_total `{Ht : !Total m} w (Q : outcome A -> list event -> world -> Prop) :
(forall o es w', Forall P es -> o <> Diverged -> Q o es w') -> spec law m w Q.
Proof using Hm. intros HQ. apply spec_emits. intros es w' HP. by apply HQ. Qed.

Lemma spec_frame `{Hc : !Calm m} w (Q : outcome A -> list event -> world -> Prop) :
(forall c es w', Forall P es -> Q (Blocked c) es w') ->
(forall a es w', Forall P es -> Q (Ret a) es w') ->
spec law m w Q.
Proof using Hm.
intros HB HR. apply spec_emits. intros es w' HP. specialize (Hc w).
destruct (fst (m w)); try done; [by apply HR|by apply HB].
Qed.

(** The same with what is known of the call it waits in. *)
Lemma spec_frame_waits W `{Hc : !Calm m} `{Hw : !Waits W m} w (Q : outcome A -> list event -> world -> Prop) :
(forall c es w', W c -> Forall P es -> Q (Blocked c) es w') ->
(forall a es w', Forall P es -> Q (Ret a) es w') ->
spec law m w Q.
Proof using Hm.
intros HB HR. apply spec_emits. intros es w' HP. specialize (Hc w). pose proof (Hw w) as Hw'.
destruct (fst (m w)); try done; [by apply HR|apply HB; [by apply Hw'|done]].
Qed.
End FrameRules.

(** A loop that only ends with the process. *)
Lemma spec_forever {A} law (body : M unit) (I : list event -> world -> Prop) (Q : outcome A -> list event -> world -> Prop)
    w `{!Sane body} `{!Uses body} :
  I [] w ->
  (forall es w, I es w -> spec law body w (fun o es' w' =>
     match o with Ret _ => I (es ++ es') w' | Diverged => False | _ => Q (pass o) (es ++ es') w' end)) ->
  spec law (forever body) w Q.
Proof.
  intros HI Hb. unfold forever. apply spec_loop with (I := fun _ => I); [intros; apply _|intros; apply _|done|].
  intros [] es w1 H1. apply spec_bind; [apply _|intros; apply _|]. eapply spec_mono; [|apply (Hb es w1 H1)]. cbn beta.
  intros [[]|h|c|] es' w2 H2; try done. apply spec_ret. by rewrite app_nil_r.
Qed.

Lemma emits_impl (P P' : event -> Prop) {A} (m : M A) :
  (forall e, P e -> P' e) -> Emits P m -> Emits P' m.
Proof.
  intros Hi Hm w. destruct (Hm w) as (es & Hl & Hs & HP). exists es. split_and!; [done|done|].
  eapply Forall_impl; [exact HP|done].
Qed.

(** Show that a program emits only certain events by opening the functions that
    print diagnostics. *)
Ltac emits_tac :=
  unfold errExit, err_exit, errExitEN, fatal, usageErr, cmdLineErr, errMsg, outputError, terminate;
  apply _.
