(* ===== verification/GetNum.v ===== *)
(** * GetNum: numeric command-line arguments (lib/get_num.c)

    [getLong] and [getInt] parse an argument with [strtol] under a flag mask
    and end the process with a diagnostic when it is not acceptable. *)

From S2P Require Import Prelude Clib Sys Errors Frame.

Definition GN_NONNEG : Z := 1.      (* 01 *)
Definition GN_GT_0 : Z := 2.        (* 02 *)
Definition GN_ANY_BASE : Z := 64.   (* 0100 *)
Definition GN_BASE_8 : Z := 128.    (* 0200 *)
Definition GN_BASE_16 : Z := 256.   (* 0400 *)

(** [None] is the null pointer. *)
Definition gnFail {A} (fname msg : string) (arg name : option string) : M A :=
  _ ← fputs Stderr (cstr fname +:+ " error");
  _ ← match name with Some n => fputs Stderr (" (in " +:+ cstr n +:+ ")") | None => mret tt end;
  _ ← fputs Stderr (": " +:+ cstr msg +:+ nl);
  _ ← match arg with
      | Some a => when (negb (ceqb (schar 0 a) nul))
                       (fputs Stderr ("        offending text: " +:+ cstr a +:+ nl))
      | None => mret tt
      end;
  exit EXIT_FAILURE.

Definition gn_base (flags : Z) : Z :=
  if has flags GN_ANY_BASE then 0
  else if has flags GN_BASE_8 then 8
  else if has flags GN_BASE_16 then 16 else 10.

Definition getNum (fname : string) (arg : option string) (flags : Z) (name : option string) : M Z :=
  match arg with
  | None => gnFail fname "null or empty string" arg name
  | Some a =>
      if ceqb (schar 0 a) nul then gnFail fname "null or empty string" arg name
      else
        _ ← set_errno 0;
        let '(res, endptr, e) := strtol a (gn_base flags) in
        _ ← when (negb (e =? 0)) (set_errno e);
        errno ← get_errno;
        if negb (errno =? 0) then gnFail fname "strtol() failed" arg name
        else if negb (ceqb (schar 0 endptr) nul) then gnFail fname "nonnumeric characters" arg name
        else if has flags GN_NONNEG && (res <? 0) then gnFail fname "negative value not allowed" arg name
        else if has flags GN_GT_0 && (res <=? 0) then gnFail fname "value must be > 0" arg name
        else mret res
  end.

Definition getLong (arg : option string) (flags : Z) (name : option string) : M Z :=
  getNum "getLong" arg flags name.

Definition getInt (arg : option string) (flags : Z) (name : option string) : M Z :=
  res ← getNum "getInt" arg flags name;
  if (res >? INT_MAX) || (res <? INT_MIN) then gnFail "getInt" "integer out of range" arg name
  else mret res.

#[export] Instance gnFail_sane {A} f m a n : Sane (gnFail (A:=A) f m a n).
Proof. unfold gnFail. apply _. Qed.
#[export] Instance gnFail_uses {A} f m a n : Uses (gnFail (A:=A) f m a n).
Proof. unfold gnFail. apply _. Qed.
#[export] Instance getNum_sane f a fl n : Sane (getNum f a fl n).
Proof. unfold getNum. apply _. Qed.
#[export] Instance getLong_sane a fl n : Sane (getLong a fl n).
Proof. apply getNum_sane. Qed.
#[export] Instance getInt_sane a fl n : Sane (getInt a fl n).
Proof. unfold getInt. apply _. Qed.

#[export] Instance gnFail_total {A} f m a n : Total (gnFail (A:=A) f m a n).
Proof. unfold gnFail. apply _. Qed.
#[export] Instance getNum_total f a fl n : Total (getNum f a fl n).
Proof. unfold getNum. apply _. Qed.
#[export] Instance getLong_total a fl n : Total (getLong a fl n).
Proof. apply getNum_total. Qed.
#[export] Instance getInt_total a fl n : Total (getInt a fl n).
Proof. unfold getInt. apply _. Qed.
#[export] Instance getNum_diag f a fl n : Emits diag (getNum f a fl n).
Proof. unfold getNum, gnFail. apply _. Qed.
#[export] Instance getLong_diag a fl n : Emits diag (getLong a fl n).
Proof. apply getNum_diag. Qed.
#[export] Instance getInt_diag a fl n : Emits diag (getInt a fl n).
Proof. unfold getInt, gnFail. apply _. Qed.

(** ** The accepted arguments *)

(** The number an argument denotes under [flags], if it is acceptable as a [long]. *)
Definition num_value (flags : Z) (arg : option string) : option Z :=
  match arg with
  | None => None
  | Some a =>
      let '(v, rest, e) := strtol a (gn_base flags) in
      if (e =? 0) && String.eqb (cstr rest) "" && negb (String.eqb (cstr a) "")
         && implb (has flags GN_NONNEG) (0 <=? v) && implb (has flags GN_GT_0) (0 <? v)
      then Some v else None
  end.

Lemma num_value_pos a n : num_value GN_GT_0 a = Some n -> 0 < n.
Proof.
  unfold num_value. destruct a as [a|]; [|done]. destruct (strtol _ _) as [[v rest] e].
  destruct (_ && _) eqn:E; [|done]. intros [= <-]. apply andb_prop in E as [_ E]. exact (proj1 (Z.ltb_lt _ _) E).
Qed.

Lemma schar0_cstr s : ceqb (schar 0 s) nul = String.eqb (cstr s) "".
Proof. destruct s as [|c s]; [done|]. simpl. by destruct (ceqb c nul). Qed.

Section GetNumSpecs.
Context (law : call -> resp -> Prop).

Lemma spec_gnFail {A} f m a n w (Q : outcome A -> list event -> world -> Prop) :
(forall es w', Forall diag es -> Q (Halt (Exit EXIT_FAILURE)) es w') ->
spec law (gnFail f m a n) w Q.
Proof. intros H. unfold gnFail. spec_run; apply H; simpl; repeat constructor. Qed.

Lemma spec_getNum f a fl n w (Q : outcome Z -> list event -> world -> Prop) :
(forall v w', num_value fl a = Some v -> Q (Ret v) [] w') ->
(forall es w', num_value fl a = None -> Forall diag es ->
 Q (Halt (Exit EXIT_FAILURE)) es w') ->
spec law (getNum f a fl n) w Q.
Proof.
intros HS HF. unfold getNum. unfold num_value in *.
destruct a as [a|]; [|apply spec_gnFail; by auto].
rewrite schar0_cstr. destruct (strtol a (gn_base fl)) as [[v rest] e].
rewrite (schar0_cstr rest).
replace (0 <=? v) with (negb (v <? 0)) in * by (symmetry; apply Z.leb_antisym).
replace (0 <? v) with (negb (v <=? 0)) in * by (symmetry; apply Z.ltb_antisym).
destruct (String.eqb (cstr a) "").
{ apply spec_gnFail. intros. apply HF; [|done]. by rewrite andb_false_r. }
spec_step; spec_step. spec_step.
apply spec_mono with (Q := fun o es w1 => o = Ret tt /\ es = [] /\ errno w1 = e).
2: { destruct (e =? 0) eqn:E; zbool; cbn [negb when]; spec_run; simpl; subst; done. }
intros ? ? w1 (-> & -> & He1). spec_step; spec_step. rewrite He1.
destruct (e =? 0), (String.eqb (cstr rest) ""), (has fl GN_NONNEG), (has fl GN_GT_0),
(v <? 0), (v <=? 0); cbn [negb andb];
first [apply spec_ret; by apply HS
|apply spec_gnFail; intros; by apply HF].
Qed.

Lemma spec_getInt a fl n w (Q : outcome Z -> list event -> world -> Prop) :
(forall v w', num_value fl a = Some v -> in_int v -> Q (Ret v) [] w') ->
(forall es w', (forall v, num_value fl a = Some v -> ~ in_int v) -> Forall diag es ->
 Q (Halt (Exit EXIT_FAILURE)) es w') ->
spec law (getInt a fl n) w Q.
Proof.
intros HS HF. unfold getInt. spec_step. apply spec_getNum.
- intros v w' Hv. destruct ((v >? INT_MAX) || (v <? INT_MIN)) eqn:E.
+ apply spec_gnFail. intros es w'' Hes. apply HF; [|done].
intros v' [= <-]%(eq_trans (eq_sym Hv)). unfold in_int.
apply orb_true_iff in E as [E|E]; [rewrite Z.gtb_ltb in E|]; apply Z.ltb_lt in E; lia.
+ zbool. apply spec_ret. apply HS; [done|]. unfold in_int. zbool. lia.
- intros es w' Hn Hes. apply HF; [|done]. congruence.
Qed.
End GetNumSpecs.

(** C31.  [getInt] is total and exact: it returns precisely when the argument
    denotes, in the base its flags select, an [int] that satisfies the sign
    flags, and returns that number without printing anything; otherwise it
    prints a diagnostic on stderr only and exits with status 1.  It never
    blocks. *)
Theorem getInt_exact law arg flags name w :
  spec law (getInt arg flags name) w (fun o es _ =>
    match o with
    | Ret v => num_value flags arg = Some v /\ in_int v /\ es = []
               /\ (has flags GN_NONNEG = true -> 0 <= v) /\ (has flags GN_GT_0 = true -> 0 < v)
    | Halt h => h = Exit EXIT_FAILURE /\ Forall diag es
                /\ (forall v, num_value flags arg = Some v -> ~ in_int v)
    | _ => False
    end).
Proof.
  apply spec_getInt; [|by auto].
  intros v w' Hv Hi. split_and!; [done|done|done|..];
    unfold num_value in Hv; destruct arg as [a|]; try done;
    destruct (strtol a (gn_base flags)) as [[v' rest] e];
    match type of Hv with (if ?b then _ else _) = _ => destruct b eqn:E end; try done;
    injection Hv as <-; repeat (apply andb_true_iff in E as [E ?]);
    intros Hf; rewrite Hf in *; cbn in *; zbool; lia.
Qed.

Lemma num_value_dec flags z :
  gn_base flags = 10 -> in_long z ->
  (has flags GN_NONNEG = true -> 0 <= z) -> (has flags GN_GT_0 = true -> 0 < z) ->
  num_value flags (Some (dec z)) = Some z.
Proof.
  intros Hb Hz H1 H2. unfold num_value. rewrite Hb.
  pose proof (strtol_dec z EmptyString Hz eq_refl) as Ht. rewrite sapp_nil_r in Ht.
  rewrite Ht, (cstr_nonul (dec z)) by apply dec_nonul. change (cstr (cstr "") =? "")%string with true.
  assert (String.eqb (dec z) "" = false) as ->.
  { apply String.eqb_neq. unfold dec. destruct (z <? 0) eqn:E; [done|zbool].
    by destruct (unum_spec 10 z) as (? & _); [lia|lia|]. }
  cbn [andb negb Z.eqb].
  destruct (has flags GN_NONNEG), (has flags GN_GT_0); cbn [implb andb];
    repeat match goal with |- context [?a <=? ?b] =>
      replace (a <=? b) with true by (symmetry; apply Z.leb_le; auto with lia) end;
    repeat match goal with |- context [?a <? ?b] =>
      replace (a <? b) with true by (symmetry; apply Z.ltb_lt; auto with lia) end; done.
Qed.

(** C32.  Round trip: an [int] printed with [%d] is read back by [getInt] as the
    same number, in any world, provided the flags select base 10 and the number
    satisfies the sign flags. *)
Theorem getInt_roundtrip law z flags name w :
  gn_base flags = 10 -> in_int z ->
  (has flags GN_NONNEG = true -> 0 <= z) -> (has flags GN_GT_0 = true -> 0 < z) ->
  spec law (getInt (Some (dec z)) flags name) w (fun o es _ => o = Ret z /\ es = []).
Proof.
  intros Hb Hz H1 H2.
  assert (Hl : in_long z)
    by (unfold in_int, in_long, INT_MIN, INT_MAX, LONG_MIN, LONG_MAX in *; lia).
  pose proof (num_value_dec flags z Hb Hl H1 H2) as Hn.
  apply spec_getInt.
  - intros v w' Hv _. rewrite Hn in Hv. by injection Hv as <-.
  - intros es w' Hno _. by destruct (Hno z Hn).
Qed.

Example getInt_roundtrip_witness :
  spec any_answer (getInt (Some "2147483647") GN_GT_0 None) (start []) (fun o es _ =>
    o = Ret 2147483647 /\ es = []).
Proof.
  apply (getInt_roundtrip any_answer 2147483647 GN_GT_0 None (start []));
    [reflexivity|unfold in_int, INT_MIN, INT_MAX; lia|lia|lia].
Defined.

(** Concrete runs: bases, overflow, trailing characters, empty argument. *)
Example getNum_runs :
  map (fun '(fl, a) => fst (getLong (Some a) fl None (start [])))
    [(GN_ANY_BASE, "0x1fz"); (GN_ANY_BASE, "0x1f"); (GN_BASE_8, "777"); (0, " -12");
     (0, "9223372036854775808"); (0, ""); (GN_NONNEG, "-1")]%string
  = [Halt (Exit 1); Ret 31; Ret 511; Ret (-12); Halt (Exit 1); Halt (Exit 1); Halt (Exit 1)].
Proof. reflexivity. Qed.
