(* ===== verification/RdWr.v ===== *)
(** * RdWr: complete transfers (lib/rdwrn.c) and line input (lib/read_line.c)

    [readn]/[writen] restart after partial transfers and interruptions;
    [readLine] reads one line a byte at a time.  A function that stores through
    a pointer returns the bytes it stored, from the start of the buffer. *)

From S2P Require Import Prelude Clib Sys Errors.

(** ** Documented behaviour of [read] and [write] *)

Definition posix_io (c : call) (r : resp) : Prop :=
  match c with
  | Read _ n => r_ret r = -1 /\ 0 < r_err r
                \/ 0 <= r_ret r <= n /\ slen (r_buf r) = r_ret r /\ r_err r = 0
  | Write _ d => r_ret r = -1 /\ 0 < r_err r \/ 0 <= r_ret r <= slen d /\ r_err r = 0
  | _ => True
  end.

(** The bytes a trace received from, or handed to, a descriptor. *)
Fixpoint delivered (fd : Z) (es : list event) : string :=
  match es with
  | [] => EmptyString
  | Called (Read fd' _) r :: es =>
      (if fd' =? fd then ztake (r_ret r) (r_buf r) else EmptyString) +:+ delivered fd es
  | _ :: es => delivered fd es
  end.
Fixpoint sent (fd : Z) (es : list event) : string :=
  match es with
  | [] => EmptyString
  | Called (Write fd' d) r :: es =>
      (if fd' =? fd then ztake (r_ret r) d else EmptyString) +:+ sent fd es
  | _ :: es => sent fd es
  end.

(** ** lib/rdwrn.c *)

Definition readn (fd n : Z) : M (Z * string) :=
  loop (fun '(totRead, buf) =>
    if negb (totRead <? n) then mret (inr (totRead, buf))
    else
      r ← sys (Read fd (n - totRead));
      let numRead := r_ret r in
      if numRead =? 0 then mret (inr (totRead, buf))
      else if numRead =? -1 then
        e ← get_errno;
        if e =? EINTR then mret (inl (totRead, buf)) else mret (inr (-1, buf))
      else mret (inl (totRead + numRead, buf +:+ ztake numRead (r_buf r))))
    (0, EmptyString).

Definition writen (fd : Z) (buffer : string) (n : Z) : M Z :=
  loop (fun totWritten =>
    if negb (totWritten <? n) then mret (inr totWritten)
    else
      r ← sys (Write fd (ztake (n - totWritten) (zdrop totWritten buffer)));
      let numWritten := r_ret r in
      e ← get_errno;
      if numWritten <=? 0 then
        if (numWritten =? -1) && (e =? EINTR) then mret (inl totWritten) else mret (inr (-1))
      else mret (inl (totWritten + numWritten)))
    0.

(** ** lib/read_line.c *)

Definition readLine (fd : Z) (nonnull : bool) (n : Z) : M (Z * string) :=
  if (n <=? 0) || negb nonnull then
    _ ← set_errno EINVAL; mret (-1, EmptyString)
  else
    loop (fun '(totRead, buf) =>
      r ← sys (Read fd 1);
      let numRead := r_ret r in
      if numRead =? -1 then
        e ← get_errno;
        if e =? EINTR then mret (inl (totRead, buf)) else mret (inr (-1, buf))
      else if numRead =? 0 then
        if totRead =? 0 then mret (inr (0, buf))
        else mret (inr (totRead, buf +:+ String nul EmptyString))
      else
        let ch := schar 0 (r_buf r) in
        let '(totRead, buf) :=
          if totRead <? n - 1 then (totRead + 1, buf +:+ String ch EmptyString) else (totRead, buf) in
        if ceqb ch nlc then mret (inr (totRead, buf +:+ String nul EmptyString))
        else mret (inl (totRead, buf)))
      (0, EmptyString).

#[export] Instance readn_sane fd n : Sane (readn fd n).
Proof. unfold readn. apply _. Qed.
#[export] Instance writen_sane fd b n : Sane (writen fd b n).
Proof. unfold writen. apply _. Qed.
#[export] Instance readLine_sane fd b n : Sane (readLine fd b n).
Proof. unfold readLine. apply _. Qed.

(** ** Transfer lemmas *)

Lemma delivered_app fd es fs : delivered fd (es ++ fs) = delivered fd es +:+ delivered fd fs.
Proof. induction es as [|[[]| |]]; simpl; try done. by rewrite IHes, sapp_assoc. Qed.
Lemma sent_app fd es fs : sent fd (es ++ fs) = sent fd es +:+ sent fd fs.
Proof. induction es as [|[[]| |]]; simpl; try done. by rewrite IHes, sapp_assoc. Qed.

Lemma delivered_read fd n r :
  delivered fd [Called (Read fd n) r] = ztake (r_ret r) (r_buf r).
Proof. simpl. by rewrite Z.eqb_refl, sapp_nil_r. Qed.
Lemma sent_write fd d r : sent fd [Called (Write fd d) r] = ztake (r_ret r) d.
Proof. simpl. by rewrite Z.eqb_refl, sapp_nil_r. Qed.

Lemma ztake_neg n s : n <= 0 -> ztake n s = EmptyString.
Proof. intros H. unfold ztake. by replace (Z.to_nat n) with O by lia. Qed.

#[export] Hint Rewrite delivered_app sent_app sapp_nil_r : bytes.

(** What was handed to [write], to any descriptor, in order. *)
Fixpoint writes (es : list event) : list string :=
  match es with
  | [] => []
  | Called (Write _ d) _ :: es => d :: writes es
  | _ :: es => writes es
  end.

Lemma writes_app es fs : writes (es ++ fs) = writes es ++ writes fs.
Proof. induction es as [|[[]| |] es IH]; simpl; try done. by f_equal. Qed.
Lemma writes_diag es : Forall diag es -> writes es = [].
Proof. intros H. induction H as [|[[]| |] es He _ IH]; simpl in *; try tauto; done. Qed.

(** The last call of a trace was a [read] that reported end of file. *)
Definition at_eof (fd : Z) (es : list event) : Prop :=
  exists es0 n r, es = es0 ++ [Called (Read fd n) r] /\ r_ret r = 0.

(** Every event of the trace is a [read] (a [write]) on [fd]. *)
Definition only_reads (fd : Z) (e : event) : Prop :=
  match e with Called (Read fd' _) _ => fd' = fd | _ => False end.
Definition only_writes (fd : Z) (e : event) : Prop :=
  match e with Called (Write fd' _) _ => fd' = fd | _ => False end.

(** What [readn fd n] promises. *)
Definition readn_post (fd n : Z) (o : outcome (Z * string)) (es : list event) (w' : world) : Prop :=
  Forall (only_reads fd) es /\ slen (delivered fd es) <= n /\
  match o with
  | Ret (ret, buf) =>
      buf = delivered fd es
      /\ (ret = slen buf /\ (ret < n -> at_eof fd es) \/ ret = -1 /\ errno w' <> EINTR)
  | Blocked (Read fd' k) => fd' = fd /\ k = n - slen (delivered fd es) /\ 0 < k
  | _ => False
  end.

(** C1.  [readn] for any sequence of documented [read] answers: the buffer
    holds exactly the bytes delivered; the result is their number, short of [n]
    only at end of file; -1 only for an error other than EINTR; it never asks
    for more than the bytes still missing, so it cannot overrun the buffer or
    read past the [n] bytes, and it always comes to an end. *)
Theorem readn_correct fd n w :
  0 <= n ->
  spec posix_io (readn fd n) w (readn_post fd n).
Proof.
  intros Hn. unfold readn, readn_post.
  apply spec_loop with (I := fun '(tot, buf) es _ =>
    Forall (only_reads fd) es /\ buf = delivered fd es /\ tot = slen buf /\ tot <= n);
    [intros []; apply _|intros []; apply _|by split_and!|].
  intros [tot buf] es w1 (Hes & -> & -> & Htot).
  destruct (negb (slen (delivered fd es) <? n)) eqn:E; zbool.
  - spec_run. rewrite !app_nil_r. split_and!; [done|lia|done|left; split; [done|lia]].
  - spec_step. spec_step.
    { cbn [pass]. rewrite app_nil_r. split_and!; [done|lia|done|done|lia]. }
    assert (Hes' : Forall (only_reads fd) (es ++ [Called (Read fd (n - slen (delivered fd es))) r]))
      by (apply Forall_app; split; [done|by constructor]).
    destruct Hlaw as [[Hr Herr]|(Hr & Hlen & Herr)].
    + assert (Hd : delivered fd (es ++ [Called (Read fd (n - slen (delivered fd es))) r])
                   = delivered fd es)
        by (by rewrite delivered_app, delivered_read, Hr, ztake_neg, sapp_nil_r by lia).
      rewrite Hr. spec_run; zbool; try congruence; cbn [app] in *; rewrite ?app_nil_r, ?Hd.
      * by split_and!.
      * split_and!; [done..|right]. by split.
    + assert (Hd : delivered fd (es ++ [Called (Read fd (n - slen (delivered fd es))) r])
                   = delivered fd es +:+ r_buf r)
        by (rewrite delivered_app, delivered_read, ztake_all by lia; done).
      spec_run; zbool; try lia; cbn [app] in *; rewrite ?app_nil_r, ?Hd, ?slen_app.
      * rewrite (slen_zero (r_buf r)), sapp_nil_r by lia. cbn [slen].
        split_and!; [done|slen_lia|done|left; split; [done|]].
        intros _. by exists es, (n - slen (delivered fd es)), r.
      * rewrite (ztake_all (r_ret r) (r_buf r)), ?slen_app by lia. split_and!; [done|done|lia|lia].
Qed.

Example readn_correct_witness :
  let w := start [got "ab"; err EINTR; got "cd"; ok 0] in
  fst (readn 3 6 w) = Ret (4, "abcd"%string) /\ 0 <= 6
  /\ spec posix_io (readn 3 6) w (readn_post 3 6).
Proof.
  split; [reflexivity|]. split; [lia|]. apply readn_correct. lia.
Defined.

(** What [writen fd buffer n] promises. *)
Definition writen_post (fd : Z) (buffer : string) (n : Z) (o : outcome Z) (es : list event)
    (_ : world) : Prop :=
  Forall (only_writes fd) es /\ sent fd es = ztake (slen (sent fd es)) buffer
  /\ slen (sent fd es) <= n /\
  match o with
  | Ret ret => ret = n /\ sent fd es = ztake n buffer \/ ret = -1 /\ slen (sent fd es) < n
  | Blocked (Write fd' d) => fd' = fd /\ sent fd es +:+ d = ztake n buffer /\ d <> EmptyString
  | _ => False
  end.



(** *** [readLine] *)

(** No newline in a string; a line: no newline before its last byte. *)
Definition nonl (s : string) : bool := sforall (fun c => negb (ceqb c nlc)) s.

(** What [readLine fd nonnull n] promises.  [line] is what was taken from the
    descriptor: at most one newline, at the very end, so nothing of the next
    line is consumed.  On success the buffer holds the first [n - 1] bytes of it
    and a terminator.  (At end of file a buffer of one byte is left without a
    terminator, even when bytes were discarded: the test is on [totRead].) *)
Definition readLine_post (fd n : Z) (o : outcome (Z * string)) (es : list event) (w' : world) : Prop :=
  let line := delivered fd es in
  Forall (only_reads fd) es /\
  match o with
  | Ret (ret, buf) =>
      slen buf <= n /\
      (ret = 0 /\ buf = EmptyString /\ at_eof fd es /\ nonl line = true
           /\ (line = EmptyString \/ n = 1)
       \/ (ret = Z.min (n - 1) (slen line) /\ line <> EmptyString
           /\ buf = ztake (n - 1) line +:+ String nul EmptyString
           /\ (nonl line = true /\ at_eof fd es
               \/ exists l, line = l +:+ nl /\ nonl l = true))
       \/ ret = -1 /\ nonl line = true /\ errno w' <> EINTR)
  | Blocked c => c = Read fd 1 /\ nonl line = true
  | _ => False
  end.

Lemma nonl_app s t : nonl (s +:+ t) = nonl s && nonl t.
Proof. apply sforall_app. Qed.

(** One byte more, kept only while the buffer has room. *)
Lemma ztake_snoc m s c : 0 <= m ->
  ztake m (s +:+ String c EmptyString)
  = if slen s <? m then ztake m s +:+ String c EmptyString else ztake m s.
Proof.
  intros Hm. destruct (slen s <? m) eqn:E; zbool.
  - rewrite !ztake_all; [done|lia|autorewrite with bytes; lia].
  - apply ztake_app_l. lia.
Qed.

Lemma one_byte s : slen s = 1 -> exists c, s = String c EmptyString.
Proof.
  destruct s as [|c [|d s]]; [done|by exists c|].
  rewrite !slen_cons. pose proof (slen_nonneg s). lia.
Qed.

(** The length and the buffer after one more byte. *)
Lemma store_byte n line c : 1 <= n ->
  (if Z.min (n - 1) (slen line) <? n - 1
   then (Z.min (n - 1) (slen line) + 1, ztake (n - 1) line +:+ String c EmptyString)
   else (Z.min (n - 1) (slen line), ztake (n - 1) line))
  = (Z.min (n - 1) (slen line + 1), ztake (n - 1) (line +:+ String c EmptyString)).
Proof.
  intros Hn. rewrite ztake_snoc by lia. destruct (slen line <? n - 1) eqn:E; zbool.
  - replace (Z.min (n - 1) (slen line) <? n - 1) with true by (symmetry; apply Z.ltb_lt; lia).
    f_equal. lia.
  - replace (Z.min (n - 1) (slen line) <? n - 1) with false by (symmetry; apply Z.ltb_ge; lia).
    f_equal. lia.
Qed.

Lemma spec_readLine fd n w :
  1 <= n ->
  spec posix_io (readLine fd true n) w (readLine_post fd n).
Proof.
  intros Hn. unfold readLine, readLine_post.
  replace (n <=? 0) with false by (symmetry; apply Z.leb_gt; lia). cbn [orb negb].
  apply spec_loop with (I := fun '(tot, buf) es _ =>
    Forall (only_reads fd) es /\ nonl (delivered fd es) = true
    /\ tot = Z.min (n - 1) (slen (delivered fd es)) /\ buf = ztake (n - 1) (delivered fd es));
    [intros []; apply _|intros []; apply _|split_and!; [done|done|cbn [delivered]; rewrite slen_nil; lia|]|].
  { cbn [delivered]. by rewrite ztake_nil. }
  intros [tot buf] es w1 (Hes & Hnl & -> & ->).
  set (line := delivered fd es) in *.
  pose proof (slen_nonneg line) as Hl0.
  assert (Hbuf : slen (ztake (n - 1) line) <= n - 1) by (rewrite slen_ztake by lia; lia).
  spec_step. spec_step; [cbn [pass]; rewrite app_nil_r; by split_and!|].
  assert (Hes' : Forall (only_reads fd) (es ++ [Called (Read fd 1) r]))
    by (apply Forall_app; split; [done|by constructor]).
  assert (Hd : delivered fd (es ++ [Called (Read fd 1) r]) = line +:+ ztake (r_ret r) (r_buf r))
    by (by rewrite delivered_app, delivered_read).
  destruct Hlaw as [[Hr Herr]|(Hr & Hlen & Herr)].
  - rewrite Hr, ztake_neg, sapp_nil_r in Hd by lia.
    rewrite Hr. spec_run; zbool; try congruence; cbn [app] in *; rewrite ?app_nil_r, ?Hd;
      split_and!; try done; [lia|].
    right; right. by split_and!.
  - destruct (r_ret r =? -1) eqn:E1; [zbool; lia|]. zbool.
    destruct (r_ret r =? 0) eqn:E0; zbool.
    + rewrite E0, ztake_0, sapp_nil_r in Hd.
      assert (Heof : at_eof fd (es ++ [Called (Read fd 1) r])) by (by exists es, 1, r).
      spec_run; zbool; cbn [app]; rewrite ?app_nil_r, ?Hd; split_and!; try done.
      * lia.
      * assert (Hz : line = EmptyString \/ n = 1).
        { destruct (decide (slen line = 0)); [left; by apply slen_zero|right; lia]. }
        left. split_and!; try done. by destruct Hz as [-> | ->]; rewrite ?ztake_nil, ?ztake_0.
      * rewrite slen_app. change (slen (String nul "")) with 1. lia.
      * right; left. split_and!; try done; [|by left].
        intros Hz. rewrite Hz, slen_nil in *. lia.
    + destruct (one_byte (r_buf r)) as [c Hc]; [lia|]. rewrite Hc in *.
      rewrite ztake_all in Hd by (change (slen (String c "")) with 1; lia).
      cbn [schar].
      rewrite store_byte by done.
      assert (Hsl : slen (line +:+ String c "") = slen line + 1)
        by (rewrite slen_app; change (slen (String c "")) with 1; lia).
      spec_run; zbool; cbn [app]; rewrite ?app_nil_r, ?Hd.
      * apply ceqb_eq in Heqb as ->. split_and!; [done| |].
        { rewrite slen_app, slen_ztake by lia. change (slen (String nul "")) with 1. lia. }
        right; left. split_and!; [by rewrite Hsl|by destruct line|done|].
        right. by exists line.
      * split_and!; [done| |by rewrite Hsl|done].
        rewrite nonl_app, Hnl. unfold nonl. cbn [sforall]. by rewrite Heqb.
Qed.



(** Without a buffer, or with no room at all, nothing is read. *)
Lemma readLine_invalid fd nonnull n w :
  n <= 0 \/ nonnull = false ->
  readLine fd nonnull n w = (Ret (-1, EmptyString), World (script w) (log w) EINVAL).
Proof.
  intros H. unfold readLine.
  assert ((n <=? 0) || negb nonnull = true) as ->; [|done].
  apply orb_true_iff. destruct H as [H| ->]; [left; by apply Z.leb_le|by right].
Qed.
