(* ===== verification/Getopt.v ===== *)
(** * Getopt: getopt(3) of glibc, as the programs use it

    The programs call [getopt] in a loop until it returns -1 and then read the
    operands from [optind] on.  The answers of the successive calls depend only
    on the argument vector and the option string, so they are computed at once:
    [getopt_scan] lists them and the operands, in the permuted order glibc
    leaves them in (POSIXLY_CORRECT unset).  Only options without an argument
    and with a required one are modelled; the programs use no other. *)

From S2P Require Import Prelude Clib Sys Errors.

(** What one call reports: the character returned, [optarg], and the text
    printed on stderr when it is an error. *)
Record optret := Optret { o_char : ascii; o_arg : option string; o_msg : option string }.

Inductive optkind := OptNone | OptFlag | OptArg.

(** Look a character up in the option string. *)
Fixpoint opt_lookup (os : string) (c : ascii) : optkind :=
  match os with
  | EmptyString => OptNone
  | String d os' =>
      if ceqb c d then (if ceqb (schar 0 os') ":" then OptArg else OptFlag) else opt_lookup os' c
  end.
Definition opt_kind (os : string) (c : ascii) : optkind :=
  if ceqb c ":" || ceqb c ";" then OptNone else opt_lookup os c.

Definition opt_error (prog : string) (what : string) (c : ascii) : optret :=
  Optret "?" None (Some (cstr prog +:+ ": " +:+ what +:+ " -- '" +:+ String c EmptyString +:+ "'" +:+ nl)).

(** The characters after the dash of one element; [Some c]: option [c] takes
    the next element as its argument. *)
Fixpoint getopt_cluster (prog os cl : string) : list optret * option ascii :=
  match cl with
  | EmptyString => ([], None)
  | String c cl' =>
      match opt_kind os c with
      | OptNone =>
          let '(rs, pend) := getopt_cluster prog os cl' in
          (opt_error prog "invalid option" c :: rs, pend)
      | OptFlag =>
          let '(rs, pend) := getopt_cluster prog os cl' in (Optret c None None :: rs, pend)
      | OptArg =>
          match cl' with
          | EmptyString => ([], Some c)
          | _ => ([Optret c (Some cl') None], None)
          end
      end
  end.

(** An element with options: a dash and at least one more character. *)
Definition is_option (a : string) : bool :=
  match a with String c (String _ _) => ceqb c "-" | _ => false end.
Definition stail (s : string) : string := match s with String _ s => s | EmptyString => EmptyString end.

(** The elements after the program's name; [pend] waits for its argument. *)
Fixpoint getopt_scan (prog os : string) (pend : option ascii) (l : list string)
    : list optret * list string :=
  match l with
  | [] =>
      (match pend with Some c => [opt_error prog "option requires an argument" c] | None => [] end, [])
  | a :: l' =>
      match pend with
      | Some c =>
          let '(rs, ops) := getopt_scan prog os None l' in (Optret c (Some (cstr a)) None :: rs, ops)
      | None =>
          if strcmp_eq a "--" then ([], l') else
          if is_option (cstr a) then
            let '(rs, pend') := getopt_cluster prog os (stail (cstr a)) in
            let '(rs', ops) := getopt_scan prog os pend' l' in (rs ++ rs', ops)
          else let '(rs, ops) := getopt_scan prog os None l' in (rs, a :: ops)
      end
  end.

Definition getopt_of (argv : list string) (os : string) : list optret * list string :=
  getopt_scan (argv_at argv 0) os None (tail argv).

(** [while ((opt = getopt(argc, argv, os)) != -1) s = f(opt)]: the final value
    and the operands, [argv[optind]] and after. *)
Definition getopt_loop {S} (argv : list string) (os : string)
    (f : S -> ascii -> option string -> M S) (s : S) : M (S * list string) :=
  let '(rs, operands) := getopt_of argv os in
  s ← fold_m (fun s r =>
        _ ← match o_msg r with Some m => fputs Stderr m | None => mret tt end;
        f s (o_char r) (o_arg r)) s rs;
  mret (s, operands).

#[export] Instance getopt_loop_sane {S} argv os (f : S -> ascii -> option string -> M S) s :
  (forall s c a, Sane (f s c a)) -> Sane (getopt_loop argv os f s).
Proof. intros. unfold getopt_loop. destruct (getopt_of argv os). apply _. Qed.

(** ** The command lines of a program with flags only *)

(** Options, then operands that are not options. *)
Lemma getopt_scan_flags prog os (cs : list ascii) (ops : list string) :
  Forall (fun c => opt_kind os c = OptFlag /\ ceqb c nul = false /\ ceqb c "-" = false) cs ->
  Forall (fun a => is_option (cstr a) = false) ops ->
  getopt_scan prog os None (map (fun c => String "-" (String c EmptyString)) cs ++ ops)
  = (map (fun c => Optret c None None) cs, ops).
Proof.
  intros Hcs Hops. induction Hcs as [|c cs (Hk & Hn & Hd) _ IH]; simpl.
  - clear -Hops. induction Hops as [|a ops Ha _ IH]; simpl; [done|].
    assert (Hs : strcmp_eq a "--" = false).
    { unfold strcmp_eq. apply String.eqb_neq. intros He. by rewrite He in Ha. }
    by rewrite Hs, Ha, IH.
  - unfold strcmp_eq, is_option. cbn. rewrite Hn. cbn. rewrite Hk, IH.
    unfold ceqb in Hd. by rewrite Hd.
Qed.

(** When each known option updates the value by [g] and a bad one ends the
    program, the loop computes the fold of [g] over the options. *)
Definition opt_fold {S} (g : S -> ascii -> option string -> S) (rs : list optret) (s : S) : S :=
  fold_left (fun s r => g s (o_char r) (o_arg r)) rs s.

Lemma spec_getopt_loop {S} law argv os (f : S -> ascii -> option string -> M S) g s w
    (Q : outcome (S * list string) -> list event -> world -> Prop)
    `{Hs : !forall s c a, Sane (f s c a)} :
  (forall s c a w1 (R : outcome S -> list event -> world -> Prop),
     R (Ret (g s c a)) [] w1 ->
     (forall c es w', Forall diag es -> R (Blocked c) es w') ->
     (forall h es w', died h -> Forall diag es -> R (Halt h) es w') -> spec law (f s c a) w1 R) ->
  (forall c es w', Forall diag es -> Q (Blocked c) es w') ->
  (forall h es w', died h -> Forall diag es -> Q (Halt h) es w') ->
  (forall es w', Forall diag es ->
     Q (Ret (opt_fold g (fst (getopt_of argv os)) s, snd (getopt_of argv os))) es w') ->
  spec law (getopt_loop argv os f s) w Q.
Proof.
  intros Hf HB HD HR. unfold getopt_loop. destruct (getopt_of argv os) as [rs ops]. simpl in HR.
  spec_step. eapply spec_mono; [|apply (spec_fold_m law _
    (fun s' l es _ => Forall diag es /\ opt_fold g l s' = opt_fold g rs s)
    (fun o es _ => Forall diag es /\ match o with
       | Ret s' => s' = opt_fold g rs s | Blocked _ => True | Halt h => died h | Diverged => False end)
    rs s [] w); [by split|by intros s' es w' [Hes <-]|]].
  - simpl. intros [s'|h|c|] es w1 [Hes Ho]; try done; [|by apply HD|by apply HB].
    spec_run. rewrite app_nil_r, Ho. by apply HR.
  - intros s1 [ch a msg] l es w1 [Hes Hfold]. cbn [o_msg o_char o_arg].
    assert (Hgo : forall w2 pre, Forall diag pre -> spec law (f s1 ch a) w2 (fun o es' _ =>
      match o with
      | Ret s' => Forall diag (es ++ pre ++ es') /\ s' = g s1 ch a
      | Diverged => False
      | Halt h => Forall diag (es ++ pre ++ es') /\ died h
      | Blocked _ => Forall diag (es ++ pre ++ es')
      end)).
    { intros w2 pre Hpre. apply Hf.
      - split; [|done]. rewrite app_nil_r. by apply Forall_app.
      - intros c fs w3 Hfs. rewrite !Forall_app. by split_and!.
      - intros h fs w3 Hh Hfs. split; [|done]. rewrite !Forall_app. by split_and!. }
    destruct msg as [m|]; spec_run.
    + eapply spec_mono; [|apply (Hgo _ [Printed Stderr m]); by repeat constructor].
      intros [] fs w3; try done. by intros [? ->].
    + eapply spec_mono; [|apply (Hgo _ [] ltac:(constructor))]. intros [] fs w3; try done. by intros [? ->].
Qed.
