(* ===== verification/Posix.v ===== *)
(** * Posix: the constants of the Linux headers the programs use, the wait-status
    macros, and what a trace leaves open

    Values are those of x86-64 Linux with glibc, the platform the repository's
    build scripts target. *)

From S2P Require Import Prelude Clib Sys Errors.

Definition STDIN_FILENO := 0.
Definition STDOUT_FILENO := 1.
Definition STDERR_FILENO := 2.

(** ** open(2), modes *)
Definition O_RDONLY := 0.
Definition O_WRONLY := 1.
Definition O_RDWR := 2.
Definition O_CREAT := 64.
Definition O_EXCL := 128.
Definition O_NOCTTY := 256.
Definition O_TRUNC := 512.
Definition O_APPEND := 1024.
Definition O_NONBLOCK := 2048.
Definition O_SYNC := 1052672.
Definition O_ASYNC := 8192.
Definition O_DIRECT := 16384.
Definition S_IRUSR := 256.
Definition S_IWUSR := 128.
Definition S_IXUSR := 64.
Definition S_IRGRP := 32.
Definition S_IWGRP := 16.
Definition S_IXGRP := 8.
Definition S_IROTH := 4.
Definition S_IWOTH := 2.
Definition S_IXOTH := 1.
Definition S_ISGID := 1024.
Definition S_IFMT := 61440.
Definition SEEK_SET := 0.
Definition SEEK_CUR := 1.
Definition SEEK_END := 2.

(** ** fcntl(2), flock(2) *)
Definition F_GETFD := 1.
Definition F_SETFD := 2.
Definition F_GETFL := 3.
Definition F_SETFL := 4.
Definition F_GETLK := 5.
Definition F_SETLK := 6.
Definition F_SETLKW := 7.
Definition F_SETOWN := 8.
Definition FD_CLOEXEC := 1.
Definition F_RDLCK := 0.
Definition F_WRLCK := 1.
Definition F_UNLCK := 2.
Definition LOCK_SH := 1.
Definition LOCK_EX := 2.
Definition LOCK_NB := 4.
Definition LOCK_UN := 8.

(** ** Signals *)
Definition SIGHUP := 1.
Definition SIGINT := 2.
Definition SIGQUIT := 3.
Definition SIGABRT := 6.
Definition SIGFPE := 8.
Definition SIGKILL := 9.
Definition SIGSEGV := 11.
Definition SIGUSR1 := 10.
Definition SIGPIPE := 13.
Definition SIGALRM := 14.
Definition SIGTERM := 15.
Definition SIGCHLD := 17.
Definition SIGCONT := 18.
Definition SIGSTOP := 19.
Definition SIGTSTP := 20.
Definition SIGTTIN := 21.
Definition SIGTTOU := 22.
Definition SIGWINCH := 28.
Definition SIGIO := 29.
Definition NSIG := 65.
Definition SIG_DFL := 0.
Definition SIG_IGN := 1.
Definition SIG_ERR := -1.
Definition SIG_BLOCK := 0.
Definition SIG_UNBLOCK := 1.
Definition SIG_SETMASK := 2.
Definition SA_RESTART := 268435456.
Definition SA_NODEFER := 1073741824.
Definition SA_SIGINFO := 4.
Definition SA_RESETHAND := 2147483648.

(** ** wait(2) *)
Definition WNOHANG := 1.
Definition WUNTRACED := 2.
Definition WCONTINUED := 8.
Definition wrap_s8 (z : Z) : Z := (z + 128) mod 256 - 128.
Definition WTERMSIG (s : Z) : Z := Z.land s 127.
Definition WEXITSTATUS (s : Z) : Z := Z.land (Z.shiftr s 8) 255.
Definition WSTOPSIG : Z -> Z := WEXITSTATUS.
Definition WIFEXITED (s : Z) : bool := WTERMSIG s =? 0.
Definition WIFSIGNALED (s : Z) : bool := 0 <? Z.shiftr (wrap_s8 (Z.land s 127 + 1)) 1.
Definition WIFSTOPPED (s : Z) : bool := Z.land s 255 =? 127.
Definition WIFCONTINUED (s : Z) : bool := s =? 65535.
Definition WCOREDUMP (s : Z) : bool := has s 128.

(** ** Sockets *)
Definition AF_UNSPEC := 0.
Definition AF_UNIX := 1.
Definition AF_INET := 2.
Definition AF_INET6 := 10.
Definition SOCK_STREAM := 1.
Definition SOCK_DGRAM := 2.
Definition SOL_SOCKET := 1.
Definition SO_REUSEADDR := 2.
Definition SO_PASSCRED := 16.
Definition IPPROTO_TCP := 6.
Definition TCP_DEFER_ACCEPT := 9.
Definition AI_PASSIVE := 1.
Definition AI_NUMERICSERV := 1024.
Definition NI_NUMERICSERV := 2.
Definition NI_MAXHOST := 1025.
Definition NI_MAXSERV := 32.
Definition SHUT_WR := 1.
Definition INET6_ADDRSTRLEN := 46.
(** Sizes of the address structures and of [sun_path]. *)
Definition SUN_PATH_SIZE := 108.
Definition SOCKADDR_UN_SIZE := 110.
Definition SOCKADDR_IN6_SIZE := 28.
Definition SOCKADDR_STORAGE_SIZE := 128.
Definition LOG_ERR := 3.
Definition LOG_WARNING := 4.

(** ** Terminals *)
Definition ISIG := 1.
Definition ICANON := 2.
Definition ECHO := 8.
Definition IEXTEN := 32768.
Definition IGNBRK := 1.
Definition BRKINT := 2.
Definition PARMRK := 8.
Definition INPCK := 16.
Definition ISTRIP := 32.
Definition INLCR := 64.
Definition IGNCR := 128.
Definition ICRNL := 256.
Definition IXON := 1024.
Definition OPOST := 1.
Definition VINTR := 0%nat.
Definition VTIME := 5%nat.
Definition VMIN := 6%nat.
Definition TCSANOW := 0.
Definition TCSADRAIN := 1.
Definition TCSAFLUSH := 2.
Definition TIOCSCTTY := 21518.
Definition TIOCGWINSZ := 21523.
Definition TIOCSWINSZ := 21524.

(** ** Descriptors a trace leaves open *)

(** The descriptors a successful call hands out. *)
Definition opens (c : call) (r : resp) : list Z :=
  match c with
  | Open _ _ _ | Socket _ _ _ | Accept _ | PosixOpenpt _ | MqOpen _ _ _ _ | ShmOpen _ _ _ =>
      if r_ret r =? -1 then [] else [r_ret r]
  | Pipe | Socketpair _ _ _ => if r_ret r =? -1 then [] else r_vals r
  | _ => []
  end.

(** Open descriptors after the events, starting from [fds]. *)
Fixpoint held_from (fds : list Z) (es : list event) : list Z :=
  match es with
  | [] => fds
  | Called (Close fd) _ :: es => held_from (filter (fun x => x <> fd) fds) es
  | Called c r :: es => held_from (fds ++ opens c r) es
  | _ :: es => held_from fds es
  end.
Definition held : list event -> list Z := held_from [].

Lemma held_from_app fds es fs : held_from fds (es ++ fs) = held_from (held_from fds es) fs.
Proof. revert fds. induction es as [|[[]| |] es IH]; intros ?; simpl; auto. Qed.

Lemma held_app es fs : held (es ++ fs) = held_from (held es) fs.
Proof. apply held_from_app. Qed.

Lemma filter_own (fd : Z) : filter (fun x => x <> fd) [fd] = [].
Proof. rewrite filter_cons_False; [done|]. tauto. Qed.

Lemma opens_diag e fds : diag e -> held_from fds [e] = fds.
Proof. destruct e as [[]| |]; simpl; try done; intros _; by rewrite app_nil_r. Qed.

(** A diagnostic opens and closes nothing. *)
Lemma held_diag fds es : Forall diag es -> held_from fds es = fds.
Proof.
  intros H. revert fds. induction H as [|e es He _ IH]; intros fds; [done|].
  change (e :: es) with ([e] ++ es). by rewrite held_from_app, opens_diag.
Qed.

(** The events leave no descriptor open besides the listening one. *)
Definition no_leak (lfd : Z) (es : list event) : Prop :=
  forall l, Forall (fun fd => fd = lfd) l -> Forall (fun fd => fd = lfd) (held_from l es).

Lemma no_leak_app lfd es fs : no_leak lfd es -> no_leak lfd fs -> no_leak lfd (es ++ fs).
Proof. intros H1 H2 l Hl. rewrite held_from_app. by apply H2, H1. Qed.

(** Opening a descriptor, using it and closing it again. *)
Lemma no_leak_session lfd c r mid k :
  opens c r = [r_ret r] -> (forall l, held_from l [Called c r] = l ++ opens c r) ->
  (forall l, held_from l mid = l) -> no_leak lfd ([Called c r] ++ mid ++ [Called (Close (r_ret r)) k]).
Proof.
  intros Ho Hc Hm l Hl. rewrite !held_from_app, Hc, Ho, Hm. cbn [held_from].
  apply Forall_forall. intros x [Hx Hin]%list_elem_of_filter.
  apply elem_of_app in Hin as [Hin|Hin]; [rewrite Forall_forall in Hl; by apply Hl|].
  by apply list_elem_of_singleton in Hin.
Qed.

(** Events that open and close nothing. *)
Lemma no_leak_neutral lfd es : (forall l, held_from l es = l) -> no_leak lfd es.
Proof. intros H l Hl. by rewrite H. Qed.
