(* ===== verification/Sockets.v ===== *)
(** * Sockets: lib/inet_sockets.c and lib/unix_sockets.c *)

From S2P Require Import Prelude Clib Sys Errors Frame Posix.

(** ** lib/inet_sockets.c *)

(** The [for] loop of [inetConnect]; [None] when no address is left. *)
Fixpoint connect_loop (rps : list addrinfo) : M (option Z) :=
  match rps with
  | [] => mret None
  | rp :: rest =>
      sfd ← scall (Socket (ai_family rp) (ai_socktype rp) (ai_protocol rp));
      if sfd =? -1 then connect_loop rest
      else
        c ← scall (Connect sfd (ai_addr rp) (ai_addrlen rp));
        if negb (c =? -1) then mret (Some sfd)
        else _ ← scall (Close sfd); connect_loop rest
  end.

(** A null [host] is [None]. *)
Definition inetConnect (host : option string) (service : string) (type : Z) : M Z :=
  s ← sys (Getaddrinfo host service (Hints AF_UNSPEC type 0));
  if negb (r_ret s =? 0) then _ ← set_errno ENOSYS; mret (-1)
  else
    res ← connect_loop (r_addrs s);
    _ ← sys Freeaddrinfo;
    mret (match res with None => -1 | Some sfd => sfd end).

(** The [for] loop of [inetPassiveSocket]: the address it stopped at and its
    socket, [None] when no address is left; [inr tt] for the early [return -1]. *)
Fixpoint bind_loop (doListen : bool) (rps : list addrinfo) : M (option (addrinfo * Z) + unit) :=
  match rps with
  | [] => mret (inl None)
  | rp :: rest =>
      sfd ← scall (Socket (ai_family rp) (ai_socktype rp) (ai_protocol rp));
      if sfd =? -1 then bind_loop doListen rest
      else
        o ← (if doListen then scall (Setsockopt sfd SOL_SOCKET SO_REUSEADDR (Some 1)) else mret 0);
        if doListen && (o =? -1) then
          _ ← scall (Close sfd); _ ← sys Freeaddrinfo; mret (inr tt)
        else
          b ← scall (Bind sfd (ai_addr rp) (ai_addrlen rp));
          if b =? 0 then mret (inl (Some (rp, sfd)))
          else _ ← scall (Close sfd); bind_loop doListen rest
  end.

(** The result and, when the caller passed a pointer, the address length stored
    through it ([None]: not stored). *)
Definition inetPassiveSocket (service : string) (type : Z) (addrlen : bool) (doListen : bool)
    (backlog : Z) : M (Z * option Z) :=
  s ← sys (Getaddrinfo None service (Hints AF_UNSPEC type AI_PASSIVE));
  if negb (r_ret s =? 0) then mret (-1, None)
  else
    res ← bind_loop doListen (r_addrs s);
    match res with
    | inr _ => mret (-1, None)
    | inl rp =>
        l ← match rp with
            | Some (_, sfd) => if doListen then scall (Listen sfd backlog) else mret 0
            | None => mret 0
            end;
        if l =? -1 then _ ← sys Freeaddrinfo; mret (-1, None)
        else
          let len := match rp with
                     | Some (a, _) => if addrlen then Some (ai_addrlen a) else None
                     | None => None
                     end in
          _ ← sys Freeaddrinfo;
          mret (match rp with None => -1 | Some (_, sfd) => sfd end, len)
    end.

Definition inetListen (service : string) (backlog : Z) (addrlen : bool) : M (Z * option Z) :=
  inetPassiveSocket service SOCK_STREAM addrlen true backlog.

Definition inetBind (service : string) (type : Z) (addrlen : bool) : M (Z * option Z) :=
  inetPassiveSocket service type addrlen false 0.

Definition inetAddressStr (addr : sockaddr) (addrlen addrStrLen : Z) : M string :=
  g ← sys (Getnameinfo addr addrlen NI_MAXHOST NI_MAXSERV NI_NUMERICSERV);
  mret (snprintf addrStrLen
    (if r_ret g =? 0
     then "(" +:+ cstr (nth 0 (r_strs g) "") +:+ ", " +:+ cstr (nth 1 (r_strs g) "") +:+ ")"
     else "(?UNKNOWN?)")).

(** ** lib/unix_sockets.c *)

(** [None] is a null pointer; [dest] tells whether [addr] is non-null. *)
Definition unixBuildAddress (path : option string) (dest : bool) : M (Z * sockaddr) :=
  match path with
  | Some p =>
      if dest then
        if strlen p <? SUN_PATH_SIZE then
          mret (0, SaUnix AF_UNIX (strncpy_str p (SUN_PATH_SIZE - 1)))
        else _ ← set_errno ENAMETOOLONG; mret (-1, SaUnix AF_UNIX EmptyString)
      else _ ← set_errno EINVAL; mret (-1, SaNull)
  | None => _ ← set_errno EINVAL; mret (-1, SaNull)
  end.

Definition unixConnect (path : option string) (type : Z) : M Z :=
  '(b, addr) ← unixBuildAddress path true;
  if b =? -1 then mret (-1)
  else
    sd ← scall (Socket AF_UNIX type 0);
    if sd =? -1 then mret (-1)
    else
      c ← scall (Connect sd addr SOCKADDR_UN_SIZE);
      if c =? -1 then
        savedErrno ← get_errno;
        _ ← scall (Close sd);
        _ ← set_errno savedErrno;
        mret (-1)
      else mret sd.

Definition unixBind (path : option string) (type : Z) : M Z :=
  '(b, addr) ← unixBuildAddress path true;
  if b =? -1 then mret (-1)
  else
    sd ← scall (Socket AF_UNIX type 0);
    if sd =? -1 then mret (-1)
    else
      c ← scall (Bind sd addr SOCKADDR_UN_SIZE);
      if c =? -1 then
        savedErrno ← get_errno;
        _ ← scall (Close sd);
        _ ← set_errno savedErrno;
        mret (-1)
      else mret sd.

#[export] Instance connect_loop_sane rps : Sane (connect_loop rps).
Proof. induction rps; simpl; apply _. Qed.
#[export] Instance bind_loop_sane d rps : Sane (bind_loop d rps).
Proof. induction rps; simpl; apply _. Qed.
#[export] Instance inetConnect_sane h s t : Sane (inetConnect h s t).
Proof. unfold inetConnect. apply _. Qed.
#[export] Instance inetPassiveSocket_sane s t a d b : Sane (inetPassiveSocket s t a d b).
Proof. unfold inetPassiveSocket. apply _. Qed.
#[export] Instance inetListen_sane s b a : Sane (inetListen s b a).
Proof. unfold inetListen. apply _. Qed.
#[export] Instance inetBind_sane s t a : Sane (inetBind s t a).
Proof. unfold inetBind. apply _. Qed.
#[export] Instance inetAddressStr_sane a l n : Sane (inetAddressStr a l n).
Proof. unfold inetAddressStr. apply _. Qed.
#[export] Instance unixBuildAddress_sane p d : Sane (unixBuildAddress p d).
Proof. unfold unixBuildAddress. apply _. Qed.
#[export] Instance unixConnect_sane p t : Sane (unixConnect p t).
Proof. unfold unixConnect. apply _. Qed.
#[export] Instance unixBind_sane p t : Sane (unixBind p t).
Proof. unfold unixBind. apply _. Qed.

(** None of them ends the process. *)
#[export] Instance connect_loop_calm rps : Calm (connect_loop rps).
Proof. induction rps; simpl; apply _. Qed.
#[export] Instance bind_loop_calm d rps : Calm (bind_loop d rps).
Proof. induction rps; simpl; apply _. Qed.
#[export] Instance inetConnect_calm h s t : Calm (inetConnect h s t).
Proof. unfold inetConnect. apply _. Qed.
#[export] Instance inetPassiveSocket_calm s t a d b : Calm (inetPassiveSocket s t a d b).
Proof. unfold inetPassiveSocket. apply _. Qed.
#[export] Instance inetListen_calm s b a : Calm (inetListen s b a).
Proof. unfold inetListen. apply _. Qed.
#[export] Instance inetBind_calm s t a : Calm (inetBind s t a).
Proof. unfold inetBind. apply _. Qed.
#[export] Instance inetAddressStr_calm a l n : Calm (inetAddressStr a l n).
Proof. unfold inetAddressStr. apply _. Qed.
#[export] Instance unixConnect_calm p t : Calm (unixConnect p t).
Proof. unfold unixConnect, unixBuildAddress. apply _. Qed.
#[export] Instance unixBind_calm p t : Calm (unixBind p t).
Proof. unfold unixBind, unixBuildAddress. apply _. Qed.

(** The calls of this file only make and name sockets. *)
Definition socket_setup (e : event) : Prop :=
  match e with
  | Called (Getaddrinfo _ _ _) _ | Called (Socket _ _ _) _ | Called (Connect _ _ _) _
  | Called (Bind _ _ _) _ | Called (Listen _ _) _ | Called (Setsockopt _ _ _ _) _
  | Called (Close _) _ | Called Freeaddrinfo _ | Called (Getnameinfo _ _ _ _ _) _ => True
  | _ => False
  end.
#[export] Instance connect_loop_setup rps : Emits socket_setup (connect_loop rps).
Proof. induction rps; simpl; apply _. Qed.
#[export] Instance bind_loop_setup d rps : Emits socket_setup (bind_loop d rps).
Proof. induction rps; simpl; apply _. Qed.
#[export] Instance inetConnect_setup h s t : Emits socket_setup (inetConnect h s t).
Proof. unfold inetConnect. apply _. Qed.
#[export] Instance inetPassiveSocket_setup s t a d b : Emits socket_setup (inetPassiveSocket s t a d b).
Proof. unfold inetPassiveSocket. apply _. Qed.
#[export] Instance inetListen_setup s b a : Emits socket_setup (inetListen s b a).
Proof. unfold inetListen. apply _. Qed.
#[export] Instance inetBind_setup s t a : Emits socket_setup (inetBind s t a).
Proof. unfold inetBind. apply _. Qed.
#[export] Instance inetAddressStr_setup a l n : Emits socket_setup (inetAddressStr a l n).
Proof. unfold inetAddressStr. apply _. Qed.
#[export] Instance unixConnect_setup p t : Emits socket_setup (unixConnect p t).
Proof. unfold unixConnect, unixBuildAddress. apply _. Qed.
#[export] Instance unixBind_setup p t : Emits socket_setup (unixBind p t).
Proof. unfold unixBind, unixBuildAddress. apply _. Qed.

(** ** UNIX domain: exact behaviour *)

(** What [unixConnect] ([op] is [Connect]) and [unixBind] ([op] is [Bind]) do,
    call by call: the outcome and [errno] for each prefix of the three calls. *)
Definition un_post (op : Z -> sockaddr -> Z -> call) (path : string) (type e0 : Z)
    (o : outcome Z) (es : list event) (w' : world) : Prop :=
  let sa := SaUnix AF_UNIX (cstr path) in
  if SUN_PATH_SIZE <=? strlen path then o = Ret (-1) /\ es = [] /\ errno w' = ENAMETOOLONG
  else match es with
  | [] => o = Blocked (Socket AF_UNIX type 0)
  | [Called cs s] =>
      cs = Socket AF_UNIX type 0
      /\ (if r_ret s =? -1 then o = Ret (-1) /\ errno w' = errno_after e0 s
          else o = Blocked (op (r_ret s) sa SOCKADDR_UN_SIZE))
  | [Called cs s; Called cc c] =>
      cs = Socket AF_UNIX type 0 /\ r_ret s <> -1 /\ cc = op (r_ret s) sa SOCKADDR_UN_SIZE
      /\ (if r_ret c =? -1 then o = Blocked (Close (r_ret s)) else o = Ret (r_ret s))
  | [Called cs s; Called cc c; Called ck k] =>
      cs = Socket AF_UNIX type 0 /\ r_ret s <> -1 /\ cc = op (r_ret s) sa SOCKADDR_UN_SIZE
      /\ r_ret c = -1 /\ ck = Close (r_ret s)
      /\ o = Ret (-1) /\ errno w' = errno_after (errno_after e0 s) c
  | _ => False
  end.

(** [unixConnect] and [unixBind], for every path and every answer: a path
    that does not fit [sun_path] with its terminator is refused with
    ENAMETOOLONG before any call; otherwise the whole path is the address; when
    [connect]/[bind] fails the socket is closed and the caller sees the [errno]
    of that failure, whatever [close] does to it. *)
Theorem unix_sockets_exact law path type w :
  spec law (unixConnect (Some path) type) w (un_post Connect path type (errno w))
  /\ spec law (unixBind (Some path) type) w (un_post Bind path type (errno w)).
Proof.
  assert (Hlt : (strlen path <? SUN_PATH_SIZE) = negb (SUN_PATH_SIZE <=? strlen path))
    by apply Z.ltb_antisym.
  unfold unixConnect, unixBind, unixBuildAddress, un_post. rewrite Hlt.
  destruct (SUN_PATH_SIZE <=? strlen path) eqn:E; cbn [negb]; zbool.
  - split; spec_run; zbool; by try lia.
  - assert (Hp : strncpy_str path (SUN_PATH_SIZE - 1) = cstr path)
      by (apply strncpy_str_short; unfold SUN_PATH_SIZE in *; lia).
    split; spec_run; simpl; rewrite ?Hp;
      repeat match goal with H : _ = _ :> bool |- _ => rewrite H end; zbool;
      split_and?; try done; congruence.
Qed.

(** ** Internet domain: no descriptor is lost *)

Definition connect_calls (rp : addrinfo) (s c : resp) : list event :=
  [Called (Socket (ai_family rp) (ai_socktype rp) (ai_protocol rp)) s;
   Called (Connect (r_ret s) (ai_addr rp) (ai_addrlen rp)) c].

Lemma held_socket_close rp s x k (mid : list event) :
  r_ret s <> -1 -> (forall l, held_from l mid = l) -> x = r_ret s ->
  held (Called (Socket (ai_family rp) (ai_socktype rp) (ai_protocol rp)) s
        :: mid ++ [Called (Close x) k]) = [].
Proof.
  intros Hs Hmid ->. unfold held. cbn [held_from opens app].
  rewrite held_from_app, Hmid. apply Z.eqb_neq in Hs. rewrite Hs. cbn [held_from]. apply filter_own.
Qed.

Lemma held_socket_failed rp s :
  r_ret s = -1 ->
  held [Called (Socket (ai_family rp) (ai_socktype rp) (ai_protocol rp)) s] = [].
Proof. intros Hs. unfold held. cbn. by rewrite Hs. Qed.

Section InetSpecs.
Context (law : call -> resp -> Prop).

Lemma spec_connect_loop rps w (Q : outcome (option Z) -> list event -> world -> Prop) :
(forall es w', held es = [] -> Q (Ret None) es w') ->
(forall es rp s c w', held es = [] -> rp ∈ rps -> r_ret s <> -1 -> r_ret c <> -1 ->
 Q (Ret (Some (r_ret s))) (es ++ connect_calls rp s c) w') ->
(forall c es w', Q (Blocked c) es w') ->
spec law (connect_loop rps) w Q.
Proof.
revert w Q. induction rps as [|rp rps IH]; intros w Q HN HS HB; cbn [connect_loop].
{ spec_run. by apply HN. }
spec_step; spec_step; [apply HB|].
destruct (r_ret r =? -1) eqn:Er; zbool.
- apply IH; [..|by intros; apply HB].
+ intros es w' Hes. apply HN. by rewrite held_app, held_socket_failed.
+ intros es rp' s c w' Hes Hin ??. rewrite app_assoc. apply HS; try done;
[by rewrite held_app, held_socket_failed|by right].
- spec_step; spec_step; [apply HB|].
destruct (negb (r_ret r0 =? -1)) eqn:Ec; zbool.
+ spec_run. cbn [app]. apply (HS [] rp r r0); try done. by left.
+ spec_step; spec_step; [apply HB|].
assert (Hpre : held ([Called (Socket (ai_family rp) (ai_socktype rp) (ai_protocol rp)) r]
++ [Called (Connect (r_ret r) (ai_addr rp) (ai_addrlen rp)) r0]
++ [Called (Close (r_ret r)) r1]) = []).
{ apply (held_socket_close rp r (r_ret r) r1 [Called (Connect (r_ret r) (ai_addr rp) (ai_addrlen rp)) r0]); try done.
intros l. cbn. by rewrite app_nil_r. }
apply IH; [..|by intros; apply HB].
* intros es w' Hes. apply HN. rewrite !app_assoc, held_app, <- app_assoc, Hpre. done.
* intros es rp' s c w' Hes Hin ??. rewrite !app_assoc. apply HS; try done; [|by right].
rewrite held_app, <- app_assoc, Hpre. done.
Qed.
End InetSpecs.

(** C4.  [inetConnect], for every answer of the resolver and every sequence of
    socket answers: on success exactly one descriptor is open, the one returned,
    and the last socket and connect calls are the ones that made it, for an
    address of the resolver's list; on failure every socket it opened has been
    closed.  It always returns. *)
Theorem inetConnect_correct law host service type w :
  spec law (inetConnect host service type) w (fun o es _ =>
    match o with
    | Ret ret =>
        ret = -1 /\ held es = []
        \/ ret <> -1 /\ held es = [ret]
           /\ exists a es0 rp s c f,
                es = Called (Getaddrinfo host service (Hints AF_UNSPEC type 0)) a :: es0
                     ++ connect_calls rp s c ++ [Called Freeaddrinfo f]
                /\ rp ∈ r_addrs a /\ r_ret s = ret /\ r_ret c <> -1
    | Blocked _ => True
    | _ => False
    end).
Proof.
  unfold inetConnect. spec_step; spec_step; [done|].
  destruct (negb (r_ret r =? 0)) eqn:E.
  { spec_run. by left. }
  spec_step. apply spec_connect_loop; [..|done].
  - intros es w' Hes. spec_run; [done|]. left. split; [done|].
    rewrite !app_nil_r. cbn [app]. change (held (Called ?c ?r :: ?l)) with (held_from [] l).
    rewrite held_from_app. unfold held in *. cbn [held_from opens app]. by rewrite Hes.
  - intros es rp s c w' Hes Hin Hs Hc. spec_run; [done|]. right.
    rewrite !app_nil_r. cbn [app]. split; [done|]. split.
    + change (held (Called ?c ?r :: ?l)) with (held_from [] l).
      rewrite !held_from_app. unfold held in Hes. rewrite Hes. cbn.
      apply Z.eqb_neq in Hs. by rewrite Hs.
    + exists r, es, rp, s, c, r0. by rewrite <- app_assoc.
Qed.

Definition bind_calls (doListen : bool) (rp : addrinfo) (s o b : resp) : list event :=
  Called (Socket (ai_family rp) (ai_socktype rp) (ai_protocol rp)) s
  :: (if doListen then [Called (Setsockopt (r_ret s) SOL_SOCKET SO_REUSEADDR (Some 1)) o] else [])
  ++ [Called (Bind (r_ret s) (ai_addr rp) (ai_addrlen rp)) b].

(** Calls that neither open nor close a descriptor. *)
Lemma held_neutral l es :
  Forall (fun e => match e with
                   | Called (Setsockopt _ _ _ _) _ | Called (Bind _ _ _) _ | Called (Listen _ _) _
                   | Called Freeaddrinfo _ | Called (Getaddrinfo _ _ _) _ => True
                   | _ => False
                   end) es -> held_from l es = l.
Proof.
  intros H. induction H as [|[[]| |] es He _ IH]; simpl; try done; by rewrite app_nil_r.
Qed.

Section PassiveSpecs.
Context (law : call -> resp -> Prop).

Lemma spec_bind_loop d rps w (Q : outcome (option (addrinfo * Z) + unit) -> list event -> world -> Prop) :
(forall es w', held es = [] -> Q (Ret (inl None)) es w') ->
(forall es w', held es = [] -> Q (Ret (inr tt)) es w') ->
(forall es rp s o b w', held es = [] -> rp ∈ rps -> r_ret s <> -1 -> r_ret b = 0 ->
 (d = true -> r_ret o <> -1) ->
 Q (Ret (inl (Some (rp, r_ret s)))) (es ++ bind_calls d rp s o b) w') ->
(forall c es w', Q (Blocked c) es w') ->
spec law (bind_loop d rps) w Q.
Proof.
revert w Q. induction rps as [|rp rps IH]; intros w Q HN HX HS HB; cbn [bind_loop].
{ spec_run. by apply HN. }
(* the recursive call, after a prefix that leaves nothing open *)
assert (Hrec : forall pre w', held pre = [] ->
spec law (bind_loop d rps) w' (fun o' es' w2 => Q o' (pre ++ es') w2)).
{ intros pre w' Hpre. apply IH; [..|by intros; apply HB].
- intros es w2 Hes. apply HN. by rewrite held_app, Hpre.
- intros es w2 Hes. apply HX. by rewrite held_app, Hpre.
- intros es rp' s o b w2 Hes Hin ???. rewrite app_assoc. apply HS; try done; [|by right].
by rewrite held_app, Hpre. }
clear IH.
spec_step; spec_step; [apply HB|]. destruct (r_ret r =? -1) eqn:Er; zbool.
{ apply Hrec. by apply held_socket_failed. }
destruct d; cbn [andb].
- spec_step; spec_step; [apply HB|]. destruct (r_ret r0 =? -1) eqn:Eo; zbool.
+ spec_run; try apply HB. apply HX. cbn [app].
pose proof (held_socket_close rp r (r_ret r) r1
[Called (Setsockopt (r_ret r) SOL_SOCKET SO_REUSEADDR (Some 1)) r0]) as Hc.
cbn [app] in Hc. etrans; [apply (held_app [_; _; _] [_])|].
rewrite Hc; [done|done| |done]. intros l. by apply held_neutral; repeat constructor.
+ spec_step; spec_step; [apply HB|]. destruct (r_ret r1 =? 0) eqn:Eb; zbool.
* spec_run. apply (HS [] rp r r0 r1); try done. by left.
* spec_step; spec_step; [apply HB|].
pose proof (held_socket_close rp r (r_ret r) r2
[Called (Setsockopt (r_ret r) SOL_SOCKET SO_REUSEADDR (Some 1)) r0;
 Called (Bind (r_ret r) (ai_addr rp) (ai_addrlen rp)) r1]) as Hc.
apply (Hrec _ _ (Hc Er ltac:(intros l; by apply held_neutral; repeat constructor) eq_refl)).
- spec_step; spec_step. spec_step; spec_step; [apply HB|].
destruct (r_ret r0 =? 0) eqn:Eb; zbool.
+ spec_run. apply (HS [] rp r r0 r0); try done. by left.
+ spec_step; spec_step; [apply HB|].
pose proof (held_socket_close rp r (r_ret r) r1
[Called (Bind (r_ret r) (ai_addr rp) (ai_addrlen rp)) r0]) as Hc.
apply (Hrec _ _ (Hc Er ltac:(intros l; by apply held_neutral; repeat constructor) eq_refl)).
Qed.
End PassiveSpecs.

(** What [inetPassiveSocket] promises about descriptors and the order of its
    calls.  The last disjunct is its one leak: when [listen] fails, -1 is
    returned with the bound socket still open. *)
Definition passive_post (service : string) (type : Z) (addrlen doListen : bool) (backlog : Z)
    (o : outcome (Z * option Z)) (es : list event) : Prop :=
  match o with
  | Ret (ret, len) =>
      ret = -1 /\ len = None /\ held es = []
      \/ (exists a pre rp s so b f ls,
           es = Called (Getaddrinfo None service (Hints AF_UNSPEC type AI_PASSIVE)) a :: pre
                ++ bind_calls doListen rp s so b
                ++ (if doListen then [Called (Listen (r_ret s) backlog) ls] else [])
                ++ [Called Freeaddrinfo f]
           /\ rp ∈ r_addrs a /\ r_ret s <> -1 /\ r_ret b = 0
           /\ (if doListen && (r_ret ls =? -1)
               then ret = -1 /\ len = None /\ held es = [r_ret s]
               else ret = r_ret s /\ held es = [ret]
                    /\ len = (if addrlen then Some (ai_addrlen rp) else None)))
  | Blocked _ => True
  | _ => False
  end.

(** C5.  [inetListen] and [inetBind], for every answer of the resolver and the
    kernel: on success the only descriptor left open is the one returned, it was
    bound to an address of the resolver's list (for [inetListen] after
    SO_REUSEADDR was set and before [listen]) and the stored length is that
    address's; on failure everything is closed, except that a failing [listen]
    leaks the bound socket. *)
Theorem inetPassive_correct law service type addrlen backlog w :
  spec law (inetListen service backlog addrlen) w
    (fun o es _ => passive_post service SOCK_STREAM addrlen true backlog o es)
  /\ spec law (inetBind service type addrlen) w
    (fun o es _ => passive_post service type addrlen false 0 o es).
Proof.
  assert (Hgen : forall t d bl, spec law (inetPassiveSocket service t addrlen d bl) w
    (fun o es _ => passive_post service t addrlen d bl o es)); [|by split; apply Hgen].
  intros t d bl. unfold inetPassiveSocket, passive_post.
  spec_step; spec_step; [done|]. destruct (negb (r_ret r =? 0)) eqn:E.
  { spec_run. by left. }
  spec_step. apply spec_bind_loop; [..|done].
  - intros es w' Hes. spec_run; try done; left; split_and!; try done;
      cbn [app]; change (held (Called ?c ?r :: ?l)) with (held_from [] l);
      rewrite held_from_app; unfold held in Hes; by rewrite Hes.
  - intros es w' Hes. spec_run. left. by rewrite app_nil_r.
  - intros es rp s so b w' Hes Hin Hs Hb Hso.
    assert (Hheld : forall tail, Forall (fun e => match e with
                   | Called (Setsockopt _ _ _ _) _ | Called (Bind _ _ _) _ | Called (Listen _ _) _
                   | Called Freeaddrinfo _ | Called (Getaddrinfo _ _ _) _ => True
                   | _ => False
                   end) tail -> held (es ++ bind_calls d rp s so b ++ tail) = [r_ret s]).
    { intros tail Htail. rewrite held_app, Hes. unfold bind_calls.
      cbn [held_from opens app]. rewrite held_from_app. apply Z.eqb_neq in Hs. rewrite Hs.
      rewrite (held_neutral _ tail Htail). destruct d; cbn; by rewrite ?app_nil_r. }
    destruct d; spec_run; try done; right; cbn [app] in *.
    + exists r, es, rp, s, so, b, r1, r0. rewrite <- !app_assoc, Heqb0. cbn [andb app].
      split_and!; try done. apply (Hheld [_; _]); repeat constructor.
    + exists r, es, rp, s, so, b, r1, r0. rewrite <- !app_assoc, Heqb0. cbn [andb app].
      split_and!; try done. apply (Hheld [_; _]); repeat constructor.
    + exists r, es, rp, s, so, b, r0, r0. rewrite <- !app_assoc. cbn [andb app].
      split_and!; try done. apply (Hheld [_]); repeat constructor.
Qed.
