(* ===== verification/Status.v ===== *)
(** * Status: wait statuses, the current time, signal sets
    (lib/print_wait_status.c, lib/curr_time.c, lib/signal_functions.c, lib/my.c) *)

From S2P Require Import Prelude Clib Sys Errors Posix.

(** ** lib/print_wait_status.c *)

(** [msg]: [None] is a null pointer.  [strsignal] is an answered call. *)
Definition printWaitStatus (msg : option string) (status : Z) : M unit :=
  _ ← match msg with Some m => printf (cstr m) | None => mret tt end;
  if WIFEXITED status then
    printf ("child exited, status=" +:+ dec (WEXITSTATUS status) +:+ nl)
  else if WIFSIGNALED status then
    t ← sys (Strsignal (WTERMSIG status));
    _ ← printf ("child killed by signal " +:+ dec (WTERMSIG status) +:+ " (" +:+ cstr (r_buf t) +:+ ")");
    _ ← when (WCOREDUMP status) (printf " (core dumped)");
    printf nl
  else if WIFSTOPPED status then
    t ← sys (Strsignal (WSTOPSIG status));
    printf ("child stopped by signal " +:+ dec (WSTOPSIG status) +:+ " (" +:+ cstr (r_buf t) +:+ ")" +:+ nl)
  else if WIFCONTINUED status then
    printf ("child continued" +:+ nl)
  else
    printf ("what happened to this child? (status=" +:+ hex (wrap_u32 status) +:+ ")" +:+ nl).

(** ** lib/curr_time.c *)

Definition CURR_TIME_BUF_SIZE : Z := 1000.

(** [None] is the null result. *)
Definition currTime (format : option string) : M (option string) :=
  t ← scall Time;
  tm ← sys (Localtime t);
  if r_ret tm =? 0 then mret None
  else
    s ← sys (Strftime CURR_TIME_BUF_SIZE (match format with Some f => f | None => "%c"%string end) (r_vals tm));
    mret (if r_ret s =? 0 then None else Some (r_buf s)).

(** What [printf]'s [%s] shows of that result (glibc prints a null pointer so). *)
Definition show_opt (s : option string) : string :=
  match s with Some s => cstr s | None => "(null)"%string end.

(** ** lib/signal_functions.c *)

(** A signal set is the list of its members; [sigismember] is membership. *)
Definition sigismember (set : list Z) (sig : Z) : bool := existsb (Z.eqb sig) set.

Definition printSigset (ofs : stream) (prefix : string) (sigset : list Z) : M unit :=
  cnt ← fold_m (fun cnt sig =>
          if sigismember sigset sig then
            t ← sys (Strsignal sig);
            _ ← fputs ofs (cstr prefix +:+ dec sig +:+ " (" +:+ cstr (r_buf t) +:+ ")" +:+ nl);
            mret (cnt + 1)
          else mret cnt) 0 (seqZ 1 (NSIG - 1));
  when (cnt =? 0) (fputs ofs (cstr prefix +:+ "<empty signal set>" +:+ nl)).

Definition printSigMask (ofs : stream) (msg : option string) : M Z :=
  _ ← match msg with Some m => fputs ofs (cstr m) | None => mret tt end;
  r ← sys (Sigprocmask SIG_BLOCK None);
  if r_ret r =? -1 then mret (-1)
  else _ ← printSigset ofs (tab +:+ tab) (r_vals r); mret 0.

Definition printPendingSigs (ofs : stream) (msg : option string) : M Z :=
  _ ← match msg with Some m => fputs ofs (cstr m) | None => mret tt end;
  r ← sys Sigpending;
  if r_ret r =? -1 then mret (-1)
  else _ ← printSigset ofs (tab +:+ tab) (r_vals r); mret 0.

(** ** lib/my.c *)

Definition stop (message : string) : M unit :=
  pid ← scall Getpid;
  _ ← printf ("# [PID:" +:+ dec pid +:+ "] " +:+ cstr message +:+ nl);
  _ ← sys Getchar;
  mret tt.

#[export] Instance printWaitStatus_sane m s : Sane (printWaitStatus m s).
Proof. unfold printWaitStatus. apply _. Qed.
#[export] Instance currTime_sane f : Sane (currTime f).
Proof. unfold currTime. apply _. Qed.
#[export] Instance printSigset_sane o p s : Sane (printSigset o p s).
Proof. unfold printSigset. apply _. Qed.
#[export] Instance printSigMask_sane o m : Sane (printSigMask o m).
Proof. unfold printSigMask. apply _. Qed.
#[export] Instance printPendingSigs_sane o m : Sane (printPendingSigs o m).
Proof. unfold printPendingSigs. apply _. Qed.
#[export] Instance stop_sane m : Sane (stop m).
Proof. unfold stop. apply _. Qed.

(** [printWaitStatus] returns, having looked up signal names and printed. *)
Definition status_event (e : event) : Prop :=
  match e with Called (Strsignal _) _ | Printed Stdout _ => True | _ => False end.

Lemma spec_printWaitStatus law msg st w (Q : outcome unit -> list event -> world -> Prop) :
  (forall c es w', Forall status_event es -> Q (Blocked c) es w') ->
  (forall es w', Forall status_event es -> Q (Ret tt) es w') ->
  spec law (printWaitStatus msg st) w Q.
Proof.
  intros HB HR. unfold printWaitStatus. spec_run; cbn [pass app];
    first [apply HB|apply HR]; repeat constructor.
Qed.

(** ** Statuses as the kernel encodes them *)

Inductive child_state :=
  | Exited (code : Z)
  | Killed (sig : Z) (core : bool)
  | Stopped (sig : Z)
  | Continued.

(** Exit codes are bytes, signal numbers lie between 1 and 64. *)
Definition child_ok (c : child_state) : bool :=
  match c with
  | Exited n => (0 <=? n) && (n <? 256)
  | Killed s _ | Stopped s => (1 <=? s) && (s <=? 64)
  | Continued => true
  end.

Definition encode_status (c : child_state) : Z :=
  match c with
  | Exited n => n * 256
  | Killed s core => s + (if core then 128 else 0)
  | Stopped s => s * 256 + 127
  | Continued => 65535
  end.

(** The line printed for a state, from the signal's description. *)
Definition status_text (c : child_state) (descr : string) : string :=
  match c with
  | Exited n => "child exited, status=" +:+ dec n +:+ nl
  | Killed s core => "child killed by signal " +:+ dec s +:+ " (" +:+ cstr descr +:+ ")"
                     +:+ (if core then " (core dumped)" else "") +:+ nl
  | Stopped s => "child stopped by signal " +:+ dec s +:+ " (" +:+ cstr descr +:+ ")" +:+ nl
  | Continued => "child continued" +:+ nl
  end.
Definition state_signal (c : child_state) : option Z :=
  match c with Killed s _ | Stopped s => Some s | _ => None end.

(** The macros, on every encoded state: exactly one of them holds. *)
Definition classify (s : Z) : option child_state :=
  if WIFEXITED s then Some (Exited (WEXITSTATUS s))
  else if WIFSIGNALED s then Some (Killed (WTERMSIG s) (WCOREDUMP s))
  else if WIFSTOPPED s then Some (Stopped (WSTOPSIG s))
  else if WIFCONTINUED s then Some Continued
  else None.

Definition all_states : list child_state :=
  map Exited (seqZ 0 256)
  ++ map (fun s => Killed s false) (seqZ 1 64) ++ map (fun s => Killed s true) (seqZ 1 64)
  ++ map Stopped (seqZ 1 64) ++ [Continued].

#[export] Instance child_state_eq_dec : EqDecision child_state.
Proof. solve_decision. Defined.

Lemma all_states_complete c : child_ok c = true -> In c all_states.
Proof.
  unfold all_states. rewrite !in_app_iff.
  destruct c as [n|s [] |s|]; simpl child_ok; intros H; zbool.
  - left. apply in_map, list_elem_of_In, elem_of_seqZ. lia.
  - right; right; left. apply (in_map (fun s => Killed s true)), list_elem_of_In, elem_of_seqZ. lia.
  - right; left. apply (in_map (fun s => Killed s false)), list_elem_of_In, elem_of_seqZ. lia.
  - right; right; right; left. apply in_map, list_elem_of_In, elem_of_seqZ. lia.
  - do 4 right. by left.
Qed.

Lemma classify_encode c : child_ok c = true -> classify (encode_status c) = Some c.
Proof.
  intros H%all_states_complete.
  assert (Hall : forallb (fun c => bool_decide (classify (encode_status c) = Some c)) all_states = true)
    by (vm_compute; reflexivity).
  pose proof (proj1 (forallb_forall _ _) Hall c H) as Hc. by apply bool_decide_eq_true in Hc.
Qed.

(** [printWaitStatus] decodes what the kernel encodes: for every exit code,
    every terminating signal with or without a core dump, every stop signal and
    the continued status, it prints the caller's message and then exactly the
    line for that state, asking [strsignal] for the right signal only. *)
Theorem printWaitStatus_decodes law msg c w :
  child_ok c = true ->
  spec law (printWaitStatus (Some msg) (encode_status c)) w (fun o es _ =>
    match o with
    | Ret _ => exists r,
        printed Stdout es = cstr msg +:+ status_text c (r_buf r)
        /\ calls es = match state_signal c with Some s => [Strsignal s] | None => [] end
    | Blocked k => option_map Strsignal (state_signal c) = Some k
    | _ => False
    end).
Proof.
  intros Hc. pose proof (classify_encode c Hc) as Hk. unfold classify in Hk.
  generalize dependent (encode_status c). intros s Hk.
  unfold printWaitStatus. spec_step; spec_step. spec_step.
  destruct (WIFEXITED _); [|destruct (WIFSIGNALED _); [|destruct (WIFSTOPPED _);
    [|destruct (WIFCONTINUED _); [|done]]]]; injection Hk as <-.
  all: spec_run; try reflexivity;
    first [exists r | exists (ok 0)]; cbn [printed calls app state_signal];
    rewrite ?decide_True by done; unfold status_text; try match goal with H : WCOREDUMP _ = _ |- _ => rewrite H end;
    by rewrite ?sapp_nil_r, ?sapp_nil_l, <- ?sapp_assoc, ?sapp_nil_l.
Qed.

Example printWaitStatus_decodes_witness :
  child_ok (Killed 11 true) = true /\
  spec any_answer (printWaitStatus (Some "x: "%string) (encode_status (Killed 11 true)))
    (start [got "Segmentation fault"]) (fun o es _ =>
    match o with
    | Ret _ => exists r,
        printed Stdout es = cstr "x: " +:+ status_text (Killed 11 true) (r_buf r)
        /\ calls es = [Strsignal 11]
    | Blocked k => Some (Strsignal 11) = Some k
    | _ => False
    end).
Proof. split; [reflexivity|]. apply (printWaitStatus_decodes any_answer "x: " (Killed 11 true)). reflexivity. Defined.

