(* ===== verification/Timer.v ===== *)
(** * Timer: timer specifications in strings (lib/itimerspec_from_str.c) *)

From S2P Require Import Prelude Clib Sys.

(** The string before the character found by [strchr], once it has been
    overwritten with a terminator, and the string after it. *)
Definition cut (s : string) (c : ascii) : string * option string :=
  match strchr s c with
  | Some i => (stake i s, Some (sdrop (S i) s))
  | None => (s, None)
  end.

(** The result stored through [tsp]; [strdup]'s copy is the value [str] itself. *)
Definition itimerspecFromStr (str : string) : itimerspec :=
  let '(dupstr, after_colon) := cut (cstr str) ":"%char in
  let '(vsec, vnsec) := cut dupstr "/"%char in
  let value := Timespec (atoi vsec) (match vnsec with Some s => atoi s | None => 0 end) in
  match after_colon with
  | None => Itimerspec (Timespec 0 0) value
  | Some rest =>
      let '(isec, insec) := cut rest "/"%char in
      Itimerspec (Timespec (atoi isec) (match insec with Some s => atoi s | None => 0 end)) value
  end.

(** ** The format of a specification *)

Definition show_timespec (sec : Z) (nsec : option Z) : string :=
  dec sec +:+ match nsec with Some n => "/" +:+ dec n | None => "" end.
Definition show_spec (vs : Z) (vn : option Z) (itv : option (Z * option Z)) : string :=
  show_timespec vs vn
  +:+ match itv with Some (s, n) => ":" +:+ show_timespec s n | None => "" end.

(** A string without a given (non-NUL) character, and a separator in it. *)
Definition without (c : ascii) (s : string) : bool := sforall (fun d => negb (ceqb d c)) s.

Lemma strchr_none s c : nonul s = true -> c <> nul -> without c s = true -> strchr s c = None.
Proof.
  intros Hs Hc. induction s as [|d s IH]; unfold nonul, without in *; cbn [sforall strchr] in *.
  - intros _. destruct (ceqb c nul) eqn:E; [by apply ceqb_eq in E|done].
  - rewrite andb_true_iff, negb_true_iff. intros [-> Hw].
    apply andb_true_iff in Hs as [Hd Hs]. apply negb_true_iff in Hd as ->.
    by rewrite IH.
Qed.

Lemma strchr_app s c t : nonul s = true -> without c s = true ->
  strchr (s +:+ String c t) c = Some (String.length s).
Proof.
  induction s as [|d s IH]; unfold nonul, without in *; cbn [sforall] in *; intros Hs Hw.
  - rewrite sapp_nil_l. simpl. by rewrite ceqb_refl.
  - apply andb_true_iff in Hw as [Hd Hw], Hs as [Hn Hs].
    apply negb_true_iff in Hd, Hn. rewrite sapp_cons. cbn [strchr].
    by rewrite Hd, Hn, IH.
Qed.

Lemma cut_none s c : nonul s = true -> c <> nul -> without c s = true -> cut s c = (s, None).
Proof. intros. unfold cut. by rewrite strchr_none. Qed.
Lemma cut_app s c t : nonul s = true -> without c s = true -> cut (s +:+ String c t) c = (s, Some t).
Proof.
  intros. unfold cut. rewrite strchr_app by done.
  rewrite stake_app_length by done. f_equal. f_equal.
  rewrite <- (sapp_nil_l t) at 1.
  change (String c ("" +:+ t)) with (String c EmptyString +:+ t).
  rewrite sapp_assoc. apply sdrop_app_length. rewrite slength_app. simpl. lia.
Qed.

Lemma without_app c s t : without c (s +:+ t) = without c s && without c t.
Proof. apply sforall_app. Qed.

Lemma dec_without c z :
  (forall d, 0 <= d < 10 -> ceqb (digit_char d) c = false) -> ceqb "-"%char c = false ->
  without c (dec z) = true.
Proof.
  intros Hd Hm. unfold dec, without.
  assert (Hu : forall n, 0 <= n -> sforall (fun d => negb (ceqb d c)) (unum 10 n) = true).
  { intros n Hn. destruct (unum_spec 10 n ltac:(lia) Hn) as (_ & _ & H & _).
    revert H. apply sforall_impl. intros d (k & Hk & ->)%dec_digit_inv. by rewrite Hd. }
  destruct (z <? 0) eqn:E; zbool; [cbn [sforall]; rewrite Hm|]; apply Hu; lia.
Qed.

Lemma digit_char_not c : (ascii_Z c <? 48) || (57 <? ascii_Z c) = true ->
  forall d, 0 <= d < 10 -> ceqb (digit_char d) c = false.
Proof.
  intros Hc d Hd. destruct (ceqb (digit_char d) c) eqn:E; [|done].
  apply ceqb_eq in E. subst c. unfold digit_char in Hc.
  replace (d <? 10) with true in Hc by (symmetry; apply Z.ltb_lt; lia).
  rewrite ascii_Z_ascii, Z.mod_small in Hc by lia.
  apply orb_true_iff in Hc as [H|H]; apply Z.ltb_lt in H; lia.
Qed.

Lemma atoi_dec_end z : in_int z -> atoi (dec z) = z.
Proof. intros H. rewrite <- (sapp_nil_r (dec z)). by apply atoi_dec. Qed.

Lemma show_timespec_nonul s n : nonul (show_timespec s n) = true.
Proof.
  unfold show_timespec. destruct n; rewrite nonul_app, dec_nonul; [|done].
  change ("/" +:+ dec z) with (String "/" (dec z)). unfold nonul. cbn [sforall].
  change (negb (ceqb "/" nul)) with true. apply dec_nonul.
Qed.

Lemma show_timespec_without_colon s n : without ":"%char (show_timespec s n) = true.
Proof.
  assert (Hd : forall z, without ":"%char (dec z) = true)
    by (intros z; apply dec_without; [by apply digit_char_not|done]).
  unfold show_timespec. destruct n; rewrite without_app, Hd; [|done]. apply Hd.
Qed.

Lemma parse_timespec s n :
  in_int s -> (forall m, n = Some m -> in_int m) ->
  (let '(a, b) := cut (show_timespec s n) "/"%char in
   Timespec (atoi a) (match b with Some t => atoi t | None => 0 end))
  = Timespec s (default 0 n).
Proof.
  intros Hs Hn. unfold show_timespec.
  assert (Hd : without "/"%char (dec s) = true)
    by (apply dec_without; [by apply digit_char_not|done]).
  destruct n as [m|]; simpl.
  - change ("/" +:+ dec m) with (String "/" (dec m)).
    rewrite cut_app, !atoi_dec_end; auto using dec_nonul.
  - rewrite sapp_nil_r, cut_none, atoi_dec_end; auto using dec_nonul.
Qed.

(** Round trip of timer specifications: for every combination of present
    and omitted components, [itimerspecFromStr] applied to the printed form
    "sec[/nsec][:sec[/nsec]]" stores exactly those numbers and 0 for each
    omitted one. *)
Theorem itimerspecFromStr_roundtrip vs vn itv :
  in_int vs -> (forall n, vn = Some n -> in_int n) ->
  (forall s n, itv = Some (s, n) -> in_int s /\ (forall m, n = Some m -> in_int m)) ->
  itimerspecFromStr (show_spec vs vn itv)
  = Itimerspec (match itv with Some (s, n) => Timespec s (default 0 n) | None => Timespec 0 0 end)
               (Timespec vs (default 0 vn)).
Proof.
  intros Hvs Hvn Hitv. unfold itimerspecFromStr, show_spec.
  pose proof (parse_timespec vs vn Hvs Hvn) as Hv.
  pose proof (show_timespec_nonul vs vn) as Hnn.
  pose proof (show_timespec_without_colon vs vn) as Hwc.
  destruct itv as [[s n]|].
  - destruct (Hitv s n eq_refl) as [Hs Hn].
    pose proof (parse_timespec s n Hs Hn) as Hi.
    pose proof (show_timespec_nonul s n) as Hnn'.
    rewrite cstr_nonul.
    2: { rewrite nonul_app, Hnn. exact Hnn'. }
    change (":" +:+ show_timespec s n) with (String ":" (show_timespec s n)).
    rewrite cut_app by done. destruct (cut (show_timespec vs vn) "/"), (cut (show_timespec s n) "/").
    by rewrite Hv, Hi.
  - rewrite sapp_nil_r, cstr_nonul by done. rewrite cut_none by done.
    destruct (cut (show_timespec vs vn) "/"). by rewrite Hv.
Qed.

Example itimerspecFromStr_roundtrip_witness :
  in_int 2 /\ itimerspecFromStr (show_spec 2 None (Some (1, Some 500)))
  = Itimerspec (Timespec 1 500) (Timespec 2 0).
Proof.
  split; [unfold in_int, INT_MIN, INT_MAX; lia|].
  apply (itimerspecFromStr_roundtrip 2 None (Some (1, Some 500)));
    [unfold in_int, INT_MIN, INT_MAX; lia|discriminate|].
  intros s n [= <- <-]. split; [|intros m [= <-]]; unfold in_int, INT_MIN, INT_MAX; lia.
Defined.
