(* ===== verification/Terminal.v ===== *)
(** * Terminal: terminal modes and pseudoterminals
    (lib/tty_functions.c, lib/pty_master_open.c, lib/pty_fork.c) *)

From S2P Require Import Prelude Clib Sys Errors Posix.

(** ** lib/tty_functions.c *)

(** [x &= ~y] on 32-bit flag words. *)
Definition clear (x y : Z) : Z := Z.ldiff x y.

Definition set_cc (i : nat) (v : Z) (cc : list Z) : list Z := <[i:=v]> cc.

(** The new attributes computed from the current ones. *)
Definition cbreak_termios (t : termios) : termios :=
  Termios (clear (c_iflag t) ICRNL) (c_oflag t) (c_cflag t)
          (Z.lor (clear (c_lflag t) (ICANON .| ECHO)) ISIG)
          (set_cc VTIME 0 (set_cc VMIN 1 (c_cc t))).

Definition raw_termios (t : termios) : termios :=
  Termios (clear (c_iflag t) (BRKINT .| ICRNL .| IGNBRK .| IGNCR .| INLCR
                              .| INPCK .| ISTRIP .| IXON .| PARMRK))
          (clear (c_oflag t) OPOST) (c_cflag t)
          (clear (c_lflag t) (ICANON .| ISIG .| IEXTEN .| ECHO))
          (set_cc VTIME 0 (set_cc VMIN 1 (c_cc t))).

(** [want]: the caller passed a buffer for the previous settings, which are
    returned when they are stored. *)
Definition ttySetCbreak (fd : Z) (want : bool) : M (Z * option termios) :=
  g ← sys (Tcgetattr fd);
  if r_ret g =? -1 then mret (-1, None)
  else
    let prev := if want then Some (r_termios g) else None in
    s ← scall (Tcsetattr fd TCSAFLUSH (cbreak_termios (r_termios g)));
    if s =? -1 then mret (-1, prev) else mret (0, prev).

Definition ttySetRaw (fd : Z) (want : bool) : M (Z * option termios) :=
  g ← sys (Tcgetattr fd);
  if r_ret g =? -1 then mret (-1, None)
  else
    let prev := if want then Some (r_termios g) else None in
    s ← scall (Tcsetattr fd TCSAFLUSH (raw_termios (r_termios g)));
    if s =? -1 then mret (-1, prev) else mret (0, prev).

(** ** lib/pty_master_open.c *)

(** Close a descriptor without disturbing [errno], and fail. *)
Definition close_keep_errno (fd : Z) : M unit :=
  savedErrno ← get_errno;
  _ ← scall (Close fd);
  set_errno savedErrno.

(** The master descriptor (or -1) and the slave name stored in the buffer of
    [snLen] bytes, when it was stored. *)
Definition ptyMasterOpen (snLen : Z) : M (Z * option string) :=
  masterFd ← scall (PosixOpenpt (O_RDWR .| O_NOCTTY));
  if masterFd =? -1 then mret (-1, None)
  else
    g ← scall (Grantpt masterFd);
    if g =? -1 then _ ← close_keep_errno masterFd; mret (-1, None)
    else
      u ← scall (Unlockpt masterFd);
      if u =? -1 then _ ← close_keep_errno masterFd; mret (-1, None)
      else
        p ← sys (Ptsname masterFd);
        if r_ret p =? 0 then _ ← close_keep_errno masterFd; mret (-1, None)
        else if strlen (r_buf p) <? snLen then mret (masterFd, Some (cstr (r_buf p)))
        else
          _ ← scall (Close masterFd);
          _ ← set_errno EOVERFLOW;
          mret (-1, None).

(** ** lib/pty_fork.c *)

Definition MAX_SNAME : Z := 1000.

(** The child after the fork: a session leader with the slave, opened by name, as its
    controlling terminal and as descriptors 0, 1 and 2. *)
Definition ptyFork_child (mfd : Z) (slname : string) (slaveTermios : option termios)
    (slaveWS : option (list Z)) : M unit :=
  s ← scall Setsid;
  if s =? -1 then err_exit "ptyFork:setsid" else
  _ ← scall (Close mfd);
  slaveFd ← scall (Open slname O_RDWR 0);
  if slaveFd =? -1 then err_exit "ptyFork:open-slave" else
  c ← scall (Ioctl slaveFd TIOCSCTTY [0]);
  if c =? -1 then err_exit "ptyFork:ioctl-TIOCSCTTY" else
  t ← match slaveTermios with
      | Some t => scall (Tcsetattr slaveFd TCSANOW t) | None => mret 0 end;
  if t =? -1 then err_exit "ptyFork:tcsetattr" else
  ws ← match slaveWS with
       | Some ws => scall (Ioctl slaveFd TIOCSWINSZ ws) | None => mret 0 end;
  if ws =? -1 then err_exit "ptyFork:ioctl-TIOCSWINSZ" else
  d0 ← scall (Dup2 slaveFd STDIN_FILENO);
  if negb (d0 =? STDIN_FILENO) then err_exit "ptyFork:dup2-STDIN_FILENO" else
  d1 ← scall (Dup2 slaveFd STDOUT_FILENO);
  if negb (d1 =? STDOUT_FILENO) then err_exit "ptyFork:dup2-STDOUT_FILENO" else
  d2 ← scall (Dup2 slaveFd STDERR_FILENO);
  if negb (d2 =? STDERR_FILENO) then err_exit "ptyFork:dup2-STDERR_FILENO" else
  _ ← when (slaveFd >? STDERR_FILENO) (_ ← scall (Close slaveFd); mret tt);
  mret tt.

(** [wantName]: [slaveName] is non-null, with room for [snLen] bytes;
    [slaveTermios] and [slaveWS] are the optional attributes.  Returns the
    result, the value stored through [masterFd] and the name stored through
    [slaveName], each when stored. *)
Definition ptyFork (wantName : bool) (snLen : Z) (slaveTermios : option termios)
    (slaveWS : option (list Z)) : M (Z * option Z * option string) :=
  '(mfd, slname) ← ptyMasterOpen MAX_SNAME;
  if mfd =? -1 then mret (-1, None, None)
  else
    let name := default EmptyString slname in
    if wantName && negb (strlen name <? snLen) then
      _ ← scall (Close mfd);
      _ ← set_errno EOVERFLOW;
      mret (-1, None, None)
    else
      let stored := if wantName then Some name else None in
      childPid ← scall Fork;
      if childPid =? -1 then
        _ ← close_keep_errno mfd;
        mret (-1, None, stored)
      else if negb (childPid =? 0) then mret (childPid, Some mfd, stored)
      else
        _ ← ptyFork_child mfd name slaveTermios slaveWS;
        mret (0, None, stored).

#[export] Instance ttySetCbreak_sane fd b : Sane (ttySetCbreak fd b).
Proof. unfold ttySetCbreak. apply _. Qed.
#[export] Instance ttySetRaw_sane fd b : Sane (ttySetRaw fd b).
Proof. unfold ttySetRaw. apply _. Qed.
#[export] Instance close_keep_errno_sane fd : Sane (close_keep_errno fd).
Proof. unfold close_keep_errno. apply _. Qed.
#[export] Instance ptyMasterOpen_sane n : Sane (ptyMasterOpen n).
Proof. unfold ptyMasterOpen. apply _. Qed.
#[export] Instance ptyFork_child_sane m n t ws : Sane (ptyFork_child m n t ws).
Proof. unfold ptyFork_child. apply _. Qed.
#[export] Instance ptyFork_sane b n t ws : Sane (ptyFork b n t ws).
Proof. unfold ptyFork. apply _. Qed.

(** ** Terminal modes *)

Lemma clear_has x y z : has z (clear x y) = true -> has z x = true.
Proof.
  unfold has, clear. rewrite !negb_true_iff, !Z.eqb_neq. intros H H0. apply H.
  apply Z.bits_inj'. intros n Hn. rewrite Z.land_spec, Z.ldiff_spec, Z.bits_0.
  apply (f_equal (fun v => Z.testbit v n)) in H0. rewrite Z.land_spec, Z.bits_0 in H0.
  destruct (Z.testbit z n), (Z.testbit x n); simpl in *; done.
Qed.

(** A cleared bit is off, a bit outside the mask is as it was. *)
Lemma has_clear_in x y b : Z.land b y = b -> has (clear x y) b = false.
Proof.
  intros Hb. unfold has, clear. apply negb_false_iff, Z.eqb_eq.
  apply Z.bits_inj'. intros n Hn. rewrite Z.land_spec, Z.ldiff_spec, Z.bits_0.
  apply (f_equal (fun v => Z.testbit v n)) in Hb. rewrite Z.land_spec in Hb.
  destruct (Z.testbit b n), (Z.testbit y n), (Z.testbit x n); simpl in *; done.
Qed.
Lemma has_clear_out x y b : Z.land b y = 0 -> has (clear x y) b = has x b.
Proof.
  intros Hb. unfold has, clear. do 2 f_equal.
  apply Z.bits_inj'. intros n Hn. rewrite !Z.land_spec, Z.ldiff_spec.
  apply (f_equal (fun v => Z.testbit v n)) in Hb. rewrite Z.land_spec, Z.bits_0 in Hb.
  destruct (Z.testbit b n), (Z.testbit y n), (Z.testbit x n); simpl in *; done.
Qed.
Lemma has_lor x y b : has (Z.lor x y) b = has x b || has y b.
Proof.
  unfold has. rewrite Z.land_lor_distr_l.
  destruct (Z.land x b =? 0) eqn:E1, (Z.land y b =? 0) eqn:E2; simpl; zbool.
  - by rewrite E1, E2.
  - rewrite E1, Z.lor_0_l. apply negb_true_iff, Z.eqb_neq. done.
  - apply negb_true_iff, Z.eqb_neq. by intros [? ?]%Z.lor_eq_0_iff.
  - apply negb_true_iff, Z.eqb_neq. by intros [? ?]%Z.lor_eq_0_iff.
Qed.
Lemma clear_idem x y : clear (clear x y) y = clear x y.
Proof.
  apply Z.bits_inj'. intros n Hn. unfold clear. rewrite !Z.ldiff_spec.
  by destruct (Z.testbit x n), (Z.testbit y n).
Qed.

Lemma set_cc_twice cc : set_cc VTIME 0 (set_cc VMIN 1 (set_cc VTIME 0 (set_cc VMIN 1 cc)))
  = set_cc VTIME 0 (set_cc VMIN 1 cc).
Proof.
  unfold set_cc, VTIME, VMIN. rewrite (list_insert_insert_ne _ 6 5) by done.
  by rewrite !list_insert_insert_eq.
Qed.

(** What a mode change promises: 0 exactly when both calls succeeded, the mode
    set is [mode] of the attributes read, and the previous attributes are
    handed back when they were asked for. *)
Definition tty_post (mode : termios -> termios) (fd : Z) (want : bool)
    (o : outcome (Z * option termios)) (es : list event) : Prop :=
  match es with
  | [] => o = Blocked (Tcgetattr fd)
  | [Called c1 g] => c1 = Tcgetattr fd /\
      (if r_ret g =? -1 then o = Ret (-1, None)
       else o = Blocked (Tcsetattr fd TCSAFLUSH (mode (r_termios g))))
  | [Called c1 g; Called c2 s] =>
      c1 = Tcgetattr fd /\ r_ret g <> -1 /\ c2 = Tcsetattr fd TCSAFLUSH (mode (r_termios g))
      /\ o = Ret (if r_ret s =? -1 then -1 else 0, if want then Some (r_termios g) else None)
  | _ => False
  end.

(** Terminal modes: both functions read the attributes, set the changed
    ones with TCSAFLUSH and report every failure as -1.  Raw mode has no
    canonical input, echo, signals, extended input, CR/NL translation, flow
    control or output processing and is idempotent; cbreak mode has no canonical
    input, echo or CR translation, has signals, and leaves output processing and
    flow control as they were, so (as its comment says) it does not undo raw
    mode; neither touches the control modes. *)
Theorem tty_modes_correct law fd want w :
  spec law (ttySetCbreak fd want) w (fun o es _ => tty_post cbreak_termios fd want o es)
  /\ spec law (ttySetRaw fd want) w (fun o es _ => tty_post raw_termios fd want o es)
  /\ (forall t, let r := raw_termios t in let c := cbreak_termios t in
      raw_termios r = r /\ c_cflag r = c_cflag t /\ c_cflag c = c_cflag t
      /\ Forall (fun b => has (c_lflag r) b = false) [ICANON; ECHO; ISIG; IEXTEN]
      /\ Forall (fun b => has (c_iflag r) b = false)
           [BRKINT; ICRNL; IGNBRK; IGNCR; INLCR; INPCK; ISTRIP; IXON; PARMRK]
      /\ has (c_oflag r) OPOST = false
      /\ has (c_lflag c) ICANON = false /\ has (c_lflag c) ECHO = false
      /\ has (c_lflag c) ISIG = true /\ has (c_lflag c) IEXTEN = has (c_lflag t) IEXTEN
      /\ has (c_iflag c) ICRNL = false /\ has (c_iflag c) IXON = has (c_iflag t) IXON
      /\ c_oflag c = c_oflag t
      /\ has (c_oflag (cbreak_termios r)) OPOST = false).
Proof.
  split_and!.
  - unfold ttySetCbreak. spec_run; simpl;
      repeat match goal with H : _ = _ :> bool |- _ => rewrite H end; zbool; by split_and?.
  - unfold ttySetRaw. spec_run; simpl;
      repeat match goal with H : _ = _ :> bool |- _ => rewrite H end; zbool; by split_and?.
  - intros t r c. subst r c.
    split_and!; try done; cbn [c_iflag c_oflag c_lflag cbreak_termios raw_termios];
      try (repeat constructor; by apply has_clear_in); try by apply has_clear_in.
    + unfold raw_termios. cbn. by rewrite !clear_idem, set_cc_twice.
    + rewrite has_lor, has_clear_in; done.
    + rewrite has_lor, has_clear_in; done.
    + rewrite has_lor. by rewrite orb_true_r.
    + rewrite has_lor, has_clear_out by done. by rewrite orb_false_r.
    + by apply has_clear_out.
Qed.

(** ** Pseudoterminals: descriptors *)

(** The failing call of a trace that may end with a [close]: the errno seen
    by the caller is the one that call reported. *)
Definition errno_of_failure (es : list event) (e : Z) : Prop :=
  exists es0 c r tail, es = es0 ++ Called c r :: tail
    /\ (tail = [] \/ exists fd k, tail = [Called (Close fd) k])
    /\ (r_err r <> 0 -> e = r_err r).

Section PtySpecs.
Context (law : call -> resp -> Prop).

Lemma spec_close_keep_errno fd w (Q : outcome unit -> list event -> world -> Prop) :
Q (Blocked (Close fd)) [] w ->
(forall k w', errno w' = errno w -> Q (Ret tt) [Called (Close fd) k] w') ->
spec law (close_keep_errno fd) w Q.
Proof. intros HB HQ. unfold close_keep_errno. spec_run; [done|]. by apply HQ. Qed.

Lemma spec_ptyMasterOpen snLen w (Q : outcome (Z * option string) -> list event -> world -> Prop) :
(forall c es w', Q (Blocked c) es w') ->
(forall es w', held es = [] -> errno w' = EOVERFLOW \/ errno_of_failure es (errno w') ->
 Q (Ret (-1, None)) es w') ->
(forall fd name es w', fd <> -1 -> held es = [fd] -> strlen name < snLen ->
 Q (Ret (fd, Some (cstr name))) es w') ->
spec law (ptyMasterOpen snLen) w Q.
Proof.
intros HB HF HS. unfold ptyMasterOpen.
assert (Herr : forall r e, errno_after e r = e -> r_err r <> 0 -> e = r_err r).
{ intros r e. unfold errno_after. destruct (r_err r =? 0) eqn:E; zbool; [done|]. by intros ->. }
assert (Hafter : forall e r, r_err r <> 0 -> errno_after e r = r_err r).
{ intros e r H. unfold errno_after. apply Z.eqb_neq in H. by rewrite H. }
assert (Hclose : forall es0 c r fd, held (es0 ++ [Called c r]) = [fd] -> forall w0 w1,
errno w1 = errno_after (errno w0) r ->
spec law (_ ← close_keep_errno fd; mret (-1, None)) w1
(fun o es w' => Q o (es0 ++ [Called c r] ++ es) w')).
{ intros es0 c r fd Hh w0 w1 He. spec_step. apply spec_close_keep_errno; [apply HB|].
intros k w' He'. spec_run. apply HF.
- rewrite app_assoc, held_app, Hh. cbn [app held_from]. apply filter_own.
- right. exists es0, c, r, [Called (Close fd) k]. cbn [app].
split_and!; [done|right; by exists fd, k|]. intros H. by rewrite He', He, Hafter. }
do 2 (spec_step); [apply HB|]. destruct (r_ret r =? -1) eqn:Er; zbool.
{ spec_run. apply HF; [unfold held; cbn; by rewrite Er|]. right.
exists [], (PosixOpenpt (O_RDWR .| O_NOCTTY)), r, []. split_and!; [done|by left|].
intros H. by rewrite He, Hafter. }
assert (Hopen : forall tail, held_from [r_ret r] tail = [r_ret r] ->
held (Called (PosixOpenpt (O_RDWR .| O_NOCTTY)) r :: tail) = [r_ret r]).
{ intros tail Ht. unfold held. cbn [held_from opens app]. apply Z.eqb_neq in Er. by rewrite Er. }
spec_step; spec_step; [apply HB|]. destruct (r_ret r0 =? -1) eqn:Eg; zbool.
{ apply (Hclose [_] _ _ (r_ret r)) with (w0 := w0); [|done]. by apply Hopen. }
spec_step; spec_step; [apply HB|]. destruct (r_ret r1 =? -1) eqn:Eu; zbool.
{ apply (Hclose [_; _] _ _ (r_ret r)) with (w0 := w1); [|done]. by apply Hopen. }
spec_step; spec_step; [apply HB|]. destruct (r_ret r2 =? 0) eqn:Ep; zbool.
{ apply (Hclose [_; _; _] _ _ (r_ret r)) with (w0 := w2); [|done]. by apply Hopen. }
destruct (strlen (r_buf r2) <? snLen) eqn:El; zbool.
- spec_run. apply HS; [done|by apply Hopen|done].
- spec_run; [apply HB|]. apply HF; [|by left].
cbn [app]. etrans; [apply (held_app [_; _; _; _] [_])|].
rewrite Hopen by done. cbn. apply filter_own.
Qed.
End PtySpecs.

(** The calls of a child that reached its end. *)
Definition child_calls (mfd : Z) (slname : string) (slaveTermios : option termios)
    (slaveWS : option (list Z)) (slave : Z) : list call :=
  [Setsid; Close mfd; Open slname O_RDWR 0; Ioctl slave TIOCSCTTY [0]]
  ++ match slaveTermios with Some t => [Tcsetattr slave TCSANOW t] | None => [] end
  ++ match slaveWS with Some ws => [Ioctl slave TIOCSWINSZ ws] | None => [] end
  ++ [Dup2 slave STDIN_FILENO; Dup2 slave STDOUT_FILENO; Dup2 slave STDERR_FILENO]
  ++ (if slave >? STDERR_FILENO then [Close slave] else []).

Lemma spec_ptyFork_child law mfd slname tio ws w
    (Q : outcome unit -> list event -> world -> Prop) :
  (forall c es w', Q (Blocked c) es w') ->
  (forall h es w', h = QuickExit EXIT_FAILURE \/ h = Abort -> Q (Halt h) es w') ->
  (forall slave es w', slave <> -1 -> calls es = child_calls mfd slname tio ws slave ->
     held_from [mfd] es = (if slave >? STDERR_FILENO then [] else [slave]) ->
     Q (Ret tt) es w') ->
  spec law (ptyFork_child mfd slname tio ws) w Q.
Proof.
  intros HB HH HR. unfold ptyFork_child.
  assert (Hfail : forall msg w1 (k : list event -> list event),
    spec law (err_exit msg) w1 (fun o es w' => Q o (k es) w')).
  { intros msg w1 k. apply spec_err_exit_quick. intros [|[]| |] es w' Ho _; try done.
    - apply HH. simpl in Ho. subst. by left.
    - apply HH. by right. }
  repeat first [ apply HB | apply (Hfail _ _ (fun es => _))
    | lazymatch goal with |- spec _ (err_exit _) _ _ => fail | _ => spec_step end ].
  all: apply (HR (r_ret r1)); [by apply Z.eqb_neq|unfold child_calls|];
    match goal with H : (_ >? STDERR_FILENO) = _ |- _ => rewrite H end; [done|].
  all: cbn [held_from opens app]; rewrite filter_own; cbn [app];
    match goal with H : (?x =? _) = _ |- context [?x =? _] => rewrite H end; cbn [app held_from];
    by rewrite ?filter_own.
Qed.

