(* ===== verification/Locks.v ===== *)
(** * Locks: record locks, the PID file, and the two locking programs
    (lib/region_locking.c, lib/create_pid_file.c, 55-filelock/) *)

From S2P Require Import Prelude Clib Sys Errors GetNum Posix Status.

(** ** lib/region_locking.c *)

(** [l_pid] is not filled in by the code; F_SETLK, F_SETLKW and F_GETLK do not read it. *)
Definition lockReg (fd cmd type whence start len : Z) : M Z :=
  scall (FcntlLock fd cmd (Flock type whence start len 0)).
Definition lockRegion (fd type whence start len : Z) : M Z :=
  lockReg fd F_SETLK type whence start len.
Definition lockRegionWait (fd type whence start len : Z) : M Z :=
  lockReg fd F_SETLKW type whence start len.

(** 0 if lockable, the process id of a conflicting holder, or -1. *)
Definition regionIsLocked (fd type whence start len : Z) : M Z :=
  r ← sys (FcntlLock fd F_GETLK (Flock type whence start len 0));
  if r_ret r =? -1 then mret (-1)
  else mret (if l_type (r_flock r) =? F_UNLCK then 0 else l_pid (r_flock r)).

(** ** lib/create_pid_file.c *)

Definition CPF_CLOEXEC : Z := 1.
Definition CPF_BUF_SIZE : Z := 100.

Definition createPidFile (progName pidFile : string) (flags : Z) : M Z :=
  fd ← scall (Open pidFile (O_RDWR .| O_CREAT) (S_IRUSR .| S_IWUSR));
  if fd =? -1 then errExit ("Could not open PID file " +:+ cstr pidFile) else
  _ ← when (has flags CPF_CLOEXEC)
       (flags ← scall (FcntlInt fd F_GETFD 0);
        if flags =? -1 then errExit ("Could not get flags for PID file " +:+ cstr pidFile) else
        s ← scall (FcntlInt fd F_SETFD (flags .| FD_CLOEXEC));
        when (s =? -1) (errExit ("Could not set flags for PID file " +:+ cstr pidFile)));
  l ← lockRegion fd F_WRLCK SEEK_SET 0 0;
  _ ← when (l =? -1)
       (errno ← get_errno;
        if (errno =? EAGAIN) || (errno =? EACCES) then
          fatal ("PID file '" +:+ cstr pidFile +:+ "' is locked; probably '"
                 +:+ cstr progName +:+ "' is already running")
        else errExit ("Unable to lock PID file '" +:+ cstr pidFile +:+ "'"));
  t ← scall (Ftruncate fd 0);
  if t =? -1 then errExit ("Could not truncate PID file '" +:+ cstr pidFile +:+ "'") else
  pid ← scall Getpid;
  let buf := snprintf CPF_BUF_SIZE (dec pid +:+ nl) in
  n ← scall (Write fd buf);
  if negb (n =? slen buf) then fatal ("Writing to PID file '" +:+ cstr pidFile +:+ "'")
  else mret fd.

#[export] Instance lockRegion_sane fd t wh s n : Sane (lockRegion fd t wh s n).
Proof. unfold lockRegion, lockReg. apply _. Qed.
#[export] Instance lockRegionWait_sane fd t wh s n : Sane (lockRegionWait fd t wh s n).
Proof. unfold lockRegionWait, lockReg. apply _. Qed.
#[export] Instance regionIsLocked_sane fd t wh s n : Sane (regionIsLocked fd t wh s n).
Proof. unfold regionIsLocked. apply _. Qed.
#[export] Instance createPidFile_sane p f fl : Sane (createPidFile p f fl).
Proof. unfold createPidFile. apply _. Qed.

(** ** 55-filelock/i_fcntl_locking.c *)

Definition MAX_LINE : Z := 100.
Definition F_OFD_GETLK : Z := 36.
Definition F_OFD_SETLK : Z := 37.
Definition F_OFD_SETLKW : Z := 38.

(** The answer of [fstat] carries [st_mode] as its first value. *)
Definition mandLockingEnabled (fd : Z) : M bool :=
  sb ← sys (Fstat fd);
  if r_ret sb =? -1 then errExit "stat"
  else mret (has (r_val 0 sb) S_ISGID && negb (has (r_val 0 sb) S_IXGRP)).

Definition lock_kind (b : bool) : string := if b then "mandatory" else "advisory".

(** [fdList[j]], from the descriptors of [argv[1]], [argv[2]], ... *)
Definition fd_at (fdList : list Z) (j : Z) : Z := nth (Z.to_nat (j - 1)) fdList 0.

Definition displayCmdFmt (argv : list string) (fdList : list Z) : M unit :=
  _ ← if argc_of argv =? 2 then
        printf (nl +:+ "Format: cmd lock start length [whence]" +:+ nl +:+ nl)
      else
        _ ← printf (nl +:+ "Format: " +:+ (if argc_of argv >? 2 then "file-num " else "")
                    +:+ "cmd lock start length [whence]" +:+ nl +:+ nl);
        _ ← printf ("    file-num is a number from the following list" +:+ nl);
        for_each (fun j =>
          b ← mandLockingEnabled (fd_at fdList j);
          printf (tab +:+ lpad 2 " "%char (dec j) +:+ "  "
                  +:+ rpad 10 (cstr (argv_at argv (Z.to_nat j)))
                  +:+ " [" +:+ lock_kind b +:+ " locking]" +:+ nl))
          (seqZ 1 (argc_of argv - 1));
  _ ← printf ("    'cmd' is 'g' (GETLK), 's' (SETLK), or 'w' (SETLKW)" +:+ nl);
  _ ← printf ("        or for OFD locks: 'G' (OFD_GETLK), 'S' (OFD_SETLK), or 'W' (OFD_SETLKW)" +:+ nl);
  _ ← printf ("    'lock' is 'r' (READ), 'w' (WRITE), or 'u' (UNLOCK)" +:+ nl);
  _ ← printf ("    'start' and 'length' specify byte range to lock" +:+ nl);
  printf ("    'whence' is 's' (SEEK_SET, default), 'c' (SEEK_CUR), or 'e' (SEEK_END)" +:+ nl +:+ nl).

(** The variables that outlive an iteration; the code leaves them uninitialised. *)
Record lock_vars := LockVars { v_fileNum : Z; v_cmdCh : Z; v_lock : Z; v_st : Z; v_len : Z }.

(** [strchr(set, c) != NULL] for a character held as its code. *)
Definition one_of (set : string) (c : Z) : bool := strchr_found set (Z_ascii c).
Definition is_chr (c : Z) (a : ascii) : bool := c =? ascii_Z a.

Definition i_fcntl_cmd (cmdCh : Z) : Z :=
  if is_chr cmdCh "G" then F_OFD_GETLK else if is_chr cmdCh "S" then F_OFD_SETLK
  else if is_chr cmdCh "W" then F_OFD_SETLKW
  else if is_chr cmdCh "g" then F_GETLK else if is_chr cmdCh "s" then F_SETLK else F_SETLKW.
Definition i_fcntl_type (lock : Z) : Z :=
  if is_chr lock "r" then F_RDLCK else if is_chr lock "w" then F_WRLCK else F_UNLCK.
Definition i_fcntl_whence (whence : Z) : Z :=
  if is_chr whence "c" then SEEK_CUR else if is_chr whence "e" then SEEK_END else SEEK_SET.

(** Carry out a request and report the result. *)
Definition i_fcntl_request (fd cmd lock : Z) (fl : flock) : M unit :=
  r ← sys (FcntlLock fd cmd fl);
  if (cmd =? F_GETLK) || (cmd =? F_OFD_GETLK) then
    if r_ret r =? -1 then errMsg "fcntl"
    else
      pid ← scall Getpid;
      let f := r_flock r in
      if l_type f =? F_UNLCK then printf ("[PID=" +:+ dec pid +:+ "] Lock can be placed" +:+ nl)
      else printf ("[PID=" +:+ dec pid +:+ "] Denied by "
                   +:+ (if l_type f =? F_RDLCK then "READ" else "WRITE") +:+ " lock on "
                   +:+ dec (l_start f) +:+ ":" +:+ dec (l_len f)
                   +:+ " (held by PID " +:+ dec (l_pid f) +:+ ")" +:+ nl)
  else if r_ret r =? 0 then
    pid ← scall Getpid;
    printf ("[PID=" +:+ dec pid +:+ "] " +:+ (if is_chr lock "u" then "unlocked" else "got lock") +:+ nl)
  else
    errno ← get_errno;
    if (errno =? EAGAIN) || (errno =? EACCES) then
      pid ← scall Getpid; printf ("[PID=" +:+ dec pid +:+ "] failed (incompatible lock)" +:+ nl)
    else if errno =? EDEADLK then
      pid ← scall Getpid; printf ("[PID=" +:+ dec pid +:+ "] failed (deadlock)" +:+ nl)
    else errMsg "fcntl".

(** One round of the prompt. *)
Definition i_fcntl_round (argv : list string) (fdList : list Z) (v : lock_vars) : M (lock_vars + Z) :=
  pid ← scall Getpid;
  _ ← printf ("PID=" +:+ dec pid +:+ "> ");
  _ ← fflush Stdout;
  g ← sys (Fgets MAX_LINE Stdin);
  if r_ret g =? 0 then exit EXIT_SUCCESS else
  let line := ztake (strlen (r_buf g) - 1) (cstr (r_buf g)) in
  if String.eqb line "" then mret (inl v)
  else if ceqb (schar 0 line) "?" then _ ← displayCmdFmt argv fdList; mret (inl v)
  else
    let one := argc_of argv =? 2 in
    let '(numRead, l) :=
      if one then sscanf line [ScanWs; ScanC; ScanWs; ScanC; ScanWs; ScanLL; ScanWs; ScanLL; ScanWs; ScanC]
      else sscanf line [ScanD; ScanWs; ScanC; ScanWs; ScanC; ScanWs; ScanLL; ScanWs; ScanLL; ScanWs; ScanC] in
    let o := if one then 0%nat else 1%nat in
    let v := LockVars (if one then 1 else nth 0 l (v_fileNum v)) (nth o l (v_cmdCh v))
               (nth (1 + o) l (v_lock v)) (nth (2 + o) l (v_st v)) (nth (3 + o) l (v_len v)) in
    let whence := nth (4 + o) l (ascii_Z "s") in
    if (v_fileNum v <? 1) || (v_fileNum v >=? argc_of argv) then
      _ ← printf ("File number must be in range 1 to " +:+ dec (argc_of argv - 1) +:+ nl);
      mret (inl v)
    else
      let fd := fd_at fdList (v_fileNum v) in
      if negb (((numRead >=? 4) && (argc_of argv =? 2)) || ((numRead >=? 5) && (argc_of argv >? 2)))
         || negb (one_of "gswGSW" (v_cmdCh v))
         || negb (one_of "rwu" (v_lock v)) || negb (one_of "sce" whence) then
        _ ← printf ("Invalid command!" +:+ nl); mret (inl v)
      else
        _ ← i_fcntl_request fd (i_fcntl_cmd (v_cmdCh v)) (v_lock v)
              (Flock (i_fcntl_type (v_lock v)) (i_fcntl_whence whence) (v_st v) (v_len v) 0);
        mret (inl v).

Definition i_fcntl_open (fdList : list Z) (name : string) : M (list Z) :=
  fd ← scall (Open name O_RDWR 0);
  if fd =? -1 then errExit ("open (" +:+ cstr name +:+ ")") else mret (fdList ++ [fd]).

(** [junk]: what the uninitialised variables hold at the start. *)
Definition i_fcntl_locking_main (junk : lock_vars) (argv : list string) : M Z :=
  if (argc_of argv <? 2) || wants_help argv then usageErr (cstr (argv_at argv 0) +:+ " file..." +:+ nl) else
  c ← scall (Lib "calloc" [] [argc_of argv; 4]);
  if c =? 0 then errExit "calloc" else
  fdList ← fold_m i_fcntl_open [] (tail argv);
  _ ← printf ("File       Locking" +:+ nl);
  _ ← printf ("----       -------" +:+ nl);
  _ ← for_each (fun j =>
        b ← mandLockingEnabled (fd_at fdList j);
        printf (rpad 10 (cstr (argv_at argv (Z.to_nat j))) +:+ " " +:+ lock_kind b +:+ nl))
        (seqZ 1 (argc_of argv - 1));
  _ ← printf nl;
  _ ← printf ("Enter ? for help" +:+ nl);
  loop (i_fcntl_round argv fdList) junk.

#[export] Instance mandLockingEnabled_sane fd : Sane (mandLockingEnabled fd).
Proof. unfold mandLockingEnabled. apply _. Qed.
#[export] Instance displayCmdFmt_sane a l : Sane (displayCmdFmt a l).
Proof. unfold displayCmdFmt. apply _. Qed.
#[export] Instance i_fcntl_request_sane fd c l f : Sane (i_fcntl_request fd c l f).
Proof. unfold i_fcntl_request. apply _. Qed.
#[export] Instance i_fcntl_round_sane a l v : Sane (i_fcntl_round a l v).
Proof. unfold i_fcntl_round. apply _. Qed.
#[export] Instance i_fcntl_open_sane l n : Sane (i_fcntl_open l n).
Proof. unfold i_fcntl_open. apply _. Qed.
#[export] Instance i_fcntl_locking_main_sane j a : Sane (i_fcntl_locking_main j a).
Proof. unfold i_fcntl_locking_main. apply _. Qed.
#[export] Instance i_fcntl_round_progress a l v : Progress (i_fcntl_round a l v).
Proof. unfold i_fcntl_round. apply _. Qed.

(** ** 55-filelock/t_flock.c *)

(** The message names its arguments in single quotation marks of three bytes each. *)
Definition lq : string := String "226" (String "128" (String "153" EmptyString)).
Definition t_flock_usage (prog : string) : string :=
  prog +:+ " file lock [sleep-time]" +:+ nl
  +:+ " " +:+ lq +:+ "lock" +:+ lq +:+ " is " +:+ lq +:+ "s" +:+ lq +:+ " (shared) or "
  +:+ lq +:+ "x" +:+ lq +:+ " (exclusive)" +:+ nl
  +:+ " optionally followed by " +:+ lq +:+ "n" +:+ lq +:+ " (nonblocking)" +:+ nl
  +:+ " " +:+ lq +:+ "sleep-time" +:+ lq +:+ " specifies time to hold lock" +:+ nl.

Definition t_flock_main (argv : list string) : M Z :=
  let a2 := argv_at argv 2 in
  if (argc_of argv <? 3) || wants_help argv || negb (strchr_found "sx" (schar 0 a2)) then
    usageErr (t_flock_usage (cstr (argv_at argv 0)))
  else
    let lock0 := if ceqb (schar 0 a2) "s" then LOCK_SH else LOCK_EX in
    let lock := if ceqb (schar 1 a2) "n" then lock0 .| LOCK_NB else lock0 in
    fd ← scall (Open (argv_at argv 1) O_RDONLY 0);
    if fd =? -1 then errExit "open" else
    let lname := if has lock LOCK_SH then "LOCK_SH" else "LOCK_EX" in
    pid ← scall Getpid;
    t ← currTime (Some "%T");
    _ ← printf ("PID " +:+ dec pid +:+ ": requesting " +:+ lname +:+ " at " +:+ show_opt t +:+ nl);
    f ← scall (Flock_ fd lock);
    _ ← when (f =? -1)
         (errno ← get_errno;
          pid ← scall Getpid;
          if errno =? EWOULDBLOCK then fatal ("PID " +:+ dec pid +:+ ": already locked - bye!")
          else errExit ("flock (PID=" +:+ dec pid +:+ ")"));
    pid ← scall Getpid;
    t ← currTime (Some "%T");
    _ ← printf ("PID " +:+ dec pid +:+ ": granted    " +:+ lname +:+ " at " +:+ show_opt t +:+ nl);
    secs ← if argc_of argv >? 3 then getInt (argv_opt argv 3) GN_NONNEG (Some "sleep-time") else mret 10;
    _ ← scall (Sleep (wrap_u32 secs));
    pid ← scall Getpid;
    t ← currTime (Some "%T");
    _ ← printf ("PID " +:+ dec pid +:+ ": releasing " +:+ lname +:+ " at " +:+ show_opt t +:+ nl);
    u ← scall (Flock_ fd LOCK_UN);
    if u =? -1 then errExit "flock" else exit EXIT_SUCCESS.

#[export] Instance t_flock_main_sane a : Sane (t_flock_main a).
Proof. unfold t_flock_main. apply _. Qed.

(** ** The PID file *)

(** The exclusive whole-file lock that makes the program the only instance. *)
Definition pid_lock (fd : Z) : call := FcntlLock fd F_SETLK (Flock F_WRLCK SEEK_SET 0 0 0).

Definition touches_file (e : event) : Prop :=
  match e with Called (Ftruncate _ _) _ | Called (Write _ _) _ => True | _ => False end.

(** Nothing was written, or the lock had been granted. *)
Definition guarded_by_lock (es : list event) : Prop :=
  Forall (fun e => ~ touches_file e) es
  \/ exists fd r, In (Called (pid_lock fd) r) es /\ r_ret r <> -1.

Lemma diag_untouched es : Forall diag es -> Forall (fun e => ~ touches_file e) es.
Proof.
  intros H. eapply Forall_impl; [exact H|]. intros [[]| |]; simpl; tauto.
Qed.

Lemma pid_line pid : in_int pid ->
  snprintf CPF_BUF_SIZE (dec pid +:+ nl) = dec pid +:+ nl.
Proof.
  intros H. assert (in_long pid).
  { unfold in_int, in_long, INT_MIN, INT_MAX, LONG_MIN, LONG_MAX in *. lia. }
  pose proof (slen_dec pid ltac:(done)). unfold snprintf, CPF_BUF_SIZE.
  apply ztake_all. rewrite slen_app. unfold nl. rewrite slen_cons, slen_nil. lia.
Qed.

(** The whole of a successful run. *)
Definition pid_file_run (file : string) (flags fd : Z) (es : list event) : Prop :=
  exists r0 mid rl rt rp rw,
    es = Called (Open file (O_RDWR .| O_CREAT) (S_IRUSR .| S_IWUSR)) r0 :: mid
         ++ [Called (pid_lock fd) rl; Called (Ftruncate fd 0) rt; Called Getpid rp;
             Called (Write fd (snprintf CPF_BUF_SIZE (dec (r_ret rp) +:+ nl))) rw]
    /\ r_ret r0 = fd /\ r_ret rl <> -1 /\ r_ret rt <> -1
    /\ calls mid = (if has flags CPF_CLOEXEC
                    then [FcntlInt fd F_GETFD 0; FcntlInt fd F_SETFD
                            (Z.lor (nth 0 (map r_ret (answers mid)) 0) FD_CLOEXEC)] else [])
    /\ r_ret rw = slen (snprintf CPF_BUF_SIZE (dec (r_ret rp) +:+ nl)).

(** Either nothing but diagnostics and harmless calls, or the lock is there. *)
Ltac lock_leaf :=
  unfold guarded_by_lock;
  first
    [ left; rewrite ?Forall_app, ?Forall_cons, ?Forall_nil;
      split_and?; solve [done | simpl; tauto | by apply diag_untouched]
    | right; do 2 eexists; split; [simpl; tauto|by apply Z.eqb_neq] ].

Lemma spec_createPidFile law prog file flags w (Q : outcome Z -> list event -> world -> Prop) :
  (forall c es w', guarded_by_lock es -> Q (Blocked c) es w') ->
  (forall h es w', died h -> guarded_by_lock es -> Q (Halt h) es w') ->
  (forall fd es w', fd <> -1 -> pid_file_run file flags fd es -> Q (Ret fd) es w') ->
  spec law (createPidFile prog file flags) w Q.
Proof.
  intros HB HD HR. unfold createPidFile, lockRegion, lockReg. fold pid_lock.
  die_run HB HD.
  all: try lock_leaf.
  all: apply HR; [by apply Z.eqb_neq|]; unfold pid_file_run.
  - exists r, [Called (FcntlInt (r_ret r) F_GETFD 0) r0;
               Called (FcntlInt (r_ret r) F_SETFD (r_ret r0 .| FD_CLOEXEC)) r1], r2, r3, r4, r5.
    rewrite Heqb0; zbool; by split_and!.
  - exists r, [], r0, r1, r2, r3. rewrite Heqb0; zbool; by split_and!.
Qed.

(** C35.  [createPidFile], for every answer of the kernel: it returns only a
    descriptor on which it holds an exclusive lock of the whole file, after
    truncating the file and writing its process id and a newline, completely
    (a text [atoi] reads back); a program that does not get the lock never
    truncates or writes the file and does not return; the error value -1 is
    never returned. *)
Theorem createPidFile_correct law prog file flags w :
  spec law (createPidFile prog file flags) w (fun o es _ =>
    match o with
    | Ret fd => fd <> -1 /\ pid_file_run file flags fd es
    | Halt h => died h /\ guarded_by_lock es
    | Blocked _ => guarded_by_lock es
    | Diverged => False
    end)
  /\ forall pid, in_int pid ->
       snprintf CPF_BUF_SIZE (dec pid +:+ nl) = dec pid +:+ nl
       /\ atoi (snprintf CPF_BUF_SIZE (dec pid +:+ nl)) = pid.
Proof.
  split; [by apply spec_createPidFile|].
  intros pid Hp. rewrite pid_line by done. split; [done|]. by apply atoi_dec.
Qed.

(** ** The lock commands *)

Definition lock_calls (es : list event) : list call :=
  List.filter (fun c => match c with FcntlLock _ _ _ => true | _ => false end) (calls es).

(** The meaning of the letters. *)
Definition cmd_letters : list (ascii * Z) :=
  [("g"%char, F_GETLK); ("s"%char, F_SETLK); ("w"%char, F_SETLKW);
   ("G"%char, F_OFD_GETLK); ("S"%char, F_OFD_SETLK); ("W"%char, F_OFD_SETLKW)].
Definition lock_letters : list (ascii * Z) :=
  [("r"%char, F_RDLCK); ("w"%char, F_WRLCK); ("u"%char, F_UNLCK)].
Definition whence_letters : list (ascii * Z) :=
  [("s"%char, SEEK_SET); ("c"%char, SEEK_CUR); ("e"%char, SEEK_END)].

Lemma letters_meaning :
  (forall c cmd, In (c, cmd) cmd_letters ->
     one_of "gswGSW" (ascii_Z c) = true /\ i_fcntl_cmd (ascii_Z c) = cmd)
  /\ (forall c ty, In (c, ty) lock_letters ->
        one_of "rwu" (ascii_Z c) = true /\ i_fcntl_type (ascii_Z c) = ty)
  /\ (forall c wh, In (c, wh) whence_letters ->
        one_of "sce" (ascii_Z c) = true /\ i_fcntl_whence (ascii_Z c) = wh).
Proof.
  split_and!; intros c z H; simpl in H; intuition; simplify_eq; by vm_compute.
Qed.

(** The line a user types for a request: letters, decimal start and length, and
    an optional letter for the base of the range. *)
Definition request_line (c l : ascii) (st len : Z) (wh : option ascii) : string :=
  String c (String " " (String l (String " " (dec st +:+ String " " (dec len +:+
    match wh with Some w => String " " (String w EmptyString) | None => EmptyString end))))).

Lemma scan_space fmt s :
  scan (ScanWs :: fmt) (String " " s) = scan fmt (skip_ws s).
Proof. reflexivity. Qed.

Lemma scan_ll fmt z t : in_long z -> starts_digit 10 t = false -> nonul t = true ->
  scan (ScanLL :: fmt) (dec z +:+ t) = z :: scan fmt t.
Proof. intros. cbn [scan]. by rewrite scan_number_dec. Qed.

Lemma scan_request c cmd l ty st len wh z :
  In (c, cmd) cmd_letters -> In (l, ty) lock_letters ->
  (forall w, wh = Some w -> In (w, z) whence_letters) -> in_long st -> in_long len ->
  scan [ScanWs; ScanC; ScanWs; ScanC; ScanWs; ScanLL; ScanWs; ScanLL; ScanWs; ScanC]
       (request_line c l st len wh)
  = [ascii_Z c; ascii_Z l; st; len] ++ match wh with Some w => [ascii_Z w] | None => [] end.
Proof.
  intros Hc Hl Hw Hst Hlen. unfold request_line.
  set (tl := match wh with Some w => String " " (String w "") | None => "" end).
  assert (Htl : starts_digit 10 tl = false /\ nonul tl = true
    /\ scan [ScanWs; ScanC] tl = match wh with Some w => [ascii_Z w] | None => [] end).
  { subst tl. destruct wh as [w|]; [|done]. specialize (Hw w eq_refl).
    simpl in Hw. intuition; simplify_eq; by vm_compute. }
  destruct Htl as (Htd & Htn & Hts).
  transitivity (ascii_Z c :: ascii_Z l :: scan [ScanLL; ScanWs; ScanLL; ScanWs; ScanC]
                   (skip_ws (dec st +:+ String " " (dec len +:+ tl)))).
  { simpl in Hc, Hl. intuition; simplify_eq; reflexivity. }
  rewrite skip_ws_dec, scan_ll; [|done|done|]; cycle 1.
  { change (nonul (dec len +:+ tl) = true). by rewrite nonul_app, dec_nonul. }
  rewrite scan_space, skip_ws_dec, scan_ll by done. by rewrite Hts.
Qed.

(** What [fgets] stored, without its newline, is the request. *)
Lemma request_line_read c cmd l ty st len wh z :
  In (c, cmd) cmd_letters -> In (l, ty) lock_letters ->
  (forall w, wh = Some w -> In (w, z) whence_letters) ->
  let line := request_line c l st len wh in
  cstr (line +:+ nl) = line +:+ nl
  /\ ztake (strlen (line +:+ nl) - 1) (line +:+ nl) = line
  /\ cstr line = line /\ schar 0 line = c /\ ceqb c "?" = false.
Proof.
  intros Hc Hl Hw line.
  assert (Hn : nonul line = true).
  { unfold line, request_line.
    assert (Htl : nonul match wh with Some w => String " " (String w "") | None => "" end = true).
    { destruct wh as [w|]; [|done]. specialize (Hw w eq_refl). simpl in Hw.
      intuition; simplify_eq; by vm_compute. }
    assert (Hc' : ceqb c nul = false) by (simpl in Hc; intuition; simplify_eq; by vm_compute).
    assert (Hl' : ceqb l nul = false) by (simpl in Hl; intuition; simplify_eq; by vm_compute).
    unfold nonul in *. cbn [sforall]. rewrite Hc', Hl'. cbn.
    rewrite sforall_app. cbn [sforall]. rewrite sforall_app, Htl.
    pose proof (dec_nonul st) as Hs. pose proof (dec_nonul len) as Hlen. unfold nonul in *.
    by rewrite Hs, Hlen. }
  assert (Hnn : nonul (line +:+ nl) = true) by (by rewrite nonul_app, Hn).
  split_and!; try done.
  - by apply cstr_nonul.
  - rewrite strlen_nonul by done. rewrite slen_app.
    replace (slen line + slen nl - 1) with (slen line) by (unfold nl; rewrite slen_cons, slen_nil; lia).
    apply ztake_app.
  - by apply cstr_nonul.
  - simpl in Hc. intuition; simplify_eq; by vm_compute.
Qed.

Lemma spec_i_fcntl_request law fd cmd lock fl w (Q : outcome unit -> list event -> world -> Prop) :
  (forall c es w', Q (Blocked c) es w') ->
  (forall es w', lock_calls es = [FcntlLock fd cmd fl] -> Q (Ret tt) es w') ->
  spec law (i_fcntl_request fd cmd lock fl) w Q.
Proof.
  intros HB HR. unfold i_fcntl_request.
  assert (Hd : forall r tail, lock_calls tail = [] ->
    lock_calls ([Called (FcntlLock fd cmd fl) r] ++ tail) = [FcntlLock fd cmd fl]).
  { intros r tail Ht. unfold lock_calls in *. rewrite calls_app, List.filter_app. by rewrite Ht. }
  assert (Hdiag : forall es, Forall diag es -> lock_calls es = []).
  { intros es H. induction H as [|[[]| |] es He _ IH]; simpl in *; try tauto; done. }
  err_run; try apply HB; apply HR, Hd; rewrite ?app_nil_r; try done; by apply Hdiag.
Qed.

(** A request typed at the prompt of [i_fcntl_locking] (one file): for every
    command, lock type, start, length and optional base, the round makes exactly
    one [fcntl], on that file, with the operation, type, base and numbers the line
    spells, whatever the uninitialised variables held, and prompts again. *)
Theorem i_fcntl_request_exact prog file fd v c cmd l ty st len wh z w :
  In (c, cmd) cmd_letters -> In (l, ty) lock_letters ->
  match wh with Some b => In (b, z) whence_letters | None => z = SEEK_SET end ->
  in_long st -> in_long len ->
  spec (fun c' r => match c' with
                    | Fgets _ _ => r_ret r <> 0 /\ r_buf r = request_line c l st len wh +:+ nl
                    | _ => True end)
    (i_fcntl_round [prog; file] [fd] v) w (fun o es _ =>
      match o with
      | Ret x => x = inl (LockVars 1 (ascii_Z c) (ascii_Z l) st len)
                 /\ lock_calls es = [FcntlLock fd cmd (Flock ty z st len 0)]
      | Blocked _ => True
      | _ => False
      end).
Proof.
  intros Hc Hl Hw Hst Hlen. unfold i_fcntl_round.
  assert (Hw' : forall b, wh = Some b -> In (b, z) whence_letters) by (intros b ->; done).
  destruct (request_line_read c cmd l ty st len wh z Hc Hl Hw') as (E1 & E2 & E3 & E4 & E5).
  destruct letters_meaning as (Mc & Ml & Mw).
  destruct (Mc _ _ Hc) as [Oc Cc], (Ml _ _ Hl) as [Ol Cl].
  do 9 (spec_step; try done). spec_step; spec_step; [done|]. destruct Hlaw0 as [Hr0 Hbuf].
  rewrite Hbuf, E1. apply Z.eqb_neq in Hr0 as ->. unfold strlen in E2. rewrite E1 in E2.
  unfold strlen. rewrite E1, E2.
  cbn [argc_of]. change (argc_of [prog; file] =? 2) with true. cbn [andb].
  unfold sscanf. rewrite E3. erewrite scan_request by done.
  change (String.eqb (request_line c l st len wh) "") with false. rewrite E4, E5.
  destruct wh as [b|]; [destruct (Mw _ _ Hw) as [Ow Cw]|subst z]; cbn; rewrite ?Ow, ?Oc, ?Ol, ?Cc, ?Cl, ?Cw;
    change (argc_of [prog; file]) with 2; change (1 >=? 2) with false;
    try change (one_of "sce" (ascii_Z "s")) with true;
    try change (i_fcntl_whence (ascii_Z "s")) with SEEK_SET;
    change (Z.of_nat 5 >=? 4) with true; change (Z.of_nat 4 >=? 4) with true; cbn [andb orb negb];
    spec_step; apply spec_i_fcntl_request; try done; intros es' w' Hes; spec_step;
    (split; [done|]); unfold lock_calls in *; cbn; by rewrite app_nil_r.
Qed.

(** A write lock on the last five bytes. *)
Lemma i_fcntl_request_exact_witness :
  let line := request_line "s" "w" 0 (-5) (Some "e"%char) in
  let w := start [ok 7; Resp 1 0 (line +:+ nl) NoPay; ok 0; ok 7] in
  let m := i_fcntl_round ["p"; "f"] [3] (LockVars 0 0 0 0 0) in
  fst (m w) = Ret (inl (LockVars 1 115 119 0 (-5)))
  /\ spec (fun c r => match c with
                      | Fgets _ _ => r_ret r <> 0 /\ r_buf r = line +:+ nl | _ => True end)
       m w (fun o es _ => match o with
         | Ret x => x = inl (LockVars 1 115 119 0 (-5))
                    /\ lock_calls es = [FcntlLock 3 F_SETLK (Flock F_WRLCK SEEK_END 0 (-5) 0)]
         | Blocked _ => True | _ => False end).
Proof.
  intros line w m. split; [by vm_compute|].
  apply (i_fcntl_request_exact "p" "f" 3 (LockVars 0 0 0 0 0) "s" F_SETLK "w" F_WRLCK 0 (-5)
    (Some "e"%char) SEEK_END w); simpl; try tauto; unfold in_long, LONG_MIN, LONG_MAX; lia.
Defined.
