(* ===== verification/Daemon.v ===== *)
(** * Daemon: becoming a daemon (lib/become_daemon.c) *)

From S2P Require Import Prelude Clib Sys Errors Posix.

Definition BD_NO_CHDIR : Z := 1.            (* 01 *)
Definition BD_NO_CLOSE_FILES : Z := 2.      (* 02 *)
Definition BD_NO_REOPEN_STD_FDS : Z := 4.   (* 04 *)
Definition BD_NO_UMASK0 : Z := 8.           (* 010 *)
Definition BD_MAX_CLOSE : Z := 8192.
Definition SC_OPEN_MAX : Z := 4.

(** [switch (fork())]: [None] when the process goes on as the child, [Some]
    result when [becomeDaemon] returns; the parent ends here. *)
Definition fork_off : M (option Z) :=
  pid ← scall Fork;
  if pid =? -1 then mret (Some (-1))
  else if pid =? 0 then mret None
  else quick_exit EXIT_SUCCESS.

Definition becomeDaemon (flags : Z) : M Z :=
  f ← fork_off;
  match f with Some e => mret e | None =>
  s ← scall Setsid;
  if s =? -1 then mret (-1) else
  g ← fork_off;
  match g with Some e => mret e | None =>
  _ ← when (negb (has flags BD_NO_UMASK0)) (_ ← scall (Umask 0); mret tt);
  _ ← when (negb (has flags BD_NO_CHDIR)) (_ ← scall (Chdir "/"); mret tt);
  _ ← when (negb (has flags BD_NO_CLOSE_FILES))
       (m ← scall (Sysconf SC_OPEN_MAX);
        let maxfd := if m =? -1 then BD_MAX_CLOSE else wrap_s32 m in
        for_each (fun fd => _ ← scall (Close fd); mret tt) (seqZ 0 maxfd));
  if negb (has flags BD_NO_REOPEN_STD_FDS) then
    _ ← scall (Close STDIN_FILENO);
    fd ← scall (Open "/dev/null" O_RDWR 0);
    if negb (fd =? STDIN_FILENO) then mret (-1) else
    d1 ← scall (Dup2 STDIN_FILENO STDOUT_FILENO);
    if negb (d1 =? STDOUT_FILENO) then mret (-1) else
    d2 ← scall (Dup2 STDIN_FILENO STDERR_FILENO);
    if negb (d2 =? STDERR_FILENO) then mret (-1) else
    mret 0
  else mret 0
  end end.

#[export] Instance fork_off_sane : Sane fork_off.
Proof. unfold fork_off. apply _. Qed.
#[export] Instance becomeDaemon_sane f : Sane (becomeDaemon f).
Proof. unfold becomeDaemon. apply _. Qed.

(** ** What the daemon has done *)

(** The limit reported, or the guess. *)
Definition open_max (es : list event) (maxfd : Z) : Prop :=
  forall r, In (Called (Sysconf SC_OPEN_MAX) r) es ->
    maxfd = if r_ret r =? -1 then BD_MAX_CLOSE else wrap_s32 (r_ret r).

Section DaemonSpecs.
Context (law : call -> resp -> Prop).

(** Closing a range of descriptors. *)
Lemma spec_close_all l w (Q : outcome unit -> list event -> world -> Prop) :
(forall c es w', Q (Blocked c) es w') ->
(forall es w', calls es = map Close l -> Q (Ret tt) es w') ->
spec law (for_each (fun fd => _ ← scall (Close fd); mret tt) l) w Q.
Proof.
intros HB HR. unfold for_each.
apply (spec_fold_m law _ (fun _ rest es _ => calls es ++ map Close rest = map Close l) Q l tt [] w);
[done|..].
- intros [] es w' H. apply HR. by rewrite app_nil_r in H.
- intros [] fd rest es w' H. spec_run; [apply HB|].
rewrite calls_app, <- app_assoc. done.
Qed.

Lemma spec_when_call (b : bool) (c : call) w (Q : outcome unit -> list event -> world -> Prop) :
(forall c es w', Q (Blocked c) es w') ->
(forall es w', calls es = (if b then [] else [c]) -> Q (Ret tt) es w') ->
spec law (when (negb b) (_ ← scall c; mret tt)) w Q.
Proof. intros HB HR. destruct b; cbn [negb]; spec_run; [by apply HR|apply HB|by apply HR]. Qed.

Lemma spec_close_files (b : bool) w (Q : outcome unit -> list event -> world -> Prop) :
(forall c es w', Q (Blocked c) es w') ->
(forall maxfd es w', open_max es maxfd ->
 calls es = (if b then [] else Sysconf SC_OPEN_MAX :: map Close (seqZ 0 maxfd)) ->
 Q (Ret tt) es w') ->
spec law (when (negb b)
 (m ← scall (Sysconf SC_OPEN_MAX);
let maxfd := if m =? -1 then BD_MAX_CLOSE else wrap_s32 m in
for_each (fun fd => _ ← scall (Close fd); mret tt) (seqZ 0 maxfd))) w Q.
Proof.
intros HB HR. destruct b; cbn [negb when]; [spec_run; apply (HR 0); [by intros r []|done]|].
spec_step; spec_step; [apply HB|]. apply spec_close_all; [intros; apply HB|].
intros es w' Hes. eapply (HR (if r_ret r =? -1 then BD_MAX_CLOSE else wrap_s32 (r_ret r)));
[|cbn; by rewrite Hes].
intros r' [H|H]; [by injection H as ->|].
cbn in H. apply in_calls in H. rewrite Hes in H. apply in_map_iff in H as (? & ? & ?). done.
Qed.

Lemma spec_fork_off w (Q : outcome (option Z) -> list event -> world -> Prop) :
(forall c es w', Q (Blocked c) es w') ->
(forall r w', r_ret r = -1 -> Q (Ret (Some (-1))) [Called Fork r] w') ->
(forall r w', r_ret r = 0 -> Q (Ret None) [Called Fork r] w') ->
(forall r w', r_ret r <> -1 -> r_ret r <> 0 ->
 Q (Halt (QuickExit EXIT_SUCCESS)) [Called Fork r] w') ->
spec law fork_off w Q.
Proof. intros HB HE HC HP. unfold fork_off. spec_run; cbn [pass app]; zbool; auto. Qed.
End DaemonSpecs.

(** The calls of a process that has become a daemon; [maxfd] is the number of
    descriptors closed. *)
Definition daemon_calls (flags maxfd : Z) : list call :=
  [Fork; Setsid; Fork]
  ++ (if has flags BD_NO_UMASK0 then [] else [Umask 0])
  ++ (if has flags BD_NO_CHDIR then [] else [Chdir "/"])
  ++ (if has flags BD_NO_CLOSE_FILES then [] else Sysconf SC_OPEN_MAX :: map Close (seqZ 0 maxfd))
  ++ (if has flags BD_NO_REOPEN_STD_FDS then []
      else [Close STDIN_FILENO; Open "/dev/null" O_RDWR 0;
            Dup2 STDIN_FILENO STDOUT_FILENO; Dup2 STDIN_FILENO STDERR_FILENO]).

(** A complete run of the process that becomes the daemon. *)
Definition daemon_run (flags : Z) (es : list event) : Prop :=
  (exists maxfd, calls es = daemon_calls flags maxfd /\ open_max es maxfd)
  /\ (forall r, In (Called Fork r) es -> r_ret r = 0).

Lemma in_known (es : list event) l c r : calls es = l -> In (Called c r) es -> In c l.
Proof. intros <-. apply in_calls. Qed.

(** Case on the flag a hypothesis tests. *)
Ltac split_flag H := match type of H with context [has ?a ?b] => destruct (has a b) end.

Lemma daemon_run_parts flags maxfd r r0 r1 es1 es2 es3 es4 :
  r_ret r = 0 -> r_ret r1 = 0 -> open_max es3 maxfd ->
  calls es1 = (if has flags BD_NO_UMASK0 then [] else [Umask 0]) ->
  calls es2 = (if has flags BD_NO_CHDIR then [] else [Chdir "/"]) ->
  calls es3 = (if has flags BD_NO_CLOSE_FILES then [] else Sysconf SC_OPEN_MAX :: map Close (seqZ 0 maxfd)) ->
  calls es4 = (if has flags BD_NO_REOPEN_STD_FDS then []
      else [Close STDIN_FILENO; Open "/dev/null" O_RDWR 0;
            Dup2 STDIN_FILENO STDOUT_FILENO; Dup2 STDIN_FILENO STDERR_FILENO]) ->
  daemon_run flags ([Called Fork r; Called Setsid r0; Called Fork r1] ++ es1 ++ es2 ++ es3 ++ es4).
Proof.
  intros Hr Hr1 Hmax H1 H2 H3 H4.
  assert (Hin : forall c r', In (Called c r') (es1 ++ es2 ++ es3 ++ es4) ->
    c <> Fork /\ (c = Sysconf SC_OPEN_MAX -> In (Called c r') es3)).
  { intros c r' H. rewrite !in_app_iff in H. destruct H as [H|[H|[H|H]]].
    - eapply in_known in H; [|exact H1]. split_flag H;
        simpl in H; [done|];
        by repeat (destruct H as [<-|H]; [by split|]).
    - eapply in_known in H; [|exact H2]. split_flag H;
        simpl in H; [done|];
        by repeat (destruct H as [<-|H]; [by split|]).
    - split; [|done]. eapply in_known in H; [|exact H3].
      split_flag H;
        simpl in H; [done|]. intros ->.
      destruct H as [?|H]; [done|]. apply in_map_iff in H as (? & ? & ?). done.
    - eapply in_known in H; [|exact H4]. split_flag H;
        simpl in H; [done|];
        by repeat (destruct H as [<-|H]; [by split|]). }
  split; [exists maxfd; split|].
  - rewrite !calls_app, H1, H2, H3, H4. done.
  - intros r' [?|[?|[?|H]]]; [done..|]. by apply Hmax, (Hin _ _ H).
  - intros r' [[= <-]|[?|[[= <-]|H]]]; [done..|]. by destruct (Hin _ _ H).
Qed.

