(* ===== verification/FileIO.v ===== *)
(** * FileIO: the file I/O programs (4-fileio/, 5-fileio-detail/, 5-experimental/)
    and the transfer loop that many programs share *)

From S2P Require Import Prelude Clib Sys Errors GetNum RdWr Posix.

(** ** The transfer loop

    [while ((numRead = read(in, buf, n)) > 0) if (write(out, buf, numRead) != numRead) ...]:
    the value of the last [read] is the result; [short] is what the program does
    after a failed or partial [write]. *)
Definition transfer (inFd outFd n : Z) (short : M unit) : M Z :=
  loop (fun _ : unit =>
    r ← sys (Read inFd n);
    let numRead := r_ret r in
    if numRead >? 0 then
      k ← scall (Write outFd (ztake numRead (r_buf r)));
      _ ← when (negb (k =? numRead)) short;
      mret (inl tt)
    else mret (inr numRead)) tt.

(** ** 4-fileio/copy.c *)

Definition COPY_BUF_SIZE : Z := 1024.
Definition rw_rw_rw : Z := S_IRUSR .| S_IWUSR .| S_IRGRP .| S_IWGRP .| S_IROTH .| S_IWOTH.

Definition copy_main (argv : list string) : M Z :=
  if negb (argc_of argv =? 3) || wants_help argv then
    usageErr (cstr (argv_at argv 0) +:+ " old-file new-file" +:+ nl) else
  inputFd ← scall (Open (argv_at argv 1) O_RDONLY 0);
  if inputFd =? -1 then errExit ("opening file " +:+ cstr (argv_at argv 1)) else
  outputFd ← scall (Open (argv_at argv 2) (O_CREAT .| O_WRONLY .| O_TRUNC) rw_rw_rw);
  if outputFd =? -1 then errExit ("opening file " +:+ cstr (argv_at argv 2)) else
  numRead ← transfer inputFd outputFd COPY_BUF_SIZE
              (fatal "write() returned error or partial write occurred");
  if numRead =? -1 then errExit "read" else
  c ← scall (Close inputFd);
  if c =? -1 then errExit "close input" else
  c ← scall (Close outputFd);
  if c =? -1 then errExit "close output" else
  exit EXIT_SUCCESS.

(** ** 4-fileio/seek_io.c *)

Definition chars : string -> list ascii := list_ascii_of_string.

(** One command-line argument. *)
Definition seek_io_arg (fd : Z) (a : string) : M unit :=
  let c := schar 0 a in
  if ceqb c "r" || ceqb c "R" then
    len ← getLong (Some (sdrop 1 a)) GN_ANY_BASE (Some a);
    buf ← scall (Malloc (wrap_u64 len));
    if buf =? 0 then errExit "malloc" else
    r ← sys (Read fd (wrap_u64 len));
    let numRead := r_ret r in
    if numRead =? -1 then errExit "read" else
    _ ← if numRead =? 0 then printf (cstr a +:+ ": end-of-file" +:+ nl)
        else
          _ ← printf (cstr a +:+ ": ");
          _ ← for_each (fun ch =>
                if ceqb c "r" then printf (String (if isprint ch then ch else "?"%char) EmptyString)
                else printf (lpad 2 "0"%char (hex (ascii_Z ch)) +:+ " "))
                (chars (ztake numRead (r_buf r)));
          printf nl;
    _ ← scall (Free buf);
    mret tt
  else if ceqb c "w" then
    numWritten ← scall (Write fd (cstr (sdrop 1 a)));
    if numWritten =? -1 then errExit "write" else
    printf (cstr a +:+ ": wrote " +:+ dec numWritten +:+ " bytes" +:+ nl)
  else if ceqb c "s" then
    offset ← getLong (Some (sdrop 1 a)) GN_ANY_BASE (Some a);
    p ← scall (Lseek fd offset SEEK_SET);
    if p =? -1 then errExit "lseek" else
    printf (cstr a +:+ ": seek succeeded" +:+ nl)
  else cmdLineErr ("Argument must start with [rRws]: " +:+ cstr a +:+ nl).

Definition seek_io_main (argv : list string) : M Z :=
  if (argc_of argv <? 3) || wants_help argv then
    usageErr (cstr (argv_at argv 0) +:+ " file {r<length>|R<length>|w<string>|s<offset>}..." +:+ nl) else
  fd ← scall (Open (argv_at argv 1) (O_RDWR .| O_CREAT) rw_rw_rw);
  if fd =? -1 then errExit "open" else
  _ ← for_each (seek_io_arg fd) (drop 2 argv);
  c ← scall (Close fd);
  if c =? -1 then errExit "close" else
  exit EXIT_SUCCESS.

(** ** 4-fileio/read-correct.c and read-wrong.c *)

Definition MAX_READ : Z := 20.

Definition read_correct_main (argv : list string) : M Z :=
  r ← sys (Read STDIN_FILENO MAX_READ);
  if r_ret r =? -1 then errExit "read" else
  let buffer := sstore (srep (Z.to_nat (MAX_READ + 1)) "?"%char) 0
                  (ztake (r_ret r) (r_buf r) +:+ String nul EmptyString) in
  _ ← printf ("The input data was: " +:+ cstr buffer +:+ nl);
  exit EXIT_SUCCESS.

(** [junk]: the memory from [buffer] on, uninitialised. *)
Definition read_wrong_main (junk : string) (argv : list string) : M Z :=
  r ← sys (Read STDIN_FILENO MAX_READ);
  if r_ret r =? -1 then errExit "read" else
  let buffer := sstore junk 0 (ztake (r_ret r) (r_buf r)) in
  _ ← printf ("The input data was: " +:+ cstr buffer +:+ nl);
  exit EXIT_SUCCESS.

(** ** 5-fileio-detail/bad_exclusive_open.c *)

Definition bad_exclusive_open_main (argv : list string) : M Z :=
  if (argc_of argv <? 2) || wants_help argv then usageErr (cstr (argv_at argv 0) +:+ " file" +:+ nl) else
  let file := argv_at argv 1 in
  fd ← scall (Open file O_WRONLY 0);
  _ ← if negb (fd =? -1) then
        pid ← scall Getpid;
        _ ← printf ("[PID " +:+ dec pid +:+ "] File " +:+ dquote +:+ cstr file +:+ dquote
                    +:+ " already exists" +:+ nl);
        _ ← scall (Close fd); mret tt
      else
        errno ← get_errno;
        if negb (errno =? ENOENT) then errExit "open" else
        pid ← scall Getpid;
        _ ← printf ("[PID " +:+ dec pid +:+ "] File " +:+ dquote +:+ cstr file +:+ dquote
                    +:+ " doesn't exist yet" +:+ nl);
        _ ← when (argc_of argv >? 2)
             (_ ← scall (Sleep 5);
              pid ← scall Getpid;
              printf ("[PID " +:+ dec pid +:+ "] Done sleeping" +:+ nl));
        fd ← scall (Open file (O_WRONLY .| O_CREAT) (S_IRUSR .| S_IWUSR));
        if fd =? -1 then errExit "open" else
        pid ← scall Getpid;
        printf ("[PID " +:+ dec pid +:+ "] Created file " +:+ dquote +:+ cstr file +:+ dquote
                +:+ " exclusively" +:+ nl);
  exit EXIT_SUCCESS.

(** ** 5-fileio-detail/t_readv.c *)

Definition STAT_SIZE : Z := 144.    (* sizeof(struct stat) on x86-64 *)
Definition INT_SIZE : Z := 4.
Definition STR_SIZE : Z := 100.

Definition t_readv_main (argv : list string) : M Z :=
  if negb (argc_of argv =? 2) || wants_help argv then usageErr (cstr (argv_at argv 0) +:+ " file" +:+ nl) else
  fd ← scall (Open (argv_at argv 1) O_RDONLY 0);
  if fd =? -1 then errExit "open" else
  let iov := [STAT_SIZE; INT_SIZE; STR_SIZE] in
  let totRequired := fold_left Z.add iov 0 in
  numRead ← scall (Readv fd iov);
  if numRead =? -1 then errExit "readv" else
  _ ← when (numRead <? totRequired) (printf ("Read fewer bytes than requested" +:+ nl));
  _ ← printf ("total bytes requested: " +:+ dec totRequired +:+ "; bytes read: " +:+ dec numRead +:+ nl);
  exit EXIT_SUCCESS.

(** ** 5-experimental/fork-logging.c *)

Definition child_loop {A} : M A :=
  forever (_ ← scall (Write 1 ("child" +:+ nl)); _ ← scall (Sleep 1); mret tt).

Definition fork_logging_main (argv : list string) : M Z :=
  cld_pid ← scall Fork;
  if cld_pid =? 0 then child_loop
  else forever (_ ← scall (Write 1 ("parent" +:+ nl)); _ ← scall (Sleep 1); mret tt).

#[export] Instance transfer_sane i o n s : Sane s -> Sane (transfer i o n s).
Proof. unfold transfer. intros. apply _. Qed.
#[export] Instance copy_main_sane a : Sane (copy_main a).
Proof. unfold copy_main. apply _. Qed.
#[export] Instance seek_io_arg_sane fd a : Sane (seek_io_arg fd a).
Proof. unfold seek_io_arg. apply _. Qed.
#[export] Instance seek_io_main_sane a : Sane (seek_io_main a).
Proof. unfold seek_io_main. apply _. Qed.
#[export] Instance read_correct_main_sane a : Sane (read_correct_main a).
Proof. unfold read_correct_main. apply _. Qed.
#[export] Instance read_wrong_main_sane j a : Sane (read_wrong_main j a).
Proof. unfold read_wrong_main. apply _. Qed.
#[export] Instance bad_exclusive_open_main_sane a : Sane (bad_exclusive_open_main a).
Proof. unfold bad_exclusive_open_main. apply _. Qed.
#[export] Instance t_readv_main_sane a : Sane (t_readv_main a).
Proof. unfold t_readv_main. apply _. Qed.

(** ** What the transfer loop guarantees *)

(** Only the two descriptors are used, and what was sent is the beginning of
    what was received. *)
Definition xfer_event (inFd outFd : Z) (e : event) : Prop :=
  match e with
  | Called (Read fd _) _ => fd = inFd
  | Called (Write fd _) _ => fd = outFd
  | _ => False
  end.
Definition sent_prefix (inFd outFd : Z) (es : list event) : Prop :=
  Forall (xfer_event inFd outFd) es
  /\ exists rest, delivered inFd es = sent outFd es +:+ rest.
Definition sent_all (inFd outFd : Z) (es : list event) : Prop :=
  Forall (xfer_event inFd outFd) es /\ delivered inFd es = sent outFd es.

Lemma held_xfer inFd outFd fds es : Forall (xfer_event inFd outFd) es -> held_from fds es = fds.
Proof.
  intros H. revert fds. induction H as [|[[]| |] es He _ IH]; intros l; simpl in *; try done;
    by rewrite app_nil_r.
Qed.

Section TransferSteps.
Context (inFd outFd n : Z) (es : list event) (r : resp).
Context (Hes : sent_all inFd outFd es) (Hlaw : posix_io (Read inFd n) r).
Let er := Called (Read inFd n) r.
Let ew r0 := Called (Write outFd (ztake (r_ret r) (r_buf r))) r0.

Lemma xfer_snoc e fs : Forall (xfer_event inFd outFd) fs -> xfer_event inFd outFd e ->
Forall (xfer_event inFd outFd) (fs ++ [e]).
Proof. intros. apply Forall_app. split; [done|by repeat constructor]. Qed.

(** A read that delivers nothing changes nothing. *)
Lemma sent_all_read : r_ret r <= 0 -> sent_all inFd outFd (es ++ [er]).
Proof using Hes.
intros Hr. destruct Hes as [Hall Heq]. split; [by apply xfer_snoc|].
unfold er. rewrite delivered_app, delivered_read, sent_app, ztake_neg by done.
simpl. by rewrite !sapp_nil_r.
Qed.

(** A read and a write: everything is sent when the write was complete. *)
Lemma sent_read_prefix : 0 < r_ret r -> sent_prefix inFd outFd (es ++ [er]).
Proof using Hes.
intros Hr. destruct Hes as [Hall Heq]. split; [by apply xfer_snoc|].
exists (ztake (r_ret r) (r_buf r)). unfold er.
rewrite delivered_app, delivered_read, sent_app, Heq. simpl. by rewrite sapp_nil_r.
Qed.

Lemma sent_write_prefix r0 : sent_prefix inFd outFd (es ++ [er; ew r0]).
Proof using Hes.
destruct Hes as [Hall Heq]. change [er; ew r0] with ([er] ++ [ew r0]). rewrite app_assoc.
split; [by apply xfer_snoc; [apply xfer_snoc|]|].
exists (zdrop (r_ret r0) (ztake (r_ret r) (r_buf r))).
unfold er, ew. rewrite !delivered_app, delivered_read, !sent_app, sent_write, Heq. cbn [sent delivered].
by rewrite !sapp_nil_r, <- sapp_assoc, ztake_zdrop.
Qed.

Lemma sent_write_all r0 : r_ret r0 = r_ret r -> 0 < r_ret r -> sent_all inFd outFd (es ++ [er; ew r0]).
Proof using Hes Hlaw.
intros H0 Hr. destruct Hes as [Hall Heq], Hlaw as [[? _]|(Hn & Hlen & _)]; [lia|].
change [er; ew r0] with ([er] ++ [ew r0]). rewrite app_assoc.
split; [by apply xfer_snoc; [apply xfer_snoc|]|].
unfold er, ew. rewrite !delivered_app, delivered_read, !sent_app, sent_write, Heq, H0.
cbn [sent delivered]. rewrite !sapp_nil_r. f_equal.
by rewrite (ztake_all (r_ret r) (r_buf r)) by lia; rewrite ztake_all by lia.
Qed.
End TransferSteps.

#[export] Instance transfer_body_progress (inFd outFd n : Z) (short : M unit) : Sane short ->
  Progress (r ← sys (Read inFd n);
    if r_ret r >? 0 then
      k ← scall (Write outFd (ztake (r_ret r) (r_buf r)));
      _ ← when (negb (k =? r_ret r)) short;
      mret (inl tt)
    else mret (inr (A:=unit) (r_ret r))).
Proof. intros. apply _. Qed.

Section TransferSpec.
Context (inFd outFd n : Z) (short : M unit) `{Hshort : !Sane short}.

(** [Q] is reached blocked with a prefix sent, returned with everything sent
and a last [read] that found the end or failed, or through [short]. *)
Lemma spec_transfer w (Q : outcome Z -> list event -> world -> Prop) :
(forall c es w', sent_prefix inFd outFd es -> Q (Blocked c) es w') ->
(forall es w1, sent_prefix inFd outFd es -> spec posix_io short w1 (fun o es' w' =>
 match o with Ret _ | Diverged => False | _ => Q (pass o) (es ++ es') w' end)) ->
(forall es w', sent_all inFd outFd es -> at_eof inFd es -> Q (Ret 0) es w') ->
(forall es w', sent_all inFd outFd es -> Q (Ret (-1)) es w') ->
spec posix_io (transfer inFd outFd n short) w Q.
Proof using Hshort.
intros HB HS H0 HE. unfold transfer.
apply spec_loop with (I := fun _ es _ => sent_all inFd outFd es);
[intros; apply _|intros; apply _|by split|].
intros [] es w1 Hes. spec_step. spec_step.
{ cbn [pass]. rewrite app_nil_r. apply HB. destruct Hes as [Hall Heq].
split; [done|]. exists "". by rewrite sapp_nil_r. }
destruct (r_ret r >? 0) eqn:Er; zbool.
- spec_step. spec_step; [by apply HB, sent_read_prefix|].
destruct (negb (r_ret r0 =? r_ret r)) eqn:Ek; cbn [when].
+ spec_step. pose proof (sent_write_prefix inFd outFd n es r Hes r0) as Hp.
eapply spec_mono; [|apply (HS _ w2 Hp)]. cbn beta.
intros [] es' w' HQ; try done; rewrite <- app_assoc in HQ; exact HQ.
+ spec_run. zbool. by apply sent_write_all.
- spec_run. rewrite app_nil_r.
pose proof (sent_all_read inFd outFd n es r Hes ltac:(lia)) as Hd.
destruct Hlaw as [[Hr _]|(Hr & _)]; [rewrite Hr; by apply HE|].
assert (Hz : r_ret r = 0) by lia. rewrite Hz. apply H0; [done|]. by exists es, n, r.
Qed.
End TransferSpec.

(** ** [copy] *)

Definition copy_post (src dst : string) (o : outcome Z) (es : list event) (_ : world) : Prop :=
  match o with
  | Halt (Exit 0) => exists ri ro mid ci co,
      es = [Called (Open src O_RDONLY 0) ri;
            Called (Open dst (O_CREAT .| O_WRONLY .| O_TRUNC) rw_rw_rw) ro]
           ++ mid ++ [Called (Close (r_ret ri)) ci; Called (Close (r_ret ro)) co]
      /\ sent_all (r_ret ri) (r_ret ro) mid /\ at_eof (r_ret ri) mid
      /\ r_ret ri <> -1 /\ r_ret ro <> -1 /\ r_ret ci <> -1 /\ r_ret co <> -1
  | Halt h => died h
  | Blocked _ => True
  | _ => False
  end.

(** C33.  [copy src dst], for any documented sequence of answers: it ends with
    status 0 only when it has read the source to its end and written exactly the
    bytes read, in order, once each, and closed both files; every other ending
    is a failure status. *)
Theorem copy_correct prog src dst w :
  spec posix_io (copy_main [prog; src; dst]) w (copy_post src dst).
Proof.
  assert (HB : forall c es w', copy_post src dst (Blocked c) es w') by done.
  assert (HD : forall h es w', died h -> copy_post src dst (Halt h) es w').
  { intros [[]| | |] es w' H; simpl in *; try done. }
  unfold copy_main. cbn [argv_at nth].
  change (negb (argc_of [prog; src; dst] =? 3)) with false. cbn [orb].
  die_run HB HD. apply spec_transfer; [apply _|intros; apply HB|..].
  - intros es w3 _. die_run HB HD.
  - intros es w3 Hes Heof. die_run HB HD. zbool. simpl.
    exists r, r0, es, r1, r2. by split_and!.
  - intros es w3 _. die_run HB HD.
Qed.

(** The answers of a source that delivers [chunks] and a sink that takes them
    whole. *)
Definition flow (chunks : list string) : list resp :=
  flat_map (fun c => [got c; ok (slen c)]) chunks ++ [ok 0].

Definition concat_chunks (chunks : list string) : string :=
  fold_right (fun c acc => c +:+ acc) EmptyString chunks.

Lemma transfer_unfold inFd outFd n short w `{!Sane short} :
  transfer inFd outFd n short w
  = (r ← sys (Read inFd n);
     if r_ret r >? 0 then
       k ← scall (Write outFd (ztake (r_ret r) (r_buf r)));
       _ ← when (negb (k =? r_ret r)) short;
       transfer inFd outFd n short
     else mret (r_ret r)) w.
Proof.
  unfold transfer at 1. rewrite loop_unfold by (intros; apply _).
  unfold mbind, M_bind. destruct (sys (Read inFd n) w) as [[r| | |] w1]; try done.
  destruct (r_ret r >? 0); [|done].
  destruct (scall _ w1) as [[k| | |] w2]; try done.
  by destruct (when _ short w2) as [[[]| | |] w3].
Qed.

(** The loop runs to the end of the source. *)
Lemma transfer_completes inFd outFd n short chunks rest l e `{!Sane short} :
  Forall (fun c => 0 < slen c) chunks ->
  exists es, transfer inFd outFd n short (World (flow chunks ++ rest) l e)
             = (Ret 0, World rest (rev es ++ l) e)
    /\ sent outFd es = concat_chunks chunks.
Proof.
  intros H. unfold flow. revert l. induction H as [|c chunks Hc _ IH]; intros l; rewrite (transfer_unfold _ _ _ _ _).
  - eexists [_]. split; [reflexivity|done].
  - assert (Hg : (slen c >? 0) = true) by (rewrite Z.gtb_ltb; by apply Z.ltb_lt).
    destruct (IH (Called (Write outFd c) (ok (slen c)) :: Called (Read inFd n) (got c) :: l))
      as (es & Hrun & Hsent).
    exists ([Called (Read inFd n) (got c); Called (Write outFd c) (ok (slen c))] ++ es).
    split.
    + rewrite rev_app_distr, <- !app_assoc. cbn [rev app flat_map].
      rewrite <- app_assoc in Hrun. cbn [app] in Hrun. rewrite <- Hrun.
      unfold scall, sys, mbind, M_bind. cbn -[transfer]. rewrite Hg. cbn -[transfer].
      by rewrite (ztake_all (slen c)), Z.eqb_refl by lia.
    + rewrite sent_app, Hsent. cbn. by rewrite Z.eqb_refl, ztake_all, sapp_nil_r by lia.
Qed.

(** [copy] completes: whatever the source is and however [read] cuts it
    into pieces, if the calls succeed the program ends with status 0 having
    written the whole of it. *)
Theorem copy_completes prog src dst chunks :
  wants_help [prog; src; dst] = false -> Forall (fun c => 0 < slen c) chunks ->
  let '(o, es) := run (copy_main [prog; src; dst]) ([ok 3; ok 4] ++ flow chunks ++ [ok 0; ok 0]) in
  o = Halt (Exit 0) /\ sent 4 es = concat_chunks chunks.
Proof.
  intros Hh Hc. unfold run, copy_main, start. rewrite Hh.
  change (negb (argc_of [prog; src; dst] =? 3)) with false. cbn [orb].
  destruct (transfer_completes 3 4 COPY_BUF_SIZE (fatal "write() returned error or partial write occurred")
    chunks [ok 0; ok 0]
    [Called (Open dst (O_CREAT .| O_WRONLY .| O_TRUNC) rw_rw_rw) (ok 4); Called (Open src O_RDONLY 0) (ok 3)] 0 Hc)
    as (es & Hrun & Hsent).
  unfold scall, sys, mbind, M_bind. cbn -[transfer flow fatal].
  rewrite Hrun. cbn -[transfer].
  split; [done|]. rewrite rev_app_distr, rev_involutive, !sent_app, Hsent. cbn [sent rev app].
  by rewrite !sapp_nil_r.
Qed.

(** Three pieces. *)
Lemma copy_completes_witness :
  wants_help ["copy"; "a"; "b"] = false /\ Forall (fun c => 0 < slen c) ["x"; "yz"; "w"]
  /\ let '(o, es) := run (copy_main ["copy"; "a"; "b"])
       ([ok 3; ok 4] ++ flow ["x"; "yz"; "w"] ++ [ok 0; ok 0]) in
     o = Halt (Exit 0) /\ sent 4 es = concat_chunks ["x"; "yz"; "w"].
Proof.
  split; [reflexivity|]. split; [by repeat constructor|].
  apply (copy_completes "copy" "a" "b" ["x"; "yz"; "w"]); [reflexivity|by repeat constructor].
Defined.

(** ** [seek_io] *)

(** The file operations of a trace. *)
Definition file_op (c : call) : bool :=
  match c with Read _ _ | Write _ _ | Lseek _ _ _ => true | _ => false end.
Definition file_calls (es : list event) : list call := List.filter file_op (calls es).

(** The operation an argument asks for, if it is well formed. *)
Definition seek_call (fd : Z) (a : string) : option call :=
  let c := schar 0 a in
  let num := num_value GN_ANY_BASE (Some (sdrop 1 a)) in
  if ceqb c "r" || ceqb c "R" then option_map (fun n => Read fd (wrap_u64 n)) num
  else if ceqb c "w" then Some (Write fd (cstr (sdrop 1 a)))
  else if ceqb c "s" then option_map (fun n => Lseek fd n SEEK_SET) num
  else None.

Lemma file_calls_app es fs : file_calls (es ++ fs) = file_calls es ++ file_calls fs.
Proof. unfold file_calls. by rewrite calls_app, List.filter_app. Qed.
Lemma file_calls_diag es : Forall diag es -> file_calls es = [].
Proof. intros H. induction H as [|[[]| |] es He _ IH]; simpl in *; try tauto; done. Qed.

Lemma spec_display law (text : bool) l w (Q : outcome unit -> list event -> world -> Prop) :
  (forall es w', file_calls es = [] -> Q (Ret tt) es w') ->
  spec law (for_each (fun ch : ascii => if text then printf (String (if isprint ch then ch else "?"%char) EmptyString)
                else printf (lpad 2 "0"%char (hex (ascii_Z ch)) +:+ " ")) l) w Q.
Proof.
  intros HQ. unfold for_each.
  apply (spec_fold_m law _ (fun _ _ es _ => file_calls es = []) Q l tt [] w); [done|..].
  - intros [] es w' H. by apply HQ.
  - intros [] ch rest es w' H. spec_run; by rewrite file_calls_app, H.
Qed.

Ltac fc_leaf :=
  cbn [pass]; repeat rewrite file_calls_app;
  repeat match goal with H : Forall diag ?es |- _ =>
    rewrite ?(file_calls_diag es H); clear H end;
  first [by left|by right|done].

Lemma spec_seek_io_arg law fd a w (Q : outcome unit -> list event -> world -> Prop) :
  (forall c es w', (file_calls es = [] \/ map Some (file_calls es) = [seek_call fd a]) ->
     Q (Blocked c) es w') ->
  (forall h es w', died h -> (file_calls es = [] \/ map Some (file_calls es) = [seek_call fd a]) ->
     Q (Halt h) es w') ->
  (forall es w', map Some (file_calls es) = [seek_call fd a] -> Q (Ret tt) es w') ->
  spec law (seek_io_arg fd a) w Q.
Proof.
  intros HB HD HR. unfold seek_io_arg, seek_call, getLong in *.
  destruct (ceqb (schar 0 a) "r" || ceqb (schar 0 a) "R").
  - spec_step. apply spec_getNum; [intros v w0 Hv; rewrite Hv in *; cbn [option_map] in *
      |intros es w0 _ Hd; cbn [pass]; apply HD; [done|left; by apply file_calls_diag]].
    die_run HB HD; try solve [fc_leaf].
    + apply HR. fc_leaf.
    + apply spec_display. intros es w4 Hes.
      die_run HB HD; [right|apply HR]; repeat rewrite file_calls_app; by rewrite Hes.
  - destruct (ceqb (schar 0 a) "w").
    + die_run HB HD; try solve [fc_leaf]. apply HR. fc_leaf.
    + destruct (ceqb (schar 0 a) "s"); [|die_run HB HD; fc_leaf].
      spec_step. apply spec_getNum; [intros v w0 Hv; rewrite Hv in *; cbn [option_map] in *
        |intros es w0 _ Hd; cbn [pass]; apply HD; [done|left; by apply file_calls_diag]].
      die_run HB HD; try solve [fc_leaf]. apply HR. fc_leaf.
Qed.

Lemma spec_seek_io_args law fd l w (Q : outcome unit -> list event -> world -> Prop) :
  (forall c es w', map Some (file_calls es) `prefix_of` map (seek_call fd) l -> Q (Blocked c) es w') ->
  (forall h es w', died h -> map Some (file_calls es) `prefix_of` map (seek_call fd) l ->
     Q (Halt h) es w') ->
  (forall es w', map Some (file_calls es) = map (seek_call fd) l -> Q (Ret tt) es w') ->
  spec law (for_each (seek_io_arg fd) l) w Q.
Proof.
  intros HB HD HR. unfold for_each.
  apply (spec_fold_m law _ (fun _ rest es _ => exists past,
    l = past ++ rest /\ map Some (file_calls es) = map (seek_call fd) past) Q l tt [] w).
  - by exists [].
  - intros [] es w' (past & -> & H). apply HR. by rewrite H, app_nil_r.
  - intros [] a rest es w' (past & Hl & H).
    assert (Hpre : forall fs, file_calls fs = [] \/ map Some (file_calls fs) = [seek_call fd a] ->
      map Some (file_calls (es ++ fs)) `prefix_of` map (seek_call fd) l).
    { intros fs Hfs. rewrite file_calls_app, map_app, Hl, map_app, H.
      apply prefix_app. destruct Hfs as [-> | ->]; [apply prefix_nil|]. cbn [map].
      by apply prefix_cons, prefix_nil. }
    apply spec_seek_io_arg; cbn [pass]; [by auto..|].
    intros fs w1 Hfs. exists (past ++ [a]).
    by rewrite file_calls_app, !map_app, H, Hfs, <- app_assoc.
Qed.

Definition seek_io_post (argv : list string) (o : outcome Z) (es : list event) (_ : world) : Prop :=
  let plan fd := map (seek_call fd) (drop 2 argv) in
  match o with
  | Halt (Exit 0) => exists fd, fd <> -1 /\ map Some (file_calls es) = plan fd
  | Halt h => died h /\ exists fd, map Some (file_calls es) `prefix_of` plan fd
  | Blocked _ => exists fd, map Some (file_calls es) `prefix_of` plan fd
  | _ => False
  end.

(** [seek_io] does what its arguments say: it ends with status 0 only when
    every argument denotes an operation (a read of the given length in any base,
    a write of the rest of the argument, a seek), and then the file operations it
    made are those of the arguments, in order, on the file it opened; stopped
    earlier, it has made an initial part of them and nothing else. *)
Theorem seek_io_correct law argv w :
  spec law (seek_io_main argv) w (seek_io_post argv).
Proof.
  assert (Hpre : forall fd es, file_calls es = [] ->
    map Some (file_calls es) `prefix_of` map (seek_call fd) (drop 2 argv)).
  { intros fd es ->. apply prefix_nil. }
  assert (HB : forall c es w', file_calls es = [] -> seek_io_post argv (Blocked c) es w')
    by (intros c es w' He; exists 0; by apply Hpre).
  assert (HD : forall h es w', died h -> file_calls es = [] -> seek_io_post argv (Halt h) es w').
  { intros [[]| | |] es w' H He; simpl in *; try done; (split; [done|exists 0; by apply Hpre]). }
  unfold seek_io_main. die_run HB HD; try solve [fc_leaf].
  assert (HB' : forall c es w', (exists fd, map Some (file_calls es) `prefix_of` map (seek_call fd) (drop 2 argv))
    -> seek_io_post argv (Blocked c) es w') by done.
  assert (HD' : forall h es w', died h ->
    (exists fd, map Some (file_calls es) `prefix_of` map (seek_call fd) (drop 2 argv))
    -> seek_io_post argv (Halt h) es w') by (intros [[]| | |] es w4 Hh Hx; simpl in *; done).
  clear HB HD. apply spec_seek_io_args; cbn [pass].
  - intros c es w1 H. apply HB'. by exists (r_ret r).
  - intros h es w1 Hh H. apply HD'; [done|]. by exists (r_ret r).
  - intros es w1 H.
    assert (Hp : forall fs, file_calls fs = [] ->
      map Some (file_calls ([Called (Open (argv_at argv 1) (O_RDWR .| O_CREAT) rw_rw_rw) r] ++ es ++ fs))
      = map (seek_call (r_ret r)) (drop 2 argv)).
    { intros fs Hfs. rewrite !file_calls_app, Hfs, app_nil_r. exact H. }
    die_run HB' HD'; try (exists (r_ret r); rewrite Hp; [done|fc_leaf]).
    exists (r_ret r). zbool. split; [done|]. rewrite Hp; [done|fc_leaf].
Qed.
