(* ===== verification/Services.v ===== *)
(** * Services: the abstract services the client-server programs offer

    A sequence-number service hands out consecutive ranges of [int]s; an
    upper-casing service maps a message to its upper-case form. *)

From S2P Require Import Prelude Clib Sys.

(** The first number granted to each of a list of requests, and the next free
    number, both as the C [int] counter holds them. *)
Fixpoint starts (n : Z) (lens : list Z) : list Z :=
  match lens with
  | [] => []
  | l :: lens => n :: starts (wrap_s32 (n + l)) lens
  end.
Definition next_free (n : Z) (lens : list Z) : Z := fold_left (fun n l => wrap_s32 (n + l)) lens n.

Lemma starts_app n ls ms : starts n (ls ++ ms) = starts n ls ++ starts (next_free n ls) ms.
Proof. revert n. induction ls as [|l ls IH]; intros n; simpl; [done|]. by rewrite IH. Qed.

Lemma next_free_app n ls ms : next_free n (ls ++ ms) = next_free (next_free n ls) ms.
Proof. apply fold_left_app. Qed.

Lemma starts_length n ls : length (starts n ls) = length ls.
Proof. revert n. induction ls as [|l ls IH]; intros n; simpl; [done|]. by rewrite IH. Qed.

Definition total (lens : list Z) : Z := fold_right Z.add 0 lens.

Lemma total_app ls ms : total (ls ++ ms) = total ls + total ms.
Proof. induction ls as [|l ls IH]; simpl; [done|]. unfold total in *. simpl. lia. Qed.

Lemma total_nonneg ls : Forall (fun l => 0 < l) ls -> 0 <= total ls.
Proof. induction 1; unfold total in *; simpl; lia. Qed.

Lemma next_free_total n ls : Forall (fun l => 0 < l) ls -> 0 <= n -> n + total ls <= INT_MAX ->
  next_free n ls = n + total ls.
Proof.
  intros H. revert n. induction H as [|l ls Hl Hls IH]; intros n Hn Ht; unfold total in *; simpl in *; [lia|].
  pose proof (total_nonneg ls Hls). unfold total in *.
  rewrite wrap_s32_id by (unfold in_int, INT_MIN; lia). rewrite IH; lia.
Qed.

(** While the counter does not overflow the ranges granted are disjoint and
    without gaps: a later request starts where or after an earlier one ends. *)
Lemma ranges_disjoint n ls i j a la b :
  Forall (fun l => 0 < l) ls -> 0 <= n -> n + total ls <= INT_MAX ->
  (i < j)%nat -> starts n ls !! i = Some a -> ls !! i = Some la -> starts n ls !! j = Some b ->
  a + la <= b.
Proof.
  intros H Hn Ht Hij Ha Hla Hb.
  assert (Hs : forall k v, starts n ls !! k = Some v -> v = n + total (take k ls)).
  { intros k v Hk. assert (Hlt : (k < length ls)%nat).
    { rewrite <- (starts_length n). by eapply lookup_lt_Some. }
    rewrite <- (take_drop k ls) in Hk at 1. rewrite starts_app in Hk.
    rewrite lookup_app_r in Hk by (rewrite starts_length, length_take; lia).
    rewrite starts_length, length_take in Hk. replace (k - k `min` length ls)%nat with O in Hk by lia.
    destruct (drop k ls) as [|l rest] eqn:Hd; [done|]. simpl in Hk. injection Hk as <-.
    rewrite <- (take_drop k ls), total_app in Ht. rewrite <- (take_drop k ls) in H.
    apply Forall_app in H as [H1 H2]. pose proof (total_nonneg _ H2).
    apply next_free_total; [done|done|lia]. }
  apply Hs in Ha as ->. apply Hs in Hb as ->.
  assert (Htk : take j ls = take i ls ++ la :: take (j - S i) (drop (S i) ls)).
  { rewrite <- (take_drop_middle ls i la Hla) at 1. rewrite take_app.
    rewrite length_take. assert (i < length ls)%nat by (by eapply lookup_lt_Some).
    rewrite (take_ge (take i ls)) by (rewrite length_take; lia).
    replace (j - i `min` length ls)%nat with (S (j - S i)) by lia. done. }
  rewrite Htk, total_app. cbn [total fold_right]. fold (total (take (j - S i) (drop (S i) ls))).
  assert (0 <= total (take (j - S i) (drop (S i) ls))).
  { apply total_nonneg. by apply Forall_take, Forall_drop. }
  lia.
Qed.

(** The upper-casing service. *)
Definition upper (s : string) : string := smap toupper s.
Lemma upper_length s : slen (upper s) = slen s.
Proof. apply slen_smap. Qed.
Lemma upper_idem s : upper (upper s) = upper s.
Proof. apply smap_smap, toupper_idem. Qed.
