(* ===== verification/Pipes.v ===== *)
(** * Pipes: pipes and FIFOs (44-ipc-pipe-fifo/) *)

From S2P Require Import Prelude Clib Sys Errors GetNum RdWr Posix Status FileIO Services.

(** ** simple_pipe.c *)

Definition PIPE_BUF_SIZE : Z := 10.

(** The child's loop: read from the pipe, echo on stdout. *)
Definition pipe_echo (rfd : Z) : M unit :=
  loop (fun _ : unit =>
    r ← sys (Read rfd PIPE_BUF_SIZE);
    let numRead := r_ret r in
    if numRead =? -1 then errExit "read"
    else if numRead =? 0 then mret (inr tt)
    else
      k ← scall (Write STDOUT_FILENO (ztake numRead (r_buf r)));
      if negb (k =? numRead) then fatal "child - partial/failed write"
      else mret (inl tt)) tt.

Definition simple_pipe_main (argv : list string) : M Z :=
  if negb (argc_of argv =? 2) || wants_help argv then
    usageErr (cstr (argv_at argv 0) +:+ " string" +:+ nl) else
  p ← sys Pipe;
  if r_ret p =? -1 then errExit "pipe" else
  let pfd0 := r_val 0 p in let pfd1 := r_val 1 p in
  pid ← scall Fork;
  if pid =? -1 then errExit "fork"
  else if pid =? 0 then
    c ← scall (Close pfd1);
    if c =? -1 then errExit "close - child" else
    _ ← pipe_echo pfd0;
    _ ← scall (Write STDOUT_FILENO nl);
    c ← scall (Close pfd0);
    if c =? -1 then errExit "close" else
    quick_exit EXIT_SUCCESS
  else
    c ← scall (Close pfd0);
    if c =? -1 then errExit "close - parent" else
    let s := cstr (argv_at argv 1) in
    n ← scall (Write pfd1 s);
    if negb (n =? slen s) then fatal "parent - partial/failed write" else
    c ← scall (Close pfd1);
    if c =? -1 then errExit "close" else
    _ ← scall Wait;
    exit EXIT_SUCCESS.

(** ** pipe_ls_wc.c *)

(** Put the end [fd] of the pipe on descriptor [std] and close the original. *)
Definition redirect (fd std : Z) (dupmsg closemsg : string) : M unit :=
  when (negb (fd =? std))
    (d ← scall (Dup2 fd std);
     if d =? -1 then errExit dupmsg else
     c ← scall (Close fd);
     when (c =? -1) (errExit closemsg)).

Definition pipe_ls_wc_main (argv : list string) : M Z :=
  p ← sys Pipe;
  if r_ret p =? -1 then errExit "pipe" else
  let pfd0 := r_val 0 p in let pfd1 := r_val 1 p in
  pid ← scall Fork;
  if pid =? -1 then errExit "fork"
  else if pid =? 0 then
    c ← scall (Close pfd0);
    if c =? -1 then errExit "close 1" else
    _ ← redirect pfd1 STDOUT_FILENO "dup2 1" "close 2";
    _ ← exec (Execp "ls" ["ls"%string]);
    errExit "execlp ls"
  else
    pid ← scall Fork;
    if pid =? -1 then errExit "fork"
    else if pid =? 0 then
      c ← scall (Close pfd1);
      if c =? -1 then errExit "close 3" else
      _ ← redirect pfd0 STDIN_FILENO "dup2 2" "close 4";
      _ ← exec (Execp "wc" ["wc"%string; "-l"%string]);
      errExit "execlp wc"
    else
      c ← scall (Close pfd0);
      if c =? -1 then errExit "close 5" else
      c ← scall (Close pfd1);
      if c =? -1 then errExit "close 6" else
      w ← scall Wait;
      if w =? -1 then errExit "wait 1" else
      w ← scall Wait;
      if w =? -1 then errExit "wait 2" else
      exit EXIT_SUCCESS.

(** ** pipe_sync.c *)

(** One turn of the loop that creates the children; a child ends in it. *)
Definition pipe_sync_fork (argv : list string) (pfd0 pfd1 j : Z) : M unit :=
  pid ← scall Fork;
  if pid =? -1 then errExit ("fork " +:+ dec j)
  else if pid =? 0 then
    c ← scall (Close pfd0);
    if c =? -1 then errExit "close" else
    secs ← getInt (argv_opt argv (Z.to_nat j)) GN_NONNEG (Some "sleep-time");
    _ ← scall (Sleep (wrap_u32 secs));
    t ← currTime (Some "%T");
    pid ← scall Getpid;
    _ ← printf (show_opt t +:+ "  Child " +:+ dec j +:+ " (PID=" +:+ dec pid +:+ ") closing pipe" +:+ nl);
    c ← scall (Close pfd1);
    if c =? -1 then errExit "close" else
    quick_exit EXIT_SUCCESS
  else mret tt.

Definition pipe_sync_main (argv : list string) : M Z :=
  if (argc_of argv <? 2) || wants_help argv then
    usageErr (cstr (argv_at argv 0) +:+ " sleep-time..." +:+ nl) else
  _ ← scall (Lib "setbuf" ["stdout"%string] []);
  t ← currTime (Some "%T");
  _ ← printf (show_opt t +:+ "  Parent started" +:+ nl);
  p ← sys Pipe;
  if r_ret p =? -1 then errExit "pipe" else
  let pfd0 := r_val 0 p in let pfd1 := r_val 1 p in
  _ ← for_each (pipe_sync_fork argv pfd0 pfd1) (seqZ 1 (argc_of argv - 1));
  c ← scall (Close pfd1);
  if c =? -1 then errExit "close" else
  n ← scall (Read pfd0 1);
  if negb (n =? 0) then fatal "parent didn't get EOF" else
  t ← currTime (Some "%T");
  _ ← printf (show_opt t +:+ "  Parent ready to go" +:+ nl);
  exit EXIT_SUCCESS.

(** ** popen_glob.c *)

Definition PAT_SIZE : Z := 50.
Definition POPEN_FMT : string := "/bin/ls -d %s 2> /dev/null".
Definition PCMD_BUF_SIZE : Z := slen POPEN_FMT + 1 + PAT_SIZE.
Definition PATH_MAX : Z := 4096.

(** The loop over the characters of [pat], whose terminator is at [len - 1] when
    a newline was stripped: the index after the first bad one, if any. *)
Definition bad_char (c : ascii) : bool := negb (isalnum c) && negb (strchr_found "/_*?[^-]." c).
Fixpoint find_bad (j : nat) (s : string) : option nat :=
  match s with
  | EmptyString => None
  | String c s => if bad_char c then Some (S j) else find_bad (S j) s
  end.

Definition ls_cmd (pat : string) : string := "/bin/ls -d " +:+ cstr pat +:+ " 2> /dev/null".

(** Display the pathnames: the count of lines read from the pipe. *)
Definition popen_list (fp : Z) : M Z :=
  loop (fun fileCnt =>
    g ← sys (Fgets PATH_MAX (OtherStream fp));
    if r_ret g =? 0 then mret (inr fileCnt)
    else _ ← printf (cstr (r_buf g)); mret (inl (wrap_s32 (fileCnt + 1)))) 0.

(** The array after a trailing newline was overwritten with a terminator. *)
Definition strip_nl (pat : string) : string :=
  if ceqb (schar (Z.to_nat (slen pat - 1)) pat) nlc
  then ztake (slen pat - 1) pat +:+ String nul EmptyString else pat.

Definition popen_round : M (unit + unit) :=
  _ ← printf "pattern: ";
  _ ← fflush Stdout;
  g ← sys (Fgets PAT_SIZE Stdin);
  if r_ret g =? 0 then mret (inr tt) else
  let pat := cstr (r_buf g) in
  let len := slen pat in
  if len <=? 1 then mret (inl tt) else
  let arr := strip_nl pat in
  match find_bad 0 arr with
  | Some j =>
      _ ← printf ("Bad pattern character: " +:+ String (schar (j - 1) arr) EmptyString +:+ nl);
      mret (inl tt)
  | None =>
      let popenCmd := snprintf PCMD_BUF_SIZE (ls_cmd arr) in
      fp ← scall (Popen popenCmd "r");
      if fp =? 0 then _ ← printf ("open() failed" +:+ nl); mret (inl tt) else
      fileCnt ← popen_list fp;
      status ← scall (Pclose fp);
      _ ← printf ("    " +:+ dec fileCnt +:+ " matching file" +:+ (if negb (fileCnt =? 1) then "s" else "") +:+ nl);
      _ ← printf ("    pclose() status = " +:+ hex_alt (wrap_u32 status) +:+ nl);
      _ ← when (negb (status =? -1)) (printWaitStatus (Some tab) status);
      mret (inl tt)
  end.

Definition popen_glob_main (argv : list string) : M Z :=
  _ ← loop (fun _ : unit => popen_round) tt;
  exit EXIT_SUCCESS.

(** ** fifo_seqnum.h, fifo_seqnum_client.c, fifo_seqnum_server.c *)

Definition SERVER_FIFO : string := "/tmp/seqnum_sv".
Definition CLIENT_FIFO_TEMPLATE : string := "/tmp/seqnum_cl.%ld".
Definition CLIENT_FIFO_NAME_LEN : Z := slen CLIENT_FIFO_TEMPLATE + 1 + 20.
Definition client_fifo (pid : Z) : string :=
  snprintf CLIENT_FIFO_NAME_LEN ("/tmp/seqnum_cl." +:+ dec pid).

(** [struct request] and [struct response] as bytes. *)
Definition REQUEST_SIZE : Z := 8.
Definition RESPONSE_SIZE : Z := 4.
Definition request_bytes (pid seqLen : Z) : string := int_bytes pid +:+ int_bytes seqLen.
Definition req_pid (b : string) : Z := int_of_bytes (ztake 4 b).
Definition req_seqLen (b : string) : Z := int_of_bytes (zdrop 4 b).
Definition fifo_perms : Z := S_IRUSR .| S_IWUSR .| S_IWGRP.

Definition removeFifo (clientFifo : string) : M unit := _ ← scall (Unlink clientFifo); mret tt.

(** The request itself, once the client's FIFO exists and will be removed. *)
Definition fifo_client_request (argv : list string) (clientFifo : string) : M Z :=
  pid ← scall Getpid;
  seqLen ← if argc_of argv >? 1 then getInt (argv_opt argv 1) GN_GT_0 (Some "seq-len") else mret 1;
  serverFd ← scall (Open SERVER_FIFO O_WRONLY 0);
  if serverFd =? -1 then errExit ("open " +:+ SERVER_FIFO) else
  n ← scall (Write serverFd (request_bytes pid seqLen));
  if negb (n =? REQUEST_SIZE) then fatal "Can't write to server" else
  clientFd ← scall (Open clientFifo O_RDONLY 0);
  if clientFd =? -1 then errExit ("open " +:+ clientFifo) else
  r ← sys (Read clientFd RESPONSE_SIZE);
  if negb (r_ret r =? RESPONSE_SIZE) then fatal "Can't read response from server" else
  _ ← printf (dec (int_of_bytes (ztake RESPONSE_SIZE (r_buf r))) +:+ nl);
  exit EXIT_SUCCESS.

Definition fifo_seqnum_client_main (argv : list string) : M Z :=
  if (argc_of argv >? 1) && wants_help argv then
    usageErr (cstr (argv_at argv 0) +:+ " [seq-len]" +:+ nl) else
  _ ← scall (Umask 0);
  pid ← scall Getpid;
  let clientFifo := client_fifo pid in
  m ← scall (Mkfifo clientFifo fifo_perms);
  _ ← when (m =? -1)
       (errno ← get_errno;
        when (negb (errno =? EEXIST)) (errExit ("mkfifo " +:+ clientFifo)));
  a ← scall (Lib "atexit" ["removeFifo"%string] []);
  if negb (a =? 0) then errExit "atexit" else
  with_atexit (removeFifo clientFifo) (fifo_client_request argv clientFifo).

(** One request of the server; the loop carries [seqNum]. *)
Definition fifo_serve (serverFd seqNum : Z) : M Z :=
  r ← sys (Read serverFd REQUEST_SIZE);
  if negb (r_ret r =? REQUEST_SIZE) then
    _ ← fputs Stderr ("Error reading request; discarding" +:+ nl);
    mret seqNum
  else
    let clientFifo := client_fifo (req_pid (r_buf r)) in
    clientFd ← scall (Open clientFifo O_WRONLY 0);
    if clientFd =? -1 then errExit ("open " +:+ clientFifo) else
    n ← scall (Write clientFd (int_bytes seqNum));
    _ ← when (negb (n =? RESPONSE_SIZE)) (fputs Stderr ("Error writing to FIFO " +:+ clientFifo +:+ nl));
    c ← scall (Close clientFd);
    _ ← when (c =? -1) (errMsg "close");
    mret (wrap_s32 (seqNum + req_seqLen (r_buf r))).

Definition fifo_seqnum_server_main (argv : list string) : M Z :=
  _ ← scall (Umask 0);
  m ← scall (Mkfifo SERVER_FIFO fifo_perms);
  _ ← when (m =? -1)
       (errno ← get_errno;
        when (negb (errno =? EEXIST)) (errExit ("mkfifo " +:+ SERVER_FIFO)));
  serverFd ← scall (Open SERVER_FIFO O_RDONLY 0);
  if serverFd =? -1 then errExit ("open " +:+ SERVER_FIFO) else
  dummyFd ← scall (Open SERVER_FIFO O_WRONLY 0);
  if dummyFd =? -1 then errExit ("open " +:+ SERVER_FIFO) else
  s ← scall (Signal SIGPIPE SIG_IGN);
  if s =? SIG_ERR then errExit "signal" else
  loop (fun seqNum => seqNum ← fifo_serve serverFd seqNum; mret (inl seqNum)) 0.

#[export] Instance pipe_echo_sane fd : Sane (pipe_echo fd).
Proof. unfold pipe_echo. apply _. Qed.
#[export] Instance redirect_sane a b c d : Sane (redirect a b c d).
Proof. unfold redirect. apply _. Qed.
#[export] Instance simple_pipe_main_sane a : Sane (simple_pipe_main a).
Proof. unfold simple_pipe_main. apply _. Qed.
#[export] Instance pipe_ls_wc_main_sane a : Sane (pipe_ls_wc_main a).
Proof. unfold pipe_ls_wc_main. apply _. Qed.
#[export] Instance pipe_sync_fork_sane a b c d : Sane (pipe_sync_fork a b c d).
Proof. unfold pipe_sync_fork. apply _. Qed.
#[export] Instance pipe_sync_main_sane a : Sane (pipe_sync_main a).
Proof. unfold pipe_sync_main. apply _. Qed.
#[export] Instance popen_list_sane fp : Sane (popen_list fp).
Proof. unfold popen_list. apply _. Qed.
#[export] Instance popen_round_sane : Sane popen_round.
Proof. unfold popen_round. apply _. Qed.
#[export] Instance popen_glob_main_sane a : Sane (popen_glob_main a).
Proof. unfold popen_glob_main. apply _. Qed.
#[export] Instance removeFifo_sane f : Sane (removeFifo f).
Proof. unfold removeFifo. apply _. Qed.
#[export] Instance fifo_client_request_sane a f : Sane (fifo_client_request a f).
Proof. unfold fifo_client_request. apply _. Qed.
#[export] Instance fifo_client_sane a : Sane (fifo_seqnum_client_main a).
Proof. unfold fifo_seqnum_client_main. apply _. Qed.
#[export] Instance fifo_serve_sane fd n : Sane (fifo_serve fd n).
Proof. unfold fifo_serve. apply _. Qed.
#[export] Instance fifo_server_sane a : Sane (fifo_seqnum_server_main a).
Proof. unfold fifo_seqnum_server_main. apply _. Qed.
#[export] Instance fifo_serve_uses fd n : Uses (fifo_serve fd n).
Proof. unfold fifo_serve. apply _. Qed.
#[export] Instance popen_round_progress : Progress popen_round.
Proof. unfold popen_round. apply _. Qed.

(** ** [popen_glob]: what reaches the shell *)

(** Characters with no meaning to the shell beyond file-name matching. *)
Definition safe_char (c : ascii) : bool := isalnum c || existsb (ceqb c) (chars "/_*?[^-].").

(** The command line run: a fixed frame around a short, safe pattern. *)
Definition safe_command (cmd : string) : Prop :=
  exists pat, cmd = "/bin/ls -d " +:+ pat +:+ " 2> /dev/null"
    /\ sforall safe_char pat = true /\ slen pat < PAT_SIZE.

Definition shell_event (e : event) : Prop :=
  match e with
  | Called (Popen cmd mode) _ => safe_command cmd /\ mode = "r"%string
  | Called (System _) _ | Called (Exec _ _ _) _ | Called (Execp _ _) _ => False
  | _ => True
  end.

(** [fgets] stores at most [n - 1] bytes. *)
Definition fgets_law (c : call) (r : resp) : Prop :=
  match c with Fgets n _ => slen (r_buf r) <= n - 1 | _ => True end.

Lemma bad_char_spec c : bad_char c = negb (safe_char c || ceqb c nul).
Proof. destruct c as [[] [] [] [] [] [] [] []]; reflexivity. Qed.

Lemma find_bad_none j s : find_bad j s = None -> sforall safe_char (cstr s) = true.
Proof.
  revert j. induction s as [|c s IH]; intros j; cbn [find_bad cstr]; [done|].
  rewrite bad_char_spec. destruct (ceqb c nul); cbn [sforall]; [done|].
  rewrite orb_false_r. destruct (safe_char c); cbn [negb andb]; [apply IH|done].
Qed.

Lemma ls_cmd_fits arr : slen arr < PAT_SIZE ->
  snprintf PCMD_BUF_SIZE (ls_cmd arr) = ls_cmd arr.
Proof.
  intros H. apply ztake_all. pose proof (slen_cstr arr) as Hc.
  unfold ls_cmd. rewrite !slen_app. unfold PCMD_BUF_SIZE, PAT_SIZE, POPEN_FMT in *.
  change (slen "/bin/ls -d ") with 11. change (slen " 2> /dev/null") with 13.
  change (slen "/bin/ls -d %s 2> /dev/null") with 26. lia.
Qed.

Lemma spec_popen_list law fp w (Q : outcome Z -> list event -> world -> Prop) :
  (forall c es w', Forall shell_event es -> Q (Blocked c) es w') ->
  (forall n es w', Forall shell_event es -> Q (Ret n) es w') ->
  spec law (popen_list fp) w Q.
Proof.
  intros HB HR. unfold popen_list.
  apply spec_loop with (I := fun _ es _ => Forall shell_event es); [intros; apply _|intros; apply _|done|].
  intros n es w1 Hes. spec_run; cbn [pass];
    first [apply HB|apply HR|idtac]; rewrite ?Forall_app; repeat (split || constructor); done.
Qed.

(** The command line built from a pattern without bad characters is safe. *)
Lemma popen_safe buf r : slen buf <= PAT_SIZE - 1 -> 1 < slen (cstr buf) ->
  find_bad 0 (strip_nl (cstr buf)) = None ->
  shell_event (Called (Popen (snprintf PCMD_BUF_SIZE (ls_cmd (strip_nl (cstr buf)))) "r") r).
Proof.
  intros Hbuf H1 Hbad. pose proof (slen_cstr buf) as Hc.
  assert (Hlen : slen (strip_nl (cstr buf)) = slen (cstr buf)).
  { unfold strip_nl. case_if; [|done].
    rewrite slen_app, slen_ztake, slen_cons, slen_nil by lia. lia. }
  rewrite ls_cmd_fits by lia. split; [|done].
  exists (cstr (strip_nl (cstr buf))). split; [done|].
  split; [by eapply find_bad_none|]. pose proof (slen_cstr (strip_nl (cstr buf))). lia.
Qed.

Lemma status_shell es : Forall status_event es -> Forall shell_event es.
Proof. intros H. eapply Forall_impl; [exact H|]. intros [[]| |]; simpl; tauto. Qed.

Lemma spec_popen_round w (Q : outcome (unit + unit) -> list event -> world -> Prop) :
  (forall c es w', Forall shell_event es -> Q (Blocked c) es w') ->
  (forall x es w', Forall shell_event es -> Q (Ret x) es w') ->
  spec fgets_law popen_round w Q.
Proof.
  intros HB HR. unfold popen_round.
  repeat first [apply HB | apply HR | apply spec_popen_list; intros | apply spec_printWaitStatus; intros
               | spec_step]; cbn [pass]; try apply HB; try apply HR;
    repeat (apply Forall_app; split); try by repeat constructor.
  all: try done; try by apply status_shell.
  all: constructor; [|done]; zbool; by apply popen_safe.
Qed.

(** [popen_glob] hands the shell nothing but file-name patterns: whatever
    lines are typed, each command it runs is the fixed [ls] frame around a
    pattern of at most 49 letters, digits and matching characters, complete and
    never truncated, so no input can start another command; it reports bad
    patterns and failures and ends, with status 0, only at end of input. *)
Theorem popen_glob_safe argv w :
  spec fgets_law (popen_glob_main argv) w (fun o es _ =>
    Forall shell_event es /\ match o with Blocked _ => True | Halt h => h = Exit 0 | _ => False end).
Proof.
  unfold popen_glob_main. spec_step.
  apply spec_loop with (I := fun _ es _ => Forall shell_event es); [intros; apply _|intros; apply _|done|].
  intros [] es w1 Hes. apply spec_popen_round.
  - intros c fs w2 Hfs. cbn [pass]. split; [by apply Forall_app|done].
  - intros [[]|[]] fs w2 Hfs; [by apply Forall_app|].
    spec_run. rewrite app_nil_r. split; [by apply Forall_app|done].
Qed.

(** ** The FIFO server as a sequence-number service *)

(** The server as a state machine: [fifo_log fd reqs es n], the events of the
    rounds so far, the requests they served (process id, length) and the next
    free number. *)
Inductive fifo_log (fd : Z) : list (Z * Z) -> list event -> Z -> Prop :=
  | log_start : fifo_log fd [] [] 0
  | log_discard reqs es n r :
      fifo_log fd reqs es n -> r_ret r <> REQUEST_SIZE ->
      fifo_log fd reqs (es ++ [Called (Read fd REQUEST_SIZE) r;
                              Printed Stderr ("Error reading request; discarding" +:+ nl)]) n
  | log_serve reqs es n r o w c noise1 noise2 :
      fifo_log fd reqs es n -> r_ret r = REQUEST_SIZE -> r_ret o <> -1 ->
      Forall diag noise1 -> Forall diag noise2 ->
      fifo_log fd (reqs ++ [(req_pid (r_buf r), req_seqLen (r_buf r))])
        (es ++ [Called (Read fd REQUEST_SIZE) r;
                Called (Open (client_fifo (req_pid (r_buf r))) O_WRONLY 0) o;
                Called (Write (r_ret o) (int_bytes n)) w]
            ++ noise1 ++ [Called (Close (r_ret o)) c] ++ noise2)
        (wrap_s32 (n + req_seqLen (r_buf r))).

(** The machine implements the service: the i-th client is sent the i-th start. *)
Lemma fifo_log_service fd reqs es n :
  fifo_log fd reqs es n ->
  writes es = map int_bytes (starts 0 (map snd reqs)) /\ n = next_free 0 (map snd reqs)
  /\ held es = [].
Proof.
  induction 1 as [|reqs es n r _ (IHw & IHn & IHh) _|reqs es n r o w c d1 d2 _ (IHw & IHn & IHh) _ Ho Hd1 Hd2].
  - done.
  - rewrite writes_app, held_app, IHh. cbn [writes]. by rewrite app_nil_r.
  - rewrite map_app, starts_app, next_free_app, map_app, <- IHn, held_app, IHh. cbn [map snd starts next_free].
    rewrite !writes_app, (writes_diag d1), (writes_diag d2), IHw by done. split_and!; [done|done|].
    rewrite held_from_app. cbn [held_from opens app]. apply Z.eqb_neq in Ho as ->. cbn [app].
    rewrite (held_from_app _ d1), (held_diag _ d1) by done. cbn [held_from app]. rewrite filter_own. by apply held_diag.
Qed.

(** What is left of a round that did not end. *)
Definition partial_round (n : Z) (es : list event) : Prop :=
  writes es = [] \/ writes es = [int_bytes n].

Lemma spec_fifo_serve law fd n w (Q : outcome Z -> list event -> world -> Prop) :
  (forall c es w', partial_round n es -> Q (Blocked c) es w') ->
  (forall h es w', died h -> partial_round n es -> Q (Halt h) es w') ->
  (forall m es w', (forall reqs past, fifo_log fd reqs past n ->
      exists reqs', fifo_log fd reqs' (past ++ es) m) -> Q (Ret m) es w') ->
  spec law (fifo_serve fd n) w Q.
Proof.
  intros HB HD HR. unfold fifo_serve.
  repeat first [ apply spec_errMsg; [|intros ?es ?w ?He ?Hd] | die_step HB HD ]; cbn [pass]; try apply HB.
  all: rewrite ?app_nil_r; zbool;
    try (unfold partial_round; rewrite ?writes_app, ?(writes_diag es) by done; cbn [writes app]; tauto).
  all: apply HR; intros reqs past Hlog; eexists.
  all: first
    [ by apply log_discard
    | by apply (log_serve fd reqs past n r r0 r1 r2 [_] es); repeat constructor
    | by apply (log_serve fd reqs past n r r0 r1 r2 [_] []); repeat constructor
    | by apply (log_serve fd reqs past n r r0 r1 r2 [] es); repeat constructor
    | by apply (log_serve fd reqs past n r r0 r1 r2 [] []); repeat constructor ].
Qed.

(** Started, and then only complete rounds and a part of one, on the descriptor
    the well-known FIFO was opened on. *)
Definition fifo_server_run (es : list event) : Prop :=
  writes es = []
  \/ exists pre o reqs body n tail,
       es = pre ++ body ++ tail /\ writes pre = []
       /\ In (Called (Open SERVER_FIFO O_RDONLY 0) o) pre
       /\ fifo_log (r_ret o) reqs body n /\ partial_round n tail.

Lemma fifo_server_run_intro pre o reqs body n tail :
  writes pre = [] -> In (Called (Open SERVER_FIFO O_RDONLY 0) o) pre ->
  fifo_log (r_ret o) reqs body n -> partial_round n tail -> fifo_server_run (pre ++ body ++ tail).
Proof. intros. right. by exists pre, o, reqs, body, n, tail. Qed.

Lemma spec_fifo_loop law fd w (Q : outcome Z -> list event -> world -> Prop) :
  (forall c reqs body n tail w', fifo_log fd reqs body n -> partial_round n tail ->
     Q (Blocked c) (body ++ tail) w') ->
  (forall h reqs body n tail w', died h -> fifo_log fd reqs body n -> partial_round n tail ->
     Q (Halt h) (body ++ tail) w') ->
  spec law (loop (fun seqNum => seqNum ← fifo_serve fd seqNum; mret (inl seqNum)) 0) w Q.
Proof.
  intros HB HD.
  apply spec_loop with (I := fun n es _ => exists reqs, fifo_log fd reqs es n);
    [intros; apply _|intros; apply _|by exists []; constructor|].
  intros n es w1 [reqs Hlog]. spec_step. apply spec_fifo_serve; cbn [pass].
  - intros c fs w2 Hp. by eapply HB.
  - intros h fs w2 Hh Hp. by eapply HD.
  - intros m fs w2 Hm. destruct (Hm reqs es Hlog) as [reqs' Hlog'].
    spec_step. rewrite app_nil_r. by exists reqs'.
Qed.

(** C7.  The FIFO server implements the sequence-number service: it never
    returns; its run is a start-up that writes nothing, complete rounds that
    follow the state machine [fifo_log], and a part of a round; in the rounds
    the i-th accepted request is answered, in the FIFO of its process, with the
    i-th start of consecutive ranges (wrapping like the C counter), short
    requests are discarded without changing the counter, and no client
    descriptor stays open. *)
Theorem fifo_server_refines law argv w :
  spec law (fifo_seqnum_server_main argv) w (fun o es _ =>
    fifo_server_run es /\ match o with Blocked _ => True | Halt h => died h | _ => False end)
  /\ forall fd reqs body n, fifo_log fd reqs body n ->
       writes body = map int_bytes (starts 0 (map snd reqs))
       /\ n = next_free 0 (map snd reqs) /\ held body = [].
Proof.
  split; [|intros; by eapply fifo_log_service].
  set (Q := fun (o : outcome Z) es (_ : world) => fifo_server_run es /\
    match o with Blocked _ => True | Halt h => died h | _ => False end).
  change (spec law (fifo_seqnum_server_main argv) w Q).
  assert (HB : forall c es w', fifo_server_run es -> Q (Blocked c) es w') by done.
  assert (HD : forall h es w', died h -> fifo_server_run es -> Q (Halt h) es w') by done.
  clearbody Q. unfold fifo_seqnum_server_main.
  die_run HB HD; try (left; rewrite ?writes_app, ?(writes_diag es) by done; done).
  all: apply spec_fifo_loop; intros;
    match goal with
    | |- ?P ?o ([?e1] ++ [?e2] ++ ?l ++ [?e3] ++ [?e4] ++ [?e5] ++ ?body ++ ?tail) ?w =>
        change (P o (([e1; e2] ++ l ++ [e3; e4; e5]) ++ body ++ tail) w)
    end;
    first [apply HB|apply HD; [done|]]; eapply fifo_server_run_intro; try done;
    rewrite ?writes_app; simpl; tauto.
Qed.

(** ** The FIFO client *)

Lemma request_roundtrip pid len : in_int pid -> in_int len ->
  req_pid (request_bytes pid len) = pid /\ req_seqLen (request_bytes pid len) = len
  /\ slen (request_bytes pid len) = REQUEST_SIZE.
Proof.
  intros Hp Hl. unfold req_pid, req_seqLen, request_bytes.
  rewrite <- (slen_int_bytes pid) at 1. rewrite ztake_app.
  rewrite <- (slen_int_bytes pid) at 1. rewrite zdrop_app.
  rewrite !int_of_bytes_bytes, slen_app, !slen_int_bytes by done. done.
Qed.

(** The length the command line asks for. *)
Definition seq_len (argv : list string) : option Z :=
  if argc_of argv >? 1 then num_value GN_GT_0 (argv_opt argv 1) else Some 1.

(** The answer was read whole and printed. *)
Definition answered (argv : list string) (es : list event) : Prop :=
  exists pid len fd r,
    seq_len argv = Some len /\ writes es = [request_bytes pid len]
    /\ In (Called (Read fd RESPONSE_SIZE) r) es /\ r_ret r = RESPONSE_SIZE
    /\ printed Stdout es = dec (int_of_bytes (ztake RESPONSE_SIZE (r_buf r))) +:+ nl.

Lemma spec_fifo_client_request law argv f w (Q : outcome Z -> list event -> world -> Prop) :
  (forall c es w', Q (Blocked c) es w') ->
  (forall h es w', died h -> Q (Halt h) es w') ->
  (forall es w', answered argv es -> Q (Halt (Exit 0)) es w') ->
  spec law (fifo_client_request argv f) w Q.
Proof.
  intros HB HD HX. unfold fifo_client_request.
  spec_step; spec_step; [apply HB|]. spec_step.
  apply spec_mono with (Q := fun o es _ => match o with
    | Ret v => seq_len argv = Some v /\ es = [] | Halt h => died h | _ => False end).
  2: { unfold seq_len. destruct (argc_of argv >? 1); [|by spec_run].
       apply spec_getInt; [|done]. intros v w1 Hv _. done. }
  intros [len|h| |] es w1 Ho; try done; [|by apply HD]. destruct Ho as [Hlen ->].
  die_run HB HD. apply HX.
  exists (r_ret r), len, (r_ret r2), r3. zbool.
  split_and!; [done|done|simpl; tauto|done|]. cbn. by rewrite sapp_nil_r.
Qed.

(** The clean-up was not registered. *)
Definition unregistered (es : list event) : Prop :=
  forall r, In (Called (Lib "atexit" ["removeFifo"%string] []) r) es -> r_ret r <> 0.

Lemma unregistered_diag es : Forall diag es -> unregistered es.
Proof. intros H r Hin. rewrite List.Forall_forall in H. by specialize (H _ Hin). Qed.

Lemma unregistered_app es fs : unregistered es -> unregistered fs -> unregistered (es ++ fs).
Proof. intros H1 H2 r [H|H]%in_app_iff; by auto. Qed.

Lemma unregistered_one e : match e with Called (Lib _ _ _) r => r_ret r <> 0 | _ => True end ->
  unregistered [e].
Proof. intros H r [->|[]]. done. Qed.

Definition fifo_client_post (argv : list string) (o : outcome Z) (es : list event) (_ : world) : Prop :=
  match o with
  | Halt (Exit n) =>
      n = 1 /\ unregistered es
      \/ exists es0 pid u, es = es0 ++ [Called (Unlink (client_fifo pid)) u]
           /\ (n = 1 \/ n = 0 /\ exists es1 es2, es0 = es1 ++ es2 /\ answered argv es2)
  | Halt h => died h
  | Blocked _ => True
  | _ => False
  end.

(** The FIFO client, for every answer: it never returns; if it ends by
    [exit] after registering its clean-up, the last thing it does is to remove
    its own FIFO, also when it fails; status 0 means that it sent exactly one
    request, for its own process and the length on its command line (1 by
    default), received a complete answer and printed that number; and what it
    sends is what the server decodes. *)
Theorem fifo_client_correct law argv w :
  spec law (fifo_seqnum_client_main argv) w (fifo_client_post argv)
  /\ forall pid len, in_int pid -> in_int len ->
       req_pid (request_bytes pid len) = pid /\ req_seqLen (request_bytes pid len) = len.
Proof.
  split; [|intros pid len Hp Hl; by destruct (request_roundtrip pid len Hp Hl) as (-> & -> & _)].
  assert (HB : forall c es w', fifo_client_post argv (Blocked c) es w') by done.
  assert (HD : forall h es w', died h -> unregistered es -> fifo_client_post argv (Halt h) es w').
  { intros [n|n| |] es w' Hh Hu; simpl in *; try done. left. by split. }
  unfold fifo_seqnum_client_main.
  die_run HB HD; try (repeat apply unregistered_app;
    first [by intros ? []|by apply unregistered_diag|apply unregistered_one; simpl; zbool; done]).
  all: apply spec_with_atexit; [apply _|apply _|]; apply spec_fifo_client_request; [done|..].
  all: match goal with
    | |- forall h es w', died h -> _ => intros [n|n| |] es1 w4 Hh; try done; simpl in Hh; subst n
    | |- forall es w', _ => intros es1 w4 Hans
    end;
    unfold removeFifo; spec_run; try done; right; rewrite !app_nil_r, !app_assoc;
    do 3 eexists; (split; [reflexivity|]); first [by left|right; split; [done|]; by do 2 eexists].
Qed.

(** ** [simple_pipe] *)

Lemma spec_pipe_echo rfd w (Q : outcome unit -> list event -> world -> Prop) :
  (forall c es w', Q (Blocked c) es w') ->
  (forall h es w', died h -> Q (Halt h) es w') ->
  (forall es w', sent_all rfd STDOUT_FILENO es -> at_eof rfd es -> Q (Ret tt) es w') ->
  spec posix_io (pipe_echo rfd) w Q.
Proof.
  intros HB HD HR. unfold pipe_echo.
  apply spec_loop with (I := fun _ es _ => sent_all rfd STDOUT_FILENO es);
    [intros; apply _|intros; apply _|by split|].
  intros [] es w1 Hes. spec_step. spec_step; [apply HB|].
  destruct (r_ret r =? -1) eqn:E1; zbool; [die_run HB HD|].
  destruct (r_ret r =? 0) eqn:E0; zbool.
  - spec_run. apply HR; [apply sent_all_read; [done|lia]|by exists es, PIPE_BUF_SIZE, r].
  - spec_step. spec_step; [apply HB|].
    assert (0 < r_ret r) by (destruct Hlaw as [[? _]|(? & _)]; lia).
    destruct (negb (r_ret r0 =? r_ret r)) eqn:Ek; [die_run HB HD|].
    spec_run. zbool. rewrite app_nil_r. by apply sent_write_all.
Qed.

Definition simple_pipe_post (argv : list string) (o : outcome Z) (es : list event) (_ : world) : Prop :=
  match o with
  | Halt (QuickExit 0) => exists p f c0 mid n c1,
      es = [Called Pipe p; Called Fork f; Called (Close (r_val 1 p)) c0] ++ mid
           ++ [Called (Write STDOUT_FILENO nl) n; Called (Close (r_val 0 p)) c1]
      /\ r_ret f = 0 /\ sent_all (r_val 0 p) STDOUT_FILENO mid /\ at_eof (r_val 0 p) mid
  | Halt (Exit 0) => exists p f c0 n c1 x,
      es = [Called Pipe p; Called Fork f; Called (Close (r_val 0 p)) c0;
            Called (Write (r_val 1 p) (cstr (argv_at argv 1))) n;
            Called (Close (r_val 1 p)) c1; Called Wait x]
      /\ r_ret f <> 0 /\ r_ret n = strlen (argv_at argv 1)
  | Halt h => died h
  | Blocked _ => True
  | _ => False
  end.

(** [simple_pipe]: the child closes the write end first (or it would never
    see end of file), echoes to stdout exactly the bytes that come through the
    pipe up to its end, adds a newline and leaves by [_exit]; the parent closes
    the read end, writes the whole of its argument, closes the write end and only
    then waits; every other ending is a failure. *)
Theorem simple_pipe_correct argv w :
  spec posix_io (simple_pipe_main argv) w (simple_pipe_post argv).
Proof.
  assert (HB : forall c es w', simple_pipe_post argv (Blocked c) es w') by done.
  assert (HD : forall h es w', died h -> simple_pipe_post argv (Halt h) es w').
  { intros [[]|[]| |] es w' Hh; simpl in *; done. }
  unfold simple_pipe_main. die_run HB HD.
  - apply spec_pipe_echo; [intros; apply HB|intros; by apply HD|].
    intros es w4 Hes Heof. die_run HB HD. zbool. simpl.
    exists r, r0, r1, es, r2, r3. by split_and!.
  - zbool. simpl. exists r, r0, r1, r2, r3, r4. by split_and!.
Qed.
