(* ===== verification/UnixProgs.v ===== *)
(** * UnixProgs: the UNIX-domain socket programs (57-socket-unix/, 57-experimental/) *)

From S2P Require Import Prelude Clib Sys Errors GetNum RdWr Posix Status FileIO Services.

Definition BUF_SIZE_57 : Z := 10.       (* ud_ucase.h *)
Definition UD_SOCK_PATH : string := "/tmp/ud_ucase".
Definition XFR_BUF_SIZE : Z := 100.     (* us_xfr.h *)
Definition XFR_SOCK_PATH : string := "/tmp/us_xfr".
Definition XFR_BACKLOG : Z := 5.

(** The address built with [strncpy(addr.sun_path, path, sizeof(addr.sun_path) - 1)]. *)
Definition un_addr (path : string) : sockaddr := SaUnix AF_UNIX (strncpy_str path (SUN_PATH_SIZE - 1)).
Definition sun_path_of (a : sockaddr) : string :=
  match a with SaUnix _ p => cstr p | _ => EmptyString end.

(** [if (remove(path) == -1 && errno != ENOENT) errExit(...)] *)
Definition remove_old (path : string) : M unit :=
  m ← scall (Remove path);
  when (m =? -1)
    (errno ← get_errno;
     when (negb (errno =? ENOENT)) (errExit ("remove-" +:+ path))).

(** ** ud_ucase_sv.c: datagrams returned in upper case *)

(** One datagram; [report] prints where it came from. *)
Definition ucase_round (sfd bufSize : Z) (report : resp -> M unit) : M unit :=
  r ← sys (Recvfrom sfd bufSize);
  let numBytes := r_ret r in
  if numBytes =? -1 then errExit "recvfrom" else
  _ ← report r;
  let buf := smap toupper (ztake numBytes (r_buf r)) in
  n ← scall (Sendto sfd buf (r_addr r) (r_addrlen r));
  if negb (n =? numBytes) then fatal "sendto" else mret tt.

Definition ud_report (r : resp) : M unit :=
  printf ("Server received " +:+ dec (r_ret r) +:+ " bytes from " +:+ sun_path_of (r_addr r) +:+ nl).

Definition ud_ucase_sv_main (argv : list string) : M Z :=
  sfd ← scall (Socket AF_UNIX SOCK_DGRAM 0);
  if sfd =? -1 then errExit "socket" else
  if strlen UD_SOCK_PATH >? SUN_PATH_SIZE - 1 then
    fatal ("Server socket path too long: " +:+ UD_SOCK_PATH) else
  _ ← remove_old UD_SOCK_PATH;
  b ← scall (Bind sfd (un_addr UD_SOCK_PATH) SOCKADDR_UN_SIZE);
  if b =? -1 then errExit "bind" else
  forever (ucase_round sfd BUF_SIZE_57 ud_report).

(** ** ud_ucase_cl.c *)

(** Send one message and show the response; [j] numbers it. *)
Definition ucase_request (sfd bufSize : Z) (svaddr : sockaddr) (svlen j : Z) (msg : string) : M unit :=
  let m := cstr msg in
  n ← scall (Sendto sfd m svaddr svlen);
  if negb (n =? slen m) then fatal "sendto" else
  r ← sys (Recvfrom sfd bufSize);
  if r_ret r =? -1 then errExit "recvfrom" else
  printf ("Response " +:+ dec j +:+ ": " +:+ fmt_prec (r_ret r) (r_buf r) +:+ nl).

Definition ud_client_path (pid : Z) : string := snprintf SUN_PATH_SIZE ("/tmp/ud_ucase_cl." +:+ dec pid).

Definition ud_ucase_cl_main (argv : list string) : M Z :=
  if (argc_of argv <? 2) || wants_help argv then usageErr (cstr (argv_at argv 0) +:+ " msg..." +:+ nl) else
  sfd ← scall (Socket AF_UNIX SOCK_DGRAM 0);
  if sfd =? -1 then errExit "socket" else
  pid ← scall Getpid;
  let path := ud_client_path pid in
  b ← scall (Bind sfd (SaUnix AF_UNIX path) SOCKADDR_UN_SIZE);
  if b =? -1 then errExit "bind" else
  _ ← for_each (fun j => ucase_request sfd BUF_SIZE_57 (un_addr UD_SOCK_PATH) SOCKADDR_UN_SIZE j
                            (argv_at argv (Z.to_nat j)))
        (seqZ 1 (argc_of argv - 1));
  _ ← scall (Remove path);
  exit EXIT_SUCCESS.

(** ** us_xfr_cl.c, us_xfr_sv.c: a byte stream to the server's stdout *)

Definition us_xfr_cl_main (argv : list string) : M Z :=
  sfd ← scall (Socket AF_UNIX SOCK_STREAM 0);
  if sfd =? -1 then errExit "socket" else
  c ← scall (Connect sfd (un_addr XFR_SOCK_PATH) SOCKADDR_UN_SIZE);
  if c =? -1 then errExit "close" else
  numRead ← transfer STDIN_FILENO sfd XFR_BUF_SIZE (fatal "partial/failed write");
  if numRead =? -1 then errExit "read" else
  exit EXIT_SUCCESS.

(** One connection. *)
Definition us_xfr_round (sfd : Z) : M unit :=
  cfd ← scall (Accept sfd);
  if cfd =? -1 then errExit "accept" else
  numRead ← transfer cfd STDOUT_FILENO XFR_BUF_SIZE (fatal "partial/failed write");
  if numRead =? -1 then errExit "read" else
  c ← scall (Close cfd);
  when (c =? -1) (errMsg "close").

Definition us_xfr_sv_main (argv : list string) : M Z :=
  sfd ← scall (Socket AF_UNIX SOCK_STREAM 0);
  if sfd =? -1 then errExit "socket" else
  if strlen XFR_SOCK_PATH >? SUN_PATH_SIZE - 1 then
    fatal ("Server socket path too long: " +:+ XFR_SOCK_PATH) else
  _ ← remove_old XFR_SOCK_PATH;
  b ← scall (Bind sfd (un_addr XFR_SOCK_PATH) SOCKADDR_UN_SIZE);
  if b =? -1 then errExit "bind" else
  l ← scall (Listen sfd XFR_BACKLOG);
  if l =? -1 then errExit "listen" else
  forever (us_xfr_round sfd).

(** ** 57-experimental/socketpair-sample.c *)

(** The byte [buf] after a [read] of at most one byte into it. *)
Definition read_byte (buf : ascii) (r : resp) : ascii :=
  if r_ret r =? 1 then schar 0 (r_buf r) else buf.

(** [junk]: the uninitialised [buf].  [wait] is [scall Wait]. *)
Definition socketpair_main (junk : ascii) : M Z :=
  _ ← scall (Lib "setbuf" ["stdout"%string] []);
  p ← sys (Socketpair AF_UNIX SOCK_STREAM 0);
  if r_ret p =? -1 then
    errno ← get_errno;
    t ← sys (Strerror errno);
    _ ← fputs Stderr ("socketpair: " +:+ cstr (r_buf t) +:+ nl);
    exit EXIT_FAILURE
  else
  let sv0 := r_val 0 p in let sv1 := r_val 1 p in
  pid ← scall Fork;
  if pid =? 0 then
    _ ← scall (Close sv0);
    _ ← scall (Sleep 3);
    r ← sys (Read sv1 1);
    let buf := read_byte junk r in
    _ ← printf ("child: read '" +:+ String buf EmptyString +:+ "'" +:+ nl);
    let buf := toupper buf in
    _ ← scall (Write sv1 (String buf EmptyString));
    _ ← printf ("child: sent '" +:+ String buf EmptyString +:+ "'" +:+ nl);
    _ ← stop "child";
    quick_exit 0
  else
    _ ← scall (Close sv1);
    _ ← scall (Write sv0 "b");
    _ ← printf ("parent: sent 'b'" +:+ nl);
    r ← sys (Read sv0 1);
    let buf := read_byte junk r in
    _ ← printf ("parent: read '" +:+ String buf EmptyString +:+ "'" +:+ nl);
    _ ← scall Wait;
    exit 0.

#[export] Instance remove_old_sane p : Sane (remove_old p).
Proof. unfold remove_old. apply _. Qed.
#[export] Instance ucase_round_sane s n rep : (forall r, Sane (rep r)) -> Sane (ucase_round s n rep).
Proof. unfold ucase_round. intros. apply _. Qed.
#[export] Instance ucase_round_uses s n rep : (forall r, Sane (rep r)) -> Uses (ucase_round s n rep).
Proof. unfold ucase_round. intros. apply _. Qed.
#[export] Instance ud_report_sane r : Sane (ud_report r).
Proof. unfold ud_report. apply _. Qed.
#[export] Instance ud_ucase_sv_main_sane a : Sane (ud_ucase_sv_main a).
Proof. unfold ud_ucase_sv_main. apply _. Qed.
#[export] Instance ucase_request_sane a b c d e f : Sane (ucase_request a b c d e f).
Proof. unfold ucase_request. apply _. Qed.
#[export] Instance ud_ucase_cl_main_sane a : Sane (ud_ucase_cl_main a).
Proof. unfold ud_ucase_cl_main. apply _. Qed.
#[export] Instance us_xfr_cl_main_sane a : Sane (us_xfr_cl_main a).
Proof. unfold us_xfr_cl_main. apply _. Qed.
#[export] Instance us_xfr_round_sane s : Sane (us_xfr_round s).
Proof. unfold us_xfr_round. apply _. Qed.
#[export] Instance us_xfr_round_uses s : Uses (us_xfr_round s).
Proof. unfold us_xfr_round. apply _. Qed.
#[export] Instance us_xfr_sv_main_sane a : Sane (us_xfr_sv_main a).
Proof. unfold us_xfr_sv_main. apply _. Qed.
#[export] Instance socketpair_main_sane j : Sane (socketpair_main j).
Proof. unfold socketpair_main. apply _. Qed.

(** ** The upper-casing servers *)

(** A datagram with its address, as received and as sent. *)
Definition dgram : Type := string * sockaddr * Z.
Fixpoint recvs (es : list event) : list dgram :=
  match es with
  | [] => []
  | Called (Recvfrom _ _) r :: es =>
      if r_ret r =? -1 then recvs es
      else (ztake (r_ret r) (r_buf r), r_addr r, r_addrlen r) :: recvs es
  | _ :: es => recvs es
  end.
Fixpoint sends (es : list event) : list dgram :=
  match es with
  | [] => []
  | Called (Sendto _ d a l) _ :: es => (d, a, l) :: sends es
  | _ :: es => sends es
  end.
Definition upper_reply (m : dgram) : dgram := let '(d, a, l) := m in (upper d, a, l).

Lemma recvs_app es fs : recvs (es ++ fs) = recvs es ++ recvs fs.
Proof.
  induction es as [|[[]| |] es IH]; simpl; try done.
  destruct (r_ret r =? -1); [done|]. by rewrite IH.
Qed.
Lemma sends_app es fs : sends (es ++ fs) = sends es ++ sends fs.
Proof. induction es as [|[[]| |] es IH]; simpl; try done. by f_equal. Qed.

(** Events that move no datagram. *)
Definition quiet (es : list event) : Prop := recvs es = [] /\ sends es = [].
Lemma quiet_diag es : Forall diag es -> quiet es.
Proof.
  intros H. induction H as [|[[]| |] es He _ [IH1 IH2]]; simpl in *; try tauto; by split.
Qed.

(** Every datagram so far answered; all but possibly the last one answered. *)
Definition all_served (es : list event) : Prop := sends es = map upper_reply (recvs es).
Definition served (es : list event) : Prop :=
  exists rest, map upper_reply (recvs es) = sends es ++ rest /\ (length rest <= 1)%nat.

Lemma all_served_served es fs : all_served es -> quiet fs -> served (es ++ fs).
Proof.
  intros He [H1 H2]. exists []. rewrite recvs_app, sends_app, H1, H2, !app_nil_r. split; [by rewrite He|simpl; lia].
Qed.

Lemma quiet_app es fs : quiet es -> quiet fs -> quiet (es ++ fs).
Proof. intros [H1 H2] [H3 H4]. split; by rewrite ?recvs_app, ?sends_app, ?H1, ?H2, ?H3, ?H4. Qed.
Lemma served_quiet es : quiet es -> served es.
Proof. intros H. by apply (all_served_served []). Qed.
Lemma served_after es fs : quiet es -> served fs -> served (es ++ fs).
Proof.
  intros [H1 H2] (rest & Hr & Hl). exists rest. by rewrite recvs_app, sends_app, H1, H2.
Qed.

(** Split a trace into its pieces, none of which moves a datagram. *)
Ltac quiet_tac := repeat apply quiet_app; first [by apply quiet_diag | by split].

Section UcaseServer.
Context (law : call -> resp -> Prop) (sfd n : Z) (report : resp -> M unit) `{Hrep : !forall r, Sane (report r)}.
Context (Hreport : forall r w Q,
(forall c es w', quiet es -> Q (Blocked c) es w') ->
(forall es w', quiet es -> Q (Ret tt) es w') -> spec law (report r) w Q).

Lemma spec_ucase_server w (Q : outcome Z -> list event -> world -> Prop) :
(forall c es w', served es -> Q (Blocked c) es w') ->
(forall h es w', died h -> served es -> Q (Halt h) es w') ->
spec law (forever (ucase_round sfd n report)) w Q.
Proof using Hreport Hrep.
intros HB HD. unfold forever.
apply spec_loop with (I := fun _ es _ => all_served es); [intros; apply _|intros; apply _|done|].
intros [] es w1 Hes. unfold ucase_round.
assert (Hone : forall r0 fs, r_ret r0 <> -1 -> quiet fs ->
served (es ++ [Called (Recvfrom sfd n) r0] ++ fs)).
{ intros r0 fs Hr0 [H1 H2]. eexists [_]. rewrite !recvs_app, !sends_app, H1, H2, !app_nil_r.
cbn [recvs sends]. apply Z.eqb_neq in Hr0 as ->. rewrite map_app, Hes. split; [done|simpl; lia]. }
spec_step; spec_step. spec_step; [apply HB; by apply all_served_served|].
destruct (r_ret r =? -1) eqn:Er.
{ die_run HB HD; rewrite app_assoc; (apply all_served_served; [|by apply quiet_diag]);
unfold all_served; rewrite recvs_app, sends_app, map_app, Hes; cbn [recvs sends]; rewrite Er; by rewrite ?app_nil_r. }
zbool. spec_step. apply Hreport; cbn [pass].
{ intros c fs w2 Hq. apply HB. by apply Hone. }
intros fs w2 [Hq1 Hq2]. spec_step. spec_step; [apply HB; rewrite app_nil_r; by apply Hone|].
assert (Hall : forall k, all_served (es ++ [Called (Recvfrom sfd n) r] ++ fs
++ [Called (Sendto sfd (smap toupper (ztake (r_ret r) (r_buf r))) (r_addr r) (r_addrlen r)) k])).
{ intros k. unfold all_served. rewrite !recvs_app, !sends_app, Hq1, Hq2, Hes, !map_app.
cbn [recvs sends]. apply Z.eqb_neq in Er as ->. done. }
destruct (negb (r_ret r0 =? r_ret r)); [|spec_run; rewrite !app_nil_r; apply Hall].
die_run HB HD; rewrite !app_assoc; (apply all_served_served; [|by apply quiet_diag]);
rewrite <- !app_assoc; apply Hall.
Qed.
End UcaseServer.

(** The UNIX datagram server: it never returns; every datagram it received
    was answered, in order, at the address it came from, with its upper-case
    form and nothing else, at most the last one being still unanswered when it
    waits or dies. *)
Lemma ud_ucase_serves law argv w :
  spec law (ud_ucase_sv_main argv) w (fun o es _ =>
    served es /\ match o with Blocked _ => True | Halt h => died h | _ => False end).
Proof.
  set (Q := fun (o : outcome Z) es (_ : world) => served es /\
    match o with Blocked _ => True | Halt h => died h | _ => False end).
  change (spec law (ud_ucase_sv_main argv) w Q).
  assert (HB : forall c es w', served es -> Q (Blocked c) es w') by done.
  assert (HD : forall h es w', died h -> served es -> Q (Halt h) es w') by done.
  clearbody Q. unfold ud_ucase_sv_main, remove_old.
  die_run HB HD; try (apply served_quiet; quiet_tac).
  all: apply spec_ucase_server;
    [apply _
    |intros; unfold ud_report; spec_run; match goal with H : _ |- _ => apply H end; by split
    |intros; apply HB|intros; apply HD; [done|]];
    repeat (apply served_after; [quiet_tac|]); done.
Qed.

(** ** The stream programs *)

(** Every byte read, from whatever descriptor. *)
Fixpoint taken (es : list event) : string :=
  match es with
  | [] => EmptyString
  | Called (Read _ _) r :: es => ztake (r_ret r) (r_buf r) +:+ taken es
  | _ :: es => taken es
  end.
Lemma taken_app es fs : taken (es ++ fs) = taken es +:+ taken fs.
Proof. induction es as [|[[]| |] es IH]; simpl; try done. by rewrite IH, sapp_assoc. Qed.
Lemma taken_delivered i o es : Forall (xfer_event i o) es -> taken es = delivered i es.
Proof.
  intros H. induction H as [|[[]| |] es He _ IH]; simpl in *; try done. subst. by rewrite Z.eqb_refl, IH.
Qed.

(** Nothing was invented or reordered: stdout received an initial part of the
    bytes taken from the connections. *)
Definition relayed (es : list event) : Prop :=
  exists rest, taken es = sent STDOUT_FILENO es +:+ rest.
Definition relayed_all (lfd : Z) (es : list event) : Prop :=
  taken es = sent STDOUT_FILENO es /\ no_leak lfd es.

Lemma relayed_all_app lfd es fs : relayed_all lfd es -> relayed_all lfd fs -> relayed_all lfd (es ++ fs).
Proof.
  intros [H1 H2] [H3 H4]. split; [by rewrite taken_app, sent_app, H1, H3|].
  intros l Hl. rewrite held_from_app. by apply H4, H2.
Qed.
Lemma relayed_after lfd es fs : relayed_all lfd es -> relayed fs -> relayed (es ++ fs).
Proof.
  intros [H1 _] [rest Hr]. exists rest. by rewrite taken_app, sent_app, H1, Hr, sapp_assoc.
Qed.

(** Events that move no data. *)
Definition still (es : list event) : Prop := taken es = EmptyString /\ sent STDOUT_FILENO es = EmptyString.
Lemma still_diag es : Forall diag es -> still es.
Proof.
  intros H. induction H as [|[[]| |] es He _ [IH1 IH2]]; simpl in *; try tauto; by split.
Qed.
Lemma still_app es fs : still es -> still fs -> still (es ++ fs).
Proof. intros [H1 H2] [H3 H4]. split; by rewrite ?taken_app, ?sent_app, ?H1, ?H2, ?H3, ?H4. Qed.
Lemma relayed_still es fs gs : still es -> relayed fs -> still gs -> relayed (es ++ fs ++ gs).
Proof.
  intros [H1 H2] [rest Hr] [H3 H4]. exists rest.
  by rewrite !taken_app, !sent_app, H1, H2, H3, H4, Hr, !sapp_nil_r.
Qed.
Lemma relayed_of_still es : still es -> relayed es.
Proof. intros [H1 H2]. exists "". by rewrite H1, H2. Qed.
Lemma relayed_prefix cfd es : sent_prefix cfd STDOUT_FILENO es -> relayed es.
Proof. intros [H [rest Hr]]. exists rest. by rewrite (taken_delivered cfd STDOUT_FILENO). Qed.
Ltac still_tac := repeat apply still_app; first [by apply still_diag | by split].

Lemma spec_us_xfr_round lfd w (Q : outcome unit -> list event -> world -> Prop) :
  (forall c es w', relayed es -> Q (Blocked c) es w') ->
  (forall h es w', died h -> relayed es -> Q (Halt h) es w') ->
  (forall es w', relayed_all lfd es -> Q (Ret tt) es w') ->
  spec posix_io (us_xfr_round lfd) w Q.
Proof.
  intros HB HD HR. unfold us_xfr_round.
  die_run HB HD; try (apply relayed_of_still; still_tac).
  apply spec_transfer; [apply _|intros c es w1 Hp|intros es w1 Hp|intros es w1 Hes _|intros es w1 Hes].
  - apply HB. rewrite <- (app_nil_r es). apply relayed_still; [by split|by eapply relayed_prefix|by split].
  - die_run HB HD; (apply relayed_still; [by split|by eapply relayed_prefix|still_tac]).
  - zbool. assert (Hall : forall c fs, Forall diag fs ->
      relayed_all lfd ([Called (Accept lfd) r] ++ es ++ [Called (Close (r_ret r)) c] ++ fs)).
    { intros c fs Hfs. destruct Hes as [Hev Heq], (still_diag fs Hfs) as [S1 S2]. split.
      - rewrite !taken_app, !sent_app, S1, S2, (taken_delivered _ _ _ Hev), Heq. simpl. by rewrite !sapp_nil_r.
      - intros l Hl. rewrite !held_from_app. cbn [held_from opens].
        apply Z.eqb_neq in Heqb as ->. rewrite (held_xfer _ _ _ _ Hev), held_diag by done.
        apply Forall_forall. intros x [Hx Hin]%list_elem_of_filter.
        apply elem_of_app in Hin as [Hin|Hin]; [rewrite Forall_forall in Hl; by apply Hl|].
        apply list_elem_of_singleton in Hin. done. }
    assert (Hpre : forall fs, still fs -> relayed ([Called (Accept lfd) r] ++ es ++ fs)).
    { intros fs Hfs. apply relayed_still; [by split| |done]. destruct Hes as [Hev Heq].
      exists "". by rewrite (taken_delivered _ _ _ Hev), Heq, sapp_nil_r. }
    repeat first [ apply spec_errMsg; [|intros ?es ?w ?He ?Hd] | die_step HB HD ]; cbn [pass];
      try (apply Hpre; still_tac);
      apply HR; rewrite ?app_nil_r; by apply Hall.
  - die_run HB HD; apply relayed_still; try still_tac; destruct Hes as [Hev Heq];
      exists ""; by rewrite (taken_delivered _ _ _ Hev), Heq, sapp_nil_r.
Qed.

Lemma relayed_after_still es fs : still es -> relayed fs -> relayed (es ++ fs).
Proof. intros He Hf. rewrite <- (app_nil_r fs). apply relayed_still; [done|done|by split]. Qed.

Lemma spec_relay_loop lfd w (Q : outcome Z -> list event -> world -> Prop) :
  (forall c es w', relayed es -> Q (Blocked c) es w') ->
  (forall h es w', died h -> relayed es -> Q (Halt h) es w') ->
  spec posix_io (forever (us_xfr_round lfd)) w Q.
Proof.
  intros HB HD. unfold forever.
  apply spec_loop with (I := fun _ es _ => relayed_all lfd es);
    [intros; apply _|intros; apply _|by split; [|intros l]|].
  intros [] es w1 Hes. spec_step. apply spec_us_xfr_round; cbn [pass].
  - intros c fs w2 Hr. apply HB. by eapply relayed_after.
  - intros h fs w2 Hh Hr. apply HD; [done|]. by eapply relayed_after.
  - intros fs w2 Hr. spec_step. rewrite app_nil_r. by apply relayed_all_app.
Qed.

(** The stream client and server: the client sends exactly the bytes of its
    standard input, in order, and ends with status 0 only at its end; the server
    never returns, what it writes to its standard output is at every moment an
    initial part of what the connections delivered, and after each connection it
    is all of it, with no connected socket left open. *)
Theorem us_xfr_correct argv w :
  spec posix_io (us_xfr_cl_main argv) w (fun o es _ =>
    match o with
    | Halt (Exit 0) => exists s c mid,
        es = [Called (Socket AF_UNIX SOCK_STREAM 0) s;
              Called (Connect (r_ret s) (un_addr XFR_SOCK_PATH) SOCKADDR_UN_SIZE) c] ++ mid
        /\ sent_all STDIN_FILENO (r_ret s) mid /\ at_eof STDIN_FILENO mid
    | Halt h => died h | Blocked _ => True | _ => False end)
  /\ spec posix_io (us_xfr_sv_main argv) w (fun o es _ =>
    relayed es /\ match o with Blocked _ => True | Halt h => died h | _ => False end)
  /\ forall lfd, spec posix_io (us_xfr_round lfd) w (fun o es _ =>
       match o with Ret _ => relayed_all lfd es | _ => relayed es end).
Proof.
  split_and!; [| |intros lfd; by apply spec_us_xfr_round].
  - match goal with |- spec _ _ _ ?P => set (Q := P) end.
    assert (HB : forall c es w', Q (Blocked c) es w') by done.
    assert (HD : forall h es w', died h -> Q (Halt h) es w') by (intros [[]| | |] es w' Hh; simpl in *; done).
    unfold us_xfr_cl_main. die_run HB HD.
    apply spec_transfer; [apply _|intros; apply HB|..]; intros es w2; [intros _|intros Hes Heof|intros _];
      die_run HB HD. exists r, r0, es. by rewrite app_nil_r.
  - match goal with |- spec _ _ _ ?P => set (Q := P) end.
    assert (HB : forall c es w', relayed es -> Q (Blocked c) es w') by done.
    assert (HD : forall h es w', died h -> relayed es -> Q (Halt h) es w') by done.
    clearbody Q. unfold us_xfr_sv_main, remove_old.
    die_run HB HD; try (apply relayed_of_still; still_tac).
    all: apply spec_relay_loop; intros; first [apply HB|apply HD; [done|]];
      repeat (apply relayed_after_still; [still_tac|]); done.
Qed.
