(* ===== verification/InetProgs.v ===== *)
(** * InetProgs: the Internet-domain socket programs (59-socket-internet/) *)

From S2P Require Import Prelude Clib Sys Errors GetNum RdWr Posix Status Sockets Services FileIO UnixProgs.

(** ** i6d_ucase.h, i6d_ucase_sv.c, i6d_ucase_cl.c *)

Definition BUF_SIZE_59 : Z := 10.
Definition UCASE_PORT_NUM : Z := 50002.
Definition in6addr_any : string := srep 16 nul.

Definition sin6_port_of (a : sockaddr) : Z := match a with SaInet6 _ p _ => p | _ => 0 end.
Definition sin6_addr_of (a : sockaddr) : string := match a with SaInet6 _ _ x => x | _ => EmptyString end.

Definition i6d_report (r : resp) : M unit :=
  s ← sys (InetNtop AF_INET6 (sin6_addr_of (r_addr r)));
  if r_ret s =? 0 then printf ("Couln't convert client address to string" +:+ nl)
  else printf ("Server received " +:+ dec (r_ret r) +:+ " bytes from (" +:+ cstr (r_buf s) +:+ ", "
               +:+ dec (ntohs (sin6_port_of (r_addr r))) +:+ ")" +:+ nl).

Definition i6d_ucase_sv_main (argv : list string) : M Z :=
  sfd ← scall (Socket AF_INET6 SOCK_DGRAM 0);
  if sfd =? -1 then errExit "socket" else
  b ← scall (Bind sfd (SaInet6 AF_INET6 (htons UCASE_PORT_NUM) in6addr_any) SOCKADDR_IN6_SIZE);
  if b =? -1 then errExit "bind" else
  forever (ucase_round sfd BUF_SIZE_59 i6d_report).

Definition i6d_ucase_cl_main (argv : list string) : M Z :=
  if (argc_of argv <? 3) || wants_help argv then
    usageErr (cstr (argv_at argv 0) +:+ " host-address msg..." +:+ nl) else
  sfd ← scall (Socket AF_INET6 SOCK_DGRAM 0);
  if sfd =? -1 then errExit "socket" else
  p ← sys (InetPton AF_INET6 (argv_at argv 1));
  if r_ret p <=? 0 then
    fatal ("inet_pton failed for address '" +:+ cstr (argv_at argv 1) +:+ "'") else
  let svaddr := SaInet6 AF_INET6 (htons UCASE_PORT_NUM) (r_buf p) in
  _ ← for_each (fun j => ucase_request sfd BUF_SIZE_59 svaddr SOCKADDR_IN6_SIZE (j - 1)
                            (argv_at argv (Z.to_nat j)))
        (seqZ 2 (argc_of argv - 2));
  exit EXIT_SUCCESS.

(** ** is_seqnum.h, is_seqnum_cl.c *)

Definition SEQ_PORT_NUM : string := "50000".
Definition INT_LEN : Z := 30.

(** The walk over the addresses is that of [inetConnect]. *)
Definition is_seqnum_cl_main (argv : list string) : M Z :=
  if (argc_of argv <? 2) || wants_help argv then
    usageErr (cstr (argv_at argv 0) +:+ " server-host [sequence-len]" +:+ nl) else
  g ← sys (Getaddrinfo (Some (argv_at argv 1)) SEQ_PORT_NUM (Hints AF_UNSPEC SOCK_STREAM AI_NUMERICSERV));
  if negb (r_ret g =? 0) then errExit "getaddrinfo" else
  c ← connect_loop (r_addrs g);
  match c with
  | None => fatal "Could not connect socket to any address"
  | Some cfd =>
      _ ← sys Freeaddrinfo;
      let reqLenStr := cstr (if argc_of argv >? 2 then argv_at argv 2 else "1"%string) in
      n ← scall (Write cfd reqLenStr);
      if negb (n =? slen reqLenStr) then fatal "partial/failed write (reqLenStr)" else
      n ← scall (Write cfd nl);
      if negb (n =? 1) then fatal "partial/failed write (newLine)" else
      '(numRead, seqNumStr) ← readLine cfd true INT_LEN;
      if numRead =? -1 then errExit "readLine"
      else if numRead =? 0 then fatal "Unexpected EOF from server"
      else
        _ ← printf ("Sequence number: " +:+ cstr seqNumStr);
        exit EXIT_SUCCESS
  end.

(** ** is_seqnum_sv.c *)

Definition SEQ_BACKLOG : Z := 50.
Definition ADDRSTRLEN : Z := NI_MAXHOST + NI_MAXSERV + 10.

(** What [setsockopt] is given: the first [sizeof(int)] bytes of the pointer
    variable [optarg] of getopt(3), which is null as [getopt] is never called. *)
Definition optarg_int : Z := 0.

(** The [for] loop that binds; [None] when no address is left. *)
Fixpoint seqnum_bind_loop (rps : list addrinfo) : M (option Z) :=
  match rps with
  | [] => mret None
  | rp :: rest =>
      lfd ← scall (Socket (ai_family rp) (ai_socktype rp) (ai_protocol rp));
      if lfd =? -1 then seqnum_bind_loop rest
      else
        o ← scall (Setsockopt lfd SOL_SOCKET SO_REUSEADDR (Some optarg_int));
        if o =? -1 then errExit "setsockopt" else
        b ← scall (Bind lfd (ai_addr rp) (ai_addrlen rp));
        if b =? 0 then mret (Some lfd)
        else _ ← scall (Close lfd); seqnum_bind_loop rest
  end.

(** One client; the loop carries the [uint32_t] counter. *)
Definition seqnum_round (lfd seqNum : Z) : M Z :=
  c ← sys (Accept lfd);
  let cfd := r_ret c in
  if cfd =? -1 then _ ← errMsg "accept"; mret seqNum
  else
    g ← sys (Getnameinfo (r_addr c) (r_addrlen c) NI_MAXHOST NI_MAXSERV 0);
    let addrStr := snprintf ADDRSTRLEN
      (if r_ret g =? 0
       then "(" +:+ cstr (nth 0 (r_strs g) "") +:+ ", " +:+ cstr (nth 1 (r_strs g) "") +:+ ")"
       else "(?UNKNOWN?)") in
    _ ← printf ("Connection from " +:+ addrStr +:+ nl);
    '(n, reqLenStr) ← readLine cfd true INT_LEN;
    if n <=? 0 then _ ← scall (Close cfd); mret seqNum
    else
      let reqLen := atoi reqLenStr in
      if reqLen <=? 0 then _ ← scall (Close cfd); mret seqNum
      else
        let seqNumStr := snprintf INT_LEN (dec (wrap_s32 seqNum) +:+ nl) in
        k ← scall (Write cfd seqNumStr);
        _ ← when (negb (k =? slen seqNumStr)) (fputs Stderr "Error on write");
        d ← scall (Close cfd);
        _ ← when (d =? -1) (errMsg "close");
        mret (wrap_u32 (seqNum + reqLen)).

Definition is_seqnum_sv_main (argv : list string) : M Z :=
  if (argc_of argv >? 1) && wants_help argv then
    usageErr (cstr (argv_at argv 0) +:+ " [init-seq-num]" +:+ nl) else
  init ← if argc_of argv >? 1 then getInt (argv_opt argv 1) 0 (Some "init-seq-num") else mret 0;
  s ← scall (Signal SIGPIPE SIG_IGN);
  if s =? SIG_ERR then errExit "signal" else
  g ← sys (Getaddrinfo None SEQ_PORT_NUM (Hints AF_UNSPEC SOCK_STREAM (AI_PASSIVE .| AI_NUMERICSERV)));
  if negb (r_ret g =? 0) then errExit "getaddrinfo" else
  b ← seqnum_bind_loop (r_addrs g);
  match b with
  | None => fatal "Could not bind socket to any address"
  | Some lfd =>
      l ← scall (Listen lfd SEQ_BACKLOG);
      if l =? -1 then errExit "listen" else
      _ ← sys Freeaddrinfo;
      loop (fun seqNum => seqNum ← seqnum_round lfd seqNum; mret (inl seqNum)) (wrap_u32 init)
  end.

(** ** t_gethostbyname.c, t_getservbyname.c *)

Definition t_gethostbyname_one (name : string) : M unit :=
  r ← sys (Gethostbyname name);
  if r_ret r =? 0 then
    e ← sys (Lib "hstrerror" [] []);
    fputs Stderr ("gethostbyname() failed for '" +:+ cstr name +:+ "': " +:+ cstr (r_buf e) +:+ nl)
  else
    let h := r_hostent r in
    _ ← printf ("Canonical name: " +:+ cstr (h_name h) +:+ nl);
    _ ← printf ("        alias(es):       ");
    _ ← for_each (fun a => printf (" " +:+ cstr a)) (h_aliases h);
    _ ← printf nl;
    _ ← printf ("        address type:    "
                +:+ (if h_addrtype h =? AF_INET then "AF_INET " else
                     if h_addrtype h =? AF_INET6 then "AF_INET6" else "???") +:+ nl);
    when ((h_addrtype h =? AF_INET) || (h_addrtype h =? AF_INET6))
      (_ ← printf ("        address(es):       ");
       _ ← for_each (fun a =>
             s ← sys (InetNtop (h_addrtype h) a);
             printf (" " +:+ show_opt (if r_ret s =? 0 then None else Some (r_buf s))))
             (h_addr_list h);
       printf nl).

(** The vector ends at the first null pointer, here its end. *)
Definition t_gethostbyname_main (argv : list string) : M Z :=
  _ ← for_each t_gethostbyname_one (tail argv);
  exit EXIT_SUCCESS.

Definition t_getservbyname_main (argv : list string) : M Z :=
  if (argc_of argv <? 2) || wants_help argv then
    usageErr (cstr (argv_at argv 0) +:+ " service [protocol]" +:+ nl) else
  r ← sys (Getservbyname (argv_at argv 1) (argv_opt argv 2));
  if r_ret r =? 0 then fatal "getservbyname() could not find a matching record" else
  let s := r_servent r in
  _ ← printf ("Official name: " +:+ cstr (s_name s) +:+ nl);
  _ ← printf ("Aliases:      ");
  _ ← for_each (fun a => printf (" " +:+ cstr a)) (s_aliases s);
  _ ← printf nl;
  _ ← printf ("Port:          " +:+ dec (ntohs (s_port s)) +:+ nl);
  _ ← printf ("Protocol:      " +:+ cstr (s_proto s) +:+ nl);
  exit EXIT_SUCCESS.

#[export] Instance i6d_report_sane r : Sane (i6d_report r).
Proof. unfold i6d_report. apply _. Qed.
#[export] Instance i6d_ucase_sv_main_sane a : Sane (i6d_ucase_sv_main a).
Proof. unfold i6d_ucase_sv_main. apply _. Qed.
#[export] Instance i6d_ucase_cl_main_sane a : Sane (i6d_ucase_cl_main a).
Proof. unfold i6d_ucase_cl_main. apply _. Qed.
#[export] Instance is_seqnum_cl_main_sane a : Sane (is_seqnum_cl_main a).
Proof. unfold is_seqnum_cl_main. apply _. Qed.
#[export] Instance seqnum_bind_loop_sane l : Sane (seqnum_bind_loop l).
Proof. induction l; simpl; apply _. Qed.
#[export] Instance seqnum_round_sane l n : Sane (seqnum_round l n).
Proof. unfold seqnum_round. apply _. Qed.
#[export] Instance seqnum_round_uses l n : Uses (seqnum_round l n).
Proof. unfold seqnum_round. apply _. Qed.
#[export] Instance is_seqnum_sv_main_sane a : Sane (is_seqnum_sv_main a).
Proof. unfold is_seqnum_sv_main. apply _. Qed.
#[export] Instance t_gethostbyname_one_sane n : Sane (t_gethostbyname_one n).
Proof. unfold t_gethostbyname_one. apply _. Qed.
#[export] Instance t_getservbyname_main_sane a : Sane (t_getservbyname_main a).
Proof. unfold t_getservbyname_main. apply _. Qed.

(** ** The upper-casing server *)

(** The Internet datagram server: as its UNIX counterpart, it never returns
    and answers every datagram, in order, at the address it came from, with its
    upper-case form, at most the last one being still unanswered. *)
Lemma i6d_ucase_serves law argv w :
  spec law (i6d_ucase_sv_main argv) w (fun o es _ =>
    served es /\ match o with Blocked _ => True | Halt h => died h | _ => False end).
Proof.
  match goal with |- spec _ _ _ ?P => set (Q := P) end.
  assert (HB : forall c es w', served es -> Q (Blocked c) es w') by done.
  assert (HD : forall h es w', died h -> served es -> Q (Halt h) es w') by done.
  clearbody Q. unfold i6d_ucase_sv_main.
  die_run HB HD; try (apply served_quiet; quiet_tac).
  all: apply spec_ucase_server;
    [apply _
    |intros; unfold i6d_report; spec_run; match goal with H : _ |- _ => apply H end; by split
    |intros; apply HB|intros; apply HD; [done|]];
    repeat (apply served_after; [quiet_tac|]); done.
Qed.

(** The datagram servers, UNIX and Internet: each never returns, and answers
    every datagram it receives, in order, at the address the datagram came from,
    with its upper-case form and nothing else; at most the last one is still
    unanswered when it waits or dies. *)
Theorem ucase_servers_serve law argv w m :
  m = ud_ucase_sv_main argv \/ m = i6d_ucase_sv_main argv ->
  spec law m w (fun o es _ =>
    served es /\ match o with Blocked _ => True | Halt h => died h | _ => False end).
Proof. intros [-> | ->]; [apply ud_ucase_serves|apply i6d_ucase_serves]. Qed.

Lemma ucase_servers_serve_witness :
  spec (fun _ _ => True) (i6d_ucase_sv_main ["i6d_ucase_sv"]) (World [] [] 0) (fun o es _ =>
    served es /\ match o with Blocked _ => True | Halt h => died h | _ => False end).
Proof. apply (ucase_servers_serve _ ["i6d_ucase_sv"]). right. reflexivity. Defined.

(** ** The sequence-number server as a state machine *)

(** The text sent for a counter value. *)
Definition seq_reply (n : Z) : string := snprintf INT_LEN (dec (wrap_s32 n) +:+ nl).

(** Before the request line is read: the client is named and logged. *)
Definition greeting (e : event) : Prop :=
  match e with Called (Getnameinfo _ _ _ _ _) _ | Printed Stdout _ => True | _ => False end.

(** [seq_log lfd n0 reqs es n]: the events of complete rounds, the lengths of
    the requests they accepted and the counter after them.  A round that grants
    nothing (failed accept, unreadable line, length not positive) writes nothing. *)
Inductive seq_log (lfd n0 : Z) : list Z -> list event -> Z -> Prop :=
  | seq_start : seq_log lfd n0 [] [] (wrap_u32 n0)
  | seq_skip reqs past n es :
      seq_log lfd n0 reqs past n -> writes es = [] -> no_leak lfd es ->
      seq_log lfd n0 reqs (past ++ es) n
  | seq_grant reqs past n c hello rd len k noise1 d noise2 :
      seq_log lfd n0 reqs past n ->
      r_ret c <> -1 -> Forall greeting hello -> Forall (only_reads (r_ret c)) rd ->
      len = atoi (ztake (INT_LEN - 1) (delivered (r_ret c) rd)) -> 0 < len ->
      Forall diag noise1 -> Forall diag noise2 ->
      seq_log lfd n0 (reqs ++ [len])
        (past ++ ([Called (Accept lfd) c]
                  ++ (hello ++ rd ++ [Called (Write (r_ret c) (seq_reply n)) k] ++ noise1)
                  ++ [Called (Close (r_ret c)) d]) ++ noise2)
        (wrap_u32 (n + len)).

Lemma seq_reply_exact n : seq_reply n = dec (wrap_s32 n) +:+ nl.
Proof.
  apply ztake_all. pose proof (slen_dec_int _ (wrap_s32_range n)).
  rewrite slen_app. unfold nl. rewrite slen_cons, slen_nil. unfold INT_LEN. lia.
Qed.

Lemma wrap_s32_u32 z w : wrap_s32 (wrap_u32 z + w) = wrap_s32 (wrap_s32 z + w).
Proof.
  rewrite wrap_s32_add. unfold wrap_s32, wrap_u32. f_equal.
  rewrite <- !Z.add_assoc. by rewrite Zplus_mod_idemp_l.
Qed.
Lemma wrap_s32_of_u32 z : wrap_s32 (wrap_u32 z) = wrap_s32 z.
Proof. rewrite <- (Z.add_0_r (wrap_u32 z)), wrap_s32_u32, wrap_s32_add. by rewrite Z.add_0_r. Qed.

Lemma held_greeting l es : Forall greeting es -> held_from l es = l.
Proof.
  intros H. revert l. induction H as [|[[]| |] es He _ IH]; intros l; simpl in *; try done.
  by rewrite app_nil_r.
Qed.
Lemma held_reads fd l es : Forall (only_reads fd) es -> held_from l es = l.
Proof.
  intros H. revert l. induction H as [|[[]| |] es He _ IH]; intros l; simpl in *; try done.
  by rewrite app_nil_r.
Qed.
Lemma writes_greeting es : Forall greeting es -> writes es = [].
Proof. intros H. induction H as [|[[]| |] es He _ IH]; simpl in *; done. Qed.
Lemma writes_reads fd es : Forall (only_reads fd) es -> writes es = [].
Proof. intros H. induction H as [|[[]| |] es He _ IH]; simpl in *; done. Qed.

(** The machine implements the service. *)
Lemma seq_log_service lfd n0 reqs es n :
  seq_log lfd n0 reqs es n ->
  writes es = map (fun s => dec s +:+ nl) (starts (wrap_s32 n0) reqs)
  /\ wrap_s32 n = next_free (wrap_s32 n0) reqs /\ no_leak lfd es.
Proof.
  induction 1 as [|reqs past n es _ (IHw & IHn & IHl) Hw Hl
    |reqs past n c hello rd len k noise1 d noise2 _ (IHw & IHn & IHl) Hc Hh Hrd _ _ Hd1 Hd2].
  - split_and!; [done|apply wrap_s32_of_u32|by apply no_leak_neutral].
  - rewrite writes_app, Hw, app_nil_r. split_and!; [done|done|]. by apply no_leak_app.
  - rewrite starts_app, next_free_app, map_app, <- IHn. split_and!.
    + rewrite !writes_app, IHw, (writes_greeting hello), (writes_reads _ rd), (writes_diag noise1),
        (writes_diag noise2) by done. cbn. by rewrite seq_reply_exact.
    + cbn. rewrite wrap_s32_of_u32. by rewrite wrap_s32_add.
    + apply no_leak_app; [done|]. apply no_leak_app; [|apply no_leak_neutral; intros l; by apply held_diag].
      apply no_leak_session.
      * cbn. by apply Z.eqb_neq in Hc as ->.
      * intros l. by cbn.
      * intros l. rewrite !held_from_app, (held_greeting _ hello), (held_reads _ _ rd) by done.
        cbn. rewrite app_nil_r. by apply held_diag.
Qed.

Lemma spec_seqnum_round lfd n w (Q : outcome Z -> list event -> world -> Prop) :
  (forall c es w', writes es = [] \/ writes es = [seq_reply n] -> Q (Blocked c) es w') ->
  (forall m es w', (forall n0 reqs past, seq_log lfd n0 reqs past n ->
      exists reqs', seq_log lfd n0 reqs' (past ++ es) m) -> Q (Ret m) es w') ->
  spec posix_io (seqnum_round lfd n) w Q.
Proof.
  intros HB HR. unfold seqnum_round.
  spec_step; spec_step; [by apply HB; left|].
  destruct (r_ret r =? -1) eqn:Ec; zbool.
  { spec_step. apply spec_errMsg; [apply HB; by left|]. intros es w1 _ Hd. spec_step. rewrite app_nil_r.
    apply HR. intros n0 reqs past Hlog. exists reqs.
    apply seq_skip; [done|by rewrite writes_app, (writes_diag es)|].
    apply no_leak_neutral. intros l. rewrite held_from_app, held_diag by done. cbn. by rewrite Ec, app_nil_r. }
  spec_step; spec_step; [by apply HB; left|].
  repeat lazymatch goal with |- spec _ (readLine _ _ _) _ _ => fail | _ => spec_step end.
  eapply spec_mono; [|apply spec_readLine; unfold INT_LEN; lia].
  intros [[ret buf]|h|c|] rd w3 [Hrd Hpost]; try done; [|apply HB; left; cbn; by apply (writes_reads (r_ret r))].
  cbn beta iota match. fold (seq_reply n).
  match goal with |- context [Called (Getnameinfo ?a ?b ?c ?d ?e) r0] =>
    set (hi := Called (Getnameinfo a b c d e) r0) end.
  match goal with |- context [Printed Stdout ?m] => set (pr := Printed Stdout m) end.
  assert (Hskip : forall d n0 reqs past, seq_log lfd n0 reqs past n -> exists reqs',
    seq_log lfd n0 reqs' (past ++ [Called (Accept lfd) r] ++ [hi] ++ [pr] ++ rd ++ [Called (Close (r_ret r)) d]) n).
  { intros d n0 reqs past Hlog. exists reqs. apply seq_skip; [done| |].
    - rewrite !writes_app, (writes_reads _ rd) by done. done.
    - change ([hi] ++ [pr] ++ rd ++ ?x) with (([hi; pr] ++ rd) ++ x). apply no_leak_session.
      + cbn. by apply Z.eqb_neq in Ec as ->.
      + done.
      + intros l. rewrite held_from_app, (held_reads _ _ rd) by done. cbn. by rewrite app_nil_r. }
  assert (Hw : forall fs, writes fs = [] -> writes ([Called (Accept lfd) r] ++ [hi] ++ [pr] ++ rd ++ fs) = []).
  { intros fs Hfs. by rewrite !writes_app, (writes_reads _ rd Hrd), Hfs. }
  destruct (ret <=? 0) eqn:Er; [spec_run; [apply HB; left; by apply Hw|apply HR; rewrite app_nil_r; by apply Hskip]|].
  destruct (atoi buf <=? 0) eqn:Ea; [spec_run; [apply HB; left; by apply Hw|apply HR; rewrite app_nil_r; by apply Hskip]|].
  zbool. destruct Hpost as (_ & [(-> & _)|[(_ & _ & Hbuf & _)|(-> & _)]]); [lia| |lia].
  rewrite Hbuf, <- atoi_cstr, cstr_app_nul, atoi_cstr in *.
  assert (Hgrant : forall k noise1 d noise2 n0 reqs past, Forall diag noise1 -> Forall diag noise2 ->
    seq_log lfd n0 reqs past n -> exists reqs', seq_log lfd n0 reqs'
      (past ++ [Called (Accept lfd) r] ++ [hi] ++ [pr] ++ rd
            ++ [Called (Write (r_ret r) (seq_reply n)) k] ++ noise1 ++ [Called (Close (r_ret r)) d] ++ noise2)
      (wrap_u32 (n + atoi (ztake (INT_LEN - 1) (delivered (r_ret r) rd))))).
  { intros k noise1 d noise2 n0 reqs past H1 H2 Hlog. eexists.
    pose proof (seq_grant lfd n0 reqs past n r [hi; pr] rd _ k noise1 d noise2 Hlog Ec
      ltac:(by repeat constructor) Hrd eq_refl Ea H1 H2) as Hg.
    rewrite <- !app_assoc in Hg. exact Hg. }
  assert (Hw1 : forall k fs, writes fs = [] -> writes ([Called (Accept lfd) r] ++ [hi] ++ [pr] ++ rd
    ++ [Called (Write (r_ret r) (seq_reply n)) k] ++ fs) = [seq_reply n]).
  { intros k fs Hfs. by rewrite !writes_app, (writes_reads _ rd Hrd), Hfs. }
  repeat first [ apply spec_errMsg; [|intros ?es ?w ?He ?Hd] | spec_step ]; cbn [pass].
  all: first [ apply HB; first [left; by apply Hw|right; by apply Hw1]
             | apply HR; intros n0 reqs past Hlog; rewrite ?app_nil_r;
               first [eapply (Hgrant _ [_] _ es)|eapply (Hgrant _ [_] _ [])
                     |eapply (Hgrant _ [] _ es)|eapply (Hgrant _ [] _ [])];
               first [eassumption|by repeat constructor] ].
Qed.

(** ** The start of the server *)

(** Nothing was written to a client, or everything written belongs to complete
    rounds of the machine and a last reply. *)
Definition seqnum_run (argv : list string) (es : list event) : Prop :=
  writes es = []
  \/ exists pre lfd n0 reqs body n tail,
       es = pre ++ body ++ tail /\ writes pre = []
       /\ (if argc_of argv >? 1 then num_value 0 (argv_opt argv 1) = Some n0 /\ in_int n0 else n0 = 0)
       /\ seq_log lfd n0 reqs body n /\ (writes tail = [] \/ writes tail = [seq_reply n]).

Lemma spec_seqnum_bind_loop law rps w (Q : outcome (option Z) -> list event -> world -> Prop) :
  (forall c es w', writes es = [] -> Q (Blocked c) es w') ->
  (forall h es w', died h -> writes es = [] -> Q (Halt h) es w') ->
  (forall x es w', writes es = [] -> Q (Ret x) es w') ->
  spec law (seqnum_bind_loop rps) w Q.
Proof.
  revert w Q. induction rps as [|rp rps IH]; intros w Q HB HD HR; cbn [seqnum_bind_loop]; [spec_run; by apply HR|].
  die_run HB HD; try apply IH; cbn [pass]; intros; first [apply HB|apply HD; [done|]|apply HR|idtac];
    rewrite ?writes_app, ?(writes_diag es) by assumption; done.
Qed.

Lemma spec_seqnum_loop lfd n0 w (Q : outcome Z -> list event -> world -> Prop) :
  (forall c reqs body n tail w', seq_log lfd n0 reqs body n ->
     writes tail = [] \/ writes tail = [seq_reply n] -> Q (Blocked c) (body ++ tail) w') ->
  spec posix_io (loop (fun seqNum => seqNum ← seqnum_round lfd seqNum; mret (inl seqNum)) (wrap_u32 n0)) w Q.
Proof.
  intros HB.
  apply spec_loop with (I := fun n es _ => exists reqs, seq_log lfd n0 reqs es n);
    [intros; apply _|intros; apply _|by exists []; constructor|].
  intros n es w1 [reqs Hlog]. spec_step. apply spec_seqnum_round; cbn [pass].
  - intros c fs w2 Hp. by eapply HB.
  - intros m fs w2 Hm. destruct (Hm n0 reqs es Hlog) as [reqs' Hlog'].
    spec_step. rewrite app_nil_r. by exists reqs'.
Qed.

