(* ===== verification/Echo.v ===== *)
(** * Echo: the echo services (60-socket-design/) and their stream clients, and
    the addresses of a connection (61-socket-advanced/is_echo_cl.c, socknames.c)

    In id_echo_sv.c and is_echo_sv.c the macro of lib/syslog_printf.h turns
    [syslog] into [printf]; is_echo_inetd.sv.c uses the real one. *)

From S2P Require Import Prelude Clib Sys Errors Frame GetNum RdWr Posix Sockets Status FileIO UnixProgs.

Definition ID_BUF_SIZE : Z := 500.      (* id_echo.h *)
Definition ECHO_SERVICE : string := "echo".
Definition IS_SERVICE : string := "12345".
Definition IS_BUF_SIZE : Z := 4096.
Definition INETD_BUF_SIZE : Z := 4096.
Definition NOFORK_BUF_SIZE : Z := 100.
Definition CL_BUF_SIZE : Z := 100.
Definition IS_ADDR_STR_LEN : Z := 4096. (* inet_sockets.h *)

(** [strerror(errno)] as an argument. *)
Definition strerror_errno : M string :=
  errno ← get_errno; t ← sys (Strerror errno); mret (cstr (r_buf t)).

(** ** id_echo_sv.c, id_echo_cl.c *)

Definition id_echo_round (sfd : Z) : M unit :=
  r ← sys (Recvfrom sfd ID_BUF_SIZE);
  let numRead := r_ret r in
  if numRead =? -1 then errExit "recvfrom" else
  n ← scall (Sendto sfd (ztake numRead (r_buf r)) (r_addr r) (r_addrlen r));
  when (negb (n =? numRead))
    (a ← inetAddressStr (r_addr r) (r_addrlen r) IS_ADDR_STR_LEN;
     e ← strerror_errno;
     printf ("Error echoing response to " +:+ cstr a +:+ " (" +:+ e +:+ ")")).

Definition id_echo_sv_main (argv : list string) : M Z :=
  '(sfd, _) ← inetBind ECHO_SERVICE SOCK_DGRAM false;
  if sfd =? -1 then
    e ← strerror_errno;
    _ ← printf ("Could not create server socket (" +:+ e +:+ ")");
    exit EXIT_FAILURE
  else forever (id_echo_round sfd).

Definition id_echo_request (sfd : Z) (arg : string) : M unit :=
  let len := strlen arg in
  n ← scall (Write sfd (cstr arg));
  if negb (n =? len) then fatal "partial/failed write" else
  r ← sys (Read sfd ID_BUF_SIZE);
  let numRead := r_ret r in
  if numRead =? -1 then errExit "read" else
  printf ("[" +:+ dec numRead +:+ " bytes] " +:+ fmt_prec numRead (r_buf r) +:+ nl).

Definition id_echo_cl_main (argv : list string) : M Z :=
  if (argc_of argv <? 2) || wants_help argv then
    usageErr (cstr (argv_at argv 0) +:+ " host msg..." +:+ nl) else
  sfd ← inetConnect (argv_opt argv 1) ECHO_SERVICE SOCK_DGRAM;
  if sfd =? -1 then fatal "Could not connect to server socket" else
  _ ← for_each (id_echo_request sfd) (drop 2 argv);
  exit EXIT_SUCCESS.

(** ** is_echo_sv.c: one child per connection *)

(** The handler of SIGCHLD; it runs between any two calls of the parent. *)
Definition grimReaper (sig : Z) : M unit :=
  savedErrno ← get_errno;
  _ ← loop (fun _ : unit =>
        p ← scall (Waitpid (-1) WNOHANG);
        mret (if p >? 0 then inl tt else inr tt)) tt;
  set_errno savedErrno.

Definition handleRequest (cfd : Z) : M unit :=
  numRead ← transfer cfd cfd IS_BUF_SIZE
    (e ← strerror_errno; _ ← printf ("write() failed: " +:+ e); exit EXIT_FAILURE);
  when (numRead =? -1)
    (e ← strerror_errno; _ ← printf ("Error from read(): " +:+ e); exit EXIT_FAILURE).

Definition is_echo_round (lfd : Z) : M unit :=
  cfd ← scall (Accept lfd);
  if cfd =? -1 then
    e ← strerror_errno; _ ← printf ("Failure in accept(): " +:+ e); exit EXIT_FAILURE
  else
  _ ← stop "accept success";
  pid ← scall Fork;
  if pid =? -1 then
    e ← strerror_errno;
    _ ← printf ("Can’t create child (" +:+ e +:+ ")");
    _ ← scall (Close cfd); mret tt
  else if pid =? 0 then
    _ ← scall (Close lfd);
    _ ← handleRequest cfd;
    quick_exit EXIT_SUCCESS
  else _ ← scall (Close cfd); mret tt.

(** [SIGCHLD_HANDLER] stands for the address of [grimReaper]. *)
Definition SIGCHLD_HANDLER : Z := 2.

Definition is_echo_sv_main (argv : list string) : M Z :=
  s ← scall (Sigaction SIGCHLD SIGCHLD_HANDLER SA_RESTART []);
  if s =? -1 then
    e ← strerror_errno; _ ← printf ("Error from sigaction(): " +:+ e); exit EXIT_FAILURE
  else
  '(lfd, _) ← inetListen IS_SERVICE 10 false;
  if lfd =? -1 then
    e ← strerror_errno; _ ← printf ("Could not create server socket (" +:+ e +:+ ")"); exit EXIT_FAILURE
  else
  o ← scall (Setsockopt lfd IPPROTO_TCP TCP_DEFER_ACCEPT (Some 20));
  if o =? -1 then errExit "setsockopt" else
  forever (is_echo_round lfd).

(** ** is_echo_inetd.sv.c: the connection is standard input and output *)

Definition is_echo_inetd_main (argv : list string) : M Z :=
  numRead ← transfer STDIN_FILENO STDOUT_FILENO INETD_BUF_SIZE
    (e ← strerror_errno; _ ← scall (Syslog LOG_ERR ("write() failed: " +:+ e)); exit EXIT_FAILURE);
  if numRead =? -1 then
    e ← strerror_errno; _ ← scall (Syslog LOG_ERR ("Error from read(): " +:+ e)); exit EXIT_FAILURE
  else exit EXIT_SUCCESS.

(** ** The stream clients *)

Definition is_echo_cl_nofork_main (argv : list string) : M Z :=
  if negb (argc_of argv =? 2) || wants_help argv then
    usageErr (cstr (argv_at argv 0) +:+ " host" +:+ nl) else
  sfd ← inetConnect (argv_opt argv 1) "echo" SOCK_STREAM;
  if sfd =? -1 then errExit "inetConnect" else
  _ ← loop (fun _ : unit =>
        r ← sys (Read STDIN_FILENO NOFORK_BUF_SIZE);
        let numRead := r_ret r in
        if numRead <=? 0 then mret (inr tt) else
        k ← scall (Write sfd (ztake numRead (r_buf r)));
        if negb (k =? numRead) then fatal "write() failed" else
        r ← sys (Read sfd NOFORK_BUF_SIZE);
        let numRead := r_ret r in
        if numRead <=? 0 then mret (inr tt) else
        _ ← printf (fmt_prec numRead (r_buf r));
        mret (inl tt)) tt;
  c ← scall (Close sfd);
  if c =? -1 then errExit "close" else
  exit EXIT_SUCCESS.

(** The child of [is_echo_cl]: what the server sends goes to stdout. *)
Definition echo_reader (sfd : Z) : M unit :=
  loop (fun _ : unit =>
    r ← sys (Read sfd CL_BUF_SIZE);
    let numRead := r_ret r in
    if numRead <=? 0 then mret (inr tt) else
    _ ← printf (fmt_prec numRead (r_buf r));
    mret (inl tt)) tt.

Definition is_echo_cl_main (argv : list string) : M Z :=
  if negb (argc_of argv =? 2) || wants_help argv then
    usageErr (cstr (argv_at argv 0) +:+ " host" +:+ nl) else
  sfd ← inetConnect (argv_opt argv 1) "echo" SOCK_STREAM;
  if sfd =? -1 then errExit "inetConnect" else
  pid ← scall Fork;
  if pid =? -1 then errExit "fork"
  else if pid =? 0 then _ ← echo_reader sfd; exit EXIT_SUCCESS
  else
    _ ← transfer STDIN_FILENO sfd CL_BUF_SIZE (fatal "write() failed");
    s ← scall (Shutdown sfd SHUT_WR);
    if s =? -1 then errExit "shutdown" else
    exit EXIT_SUCCESS.

(** ** socknames.c *)

(** Ask for one address into a buffer of [len] bytes and print it. *)
Definition show_name (errmsg label : string) (query : call) : M Z :=
  r ← sys query;
  if r_ret r =? -1 then errExit errmsg else
  a ← inetAddressStr (r_addr r) (r_addrlen r) IS_ADDR_STR_LEN;
  _ ← printf (label +:+ "   " +:+ cstr a +:+ nl);
  mret (r_addrlen r).

(** [len0]: the uninitialised [len], used when [inetListen] stores no length. *)
Definition socknames_main (len0 : Z) (argv : list string) : M Z :=
  if negb (argc_of argv =? 2) || wants_help argv then
    usageErr (cstr (argv_at argv 0) +:+ " service" +:+ nl) else
  '(listenFd, l) ← inetListen (argv_at argv 1) 5 true;
  let len := default len0 l in
  if listenFd =? -1 then errExit "inetListen" else
  connFd ← inetConnect None (argv_at argv 1) SOCK_STREAM;
  if connFd =? -1 then errExit "inetConnect" else
  acceptFd ← scall (Accept listenFd);
  if acceptFd =? -1 then errExit "accept" else
  addr ← scall (Malloc len);
  if addr =? 0 then errExit "malloc" else
  len ← show_name "getsockname" "getsockname(connFd)" (Getsockname connFd len);
  len ← show_name "getsockname" "getsockname(acceptFd)" (Getsockname acceptFd len);
  len ← show_name "getpeername" "getpeername(connFd)" (Getpeername connFd len);
  len ← show_name "getpeername" "getpeername(acceptFd)" (Getpeername acceptFd len);
  _ ← stop "confirm 'ss'";
  exit EXIT_SUCCESS.

#[export] Instance strerror_errno_sane : Sane strerror_errno.
Proof. unfold strerror_errno. apply _. Qed.
#[export] Instance strerror_errno_calm : Calm strerror_errno.
Proof. unfold strerror_errno. apply _. Qed.
#[export] Instance id_echo_round_sane s : Sane (id_echo_round s).
Proof. unfold id_echo_round. apply _. Qed.
#[export] Instance id_echo_round_uses s : Uses (id_echo_round s).
Proof. unfold id_echo_round. apply _. Qed.
#[export] Instance id_echo_sv_main_sane a : Sane (id_echo_sv_main a).
Proof. unfold id_echo_sv_main. apply _. Qed.
#[export] Instance id_echo_request_sane s a : Sane (id_echo_request s a).
Proof. unfold id_echo_request. apply _. Qed.
#[export] Instance id_echo_cl_main_sane a : Sane (id_echo_cl_main a).
Proof. unfold id_echo_cl_main. apply _. Qed.
#[export] Instance reap_progress : Progress (p ← scall (Waitpid (-1) WNOHANG);
  mret (if p >? 0 then inl tt else inr (A:=unit) tt)).
Proof. apply _. Qed.
#[export] Instance grimReaper_sane s : Sane (grimReaper s).
Proof. unfold grimReaper. apply _. Qed.
#[export] Instance handleRequest_sane c : Sane (handleRequest c).
Proof. unfold handleRequest. apply _. Qed.
#[export] Instance is_echo_round_sane l : Sane (is_echo_round l).
Proof. unfold is_echo_round. apply _. Qed.
#[export] Instance is_echo_round_uses l : Uses (is_echo_round l).
Proof. unfold is_echo_round. apply _. Qed.
#[export] Instance is_echo_sv_main_sane a : Sane (is_echo_sv_main a).
Proof. unfold is_echo_sv_main. apply _. Qed.
#[export] Instance is_echo_inetd_main_sane a : Sane (is_echo_inetd_main a).
Proof. unfold is_echo_inetd_main. apply _. Qed.
#[export] Instance is_echo_cl_nofork_main_sane a : Sane (is_echo_cl_nofork_main a).
Proof. unfold is_echo_cl_nofork_main. apply _. Qed.
#[export] Instance echo_reader_sane s : Sane (echo_reader s).
Proof. unfold echo_reader. apply _. Qed.
#[export] Instance is_echo_cl_main_sane a : Sane (is_echo_cl_main a).
Proof. unfold is_echo_cl_main. apply _. Qed.
#[export] Instance show_name_sane e l q : Sane (show_name e l q).
Proof. unfold show_name. apply _. Qed.
#[export] Instance socknames_main_sane l a : Sane (socknames_main l a).
Proof. unfold socknames_main. apply _. Qed.

(** ** The forking echo server *)

(** A process that ends with a diagnostic of its own and status 1. *)
Lemma spec_complain {A} law msg (rest : string) w (Q : outcome A -> list event -> world -> Prop) :
  (forall c es w', Q (Blocked c) es w') ->
  (forall es w', Q (Halt (Exit EXIT_FAILURE)) es w') ->
  spec law (e ← strerror_errno; _ ← printf (msg +:+ e +:+ rest); exit EXIT_FAILURE) w Q.
Proof. intros HB HD. unfold strerror_errno. spec_run; [apply HB|apply HD]. Qed.

Lemma spec_handleRequest cfd w (Q : outcome unit -> list event -> world -> Prop) :
  (forall c es w', Q (Blocked c) es w') ->
  (forall h es w', died h -> Q (Halt h) es w') ->
  (forall es w', sent_all cfd cfd es -> at_eof cfd es -> Q (Ret tt) es w') ->
  spec posix_io (handleRequest cfd) w Q.
Proof.
  intros HB HD HR. unfold handleRequest. spec_step. apply spec_transfer; [apply _|..]; cbn [pass].
  - intros. apply HB.
  - intros es w1 _. unfold strerror_errno. spec_run; [apply HB|by apply HD].
  - intros es w' Hs He. spec_run. rewrite app_nil_r. by apply HR.
  - intros es w' _. unfold strerror_errno. spec_run; [apply HB|by apply HD].
Qed.

Lemma writes_setup es : Forall socket_setup es -> writes es = [].
Proof. intros H. by induction H as [|[[]| |] es He _ IH]; simpl in *. Qed.

(** A child's run: accepted, forked, echoed to the end of its input. *)
Definition echo_child (lfd : Z) (es : list event) : Prop :=
  exists a st f k mid,
    es = [Called (Accept lfd) a] ++ st ++ [Called Fork f; Called (Close lfd) k] ++ mid
    /\ r_ret f = 0 /\ sent_all (r_ret a) (r_ret a) mid /\ at_eof (r_ret a) mid.

Lemma spec_is_echo_round lfd w (Q : outcome unit -> list event -> world -> Prop) :
  (forall c es w', Q (Blocked c) es w') ->
  (forall h es w', died h -> Q (Halt h) es w') ->
  (forall es w', echo_child lfd es -> Q (Halt (QuickExit EXIT_SUCCESS)) es w') ->
  (forall es w', no_leak lfd es -> writes es = [] -> Q (Ret tt) es w') ->
  spec posix_io (is_echo_round lfd) w Q.
Proof.
  intros HB HD HC HR. unfold is_echo_round, strerror_errno, stop.
  die_run HB HD; try (by apply HD).
  - apply HR; [|done]. apply (no_leak_session lfd (Accept lfd) r
      [Called Getpid r0; Printed Stdout _; Called Getchar r1; Called Fork r2; Called (Strerror _) r3; Printed Stdout _]);
      cbn; [by rewrite Heqb|done|intros l; by rewrite !app_nil_r].
  - apply spec_handleRequest; cbn [pass]; [by intros; apply HB|by intros; apply HD|].
    intros es w' Hs Heof. spec_run. apply HC. zbool. rewrite app_nil_r.
    exists r, [Called Getpid r0; Printed Stdout ("# [PID:" +:+ dec (r_ret r0) +:+ "] " +:+ cstr "accept success" +:+ nl);
               Called Getchar r1], r2, r3, es. split_and!; try done. by rewrite ?app_nil_r.
  - apply HR; [|done]. apply (no_leak_session lfd (Accept lfd) r
      [Called Getpid r0; Printed Stdout _; Called Getchar r1; Called Fork r2]);
      cbn; [by rewrite Heqb|done|intros l; by rewrite !app_nil_r].
Qed.

(** C39.  The concurrent echo server: the listening process never returns, stops
    only with status 1, reads and writes no connection itself, and after each
    round keeps no connected socket open; each child ends with status 0 only
    when it has sent back exactly the bytes of its connection, in order, up to
    the end of the client's input. *)
Theorem echo_server_correct argv w :
  spec posix_io (is_echo_sv_main argv) w (fun o es _ =>
    match o with
    | Blocked _ => True
    | Halt (QuickExit 0) => exists lfd setup rounds child,
        es = setup ++ rounds ++ child /\ writes (setup ++ rounds) = [] /\ no_leak lfd rounds /\ echo_child lfd child
    | Halt h => died h
    | _ => False
    end)
  /\ forall lfd, spec posix_io (is_echo_round lfd) w (fun o es _ =>
       match o with
       | Ret _ => no_leak lfd es /\ writes es = []
       | Halt (QuickExit 0) => echo_child lfd es
       | Halt h => died h
       | Blocked _ => True
       | Diverged => False
       end).
Proof.
  split.
  2: { intros lfd. apply spec_is_echo_round; try done. by intros [[]| | |] es w' Hh; simpl in *; try done; subst. }
  match goal with |- spec _ _ _ ?P => set (Q := P) end.
  assert (HB : forall c es w', Q (Blocked c) es w') by done.
  assert (HD : forall h es w', died h -> Q (Halt h) es w')
    by (intros [[]| | |] es w' Hh; simpl in *; try done; subst; done).
  unfold is_echo_sv_main, strerror_errno. die_run HB HD; try (by apply HD).
  apply spec_frame with (P := socket_setup); cbn [pass]; [apply _|apply _|intros; apply HB|].
  intros [lfd l] es1 wl Hset. die_run HB HD; try (by apply HD).
  match goal with |- spec _ _ _ (fun o es w => Q o (?a ++ es1 ++ ?b ++ es) w) => set (pre := a ++ es1 ++ b) end.
  assert (Hpre : writes pre = []) by (unfold pre; by rewrite !writes_app, (writes_setup es1)).
  unfold forever.
  apply spec_loop with (I := fun _ es _ => no_leak lfd es /\ writes es = []);
    [intros; apply _|intros; apply _|split; [by intros l0 Hl0|done]|].
  intros [] es w2 [Hes Hwr]. spec_step. apply spec_is_echo_round; cbn [pass].
  - intros. apply HB.
  - intros. by apply HD.
  - intros fs w3 Hc. exists lfd, pre, es, fs. split; [unfold pre; by rewrite <- !app_assoc|].
    split_and!; try done. by rewrite writes_app, Hpre, Hwr.
  - intros fs w3 Hl Hw. spec_step. rewrite app_nil_r. split; [by apply no_leak_app|].
    by rewrite writes_app, Hwr, Hw.
Qed.
