(* ===== verification/Scm.v ===== *)
(** * Scm: descriptors and credentials over UNIX domain sockets
    (61-socket-advanced/scm_rights_*.c, scm_cred_*.c)

    [sendmsg]/[recvmsg] carry the data bytes and the ancillary items; a control
    buffer with one item is the list of that item, [CMSG_FIRSTHDR] its head. *)

From S2P Require Import Prelude Clib Sys Errors Frame GetNum RdWr Getopt Posix Sockets Status UnixProgs.

Definition RIGHTS_SOCK_PATH : string := "scm_rights".
Definition CRED_SOCK_PATH : string := "scm_cred".
Definition RIGHTS_BUF_SIZE : Z := 100.

(** [CMSG_ALIGN], [CMSG_LEN] and [CMSG_SPACE] of <sys/socket.h>. *)
Definition CMSG_ALIGN (n : Z) : Z := Z.land (n + 7) (Z.lnot 7).
Definition CMSGHDR_SIZE : Z := 16.
Definition CMSG_LEN (n : Z) : Z := CMSG_ALIGN CMSGHDR_SIZE + n.
Definition CMSG_SPACE (n : Z) : Z := CMSG_ALIGN CMSGHDR_SIZE + CMSG_ALIGN n.
Definition SCM_RIGHTS : Z := 1.
Definition SCM_CREDENTIALS : Z := 2.
Definition SO_PEERCRED : Z := 17.
Definition UCRED_SIZE : Z := 12.
Definition SIZEOF_INT : Z := 4.

Definition rights_item (fd : Z) : cmsg := Cmsg SOL_SOCKET SCM_RIGHTS (CMSG_LEN SIZEOF_INT) [fd].
Definition creds_item (pid uid gid : Z) : cmsg :=
  Cmsg SOL_SOCKET SCM_CREDENTIALS (CMSG_LEN UCRED_SIZE) [pid; uid; gid].

(** The options of the receivers and of scm_rights_send: [-d] only. *)
Definition dgram_option (usage : string) (d : bool) (opt : ascii) (arg : option string) : M bool :=
  if ceqb opt "d" then mret true else usageErr usage.

(** Bytes received into the four bytes of an [int] that held [junk]. *)
Definition recv_int (junk : string) (r : resp) : Z :=
  int_of_bytes (ztake SIZEOF_INT (ztake (r_ret r) (r_buf r) +:+ zdrop (r_ret r) junk)).

(** ** scm_rights_send.c *)

Definition scm_rights_send_main (argv : list string) : M Z :=
  let prog := cstr (argv_at argv 0) in
  '(useDatagramSocket, operands) ←
    getopt_loop argv "d"
      (dgram_option (prog +:+ " [-d] file" +:+ nl +:+ "        -d    use datagram socket" +:+ nl)) false;
  if negb (Z.of_nat (length operands) =? 1) then usageErr (prog +:+ " [-d] file" +:+ nl) else
  fd ← scall (Open (nth 0 operands "") O_RDONLY 0);
  if fd =? -1 then errExit "open" else
  o ← scall (Lseek fd 10 SEEK_CUR);
  if o =? -1 then errExit "lseek" else
  let data := 12345 in
  _ ← printf ("sending data = " +:+ dec data +:+ nl);
  sfd ← unixConnect (Some RIGHTS_SOCK_PATH) (if useDatagramSocket : bool then SOCK_DGRAM else SOCK_STREAM);
  if sfd =? -1 then errExit "unixConnect" else
  _ ← printf ("Sending FD " +:+ dec fd +:+ nl);
  ns ← scall (Sendmsg sfd SaNull (int_bytes data) [rights_item fd]);
  if ns =? -1 then errExit "sendmsg" else
  _ ← printf ("sendmsg() returned " +:+ dec ns +:+ nl);
  _ ← stop "check 'lsof'";
  c ← scall (Close fd);
  if c =? -1 then errExit "close" else
  exit EXIT_SUCCESS.

(** ** scm_rights_recv.c *)

(** The socket the message arrives on.  In the stream case the program tests
    [sfd], still uninitialised ([sfd0]), where it means [lfd]. *)
Definition rights_recv_socket (useDatagramSocket : bool) (sfd0 : Z) : M Z :=
  if useDatagramSocket then
    sfd ← unixBind (Some RIGHTS_SOCK_PATH) SOCK_DGRAM;
    if sfd =? -1 then errExit "unixBind" else mret sfd
  else
    lfd ← unixBind (Some RIGHTS_SOCK_PATH) SOCK_STREAM;
    if sfd0 =? -1 then errExit "unixBind" else
    l ← scall (Listen lfd 5);
    if l =? -1 then errExit "listen" else
    sfd ← scall (Accept lfd);
    if sfd =? -1 then errExit "accept" else mret sfd.

(** The checks on the first ancillary item. *)
Definition check_item (len type : Z) (typename : string) (items : list cmsg) : M cmsg :=
  match items with
  | [] => fatal "bad cmsg header / message length"
  | c :: _ =>
      if negb (cmsg_len c =? len) then fatal "bad cmsg header / message length" else
      if negb (cmsg_level c =? SOL_SOCKET) then fatal "cmsg_level != SOL_SOCKET" else
      if negb (cmsg_type c =? type) then fatal ("cmsg_type != " +:+ typename) else
      mret c
  end.

(** Copy the file behind the received descriptor to standard output; the result
    of [write] is not looked at. *)
Definition rights_copy (fd : Z) : M unit :=
  loop (fun _ : unit =>
    r ← sys (Read fd RIGHTS_BUF_SIZE);
    let numRead := r_ret r in
    if numRead =? -1 then errExit "read" else
    if numRead =? 0 then mret (inr tt) else
    _ ← scall (Write STDOUT_FILENO (ztake numRead (r_buf r)));
    mret (inl tt)) tt.

(** [junk]: the uninitialised [data]. *)
Definition scm_rights_recv_main (sfd0 : Z) (junk : string) (argv : list string) : M Z :=
  '(useDatagramSocket, _) ←
    getopt_loop argv "d"
      (dgram_option (cstr (argv_at argv 0) +:+ " [-d]" +:+ nl +:+ "        -d    use datagram socket" +:+ nl)) false;
  _ ← remove_old RIGHTS_SOCK_PATH;
  sfd ← rights_recv_socket useDatagramSocket sfd0;
  r ← sys (Recvmsg sfd SIZEOF_INT (CMSG_SPACE SIZEOF_INT));
  let nr := r_ret r in
  if nr =? -1 then errExit "recvmsg" else
  _ ← printf ("recvmsg() returned " +:+ dec nr +:+ nl);
  _ ← when (nr >? 0) (printf ("Received data = " +:+ dec (recv_int junk r) +:+ nl));
  c ← check_item (CMSG_LEN SIZEOF_INT) SCM_RIGHTS "SCM_RIGHTS" (r_cmsgs r);
  let fd := nth 0 (cmsg_vals c) 0 in
  _ ← printf ("Received FD " +:+ dec fd +:+ nl);
  _ ← stop "check 'lsof'";
  _ ← rights_copy fd;
  exit EXIT_SUCCESS.

(** ** scm_cred_send.c *)

(** [-d] and [-n]. *)
Definition cred_send_option (usage : string) (s : bool * bool) (opt : ascii) (arg : option string)
    : M (bool * bool) :=
  let '(useDatagramSocket, noExplicitCreds) := s in
  if ceqb opt "d" then mret (true, noExplicitCreds) else
  if ceqb opt "n" then mret (useDatagramSocket, true) else usageErr usage.

(** The value of a credential: the operand, unless it is missing or a dash. *)
Definition cred_choice (operands : list string) (k : nat) (own : Z) : Z :=
  match nth_error operands k with
  | Some a => if strcmp_eq a "-" then own else atoi a
  | None => own
  end.

Definition cred_value (operands : list string) (k : nat) (own : call) : M Z :=
  v ← scall own; mret (cred_choice operands k v).

Definition cred_items (noExplicitCreds : bool) (operands : list string) : M (list cmsg) :=
  if noExplicitCreds then
    _ ← printf ("Not explicitly sending a credentials structure" +:+ nl); mret []
  else
    pid ← cred_value operands 1 Getpid;
    uid ← cred_value operands 2 (Lib "getuid" [] []);
    gid ← cred_value operands 3 (Lib "getgid" [] []);
    _ ← printf ("Send credentials pid=" +:+ dec pid +:+ ", uid=" +:+ dec (wrap_u32 uid)
                +:+ ", gid=" +:+ dec (wrap_u32 gid) +:+ nl);
    mret [creds_item pid (wrap_u32 uid) (wrap_u32 gid)].

Definition scm_cred_send_main (argv : list string) : M Z :=
  '(useDatagramSocket, noExplicitCreds, operands) ←
    getopt_loop argv "dn"
      (cred_send_option (cstr (argv_at argv 0) +:+ " [-d] [-n] [data [PID [UID [GID]]]]" +:+ nl
         +:+ "        -d    use datagram socket" +:+ nl
         +:+ "        -n    don't construct explicit credentials structure" +:+ nl)) (false, false);
  let data := match operands with a :: _ => atoi a | [] => 12345 end in
  _ ← fputs Stderr ("Sending data = " +:+ dec data +:+ nl);
  items ← cred_items noExplicitCreds operands;
  sfd ← unixConnect (Some CRED_SOCK_PATH) (if useDatagramSocket : bool then SOCK_DGRAM else SOCK_STREAM);
  if sfd =? -1 then errExit "unixConnect" else
  ns ← scall (Sendmsg sfd SaNull (int_bytes data) items);
  if ns =? -1 then errExit "sendmsg" else
  _ ← printf ("sendmsg() returned " +:+ dec ns +:+ nl);
  exit EXIT_SUCCESS.

(** ** scm_cred_recv.c *)

Definition cred_recv_socket (useDatagramSocket : bool) : M Z :=
  if useDatagramSocket then
    sfd ← unixBind (Some CRED_SOCK_PATH) SOCK_DGRAM;
    if sfd =? -1 then errExit "unixBind" else mret sfd
  else
    lfd ← unixBind (Some CRED_SOCK_PATH) SOCK_STREAM;
    if lfd =? -1 then errExit "unixBind" else
    l ← scall (Listen lfd 5);
    if l =? -1 then errExit "listen" else
    sfd ← scall (Accept lfd);
    if sfd =? -1 then errExit "accept" else mret sfd.

Definition show_creds (label u g : string) (v : list Z) : string :=
  label +:+ " pid=" +:+ dec (nth 0 v 0) +:+ ", " +:+ u +:+ "=" +:+ dec (nth 1 v 0)
  +:+ ", " +:+ g +:+ "=" +:+ dec (nth 2 v 0) +:+ nl.

Definition scm_cred_recv_main (junk : string) (argv : list string) : M Z :=
  '(useDatagramSocket, _) ←
    getopt_loop argv "d"
      (dgram_option (cstr (argv_at argv 0) +:+ " [-d]" +:+ nl +:+ "        -d    use datagram socket" +:+ nl)) false;
  _ ← remove_old CRED_SOCK_PATH;
  sfd ← cred_recv_socket useDatagramSocket;
  o ← scall (Setsockopt sfd SOL_SOCKET SO_PASSCRED (Some 1));
  if o =? -1 then errExit "setsockopt" else
  r ← sys (Recvmsg sfd SIZEOF_INT (CMSG_SPACE UCRED_SIZE));
  let nr := r_ret r in
  if nr =? -1 then errExit "recvmsg" else
  _ ← printf ("recvmsg() returned " +:+ dec nr +:+ nl);
  _ ← when (nr >? 0) (printf ("Received data = " +:+ dec (recv_int junk r) +:+ nl));
  c ← check_item (CMSG_LEN UCRED_SIZE) SCM_CREDENTIALS "SCM_CREDENTIALS" (r_cmsgs r);
  _ ← printf (show_creds "Received credentials" "uid" "gid" (cmsg_vals c));
  p ← sys (Getsockopt sfd SOL_SOCKET SO_PEERCRED);
  if r_ret p =? -1 then errExit "getsockopt" else
  _ ← printf (show_creds "Credentials from SO_PEERCRED:" "euid" "egid" (r_vals p));
  exit EXIT_SUCCESS.

#[export] Instance dgram_option_sane u d o a : Sane (dgram_option u d o a).
Proof. unfold dgram_option. apply _. Qed.
#[export] Instance scm_rights_send_main_sane a : Sane (scm_rights_send_main a).
Proof. unfold scm_rights_send_main. apply _. Qed.
#[export] Instance rights_recv_socket_sane d s : Sane (rights_recv_socket d s).
Proof. unfold rights_recv_socket. apply _. Qed.
#[export] Instance check_item_sane l t n i : Sane (check_item l t n i).
Proof. unfold check_item. apply _. Qed.
#[export] Instance rights_copy_sane f : Sane (rights_copy f).
Proof. unfold rights_copy. apply _. Qed.
#[export] Instance scm_rights_recv_main_sane s j a : Sane (scm_rights_recv_main s j a).
Proof. unfold scm_rights_recv_main. apply _. Qed.
#[export] Instance cred_send_option_sane u s o a : Sane (cred_send_option u s o a).
Proof. unfold cred_send_option. destruct s. apply _. Qed.
#[export] Instance cred_value_sane o k c : Sane (cred_value o k c).
Proof. unfold cred_value. apply _. Qed.
#[export] Instance cred_items_sane b o : Sane (cred_items b o).
Proof. unfold cred_items. apply _. Qed.
#[export] Instance scm_cred_send_main_sane a : Sane (scm_cred_send_main a).
Proof. unfold scm_cred_send_main. apply _. Qed.
#[export] Instance cred_recv_socket_sane d : Sane (cred_recv_socket d).
Proof. unfold cred_recv_socket. apply _. Qed.
#[export] Instance scm_cred_recv_main_sane j a : Sane (scm_cred_recv_main j a).
Proof. unfold scm_cred_recv_main. apply _. Qed.

(** ** What a message carries *)

Lemma recv_int_of_int junk d r : in_int d -> r_ret r = 4 -> r_buf r = int_bytes d -> recv_int junk r = d.
Proof.
  intros Hd Hn Hb. unfold recv_int. rewrite Hn, Hb, (ztake_all 4 (int_bytes d)) by (rewrite slen_int_bytes; lia).
  change SIZEOF_INT with (slen (int_bytes 0)).
  rewrite slen_int_bytes, <- (slen_int_bytes d), ztake_app. by apply int_of_bytes_bytes.
Qed.

(** The first item is of the expected kind. *)
Definition item_ok (len type : Z) (items : list cmsg) (c : cmsg) : Prop :=
  exists rest, items = c :: rest /\ cmsg_len c = len /\ cmsg_level c = SOL_SOCKET /\ cmsg_type c = type.

Lemma spec_check_item law len type n items w (Q : outcome cmsg -> list event -> world -> Prop) :
  (forall c es w', Forall diag es -> Q (Blocked c) es w') ->
  (forall h es w', died h -> Forall diag es -> Q (Halt h) es w') ->
  (forall c, item_ok len type items c -> Q (Ret c) [] w) ->
  spec law (check_item len type n items) w Q.
Proof.
  intros HB HD HR. unfold check_item. die_run HB HD; try done.
  zbool. apply HR. eexists. by split_and!.
Qed.

Lemma check_item_ok len type n c rest w :
  cmsg_len c = len -> cmsg_level c = SOL_SOCKET -> cmsg_type c = type ->
  check_item len type n (c :: rest) w = (Ret c, w).
Proof. intros <- Hl <-. unfold check_item. by rewrite !Z.eqb_refl, Hl. Qed.

(** The messages a trace sent, and what was handed to [write], joined. *)
Fixpoint messages (es : list event) : list (string * list cmsg) :=
  match es with
  | [] => []
  | Called (Sendmsg _ _ d items) _ :: es => (d, items) :: messages es
  | _ :: es => messages es
  end.
Lemma messages_app es fs : messages (es ++ fs) = messages es ++ messages fs.
Proof. induction es as [|[[]| |] es IH]; simpl; try done. by f_equal. Qed.
Lemma messages_diag es : Forall diag es -> messages es = [].
Proof. intros H. by induction H as [|[[]| |] es He _ IH]; simpl in *. Qed.
Lemma messages_setup es : Forall socket_setup es -> messages es = [].
Proof. intros H. by induction H as [|[[]| |] es He _ IH]; simpl in *. Qed.

Definition written (es : list event) : string := fold_right String.append EmptyString (writes es).
Lemma written_app es fs : written (es ++ fs) = written es +:+ written fs.
Proof.
  unfold written. rewrite writes_app. induction (writes es) as [|d l IH]; simpl; [done|].
  by rewrite IH, sapp_assoc.
Qed.

Lemma spec_rights_copy fd w (Q : outcome unit -> list event -> world -> Prop) :
  (forall c es w', Q (Blocked c) es w') ->
  (forall h es w', died h -> Q (Halt h) es w') ->
  (forall es w', written es = delivered fd es -> at_eof fd es -> Q (Ret tt) es w') ->
  spec posix_io (rights_copy fd) w Q.
Proof.
  intros HB HD HR. unfold rights_copy.
  apply spec_loop with (I := fun _ es _ => written es = delivered fd es);
    [intros; apply _|intros; apply _|done|].
  intros [] es w1 Hes. die_run HB HD; zbool.
  - apply HR; [|by exists es, RIGHTS_BUF_SIZE, r].
    rewrite app_nil_r, written_app, delivered_app, Hes, delivered_read, ztake_neg by lia. done.
  - rewrite written_app, delivered_app, Hes. f_equal. unfold written. simpl. by rewrite Z.eqb_refl.
Qed.

(** Making the sockets either gives one or ends the process. *)
Section SocketSpecs.
Context (law : call -> resp -> Prop).

Lemma spec_remove_old path w (Q : outcome unit -> list event -> world -> Prop) :
(forall c es w', Q (Blocked c) es w') ->
(forall h es w', died h -> Q (Halt h) es w') ->
(forall es w', Q (Ret tt) es w') -> spec law (remove_old path) w Q.
Proof. intros HB HD HR. unfold remove_old. die_run HB HD; apply HR. Qed.

Lemma spec_rights_recv_socket d sfd0 w (Q : outcome Z -> list event -> world -> Prop) :
(forall c es w', Q (Blocked c) es w') ->
(forall h es w', died h -> Q (Halt h) es w') ->
(forall sfd es w', Q (Ret sfd) es w') -> spec law (rights_recv_socket d sfd0) w Q.
Proof.
intros HB HD HR. unfold rights_recv_socket.
destruct d; spec_step; (apply spec_frame with (P := socket_setup); cbn [pass];
[apply _|apply _|by intros; apply HB|intros sfd es w1 _; die_run HB HD; apply HR]).
Qed.

Lemma spec_cred_recv_socket d w (Q : outcome Z -> list event -> world -> Prop) :
(forall c es w', Q (Blocked c) es w') ->
(forall h es w', died h -> Q (Halt h) es w') ->
(forall sfd es w', Q (Ret sfd) es w') -> spec law (cred_recv_socket d) w Q.
Proof.
intros HB HD HR. unfold cred_recv_socket.
destruct d; spec_step; (apply spec_frame with (P := socket_setup); cbn [pass];
[apply _|apply _|by intros; apply HB|intros sfd es w1 _; die_run HB HD; apply HR]).
Qed.
End SocketSpecs.

(** Exactly one message was sent, with this descriptor, which was closed afterwards. *)
Definition rights_sent (argv : list string) (es : list event) : Prop :=
  exists f ro pre mid tail rc,
    snd (getopt_of argv "d") = [f] /\ r_ret ro <> -1
    /\ es = pre ++ [Called (Open f O_RDONLY 0) ro] ++ mid ++ tail ++ [Called (Close (r_ret ro)) rc]
    /\ messages es = [(int_bytes 12345, [rights_item (r_ret ro)])]
    /\ messages tail = [] /\ r_ret rc <> -1.

(** The message received was a valid one and the file behind its descriptor was
    copied to standard output up to its end. *)
Definition rights_received (es : list event) : Prop :=
  exists pre s n l rm c mid,
    es = pre ++ mid /\ In (Called (Recvmsg s n l) rm) pre
    /\ item_ok (CMSG_LEN SIZEOF_INT) SCM_RIGHTS (r_cmsgs rm) c
    /\ written mid = delivered (nth 0 (cmsg_vals c) 0) mid
    /\ at_eof (nth 0 (cmsg_vals c) 0) mid.

Lemma dgram_option_dies u d c a law w (R : outcome bool -> list event -> world -> Prop) :
  R (Ret true) [] w ->
  (forall c es w', Forall diag es -> R (Blocked c) es w') ->
  (forall h es w', died h -> Forall diag es -> R (Halt h) es w') ->
  spec law (dgram_option u d c a) w R.
Proof. intros HR HB HD. unfold dgram_option. by die_run HB HD. Qed.

Lemma rights_send_spec argv w :
  spec posix_io (scm_rights_send_main argv) w (fun o es _ =>
    match o with
    | Halt (Exit 0) => rights_sent argv es
    | Halt h => died h | Blocked _ => True | _ => False end).
Proof.
  match goal with |- spec _ _ _ ?P => set (Q := P) end.
  assert (HB : forall c es w', Q (Blocked c) es w') by done.
  assert (HD : forall h es w', died h -> Q (Halt h) es w')
    by (intros [[]| | |] es w' Hh; simpl in *; try done; subst; done).
  unfold scm_rights_send_main. spec_step.
  apply (spec_getopt_loop _ _ _ _ (fun _ _ _ => true)); [intros; apply _|intros; by apply dgram_option_dies|..]; cbn [pass].
  1-2: intros; first [apply HB|by apply HD].
  intros es0 w0 Hd0. cbn beta iota. unfold stop.
  destruct (getopt_of argv "d") as [opts ops] eqn:Hops. cbn [fst snd].
  spec_step; [by die_run HB HD|]. zbool. destruct ops as [|f [|? ?]]; try (cbn [length] in *; lia).
  cbn [nth]. die_run HB HD.
  apply spec_frame with (P := socket_setup); cbn [pass]; [apply _|apply _|done|].
  intros sfd es1 w4 Hs. die_run HB HD. zbool.
  match goal with |- Q _ (es0 ++ ?o ++ ?l ++ ?p ++ es1 ++ ?q ++ ?m ++ ?t ++ (?u ++ ?v ++ ?x ++ []) ++ _) _ =>
    exists f, r, es0, (l ++ p ++ es1 ++ q ++ m), (t ++ u ++ v ++ x), r4 end.
  rewrite Hops. split_and!; try done.
  - by rewrite app_nil_r, <- !app_assoc.
  - rewrite !messages_app, (messages_diag es0), (messages_setup es1) by done. done.
Qed.

Lemma rights_recv_spec sfd0 junk argv w :
  spec posix_io (scm_rights_recv_main sfd0 junk argv) w (fun o es _ =>
    match o with
    | Halt (Exit 0) => rights_received es
    | Halt h => died h | Blocked _ => True | _ => False end).
Proof.
  match goal with |- spec _ _ _ ?P => set (Q := P) end.
  assert (HB : forall c es w', Q (Blocked c) es w') by done.
  assert (HD : forall h es w', died h -> Q (Halt h) es w')
    by (intros [[]| | |] es w' Hh; simpl in *; try done; subst; done).
  unfold scm_rights_recv_main. spec_step.
  apply (spec_getopt_loop _ _ _ _ (fun _ _ _ => true)); [intros; apply _|intros; by apply dgram_option_dies|..]; cbn [pass].
  1-2: intros; first [apply HB|by apply HD].
  intros es0 w0 Hd0. cbn beta iota. unfold stop.
  spec_step. apply spec_remove_old; cbn [pass]; intros; [apply HB|by apply HD|].
  spec_step. apply spec_rights_recv_socket; cbn [pass]; intros; [apply HB|by apply HD|].
  die_run HB HD.
  all: apply spec_check_item; cbn [pass]; [by intros; apply HB|by intros; apply HD|]; intros c Hc.
  all: die_run HB HD; apply spec_rights_copy; cbn [pass]; [by intros; apply HB|by intros; apply HD|].
  all: intros mid wm Hm Heof; spec_run; rewrite !app_nil_r, !app_assoc.
  all: eexists _, sfd, _, _, r, c, mid; split_and!; [reflexivity| |done|done|done].
  all: rewrite !in_app_iff; simpl; tauto.
Qed.


(** The stream receiver looks at the wrong variable: with -1 left in it, it
    gives up although its socket was bound. *)
Lemma rights_recv_wrong_variable law w :
  spec law (rights_recv_socket false (-1)) w (fun o es _ =>
    match o with Ret _ | Diverged => False | _ => ~ exists lfd r, In (Called (Listen lfd 5) r) es end).
Proof.
  unfold rights_recv_socket. spec_step.
  apply spec_frame with (P := fun e => match e with Called (Listen _ _) _ => False | _ => True end); cbn [pass].
  - unfold unixBind, unixBuildAddress. apply _.
  - apply _.
  - intros c es w' Hes (lfd & r & Hin). rewrite List.Forall_forall in Hes. by apply Hes in Hin.
  - intros lfd es w' Hes. die_run I I.
    all: intros (lfd' & r & [Hin|Hin]%in_app_iff); rewrite List.Forall_forall in Hes, Hd;
      first [by apply Hes in Hin|by apply Hd in Hin].
Qed.

(** ** Credentials *)

Definition cred_option (s : bool * bool) (opt : ascii) (_ : option string) : bool * bool :=
  if ceqb opt "d" then (true, snd s) else (fst s, true).

(** The one message of the sender, for a command line and the process's own
    credentials. *)
Definition cred_message (argv : list string) (pid uid gid : Z) : string * list cmsg :=
  let '(opts, operands) := getopt_of argv "dn" in
  (int_bytes (match operands with a :: _ => atoi a | [] => 12345 end),
   if snd (opt_fold cred_option opts (false, false)) then []
   else [creds_item (cred_choice operands 1 pid) (wrap_u32 (cred_choice operands 2 uid))
           (wrap_u32 (cred_choice operands 3 gid))]).

Lemma cred_send_option_dies u s c a law w (R : outcome (bool * bool) -> list event -> world -> Prop) :
  R (Ret (cred_option s c a)) [] w ->
  (forall c es w', Forall diag es -> R (Blocked c) es w') ->
  (forall h es w', died h -> Forall diag es -> R (Halt h) es w') ->
  spec law (cred_send_option u s c a) w R.
Proof.
  intros HR HB HD. unfold cred_send_option, cred_option in *. destruct s as [d n]. die_run HB HD; try done.
Qed.

Lemma spec_cred_items law argv w (Q : outcome (list cmsg) -> list event -> world -> Prop) :
  (forall c es w', messages es = [] -> Q (Blocked c) es w') ->
  (forall pid uid gid es w', messages es = [] -> Q (Ret (snd (cred_message argv pid uid gid))) es w') ->
  spec law (cred_items (snd (opt_fold cred_option (fst (getopt_of argv "dn")) (false, false)))
              (snd (getopt_of argv "dn"))) w Q.
Proof.
  intros HB HR. unfold cred_items, cred_value, cred_message in *.
  destruct (getopt_of argv "dn") as [opts operands]. cbn [fst snd] in *.
  destruct (snd (opt_fold _ opts _)) eqn:En.
  - spec_run. by apply (HR 0 0 0).
  - spec_run; try by apply HB. by apply (HR (r_ret r) (r_ret r0) (r_ret r1)).
Qed.

Lemma cred_send_spec argv w :
  spec posix_io (scm_cred_send_main argv) w (fun o es _ =>
    match o with
    | Halt (Exit 0) => exists pid uid gid, messages es = [cred_message argv pid uid gid]
    | Halt h => died h | Blocked _ => True | _ => False end).
Proof.
  match goal with |- spec _ _ _ ?P => set (Q := P) end.
  assert (HB : forall c es w', Q (Blocked c) es w') by done.
  assert (HD : forall h es w', died h -> Q (Halt h) es w')
    by (intros [[]| | |] es w' Hh; simpl in *; try done; subst; done).
  unfold scm_cred_send_main. spec_step.
  apply (spec_getopt_loop _ _ _ _ cred_option); [intros; apply _|intros; by apply cred_send_option_dies|..];
    cbn [pass]; [intros; apply HB|intros; by apply HD|].
  intros es0 w0 Hd0. cbn beta iota.
  destruct (opt_fold cred_option (fst (getopt_of argv "dn")) (false, false)) as [dg ne] eqn:Ef.
  replace ne with (snd (opt_fold cred_option (fst (getopt_of argv "dn")) (false, false))) by by rewrite Ef.
  do 3 spec_step. spec_step. apply spec_cred_items; cbn [pass]; [intros; apply HB|].
  intros pid uid gid es1 w2 Hm1. spec_step.
  apply spec_frame with (P := socket_setup); cbn [pass]; [apply _|apply _|done|].
  intros sfd es2 w3 Hs. die_run HB HD.
  exists pid, uid, gid. rewrite !messages_app, (messages_diag es0), Hm1, (messages_setup es2) by done.
  simpl. unfold cred_message. by destruct (getopt_of argv "dn") as [? []].
Qed.

(** The message received carried credentials, which were printed, and then the
    peer's. *)
Definition creds_received (es : list event) : Prop :=
  exists s n l rm c rp,
    In (Called (Recvmsg s n l) rm) es
    /\ item_ok (CMSG_LEN UCRED_SIZE) SCM_CREDENTIALS (r_cmsgs rm) c
    /\ In (Printed Stdout (show_creds "Received credentials" "uid" "gid" (cmsg_vals c))) es
    /\ In (Called (Getsockopt s SOL_SOCKET SO_PEERCRED) rp) es /\ r_ret rp <> -1
    /\ exists so, In (Called (Setsockopt s SOL_SOCKET SO_PASSCRED (Some 1)) so) es.

Lemma cred_recv_spec junk argv w :
  spec posix_io (scm_cred_recv_main junk argv) w (fun o es _ =>
    match o with
    | Halt (Exit 0) => creds_received es
    | Halt h => died h | Blocked _ => True | _ => False end).
Proof.
  match goal with |- spec _ _ _ ?P => set (Q := P) end.
  assert (HB : forall c es w', Q (Blocked c) es w') by done.
  assert (HD : forall h es w', died h -> Q (Halt h) es w')
    by (intros [[]| | |] es w' Hh; simpl in *; try done; subst; done).
  unfold scm_cred_recv_main. spec_step.
  apply (spec_getopt_loop _ _ _ _ (fun _ _ _ => true)); [intros; apply _|intros; by apply dgram_option_dies|..];
    cbn [pass]; [intros; apply HB|intros; by apply HD|].
  intros es0 w0 Hd0. cbn beta iota.
  spec_step. apply spec_remove_old; cbn [pass]; intros; [apply HB|by apply HD|].
  spec_step. apply spec_cred_recv_socket; cbn [pass]; intros; [apply HB|by apply HD|].
  die_run HB HD.
  all: apply spec_check_item; cbn [pass]; [by intros; apply HB|by intros; apply HD|]; intros c Hc.
  all: die_run HB HD; exists sfd, SIZEOF_INT, (CMSG_SPACE UCRED_SIZE), r0, c, r1; zbool.
  all: split_and!; [|done| | |done|exists r]; rewrite !in_app_iff; simpl; tauto.
Qed.

(** Passing credentials: the sender ends with status 0 only after sending
    exactly one message, made of the integer on its command line (12345 without
    one) and, unless -n was given, one credentials item with the pid, uid and
    gid on the command line, each its own where absent or a dash; the receiver
    ends with status 0 only when it had asked for credentials before receiving,
    the first item was a properly framed one, and it printed it and the peer's;
    and a message as the sender makes it is accepted, its integer read back. *)
Theorem scm_cred_correct argv junk w :
  spec posix_io (scm_cred_send_main argv) w (fun o es _ =>
    match o with
    | Halt (Exit 0) => exists pid uid gid, messages es = [cred_message argv pid uid gid]
    | Halt h => died h | Blocked _ => True | _ => False end)
  /\ spec posix_io (scm_cred_recv_main junk argv) w (fun o es _ =>
    match o with
    | Halt (Exit 0) => creds_received es
    | Halt h => died h | Blocked _ => True | _ => False end)
  /\ forall r d pid uid gid, in_int d -> r_ret r = 4 -> r_buf r = int_bytes d ->
       r_cmsgs r = [creds_item pid uid gid] ->
       recv_int junk r = d
       /\ check_item (CMSG_LEN UCRED_SIZE) SCM_CREDENTIALS "SCM_CREDENTIALS" (r_cmsgs r) w
          = (Ret (creds_item pid uid gid), w).
Proof.
  split_and!; [apply cred_send_spec|apply cred_recv_spec|].
  intros r d pid uid gid Hd Hn Hb Hc. rewrite Hc. split; [by apply recv_int_of_int|by apply check_item_ok].
Qed.
