(* ===== verification/Polling.v ===== *)
(** * Polling: waiting on many descriptors (63-io-advanced/) *)

From S2P Require Import Prelude Clib Sys Errors Frame GetNum RdWr Posix Terminal Echo.

(** ** Descriptor sets *)

Definition FD_SETSIZE : Z := 1024.
Definition FD_ISSET (fd : Z) (set : list Z) : bool := existsb (Z.eqb fd) set.
(** In C a number outside [0, FD_SETSIZE) writes outside the set. *)
Definition FD_SET (fd : Z) (set : list Z) : list Z := if FD_ISSET fd set then set else set ++ [fd].

(** The time left after [select] (Linux updates it, also on an error). *)
Definition select_left (r : resp) (timeout : Z * Z) : Z * Z :=
  match r_pay r with Fdsets _ _ l => l | _ => timeout end.
Definition show_timeout (t : Z * Z) : string :=
  "timeout after select(): " +:+ dec (fst t) +:+ "." +:+ lpad 3 "0" (dec (Z.quot (snd t) 1000)) +:+ nl.

(** ** t_select.c *)

Definition usageError (progName : string) : M Z :=
  _ ← fputs Stderr ("Usage: " +:+ cstr progName +:+ " {timeout|-} fd-num[rw]..." +:+ nl);
  _ ← fputs Stderr (" - means infinite timeout; " +:+ nl);
  _ ← fputs Stderr (" r = monitor for read" +:+ nl);
  _ ← fputs Stderr (" w = monitor for write" +:+ nl +:+ nl);
  _ ← fputs Stderr (" e.g.: " +:+ cstr progName +:+ " - 0rw 1w" +:+ nl);
  exit EXIT_FAILURE.

(** [sscanf(arg, "%d%2[rw]", &fd, buf) == 2]: the number and one or two letters. *)
Definition is_rw (c : ascii) : bool := ceqb c "r" || ceqb c "w".
Definition scan_fd_rw (arg : string) : option (Z * string) :=
  match scan_number (cstr arg) with
  | Some (v, String c rest) =>
      if is_rw c then
        Some (wrap_s32 v, String c (match rest with
                                    | String d _ => if is_rw d then String d EmptyString else EmptyString
                                    | EmptyString => EmptyString
                                    end))
      else None
  | _ => None
  end.

Definition t_select_arg (prog : string) (s : Z * list Z * list Z) (arg : string) : M (Z * list Z * list Z) :=
  let '(nfds, readfds, writefds) := s in
  match scan_fd_rw arg with
  | None => usageErr prog
  | Some (fd, buf) =>
      if fd >=? FD_SETSIZE then
        cmdLineErr ("file descriptor exceeds limit (" +:+ dec FD_SETSIZE +:+ ")" +:+ nl) else
      mret (if fd >=? nfds then fd + 1 else nfds,
            if strchr_found buf "r" then FD_SET fd readfds else readfds,
            if strchr_found buf "w" then FD_SET fd writefds else writefds)
  end.

(** The timeout operand; [None] waits without limit. *)
Definition timeout_arg (argv : list string) : M (option (Z * Z)) :=
  if strcmp_eq (argv_at argv 1) "-" then mret None
  else t ← getLong (argv_opt argv 1) 0 (Some "timeout"); mret (Some (t, 0)).

Definition t_select_main (argv : list string) : M Z :=
  if (argc_of argv <? 2) || wants_help argv then usageError (argv_at argv 0) else
  pto ← timeout_arg argv;
  '(nfds, readfds, writefds) ← fold_m (t_select_arg (cstr (argv_at argv 0))) (0, [], []) (drop 2 argv);
  r ← sys (Select nfds readfds writefds pto);
  let ready := r_ret r in
  if ready =? -1 then errExit "exit" else
  _ ← printf ("read = " +:+ dec ready +:+ nl);
  _ ← for_each (fun fd => printf (dec fd +:+ ": " +:+ (if FD_ISSET fd (r_rdset r) then "r" else "")
                                   +:+ (if FD_ISSET fd (r_wrset r) then "w" else "") +:+ nl)) (seqZ 0 nfds);
  _ ← match pto with Some t => printf (show_timeout (select_left r t)) | None => mret tt end;
  exit EXIT_SUCCESS.

(** ** poll_pipes.c *)

Definition POLLIN : Z := 1.

Definition make_pipe (pfds : list (Z * Z)) (j : Z) : M (list (Z * Z)) :=
  r ← sys Pipe;
  if r_ret r =? -1 then errExit ("pipe " +:+ dec j) else mret (pfds ++ [(r_val 0 r, r_val 1 r)]).

Definition poll_write (pfds : list (Z * Z)) (numPipes : Z) (j : Z) : M unit :=
  x ← scall (Lib "random" [] []);
  let randPipe := Z.rem x numPipes in
  let '(rd, wr) := nth (Z.to_nat randPipe) pfds (0, 0) in
  _ ← printf ("Writing to fd: " +:+ lpad 3 " " (dec wr) +:+ " (read fd: " +:+ lpad 3 " " (dec rd) +:+ ")" +:+ nl);
  k ← scall (Write wr "a");
  when (k =? -1) (errExit ("write " +:+ dec wr)).

Definition poll_pipes_main (argv : list string) : M Z :=
  if (argc_of argv <? 2) || wants_help argv then
    usageErr (cstr (argv_at argv 0) +:+ " num-pipes [num-writes]" +:+ nl) else
  numPipes ← getInt (argv_opt argv 1) GN_GT_0 (Some "num-pipes");
  p ← scall (Lib "calloc" [] [numPipes; 8]);
  if p =? 0 then errExit "calloc" else
  q ← scall (Lib "calloc" [] [numPipes; 8]);
  if q =? 0 then errExit "calloc" else
  pfds ← fold_m make_pipe [] (seqZ 0 numPipes);
  numWrites ← (if argc_of argv >? 2 then getInt (argv_opt argv 2) GN_GT_0 (Some "num-writes") else mret 1);
  t ← scall Time;
  _ ← scall (Lib "srandom" [] [wrap_s32 t]);
  _ ← for_each (poll_write pfds numPipes) (seqZ 0 numWrites);
  r ← sys (Poll (map (fun p => Pollfd (fst p) POLLIN 0) pfds) 0);
  let ready := r_ret r in
  if ready =? -1 then errExit "poll" else
  _ ← printf ("poll() returned: " +:+ dec ready +:+ nl);
  _ ← for_each (fun p => when (has (p_revents p) POLLIN)
                           (printf ("Readable: " +:+ lpad 3 " " (dec (p_fd p)) +:+ nl))) (r_polls r);
  exit EXIT_SUCCESS.

(** ** self_pipe.c *)

(** The handler of SIGINT; [pfd1] is the static [pfd[1]]. *)
Definition self_pipe_handler (pfd1 sig : Z) : M unit :=
  savedErrno ← get_errno;
  k ← scall (Write pfd1 "x");
  e ← get_errno;
  _ ← when ((k =? -1) && negb (e =? EAGAIN)) (errExit "write");
  set_errno savedErrno.

Definition self_pipe_arg (s : Z * list Z) (arg : string) : M (Z * list Z) :=
  let '(nfds, readfds) := s in
  fd ← getInt (Some arg) 0 (Some "fd");
  if fd >=? FD_SETSIZE then
    cmdLineErr ("file descriptor exceeds limit (" +:+ dec FD_SETSIZE +:+ ")" +:+ nl) else
  mret (if fd >=? nfds then fd + 1 else nfds, FD_SET fd readfds).

Definition set_nonblocking (fd : Z) : M unit :=
  flags ← scall (FcntlInt fd F_GETFL 0);
  if flags =? -1 then errExit "fcntl-F_GETFL" else
  s ← scall (FcntlInt fd F_SETFL (flags .| O_NONBLOCK));
  when (s =? -1) (errExit "fcntl-F_SETFL").

(** Restart [select] while it is interrupted; the sets and the time it leaves. *)
Definition select_restart (nfds : Z) (readfds : list Z) (pto : option (Z * Z))
    : M (Z * list Z * option (Z * Z)) :=
  loop (fun pto : option (Z * Z) =>
    r ← sys (Select nfds readfds [] pto);
    let ready := r_ret r in
    let left := match pto with Some t => Some (select_left r t) | None => None end in
    e ← get_errno;
    if (ready =? -1) && (e =? EINTR) then mret (inl left)
    else mret (inr (ready, if ready =? -1 then readfds else r_rdset r, left))) pto.

(** Consume the bytes the handler wrote. *)
Definition drain_pipe (pfd0 : Z) : M unit :=
  loop (fun _ : unit =>
    k ← scall (Read pfd0 1);
    if k =? -1 then
      e ← get_errno;
      if e =? EAGAIN then mret (inr tt) else errExit "read"
    else mret (inl tt)) tt.

(** [SIGINT_HANDLER] stands for the address of the handler. *)
Definition SIGINT_HANDLER : Z := 3.

Definition self_pipe_main (argv : list string) : M Z :=
  if (argc_of argv <? 2) || wants_help argv then
    usageErr (cstr (argv_at argv 0) +:+ " {timeout|-} fd..." +:+ nl +:+ tab +:+ tab
              +:+ "('-' means infinite timeout)" +:+ nl) else
  pto ← timeout_arg argv;
  '(nfds, readfds) ← fold_m self_pipe_arg (0, []) (drop 2 argv);
  p ← sys Pipe;
  if r_ret p =? -1 then errExit "pipe" else
  let pfd0 := r_val 0 p in let pfd1 := r_val 1 p in
  let readfds := FD_SET pfd0 readfds in
  let nfds := Z.max nfds (pfd0 + 1) in
  _ ← set_nonblocking pfd0;
  _ ← set_nonblocking pfd1;
  s ← scall (Sigaction SIGINT SIGINT_HANDLER SA_RESTART []);
  if s =? -1 then errExit "sigaction" else
  '(ready, readfds, pto) ← select_restart nfds readfds pto;
  if ready =? -1 then errExit "select" else
  _ ← when (FD_ISSET pfd0 readfds)
        (_ ← printf ("A signal was caught" +:+ nl); drain_pipe pfd0);
  _ ← printf ("ready = " +:+ dec ready +:+ nl);
  _ ← for_each (fun arg =>
        fd ← getInt (Some arg) 0 (Some "fd");
        printf (dec fd +:+ ": " +:+ (if FD_ISSET fd readfds then "r" else "") +:+ nl)) (drop 2 argv);
  _ ← printf (dec pfd0 +:+ ": " +:+ (if FD_ISSET pfd0 readfds then "r" else "")
              +:+ "   (read end of pipe)" +:+ nl);
  _ ← match pto with Some t => printf (show_timeout t) | None => mret tt end;
  exit EXIT_SUCCESS.

(** ** epoll_input.c *)

Definition MAX_BUF : Z := 1000.
Definition MAX_EVENTS : Z := 5.
Definition EPOLLIN : Z := 1.
Definition EPOLLERR : Z := 8.
Definition EPOLLHUP : Z := 16.
Definition EPOLL_CTL_ADD : Z := 1.

Definition epoll_add (epfd : Z) (path : string) : M unit :=
  fd ← scall (Open path O_RDONLY 0);
  if fd =? -1 then errExit "open" else
  _ ← printf ("Opened " +:+ dquote +:+ cstr path +:+ dquote +:+ " on fd " +:+ dec fd +:+ nl);
  c ← scall (EpollCtl epfd EPOLL_CTL_ADD fd (EpollEvent EPOLLIN fd));
  when (c =? -1) (errExit "epoll_ctl").

Definition epoll_one (numOpenFds : Z) (ev : epoll_event) : M Z :=
  let e := ev_events ev in
  _ ← printf ("   fd=" +:+ dec (ev_fd ev) +:+ "; events: "
        +:+ (if has e EPOLLIN then "EPOLLIN " else "")
        +:+ (if has e EPOLLHUP then "EPOLLHUP " else "")
        +:+ (if has e EPOLLERR then "EPOLLERR " else "") +:+ nl);
  if has e EPOLLIN then
    r ← sys (Read (ev_fd ev) MAX_BUF);
    let s := r_ret r in
    if s =? -1 then errExit "read" else
    _ ← printf ("    read " +:+ dec s +:+ " bytes: " +:+ fmt_prec s (r_buf r) +:+ nl);
    mret numOpenFds
  else if has e (EPOLLHUP .| EPOLLERR) then
    _ ← printf ("    closing fd " +:+ dec (ev_fd ev) +:+ nl);
    c ← scall (Close (ev_fd ev));
    if c =? -1 then errExit "close" else mret (numOpenFds - 1)
  else mret numOpenFds.

Definition epoll_loop (epfd numOpenFds : Z) : M unit :=
  loop (fun numOpenFds =>
    if negb (numOpenFds >? 0) then mret (inr tt) else
    _ ← printf ("About to epoll_wait()" +:+ nl);
    r ← sys (EpollWait epfd MAX_EVENTS (-1));
    let ready := r_ret r in
    if ready =? -1 then
      e ← get_errno;
      if e =? EINTR then mret (inl numOpenFds) else errExit "epoll_wait"
    else
      _ ← printf ("Ready: " +:+ dec ready +:+ nl);
      n ← fold_m epoll_one numOpenFds (take (Z.to_nat ready) (r_epolls r));
      mret (inl n)) numOpenFds.

Definition epoll_input_main (argv : list string) : M Z :=
  if (argc_of argv <? 2) || wants_help argv then
    usageErr (cstr (argv_at argv 0) +:+ " file..." +:+ nl) else
  epfd ← scall (EpollCreate (argc_of argv - 1));
  if epfd =? -1 then errExit "epoll_create" else
  _ ← for_each (epoll_add epfd) (tail argv);
  _ ← epoll_loop epfd (argc_of argv - 1);
  _ ← printf ("All file descriptors closed; bye" +:+ nl);
  exit EXIT_SUCCESS.

(** ** demo_sigio.c *)

(** The value of the volatile flag, which the handler sets to 1 between any two
    steps, is the environment's to say. *)
Definition read_gotSigio : M Z := scall (Lib "gotSigio" [] []).
Definition SIGIO_HANDLER : Z := 4.

(** [while (read(STDIN_FILENO, &ch, 1) > 0 && !done)]: the new value of [done]. *)
Definition sigio_input (cnt : Z) (done : bool) : M bool :=
  loop (fun done : bool =>
    r ← sys (Read STDIN_FILENO 1);
    if (r_ret r >? 0) && negb done then
      let ch := schar 0 (r_buf r) in
      _ ← printf ("cnt=" +:+ dec cnt +:+ "; read " +:+ String ch EmptyString +:+ nl);
      mret (inl (ceqb ch "#"))
    else mret (inr done)) done.

Definition demo_sigio_main (argv : list string) : M Z :=
  s ← scall (Sigaction SIGIO SIGIO_HANDLER SA_RESTART []);
  if s =? -1 then errExit "sigaction" else
  pid ← scall Getpid;
  o ← scall (FcntlInt STDIN_FILENO F_SETOWN pid);
  if o =? -1 then errExit "fcntl(F_SETOWN)" else
  flags ← scall (FcntlInt STDIN_FILENO F_GETFL 0);
  f ← scall (FcntlInt STDIN_FILENO F_SETFL (flags .| O_ASYNC .| O_NONBLOCK));
  if f =? -1 then errExit "fcntl(F_SETFL)" else
  '(b, orig) ← ttySetCbreak STDIN_FILENO true;
  if b =? -1 then errExit "ttySetCbreak" else
  _ ← loop (fun '(done, cnt) =>
        if (done : bool) then mret (inr tt) else
        g ← read_gotSigio;
        done ← (if negb (g =? 0) then sigio_input cnt done else mret done);
        mret (inl (done, cnt + 1))) (false, 0);
  t ← scall (Tcsetattr STDIN_FILENO TCSAFLUSH (default (Termios 0 0 0 0 []) orig));
  if t =? -1 then errExit "tcsetattr" else
  exit EXIT_SUCCESS.

#[export] Instance usageError_sane p : Sane (usageError p).
Proof. unfold usageError. apply _. Qed.
#[export] Instance t_select_arg_sane p s a : Sane (t_select_arg p s a).
Proof. unfold t_select_arg. destruct s as [[??]?]. apply _. Qed.
#[export] Instance timeout_arg_sane a : Sane (timeout_arg a).
Proof. unfold timeout_arg. apply _. Qed.
#[export] Instance t_select_main_sane a : Sane (t_select_main a).
Proof. unfold t_select_main. apply _. Qed.
#[export] Instance make_pipe_sane l j : Sane (make_pipe l j).
Proof. unfold make_pipe. apply _. Qed.
#[export] Instance poll_write_sane l n j : Sane (poll_write l n j).
Proof. unfold poll_write. apply _. Qed.
#[export] Instance poll_pipes_main_sane a : Sane (poll_pipes_main a).
Proof. unfold poll_pipes_main. apply _. Qed.
#[export] Instance self_pipe_handler_sane p s : Sane (self_pipe_handler p s).
Proof. unfold self_pipe_handler. apply _. Qed.
#[export] Instance self_pipe_arg_sane s a : Sane (self_pipe_arg s a).
Proof. unfold self_pipe_arg. destruct s. apply _. Qed.
#[export] Instance set_nonblocking_sane f : Sane (set_nonblocking f).
Proof. unfold set_nonblocking. apply _. Qed.
#[export] Instance select_restart_sane n r p : Sane (select_restart n r p).
Proof. unfold select_restart. apply _. Qed.
#[export] Instance drain_pipe_sane p : Sane (drain_pipe p).
Proof. unfold drain_pipe. apply _. Qed.
#[export] Instance self_pipe_main_sane a : Sane (self_pipe_main a).
Proof. unfold self_pipe_main. apply _. Qed.
#[export] Instance epoll_add_sane e p : Sane (epoll_add e p).
Proof. unfold epoll_add. apply _. Qed.
#[export] Instance epoll_one_sane n e : Sane (epoll_one n e).
Proof. unfold epoll_one. apply _. Qed.
#[export] Instance epoll_loop_sane e n : Sane (epoll_loop e n).
Proof. unfold epoll_loop. apply _. Qed.
#[export] Instance epoll_input_main_sane a : Sane (epoll_input_main a).
Proof. unfold epoll_input_main. apply _. Qed.
#[export] Instance read_gotSigio_sane : Sane read_gotSigio.
Proof. unfold read_gotSigio. apply _. Qed.
#[export] Instance read_gotSigio_uses : Uses read_gotSigio.
Proof. unfold read_gotSigio. apply _. Qed.
#[export] Instance sigio_input_sane c d : Sane (sigio_input c d).
Proof. unfold sigio_input. apply _. Qed.
#[export] Instance demo_sigio_main_sane a : Sane (demo_sigio_main a).
Proof. unfold demo_sigio_main. apply _. Qed.

(** ** Signal handlers *)

Definition reaped (e : event) : Prop :=
  match e with Called (Waitpid p o) r => p = -1 /\ o = WNOHANG /\ 0 < r_ret r | _ => False end.

(** The two handlers leave the interrupted program as they found it:
    whatever the calls inside them do to [errno], on return it has the value it
    had on entry.  The echo server's reaper has then collected children one by
    one until none was left (or the call failed); the self-pipe's handler has
    made exactly one attempt to write its one byte, and ends the process only
    when that failed for a reason other than a full pipe. *)
Theorem signal_handlers_transparent law sig pfd1 w :
  spec law (grimReaper sig) w (fun o es w' =>
    match o with
    | Ret _ => errno w' = errno w
               /\ exists es0 r, es = es0 ++ [Called (Waitpid (-1) WNOHANG) r] /\ Forall reaped es0 /\ r_ret r <= 0
    | Blocked c => c = Waitpid (-1) WNOHANG /\ Forall reaped es
    | _ => False
    end)
  /\ spec law (self_pipe_handler pfd1 sig) w (fun o es w' =>
    match o with
    | Ret _ => errno w' = errno w
               /\ exists r, es = [Called (Write pfd1 "x") r] /\ (r_ret r = -1 -> errno_after (errno w) r = EAGAIN)
    | Halt h => died h /\ exists r ds, es = Called (Write pfd1 "x") r :: ds /\ Forall diag ds
                           /\ r_ret r = -1 /\ errno_after (errno w) r <> EAGAIN
    | Blocked _ => writes es = [] \/ writes es = ["x"%string]
    | _ => False
    end).
Proof.
  split.
  - match goal with |- spec _ _ _ ?P => set (Q := P) end.
    assert (HB : forall es w', Forall reaped es -> Q (Blocked (Waitpid (-1) WNOHANG)) es w') by done.
    assert (HR : forall es r w', errno w' = errno w -> Forall reaped es -> r_ret r <= 0 ->
      Q (Ret tt) (es ++ [Called (Waitpid (-1) WNOHANG) r]) w') by (intros; split; [done|by exists es, r]).
    clearbody Q. unfold grimReaper. do 3 spec_step.
    apply spec_loop with (I := fun _ es _ => Forall reaped es); [intros; apply _..|constructor|].
    intros [] es w1 Hes. do 2 spec_step; [cbn [pass]; rewrite app_nil_r; by apply HB|].
    destruct (r_ret r >? 0) eqn:Er; zbool; spec_step.
    + apply Forall_app. split; [done|by repeat constructor].
    + spec_step. rewrite !app_nil_r. by apply HR.
  - unfold self_pipe_handler. spec_run; cbn [pass].
    + by left.
    + zbool. rewrite He in *. apply spec_dies; [apply _|..]; cbn [pass].
      * intros c es w' Hd. right. by rewrite !writes_app, (writes_diag es).
      * intros h es w' Hh Hd. split; [done|]. by exists r, es.
    + split; [done|]. exists r. split; [done|]. intros Hr. rewrite Hr, He in *. simpl in *. by zbool.
Qed.

(** ** [select]'s arguments *)

(** The number handed to [select] is above every descriptor of the sets, and
    not above the size of a set. *)
Definition select_bounds (limit nfds : Z) (sets : list Z) : Prop :=
  0 <= nfds <= limit /\ Forall (fun fd => fd < nfds) sets.

Lemma FD_SET_bounds limit nfds fd set : 
  select_bounds limit nfds set -> fd < limit ->
  select_bounds limit (if fd >=? nfds then fd + 1 else nfds) (FD_SET fd set).
Proof.
  intros [Hn Hs] Hfd. destruct (fd >=? nfds) eqn:E; zbool; (split; [lia|]);
    unfold FD_SET; destruct (FD_ISSET fd set); try (apply Forall_app; split; [|by repeat constructor; lia]);
    eapply Forall_impl; try exact Hs; simpl; lia.
Qed.
Lemma select_bounds_weaken limit n n' set : select_bounds limit n set -> n <= n' <= limit -> select_bounds limit n' set.
Proof. intros [Hn Hs] Hn'. split; [lia|]. eapply Forall_impl; [exact Hs|]. simpl. lia. Qed.

Definition t_select_ok (s : Z * list Z * list Z) : Prop :=
  let '(n, rd, wr) := s in select_bounds FD_SETSIZE n rd /\ select_bounds FD_SETSIZE n wr.

Lemma spec_t_select_arg law prog a s w (Q : outcome (Z * list Z * list Z) -> list event -> world -> Prop) :
  (forall c es w', Q (Blocked c) es w') ->
  (forall h es w', died h -> Q (Halt h) es w') ->
  (forall s', t_select_ok s' -> Q (Ret s') [] w) ->
  t_select_ok s -> spec law (t_select_arg prog s a) w Q.
Proof.
  intros HB HD HR. destruct s as [[n rd] wr]. intros [H1 H2]. unfold t_select_arg.
  die_run HB HD. apply HR. zbool.
  assert (Hw : forall set, select_bounds FD_SETSIZE n set ->
    select_bounds FD_SETSIZE (if z >=? n then z + 1 else n) set).
  { intros set Hs. apply (select_bounds_weaken _ n); [done|]. destruct H1.
    destruct (z >=? n) eqn:E; zbool; lia. }
  split; match goal with |- select_bounds _ _ (if ?b then _ else _) => destruct b end;
    by (apply FD_SET_bounds || apply Hw).
Qed.

Lemma spec_t_select_args law prog l s w (Q : outcome (Z * list Z * list Z) -> list event -> world -> Prop) :
  (forall c es w', Q (Blocked c) es w') ->
  (forall h es w', died h -> Q (Halt h) es w') ->
  (forall s' es w', t_select_ok s' -> Q (Ret s') es w') ->
  t_select_ok s -> spec law (fold_m (t_select_arg prog) s l) w Q.
Proof.
  intros HB HD HR Hs.
  eapply spec_mono; [|apply (spec_fold_m law _ (fun s' _ _ _ => t_select_ok s')
    (fun o es w' => match o with Ret s' => t_select_ok s' | Halt h => died h | Blocked _ => True | Diverged => False end)
    l s [] w Hs); [done|]].
  - intros [s'|h|c|] es w' Ho; [by apply HR|by apply HD|by apply HB|done].
  - intros s1 x l' es w1 H1. by apply spec_t_select_arg.
Qed.

Definition self_pipe_ok (s : Z * list Z) : Prop := select_bounds FD_SETSIZE (fst s) (snd s).

Lemma spec_self_pipe_args law l s w (Q : outcome (Z * list Z) -> list event -> world -> Prop) :
  (forall c es w', Q (Blocked c) es w') ->
  (forall h es w', died h -> Q (Halt h) es w') ->
  (forall s' es w', self_pipe_ok s' -> Q (Ret s') es w') ->
  self_pipe_ok s -> spec law (fold_m self_pipe_arg s l) w Q.
Proof.
  intros HB HD HR Hs.
  eapply spec_mono; [|apply (spec_fold_m law _ (fun s' _ _ _ => self_pipe_ok s')
    (fun o es w' => match o with Ret s' => self_pipe_ok s' | Halt h => died h | Blocked _ => True | Diverged => False end)
    l s [] w Hs); [done|]].
  - intros [s'|h|c|] es w' Ho; [by apply HR|by apply HD|by apply HB|done].
  - intros [n set] x l' es w1 H1. unfold self_pipe_arg. spec_step. apply spec_getInt; [|done].
    intros v w2 _ _. destruct (v >=? FD_SETSIZE) eqn:E; zbool.
    + by apply spec_dies; [apply _|..].
    + spec_step. apply FD_SET_bounds; [exact H1|lia].
Qed.

(** Every [select] of the run was given proper arguments. *)
Definition selects_ok (limit : Z) (es : list event) : Prop :=
  forall n rd wr pto r, In (Called (Select n rd wr pto) r) es ->
    select_bounds limit n rd /\ select_bounds limit n wr.
Lemma selects_ok_app limit es fs : selects_ok limit es -> selects_ok limit fs -> selects_ok limit (es ++ fs).
Proof. intros H1 H2 n rd wr pto r [H|H]%in_app_iff; eauto. Qed.
(** Neither a [select] nor the making of the pipe. *)
Definition no_select (e : event) : Prop := match e with Called (Select _ _ _ _) _ | Called Pipe _ => False | _ => True end.
Lemma no_selects_ok limit es : Forall no_select es -> selects_ok limit es.
Proof. intros H n rd wr pto r Hin. rewrite List.Forall_forall in H. by apply H in Hin. Qed.

Lemma diag_no_select e : diag e -> no_select e.
Proof. by destruct e as [[]| |]. Qed.
#[export] Instance getInt_no_select a f n : Emits no_select (getInt a f n).
Proof. apply (emits_impl diag); [apply diag_no_select|apply _]. Qed.
#[export] Instance getLong_no_select a f n : Emits no_select (getLong a f n).
Proof. apply (emits_impl diag); [apply diag_no_select|apply _]. Qed.
#[export] Instance timeout_arg_no_select a : Emits no_select (timeout_arg a).
Proof. unfold timeout_arg. apply _. Qed.
#[export] Instance t_select_arg_no_select p s a : Emits no_select (t_select_arg p s a).
Proof. unfold t_select_arg. destruct s as [[??]?]. emits_tac. Qed.
#[export] Instance self_pipe_arg_no_select s a : Emits no_select (self_pipe_arg s a).
Proof. unfold self_pipe_arg. destruct s. emits_tac. Qed.
#[export] Instance set_nonblocking_no_select f : Emits no_select (set_nonblocking f).
Proof. unfold set_nonblocking. emits_tac. Qed.
#[export] Instance drain_pipe_no_select f : Emits no_select (drain_pipe f).
Proof. unfold drain_pipe. emits_tac. Qed.
#[export] Instance timeout_arg_total a : Total (timeout_arg a).
Proof. unfold timeout_arg. apply _. Qed.
#[export] Instance set_nonblocking_total f : Total (set_nonblocking f).
Proof. unfold set_nonblocking. apply _. Qed.
#[export] Instance drain_pipe_total f : Total (drain_pipe f).
Proof. unfold drain_pipe. apply _. Qed.

(** A [select] with these arguments, or neither a [select] nor a new pipe. *)
Definition select_with (n : Z) (rd wr : list Z) (e : event) : Prop :=
  match e with Called (Select n' rd' wr' _) _ => n' = n /\ rd' = rd /\ wr' = wr | Called Pipe _ => False | _ => True end.
#[export] Instance getInt_select_with n rd wr a f nm : Emits (select_with n rd wr) (getInt a f nm).
Proof. apply (emits_impl diag); [by intros [[]| |]|apply _]. Qed.

Lemma t_select_bounds law argv w :
  spec law (t_select_main argv) w (fun o es _ => o <> Diverged /\ selects_ok FD_SETSIZE es).
Proof.
  match goal with |- spec _ _ _ ?P => set (Q := P) end.
  assert (HF : forall o es w', Forall no_select es -> o <> Diverged -> Q o es w')
    by (intros; split; [done|by apply no_selects_ok]).
  unfold t_select_main. spec_step.
  { apply spec_frame_total with (P := no_select); [unfold usageError; apply _|unfold usageError; apply _|done]. }
  spec_step. apply spec_frame_total with (P := no_select); [apply _|apply _|].
  intros [pto| | |] es0 w0 He0 Ho; cbn [pass]; [|by apply HF..|done].
  spec_step. apply (spec_with_emits _ no_select); [apply _|apply spec_t_select_args]; cbn [pass].
  1-2: intros; apply HF; [by apply Forall_app|done].
  2: { split; split; try constructor; unfold FD_SETSIZE; lia. }
  intros [[nfds rd] wr] es1 w1 [Hrd Hwr] He1. spec_step; spec_step.
  { apply HF; [|done]. rewrite app_nil_r. by apply Forall_app. }
  match goal with |- context [Called (Select ?a ?b ?c ?d) r] => set (sel := Called (Select a b c d) r) end.
  apply spec_frame_total with (P := no_select); [emits_tac|apply _|].
  intros o fs w3 Hfs Ho3. split; [done|]. rewrite !app_assoc.
  apply selects_ok_app; [|by apply no_selects_ok]. apply selects_ok_app; [by apply no_selects_ok, Forall_app|].
  intros n a b t x [Hx|[]]. by injection Hx as <- <- <- <- _.
Qed.

Lemma self_pipe_bounds law argv w :
  spec law (self_pipe_main argv) w (fun o es _ =>
    o <> Diverged /\ forall p, In (Called Pipe p) es -> selects_ok (Z.max FD_SETSIZE (r_val 0 p + 1)) es).
Proof.
  match goal with |- spec _ _ _ ?P => set (Q := P) end.
  assert (HF : forall o es w', Forall no_select es -> o <> Diverged -> Q o es w')
    by (intros; split; [done|intros; by apply no_selects_ok]).
  unfold self_pipe_main. spec_step.
  { apply spec_frame_total with (P := no_select); [emits_tac|apply _|done]. }
  spec_step. apply spec_frame_total with (P := no_select); [apply _|apply _|].
  intros [pto| | |] es0 w0 He0 Ho; cbn [pass]; [|by apply HF..|done].
  spec_step. apply (spec_with_emits _ no_select); [apply _|apply spec_self_pipe_args]; cbn [pass].
  1-2: intros; apply HF; [by apply Forall_app|done].
  2: { split; [|constructor]; simpl; unfold FD_SETSIZE; lia. }
  intros [nfds rd] es1 w1 Hrd He1. spec_step; spec_step.
  { apply HF; [|done]. rewrite app_nil_r. by apply Forall_app. }
  set (nf := Z.max nfds (r_val 0 r + 1)). set (set := FD_SET (r_val 0 r) rd).
  apply spec_frame_total with (P := select_with nf set []).
  { unfold set_nonblocking, select_restart, drain_pipe. emits_tac. }
  { unfold select_restart. apply _. }
  intros o fs w3 Hfs Ho3. split; [done|]. intros p Hp.
  assert (p = r) as ->.
  { rewrite !in_app_iff in Hp. rewrite List.Forall_forall in He0, He1, Hfs.
    destruct Hp as [Hp|[Hp|[[Hp|[]]|Hp]]]; [by apply He0 in Hp|by apply He1 in Hp|congruence|by apply Hfs in Hp]. }
  intros n a b t x Hx. rewrite !in_app_iff in Hx. rewrite List.Forall_forall in He0, He1, Hfs.
  destruct Hx as [Hx|[Hx|[[Hx|[]]|Hx]]]; [by apply He0 in Hx|by apply He1 in Hx|done|].
  apply Hfs in Hx as (-> & -> & ->). unfold self_pipe_ok in Hrd. cbn [fst snd] in Hrd.
  destruct Hrd as [Hn Hall].
  split; split; try (unfold nf; lia); [|constructor].
  unfold set, FD_SET. assert (Forall (fun fd => fd < nf) rd) by (eapply Forall_impl; [exact Hall|unfold nf; simpl; lia]).
  destruct (FD_ISSET _ rd); [done|]. apply Forall_app. split; [done|]. repeat constructor. unfold nf. lia.
Qed.

(** The arguments of [select]: whatever is on the command line, each call
    [t_select] and [self_pipe] make has a first argument that is above every
    descriptor in its sets and at most FD_SETSIZE (for [self_pipe], FD_SETSIZE or
    one more than the pipe's read end, whichever is larger), restarts included. *)
Theorem select_args_bounds law argv w :
  spec law (t_select_main argv) w (fun o es _ => o <> Diverged /\ selects_ok FD_SETSIZE es)
  /\ spec law (self_pipe_main argv) w (fun o es _ =>
    o <> Diverged /\ forall p, In (Called Pipe p) es -> selects_ok (Z.max FD_SETSIZE (r_val 0 p + 1)) es).
Proof. split; [apply t_select_bounds|apply self_pipe_bounds]. Qed.

(** ** [epoll_input] *)

(** What an event asks for: input is read, and only a hang-up or error without
    input closes the descriptor. *)
Definition event_call (ev : epoll_event) : list call :=
  if has (ev_events ev) EPOLLIN then [Read (ev_fd ev) MAX_BUF]
  else if has (ev_events ev) (EPOLLHUP .| EPOLLERR) then [Close (ev_fd ev)] else [].

(** The events reported in a trace, and the reads and closes in it. *)
Fixpoint reported (es : list event) : list epoll_event :=
  match es with
  | [] => []
  | Called (EpollWait _ _ _) r :: es => take (Z.to_nat (r_ret r)) (r_epolls r) ++ reported es
  | _ :: es => reported es
  end.
Definition is_io (c : call) : bool := match c with Read _ _ | Close _ => true | _ => false end.
Definition io_calls (es : list event) : list call := List.filter is_io (calls es).
Definition is_close (c : call) : bool := match c with Close _ => true | _ => false end.
Definition closes (cs : list call) : Z := Z.of_nat (length (List.filter is_close cs)).

Lemma reported_app es fs : reported (es ++ fs) = reported es ++ reported fs.
Proof. induction es as [|[[]| |] es IH]; simpl; try done. by rewrite IH, app_assoc. Qed.
Lemma io_calls_app es fs : io_calls (es ++ fs) = io_calls es ++ io_calls fs.
Proof. unfold io_calls. by rewrite calls_app, List.filter_app. Qed.
Lemma closes_app cs ds : closes (cs ++ ds) = closes cs + closes ds.
Proof. unfold closes. rewrite List.filter_app, length_app. lia. Qed.

(** The events of a trace were all dealt with, and the count is right. *)
Definition epoll_inv (n0 n : Z) (es : list event) : Prop :=
  io_calls es = flat_map event_call (reported es) /\ n = n0 - closes (io_calls es).

Lemma spec_epoll_events law n0 n evs es w (Q : outcome Z -> list event -> world -> Prop) :
  (forall c es w', Q (Blocked c) es w') ->
  (forall h es w', died h -> Q (Halt h) es w') ->
  (forall m fs w', reported fs = [] -> epoll_inv n0 m (es ++ fs) -> Q (Ret m) fs w') ->
  io_calls es ++ flat_map event_call evs = flat_map event_call (reported es) ->
  n = n0 - closes (io_calls es) ->
  spec law (fold_m epoll_one n evs) w Q.
Proof.
  intros HB HD HR Hio Hn.
  eapply spec_mono; [|apply (spec_fold_m law _ (fun m l fs _ => reported fs = []
      /\ io_calls (es ++ fs) ++ flat_map event_call l = flat_map event_call (reported es)
      /\ m = n0 - closes (io_calls (es ++ fs)))
    (fun o fs w' => match o with Ret m => reported fs = [] /\ epoll_inv n0 m (es ++ fs) | Halt h => died h
       | Blocked _ => True | Diverged => False end) evs n [] w)].
  - intros [m|h|c|] fs w' Ho; [by apply HR; apply Ho|by apply HD|by apply HB|done].
  - by rewrite !app_nil_r.
  - intros m fs w' (Hr & Hf & Hm). simpl in Hf. rewrite app_nil_r in Hf.
    split; [done|]. split; [|done]. by rewrite reported_app, Hr, app_nil_r.
  - intros m ev l fs w1 (Hr & Hf & Hm). unfold epoll_one. simpl in Hf. unfold event_call in Hf at 1.
    assert (Hdone : forall gs k, reported gs = [] -> io_calls gs = event_call ev -> k = m - closes (event_call ev) ->
      reported (fs ++ gs) = [] /\ io_calls (es ++ fs ++ gs) ++ flat_map event_call l = flat_map event_call (reported es)
      /\ k = n0 - closes (io_calls (es ++ fs ++ gs))).
    { intros gs k Hgs Hio' ->. rewrite reported_app, Hr, Hgs. split; [done|].
      rewrite app_assoc, io_calls_app, closes_app, Hio'. unfold event_call. rewrite <- app_assoc. split; [done|lia]. }
    unfold event_call in Hdone. clear Hf.
    destruct (has (ev_events ev) EPOLLIN); [|destruct (has (ev_events ev) (EPOLLHUP .| EPOLLERR))];
      repeat first [apply spec_dies; [apply _|done|done] | spec_step]; cbn [pass]; try done;
      apply Hdone; try done; unfold closes; cbn; lia.
Qed.

Lemma spec_epoll_loop law epfd n w (Q : outcome unit -> list event -> world -> Prop) :
  (forall c es w', Q (Blocked c) es w') ->
  (forall h es w', died h -> Q (Halt h) es w') ->
  (forall m es w', m <= 0 -> epoll_inv n m es -> Q (Ret tt) es w') ->
  spec law (epoll_loop epfd n) w Q.
Proof.
  intros HB HD HR. unfold epoll_loop.
  apply spec_loop with (I := fun m es _ => epoll_inv n m es); [intros; apply _|intros; apply _| |].
  { split; [done|]. unfold io_calls, closes. simpl. lia. }
  intros m es w1 [Hio Hm]. destruct (negb (m >? 0)) eqn:E; zbool.
  { spec_step. rewrite app_nil_r. apply (HR m); [done|by split]. }
  die_run HB HD. 
  - zbool. split; rewrite ?reported_app, !io_calls_app; cbn [reported app io_calls calls List.filter is_io];
      rewrite ?Heqb, ?app_nil_r; done.
  - apply (spec_epoll_events law n m _
      (es ++ [Printed Stdout ("About to epoll_wait()" +:+ nl)] ++ [Called (EpollWait epfd MAX_EVENTS (-1)) r]
          ++ [Printed Stdout ("Ready: " +:+ dec (r_ret r) +:+ nl)])); cbn [pass].
    + intros. apply HB.
    + intros. by apply HD.
    + intros k fs w4 Hr Hinv. spec_step. rewrite app_nil_r. by rewrite <- !app_assoc in *.
    + rewrite !io_calls_app, !reported_app, Hio. cbn. by rewrite !app_nil_r, flat_map_app.
    + rewrite !io_calls_app, Hm. cbn. by rewrite !app_nil_r.
Qed.

Definition is_open (c : call) : bool := match c with Open _ _ _ => true | _ => false end.
Definition opened_files (es : list event) : list call := List.filter is_open (calls es).
Lemma opened_files_app es fs : opened_files (es ++ fs) = opened_files es ++ opened_files fs.
Proof. unfold opened_files. by rewrite calls_app, List.filter_app. Qed.

Lemma spec_epoll_adds law epfd l w (Q : outcome unit -> list event -> world -> Prop) :
  (forall c es w', Q (Blocked c) es w') ->
  (forall h es w', died h -> Q (Halt h) es w') ->
  (forall es w', io_calls es = [] -> opened_files es = map (fun p => Open p O_RDONLY 0) l -> Q (Ret tt) es w') ->
  spec law (for_each (epoll_add epfd) l) w Q.
Proof.
  revert w Q. induction l as [|p l IH]; intros w Q HB HD HR; unfold for_each; cbn [fold_m].
  - spec_step. by apply HR.
  - spec_step. unfold epoll_add at 1. die_run HB HD.
    apply IH; [by intros; apply HB|by intros; apply HD|].
    intros es w' Hio Hop. apply HR; [by rewrite !io_calls_app, Hio|by rewrite !opened_files_app, Hop].
Qed.


(** ** [demo_sigio] *)

(** The test of [done] comes after the next [read]: the byte that follows a
    hash, when there is one, is taken from the terminal and dropped. *)
Lemma sigio_drops_byte c cnt :
  run (sigio_input cnt false) [got "#"; got (String c EmptyString)]
  = (Ret true,
     [Called (Read STDIN_FILENO 1) (got "#");
      Printed Stdout ("cnt=" +:+ dec cnt +:+ "; read #" +:+ nl);
      Called (Read STDIN_FILENO 1) (got (String c EmptyString))]).
Proof. reflexivity. Qed.
