(* ===== verification/Threads.v ===== *)
(** * Threads: two threads that increment a shared counter (30-thread-sync/
    thread_incr*.c, 30-experimental/thread_incr_spinlock.c,
    53-posix-semaphore/thread_incr_psem.c)

    The threads run interleaved, one step at a time: a step is one access to the
    shared variable, one call on the lock, or one test of the loop.  The three
    protected programs differ only in their lock, an interface ([LockOps]) with
    a specification ([LockSpec]); the results about them are proved once,
    against the specification. *)

From S2P Require Import Prelude Clib Sys Errors Frame GetNum.

(** ** Executions of a step relation *)

Section Reachability.
Context {St : Type} (step : St -> St -> Prop).

Inductive reaches : St -> St -> Prop :=
| reaches_refl s : reaches s s
| reaches_step s s1 s2 : reaches s s1 -> step s1 s2 -> reaches s s2.

(** An invariant holds of every reachable state. *)
Lemma reaches_inv (I : St -> Prop) s s' :
I s -> (forall s1 s2, I s1 -> step s1 s2 -> I s2) -> reaches s s' -> I s'.
Proof. intros Hs Hstep H. induction H; eauto. Qed.

Lemma reaches_trans s1 s2 s3 : reaches s1 s2 -> reaches s2 s3 -> reaches s1 s3.
Proof.
intros H12 H. induction H as [|s s' s'' _ IH Hs]; [done|]. eapply reaches_step; [by apply IH|done].
Qed.

(** No infinite execution starts in [s]. *)
Inductive terminates : St -> Prop :=
| terminates_intro s : (forall s', step s s' -> terminates s') -> terminates s.

(** A measure that decreases with each step, on the states of an invariant. *)
Lemma terminates_measure (I : St -> Prop) (m : St -> nat) s :
I s -> (forall s1 s2, I s1 -> step s1 s2 -> I s2 /\ (m s2 < m s1)%nat) -> terminates s.
Proof.
intros Hs Hstep. remember (m s) as n eqn:Hn. revert s Hs Hn.
induction n as [n IH] using (well_founded_induction Wf_nat.lt_wf). intros s Hs ->.
constructor. intros s' H. destruct (Hstep s s' Hs H) as [Hs' Hlt]. by apply (IH (m s')).
Qed.
End Reachability.
Arguments reaches_refl {St step} s.
Arguments reaches_step {St step} s s1 s2.

(** ** Locks *)

(** [lock_acquire i l]: thread [i] takes the lock; [None] while it has to wait.
    [lock_release i l]: [None] when the call fails or is undefined.
    [lock_setup], [lock_teardown]: the program calls an initialisation before it
    creates the threads, and a destruction after it has printed. *)
Class LockOps (L : Type) := {
  lock_init : L;
  lock_acquire : nat -> L -> option L;
  lock_release : nat -> L -> option L;
  lock_setup : bool;
  lock_teardown : bool;
}.

(** A lock implements an abstract owner: free, or held by one thread. *)
Class LockSpec (L : Type) `{LockOps L} := {
  owned : L -> option nat -> Prop;
  owned_init : owned lock_init None;
  acquire_free l i : owned l None -> exists l', lock_acquire i l = Some l' /\ owned l' (Some i);
  acquire_held l i j : owned l (Some j) -> lock_acquire i l = None;
  release_held l i : owned l (Some i) -> exists l', lock_release i l = Some l' /\ owned l' None;
}.

(** A mutex knows its owner. *)
Definition mutex : Type := option nat.
#[export] Instance mutex_ops : LockOps mutex := {
  lock_init := None;
  lock_acquire i l := match l with None => Some (Some i) | Some _ => None end;
  lock_release i l := match l with Some j => if Nat.eqb i j then Some None else None | None => None end;
  lock_setup := false;
  lock_teardown := false;
}.

(** A spin lock is a flag; unlocking clears it, whoever does it. *)
Definition spinlock : Type := bool.
#[export] Instance spinlock_ops : LockOps spinlock := {
  lock_init := false;
  lock_acquire _ l := if l then None else Some true;
  lock_release _ _ := Some false;
  lock_setup := true;
  lock_teardown := false;
}.

(** A semaphore is a count, here initialised to 1. *)
Definition SEM_VALUE_MAX : Z := INT_MAX.
Definition semaphore : Type := Z.
#[export] Instance semaphore_ops : LockOps semaphore := {
  lock_init := 1;
  lock_acquire _ v := if v >? 0 then Some (v - 1) else None;
  lock_release _ v := if v <? SEM_VALUE_MAX then Some (v + 1) else None;
  lock_setup := true;
  lock_teardown := true;
}.

(** What each kind of lock is when it is free and when it is held. *)
Definition mutex_owned (l : mutex) (o : option nat) : Prop := l = o.
Definition spinlock_owned (l : spinlock) (o : option nat) : Prop :=
  l = match o with Some _ => true | None => false end.
Definition semaphore_owned (l : semaphore) (o : option nat) : Prop :=
  l = match o with Some _ => 0 | None => 1 end.

#[export] Instance mutex_spec : LockSpec mutex.
Proof.
  apply Build_LockSpec with (owned := mutex_owned); [done|..]; unfold mutex_owned.
  - intros l i ->. by eexists.
  - by intros l i j ->.
  - intros l i ->. simpl. rewrite Nat.eqb_refl. by eexists.
Defined.
#[export] Instance spinlock_spec : LockSpec spinlock.
Proof.
  apply Build_LockSpec with (owned := spinlock_owned); [done|..]; unfold spinlock_owned.
  - intros l i ->. by eexists.
  - by intros l i j ->.
  - intros l i ->. by eexists.
Defined.
#[export] Instance semaphore_spec : LockSpec semaphore.
Proof.
  apply Build_LockSpec with (owned := semaphore_owned); [done|..]; unfold semaphore_owned.
  - intros l i ->. by eexists.
  - by intros l i j ->.
  - intros l i ->. by eexists.
Defined.

(** ** The program *)

(** The number of loops each thread makes, from the command line. *)
Definition num_loops (argv : list string) : M Z :=
  if argc_of argv >? 1 then getInt (argv_opt argv 1) GN_GT_0 (Some "num_loops") else mret 10000000.

(** [threadFunc]: where the thread stands, and its [j] and [loc]. *)
Inductive tpc := TNew | THead | TAcquire | TLoad | TIncr | TStore | TRelease | TDone.
Record tstate := Thread { t_pc : tpc; t_j : Z; t_loc : Z }.

(** [main]: about to initialise the lock, create a thread, join one, print, and
    destroy the lock; then the process has exited, with status 0 or 1. *)
Inductive mpc := MSetup | MCreate1 | MCreate2 | MJoin1 | MJoin2 | MPrint | MTeardown | MExit (status : Z).

#[export] Instance tpc_eq_dec : EqDecision tpc.
Proof. solve_decision. Defined.
#[export] Instance mpc_eq_dec : EqDecision mpc.
Proof. solve_decision. Defined.

Section Program.
Context {L : Type} `{Hops : LockOps L} (loops : Z).

(** The whole process: the shared counter, the lock, the two threads, [main],
and what has been printed. *)
Record pstate := Process {
glob : Z; lk : L; th1 : tstate; th2 : tstate; main_pc : mpc; out : option Z }.

Definition new_thread : tstate := Thread TNew 0 0.
Definition started : tstate := Thread THead 0 0.
Definition process_start : pstate :=
Process 0 lock_init new_thread new_thread (if lock_setup then MSetup else MCreate1) None.

(** One step of thread [i] with a lock around the increment. *)
Definition thread_step (i : nat) (g : Z) (l : L) (t : tstate) : option (Z * L * tstate) :=
let 'Thread pc j loc := t in
match pc with
| TNew | TDone => None
| THead => Some (g, l, Thread (if j <? loops then TAcquire else TDone) j loc)
| TAcquire => match lock_acquire i l with Some l' => Some (g, l', Thread TLoad j loc) | None => None end
| TLoad => Some (g, l, Thread TIncr j g)
| TIncr => Some (g, l, Thread TStore j (wrap_s32 (loc + 1)))
| TStore => Some (loc, l, Thread TRelease j loc)
| TRelease => match lock_release i l with Some l' => Some (g, l', Thread THead (j + 1) loc) | None => None end
end.

(** The same without a lock, as in thread_incr.c. *)
Definition plain_step (i : nat) (g : Z) (l : L) (t : tstate) : option (Z * L * tstate) :=
let 'Thread pc j loc := t in
match pc with
| THead => Some (g, l, Thread (if j <? loops then TLoad else TDone) j loc)
| TLoad => Some (g, l, Thread TIncr j g)
| TIncr => Some (g, l, Thread TStore j (wrap_s32 (loc + 1)))
| TStore => Some (loc, l, Thread THead (j + 1) loc)
| _ => None
end.

(** One step of [main]. *)
Definition main_step (s : pstate) : option pstate :=
let 'Process g l t1 t2 pc o := s in
match pc with
| MSetup => Some (Process g l t1 t2 MCreate1 o)
| MCreate1 => Some (Process g l started t2 MCreate2 o)
| MCreate2 => Some (Process g l t1 started MJoin1 o)
| MJoin1 => if decide (t_pc t1 = TDone) then Some (Process g l t1 t2 MJoin2 o) else None
| MJoin2 => if decide (t_pc t2 = TDone) then Some (Process g l t1 t2 MPrint o) else None
| MPrint => Some (Process g l t1 t2 (if lock_teardown then MTeardown else MExit 0) (Some g))
| MTeardown => Some (Process g l t1 t2 (MExit 0) o)
| MExit _ => None
end.

Definition running (s : pstate) : bool := match main_pc s with MExit _ => false | _ => true end.

(** Who makes the next step. *)
Inductive who := Main | Thread1 | Thread2.

Definition step_of (tstep : nat -> Z -> L -> tstate -> option (Z * L * tstate)) (a : who) (s : pstate)
: option pstate :=
if running s then
match a with
| Main => main_step s
| Thread1 => match tstep 0%nat (glob s) (lk s) (th1 s) with
 | Some (g, l, t) => Some (Process g l t (th2 s) (main_pc s) (out s)) | None => None end
| Thread2 => match tstep 1%nat (glob s) (lk s) (th2 s) with
 | Some (g, l, t) => Some (Process g l (th1 s) t (main_pc s) (out s)) | None => None end
end
else None.

(** A call that fails makes its thread end the process with status 1. *)
Definition step_fail (s : pstate) : option pstate :=
if running s then Some (Process (glob s) (lk s) (th1 s) (th2 s) (MExit 1) (out s)) else None.

Definition pstep (tstep : nat -> Z -> L -> tstate -> option (Z * L * tstate)) (s s' : pstate) : Prop :=
(exists a, step_of tstep a s = Some s') \/ step_fail s = Some s'.

(** A run under a given schedule. *)
Fixpoint run_schedule (tstep : nat -> Z -> L -> tstate -> option (Z * L * tstate)) (l : list who) (s : pstate)
: option pstate :=
match l with
| [] => Some s
| a :: l => match step_of tstep a s with Some s' => run_schedule tstep l s' | None => None end
end.

Lemma run_schedule_reaches tstep l s s' : run_schedule tstep l s = Some s' -> reaches (pstep tstep) s s'.
Proof.
assert (Hgen : forall s0, reaches (pstep tstep) s0 s -> run_schedule tstep l s = Some s' ->
reaches (pstep tstep) s0 s'); [|intros; by apply (Hgen s); [constructor|]].
revert s. induction l as [|a l IH]; intros s s0 H0; simpl.
- by intros [= <-].
- destruct (step_of tstep a s) as [s1|] eqn:E; [|done]. apply IH.
eapply reaches_step; [exact H0|]. left. by exists a.
Qed.
End Program.
Arguments pstate L : clear implicits.

(** ** How far [main] has come *)

Section MainState.
Context {L : Type} `{Hops : LockOps L} (P : Z -> Prop).

(** [P] is what can be said of the number printed. *)
Definition printed_ok (s : pstate L) : Prop := exists v, out s = Some v /\ P v.

Definition main_inv (s : pstate L) : Prop :=
match main_pc s with
| MSetup | MCreate1 => t_pc (th1 s) = TNew /\ t_pc (th2 s) = TNew /\ out s = None
| MCreate2 => t_pc (th1 s) <> TNew /\ t_pc (th2 s) = TNew /\ out s = None
| MJoin1 => t_pc (th1 s) <> TNew /\ t_pc (th2 s) <> TNew /\ out s = None
| MJoin2 => t_pc (th1 s) = TDone /\ t_pc (th2 s) <> TNew /\ out s = None
| MPrint => t_pc (th1 s) = TDone /\ t_pc (th2 s) = TDone /\ out s = None
| MTeardown | MExit 0 => t_pc (th1 s) = TDone /\ t_pc (th2 s) = TDone /\ printed_ok s
| MExit _ => out s = None \/ printed_ok s
end.

Lemma main_inv_start : main_inv process_start.
Proof. unfold main_inv, process_start. simpl. by destruct lock_setup. Qed.

(** A thread that is neither new nor done may move. *)
Lemma main_inv_thread1 g l t g' l' t' t2 pc o :
t_pc t <> TNew -> t_pc t <> TDone -> t_pc t' <> TNew ->
main_inv (Process g l t t2 pc o) -> main_inv (Process g' l' t' t2 pc o).
Proof. unfold main_inv, printed_ok. simpl. destruct pc as [| | | | | | |[]]; intuition congruence. Qed.
Lemma main_inv_thread2 g l t g' l' t' t1 pc o :
t_pc t <> TNew -> t_pc t <> TDone -> t_pc t' <> TNew ->
main_inv (Process g l t1 t pc o) -> main_inv (Process g' l' t1 t' pc o).
Proof. unfold main_inv, printed_ok. simpl. destruct pc as [| | | | | | |[]]; intuition congruence. Qed.

(** [main] starts new threads, and prints once both are done. *)
Lemma main_step_inv s s' :
main_inv s -> (t_pc (th1 s) = TDone -> t_pc (th2 s) = TDone -> P (glob s)) -> main_step s = Some s' ->
main_inv s' /\ glob s' = glob s /\ lk s' = lk s
/\ (th1 s' = th1 s \/ t_pc (th1 s) = TNew /\ th1 s' = started)
/\ (th2 s' = th2 s \/ t_pc (th2 s) = TNew /\ th2 s' = started).
Proof.
intros Hm HP. destruct s as [g l t1 t2 pc ou]. unfold main_step, main_inv, printed_ok in *. simpl in *.
destruct pc as [| | | | | | |st]; try done; repeat case_decide; try done; intros [= <-]; simpl; intuition (try done).
destruct lock_teardown; simpl; intuition (try done); by exists g; auto.
Qed.

Lemma main_inv_out s : main_inv s ->
(out s = None \/ printed_ok s) /\ (main_pc s = MExit 0 -> printed_ok s).
Proof.
unfold main_inv. destruct (main_pc s) as [| | | | | | |[]]; intros Hm; split; try done; try tauto; by left.
Qed.

Lemma main_inv_fail s s' : main_inv s -> step_fail s = Some s' -> main_inv s'.
Proof.
destruct s as [g l t1 t2 pc ou]. unfold main_inv, step_fail, printed_ok, running. simpl.
destruct pc; try done; intros Hm [= <-]; simpl; intuition.
Qed.
End MainState.

(** ** The protected programs *)

Section Protected.
Context {L : Type} `{Hspec : LockSpec L} (loops : Z) (Hloops : 0 <= loops).
Abbreviation pstep_ := (pstep (L:=L) (thread_step loops)).

(** The increments a thread has stored. *)
Definition stored (t : tstate) : Z := t_j t + match t_pc t with TRelease => 1 | _ => 0 end.

(** Thread [i] when the counter is [g] and the lock belongs to [o]. *)
Definition thread_inv (i : nat) (g : Z) (o : option nat) (t : tstate) : Prop :=
0 <= t_j t <= loops /\
match t_pc t with
| TNew => t_j t = 0 /\ o <> Some i
| THead => o <> Some i
| TAcquire => t_j t < loops /\ o <> Some i
| TLoad => t_j t < loops /\ o = Some i
| TIncr => t_j t < loops /\ o = Some i /\ t_loc t = g
| TStore => t_j t < loops /\ o = Some i /\ t_loc t = wrap_s32 (g + 1)
| TRelease => t_j t < loops /\ o = Some i
| TDone => t_j t = loops /\ o <> Some i
end.

Definition total_text : Z := wrap_s32 (2 * loops).

Definition state_inv (s : pstate L) : Prop :=
exists o, owned (lk s) o
/\ thread_inv 0 (glob s) o (th1 s) /\ thread_inv 1 (glob s) o (th2 s)
/\ glob s = wrap_s32 (stored (th1 s) + stored (th2 s))
/\ (forall i, o = Some i -> i = 0%nat \/ i = 1%nat)
/\ main_inv (fun v => v = total_text) s.

(** In the critical section. *)
Definition critical (t : tstate) : bool :=
match t_pc t with TLoad | TIncr | TStore | TRelease => true | _ => false end.

Lemma state_inv_exclusion s : state_inv s -> critical (th1 s) && critical (th2 s) = false.
Proof.
intros (o & _ & [_ H1] & [_ H2] & _). unfold critical.
destruct (t_pc (th1 s)), (t_pc (th2 s)); try done; exfalso; intuition congruence.
Qed.

Lemma inv_start : state_inv (process_start (L:=L)).
Proof using Hspec Hloops.
exists None. split; [apply owned_init|]. split; [|split; [|split; [|split]]]; try apply main_inv_start; try done.
Qed.

(** What one step of thread [i] does to itself, to the owner and to the total. *)
Lemma thread_step_inv i g l o t g' l' t' :
owned l o -> thread_inv i g o t -> thread_step loops i g l t = Some (g', l', t') ->
exists o', owned l' o' /\ thread_inv i g' o' t'
/\ (o' = o \/ o = None /\ o' = Some i \/ o = Some i /\ o' = None)
/\ (g' = g /\ stored t' = stored t \/ o = Some i /\ g' = wrap_s32 (g + 1) /\ stored t' = stored t + 1)
/\ t_pc t <> TNew /\ t_pc t <> TDone /\ t_pc t' <> TNew.
Proof using Hspec.
intros Hl [Hj Ht] Hs. destruct t as [pc j loc]. unfold thread_inv, stored. simpl in *.
destruct pc; simpl in *; try done.
- injection Hs as <- <- <-. exists o. destruct (j <? loops) eqn:E; zbool; simpl; split_and!; auto; try lia.
- destruct o as [k|]; [by rewrite (acquire_held l i k Hl) in Hs|].
destruct (acquire_free l i Hl) as (l1 & Ha & Hl1). rewrite Ha in Hs. injection Hs as <- <- <-.
exists (Some i). simpl. split_and!; auto; try lia.
- injection Hs as <- <- <-. exists o. simpl. split_and!; auto; tauto.
- injection Hs as <- <- <-. exists o. destruct Ht as (? & ? & ->). simpl. split_and!; auto; lia.
- injection Hs as <- <- <-. exists o. destruct Ht as (? & ? & ->). simpl. split_and!; auto; try lia. right. split_and!; auto; lia.
- destruct Ht as [Hlt ->]. destruct (release_held l i Hl) as (l1 & Ha & Hl1). rewrite Ha in Hs.
injection Hs as <- <- <-. exists None. simpl. split_and!; auto; try lia.
Qed.

(** The other thread does not notice. *)
Lemma thread_inv_frame i k g o t g' o' :
i <> k -> thread_inv k g o t ->
(o' = o \/ o = None /\ o' = Some i \/ o = Some i /\ o' = None) -> (g' = g \/ o = Some i) ->
thread_inv k g' o' t.
Proof.
intros Hik [Hj Ht] Ho Hg. split; [done|].
destruct (t_pc t); destruct Ho as [->|[[-> ->]|[-> ->]]]; destruct Hg as [->|Hg];
intuition (try congruence).
Qed.
Lemma stored_total g g' (a b a' : Z) :
g = wrap_s32 (a + b) ->
g' = g /\ a' = a \/ g' = wrap_s32 (g + 1) /\ a' = a + 1 -> g' = wrap_s32 (a' + b).
Proof.
intros -> [[-> ->]|[-> ->]]; [done|]. rewrite wrap_s32_add. f_equal. lia.
Qed.

Lemma inv_thread1 s s' : state_inv s -> step_of (thread_step loops) Thread1 s = Some s' -> state_inv s'.
Proof using Hspec Hloops.
intros (o & Hl & H1 & H2 & Hg & Ho & Hm). unfold step_of. destruct (running s); [|done].
destruct s as [g l t1 t2 pc ou]. simpl in *.
destruct (thread_step loops 0 g l t1) as [[[g' l'] t']|] eqn:E; [|done]. intros [= <-].
destruct (thread_step_inv _ _ _ _ _ _ _ _ Hl H1 E) as (o' & Hl' & H1' & Ho' & Hst & Hp1 & Hp2 & Hp3).
exists o'. simpl. split; [exact Hl'|]. split; [exact H1'|]. split; [|split; [|split]].
- eapply (thread_inv_frame 0); [done|exact H2|exact Ho'|]. intuition.
- eapply stored_total; [exact Hg|]. intuition.
- intros i ->. destruct Ho' as [<-|[[_ [= ->]]|[_ [=]]]]; [by apply Ho|by left].
- eapply main_inv_thread1; [| | |exact Hm]; done.
Qed.

Lemma inv_thread2 s s' : state_inv s -> step_of (thread_step loops) Thread2 s = Some s' -> state_inv s'.
Proof using Hspec Hloops.
intros (o & Hl & H1 & H2 & Hg & Ho & Hm). unfold step_of. destruct (running s); [|done].
destruct s as [g l t1 t2 pc ou]. simpl in *.
destruct (thread_step loops 1 g l t2) as [[[g' l'] t']|] eqn:E; [|done]. intros [= <-].
destruct (thread_step_inv _ _ _ _ _ _ _ _ Hl H2 E) as (o' & Hl' & H2' & Ho' & Hst & Hp1 & Hp2 & Hp3).
exists o'. simpl. split; [exact Hl'|]. split; [|split; [exact H2'|split; [|split]]].
- eapply (thread_inv_frame 1); [done|exact H1|exact Ho'|]. intuition.
- rewrite (Z.add_comm (stored t1)) in *. eapply stored_total; [exact Hg|]. intuition.
- intros i ->. destruct Ho' as [<-|[[_ [= ->]]|[_ [=]]]]; [by apply Ho|by right].
- eapply main_inv_thread2; [| | |exact Hm]; done.
Qed.

Lemma thread_inv_started i g o t : t_pc t = TNew -> thread_inv i g o t -> thread_inv i g o started /\ stored started = stored t.
Proof using Hloops.
intros Hp [Hj Ht]. destruct t as [pc j c]. unfold stored. simpl in *. subst pc. destruct Ht as [-> Ho].
by split; [split|].
Qed.

Lemma inv_main s s' : state_inv s -> main_step s = Some s' -> state_inv s'.
Proof using Hspec Hloops.
intros (o & Hl & H1 & H2 & Hg & Ho & Hm) Hs.
destruct (main_step_inv _ s s' Hm) as (Hm' & Hgl & Hlk & Ht1 & Ht2); [|done|].
{ intros Hd1 Hd2. rewrite Hg. unfold total_text, stored. destruct H1 as [_ H1], H2 as [_ H2].
rewrite Hd1 in *. rewrite Hd2 in *. destruct H1 as [-> _], H2 as [-> _]. f_equal. lia. }
exists o. rewrite Hgl, Hlk.
assert (Hn1 : thread_inv 0 (glob s) o (th1 s') /\ stored (th1 s') = stored (th1 s))
by (destruct Ht1 as [->|[Hp ->]]; [done|by apply thread_inv_started]).
assert (Hn2 : thread_inv 1 (glob s) o (th2 s') /\ stored (th2 s') = stored (th2 s))
by (destruct Ht2 as [->|[Hp ->]]; [done|by apply thread_inv_started]).
destruct Hn1 as [Hn1 ->], Hn2 as [Hn2 ->]. by repeat (split; [done|]).
Qed.

Lemma inv_fail s s' : state_inv s -> step_fail s = Some s' -> state_inv s'.
Proof using Hspec Hloops.
intros (o & Hl & H1 & H2 & Hg & Ho & Hm) Hf. pose proof (main_inv_fail _ s s' Hm Hf) as Hm'.
unfold step_fail in Hf. destruct (running s); [|done]. injection Hf as <-.
exists o. by repeat (split; [done|]).
Qed.

Lemma inv_step s s' : state_inv s -> pstep_ s s' -> state_inv s'.
Proof using Hspec Hloops.
intros Hs [[a Ha]|Hf]; [|by eapply inv_fail]. destruct a.
- unfold step_of in Ha. destruct (running s); [|done]. by eapply inv_main.
- by eapply inv_thread1.
- by eapply inv_thread2.
Qed.

Lemma inv_reachable s : reaches pstep_ process_start s -> state_inv s.
Proof using Hspec Hloops. apply reaches_inv; [apply inv_start|apply inv_step]. Qed.

(** ** Termination *)

(** Steps left to a thread, to [main], to the process. *)
Definition thread_left (t : tstate) : Z :=
let r := 6 * (loops - t_j t) in
match t_pc t with
| TNew => r + 2 | THead => r + 1 | TAcquire => r | TLoad => r - 1 | TIncr => r - 2
| TStore => r - 3 | TRelease => r - 4 | TDone => 0
end.
Definition main_left (pc : mpc) : Z :=
match pc with
| MSetup => 7 | MCreate1 => 6 | MCreate2 => 5 | MJoin1 => 4 | MJoin2 => 3 | MPrint => 2 | MTeardown => 1
| MExit _ => 0
end.
Definition process_left (s : pstate L) : nat :=
Z.to_nat (thread_left (th1 s) + thread_left (th2 s) + main_left (main_pc s)).

Lemma thread_left_nonneg i g o t : thread_inv i g o t -> 0 <= thread_left t.
Proof. intros [Hj Ht]. unfold thread_left. destruct (t_pc t); lia. Qed.

Lemma thread_step_left i g l o t g' l' t' :
owned l o -> thread_inv i g o t -> thread_step loops i g l t = Some (g', l', t') ->
0 <= thread_left t' < thread_left t.
Proof using Hspec Hloops.
intros Hl Hinv Hs. destruct (thread_step_inv _ _ _ _ _ _ _ _ Hl Hinv Hs) as (o' & _ & Hinv' & _).
split; [by eapply thread_left_nonneg|]. destruct Hinv as [Hj Ht], t as [pc j loc]. unfold thread_left. simpl in *.
destruct pc; try done; simpl in Hs.
- injection Hs as <- <- <-. destruct (j <? loops) eqn:E; zbool; simpl; lia.
- destruct (lock_acquire i l); [|done]. injection Hs as <- <- <-. simpl. lia.
- injection Hs as <- <- <-. simpl. lia.
- injection Hs as <- <- <-. simpl. lia.
- injection Hs as <- <- <-. simpl. lia.
- destruct (lock_release i l); [|done]. injection Hs as <- <- <-. simpl. lia.
Qed.

Lemma process_decreases s s' : state_inv s -> pstep_ s s' -> (process_left s' < process_left s)%nat.
Proof using Hspec Hloops.
intros (o & Hl & H1 & H2 & _ & _ & Hm) Hs.
pose proof (thread_left_nonneg _ _ _ _ H1) as N1. pose proof (thread_left_nonneg _ _ _ _ H2) as N2.
destruct s as [g l t1 t2 pc ou]. unfold pstep, step_of, step_fail, process_left, running in *. simpl in *.
destruct Hs as [[a Ha]|Hf].
2: { destruct pc; try done; injection Hf as <-; simpl; lia. }
destruct pc; try done; destruct a; simpl in Ha.
all: try (destruct (thread_step loops 0 g l t1) as [[[g' l'] t']|] eqn:E; [|done]; injection Ha as <-;
pose proof (thread_step_left _ _ _ _ _ _ _ _ Hl H1 E); simpl; lia).
all: try (destruct (thread_step loops 1 g l t2) as [[[g' l'] t']|] eqn:E; [|done]; injection Ha as <-;
pose proof (thread_step_left _ _ _ _ _ _ _ _ Hl H2 E); simpl; lia).
all: try (case_decide; [|done]); injection Ha as <-; simpl; try lia.
- destruct Hm as (Hp & _), H1 as [_ H1]. simpl in Hp. rewrite Hp in H1.
unfold thread_left in *. rewrite Hp in *. simpl. lia.
- destruct Hm as (_ & Hp & _), H2 as [_ H2]. simpl in Hp. rewrite Hp in H2.
unfold thread_left in *. rewrite Hp in *. simpl. lia.
- destruct lock_teardown; simpl; lia.
Qed.

(** Somebody can always move: the process never hangs. *)
Lemma process_moves s : state_inv s -> running s = true -> exists a s', step_of (thread_step loops) a s = Some s'.
Proof using Hspec Hloops.
intros (o & Hl & H1 & H2 & _ & Ho & Hm) Hr.
assert (Hlast : forall i g t, thread_inv i g o t -> t_pc t <> TNew -> t_pc t <> TDone ->
(o = None \/ o = Some i) -> exists r, thread_step loops i g (lk s) t = Some r).
{ intros i g [pc j loc] [_ Ht] Hn Hd Hoi. simpl in *. destruct pc; try done; simpl; try by eexists.
- destruct Ht as [_ Ht]. destruct Hoi as [->|]; [|done].
destruct (acquire_free _ i Hl) as (l' & -> & _). by eexists.
- destruct Ht as [_ ->]. destruct (release_held _ i Hl) as (l' & -> & _). by eexists. }
destruct s as [g l t1 t2 pc ou]. unfold step_of. rewrite Hr. unfold main_inv, running in *. simpl in *.
destruct pc; try done; try (exists Main; by eexists).
- destruct Hm as (Hn1 & Hn2 & _). destruct (decide (t_pc t1 = TDone)) as [Hd|Hd].
{ exists Main. by eexists. }
destruct (decide (o = Some 1%nat)) as [->|Ho1].
+ assert (Hc : t_pc t2 <> TDone) by (intros Hd2; destruct H2 as [_ H2]; rewrite Hd2 in H2; by apply H2).
destruct (Hlast 1%nat g t2 H2 Hn2 Hc) as [[[g' l'] t'] Hs]; [by right|]. exists Thread2. simpl. rewrite Hs. by eexists.
+ destruct (Hlast 0%nat g t1 H1 Hn1 Hd) as [[[g' l'] t'] Hs].
{ destruct o as [i|]; [|by left]. right. destruct (Ho i eq_refl) as [->| ->]; [done|congruence]. }
exists Thread1. simpl. rewrite Hs. by eexists.
- destruct Hm as (Hd1 & Hn2 & _). destruct (decide (t_pc t2 = TDone)) as [Hd|Hd].
{ exists Main. by eexists. }
destruct (Hlast 1%nat g t2 H2 Hn2 Hd) as [[[g' l'] t'] Hs].
{ destruct o as [i|]; [|by left]. right. destruct (Ho i eq_refl) as [->| ->]; [|done].
destruct H1 as [_ H1]. rewrite Hd1 in H1. by destruct H1. }
exists Thread2. simpl. rewrite Hs. by eexists.
Qed.

Lemma protected_terminates : terminates pstep_ process_start.
Proof using Hspec Hloops.
apply (terminates_measure pstep_ state_inv process_left); [apply inv_start|].
intros s1 s2 H1 Hs. split; [by eapply inv_step|by apply process_decreases].
Qed.

(** What can be said of a reachable state. *)
Lemma protected_reachable s : reaches pstep_ process_start s ->
critical (th1 s) && critical (th2 s) = false
/\ (main_pc s = MExit 0 -> out s = Some total_text)
/\ (out s = None \/ out s = Some total_text).
Proof using Hspec Hloops.
intros Hr. pose proof (inv_reachable s Hr) as Hinv. split; [by apply state_inv_exclusion|].
destruct Hinv as (o & _ & _ & _ & _ & _ & Hm). destruct (main_inv_out _ s Hm) as [Ho He]. split.
- intros Hpc. destruct (He Hpc) as (v & Hv & ->). done.
- destruct Ho as [Ho|(v & Hv & ->)]; [by left|by right].
Qed.
End Protected.

(** ** The unprotected program *)

#[export] Instance no_lock : LockOps unit := {
  lock_init := tt;
  lock_acquire _ l := Some l;
  lock_release _ l := Some l;
  lock_setup := false;
  lock_teardown := false;
}.

Section Unprotected.
Context (loops : Z) (Hloops : 0 < loops) (Hint : 2 * loops <= INT_MAX).
Abbreviation plain := (plain_step (L:=unit) loops).

(** The most a thread can hold when [n] increments have been stored. *)
Definition plain_inv (n : Z) (t : tstate) : Prop :=
0 <= t_j t <= loops /\
match t_pc t with
| TNew => t_j t = 0
| TLoad => t_j t < loops
| TIncr => t_j t < loops /\ 0 <= t_loc t <= n
| TStore => t_j t < loops /\ 1 <= t_loc t <= n + 1
| TDone => t_j t = loops
| _ => True
end.
Definition glob_inv (n g : Z) : Prop := 0 <= g <= n /\ (0 < n -> 1 <= g).
Definition total_stores (s : pstate unit) : Z := t_j (th1 s) + t_j (th2 s).
Definition race_inv (s : pstate unit) : Prop :=
plain_inv (total_stores s) (th1 s) /\ plain_inv (total_stores s) (th2 s)
/\ glob_inv (total_stores s) (glob s) /\ main_inv (fun v => 1 <= v <= 2 * loops) s.

Lemma plain_inv_mono n n' t : plain_inv n t -> n <= n' -> plain_inv n' t.
Proof. intros [Hj Ht] Hn. split; [done|]. destruct (t_pc t); intuition lia. Qed.

Lemma plain_step_inv i g (l : unit) t k g' l' t' :
k <= loops -> plain_inv (t_j t + k) t -> glob_inv (t_j t + k) g -> 0 <= k ->
plain_step loops i g l t = Some (g', l', t') ->
plain_inv (t_j t' + k) t' /\ glob_inv (t_j t' + k) g' /\ t_j t <= t_j t'
/\ t_pc t <> TNew /\ t_pc t <> TDone /\ t_pc t' <> TNew.
Proof using Hloops Hint.
intros Hk [Hj Ht] [Hg Hg1] Hk0 Hs. destruct t as [pc j c]. unfold plain_inv, glob_inv. simpl in *.
destruct pc; try done; injection Hs as <- <- <-; simpl in *.
- destruct (j <? loops) eqn:E; zbool; intuition (try done; try lia).
- intuition (try done; try lia).
- rewrite wrap_s32_id by (unfold in_int, INT_MIN, INT_MAX in *; lia). intuition (try done; try lia).
- intuition (try done; try lia).
Qed.

Lemma race_step s s' : race_inv s -> pstep plain s s' -> race_inv s'.
Proof using Hloops Hint.
intros (H1 & H2 & Hg & Hm) [[a Ha]|Hf].
2: { pose proof (main_inv_fail _ s s' Hm Hf) as Hm'. unfold step_fail in Hf. destruct (running s); [|done].
 injection Hf as <-. by repeat (split; [done|]). }
unfold step_of in Ha. destruct (running s); [|done]. destruct a.
- destruct (main_step_inv _ s s' Hm) as (Hm' & Hgl & Hlk & Ht1 & Ht2); [|done|].
{ intros Hd1 Hd2. unfold total_stores, glob_inv in Hg. destruct H1 as [_ H1], H2 as [_ H2].
rewrite Hd1 in *. rewrite Hd2 in *. rewrite H1, H2 in *. lia. }
assert (Hnew : forall n t t', plain_inv n t -> t' = t \/ t_pc t = TNew /\ t' = started ->
plain_inv n t' /\ t_j t' = t_j t).
{ intros n t t' [Hj Ht] [->|[Hp ->]]; [done|]. rewrite Hp in Ht. split; [split; simpl; lia|done]. }
destruct (Hnew _ _ _ H1 Ht1) as [Hn1 E1], (Hnew _ _ _ H2 Ht2) as [Hn2 E2].
unfold race_inv, total_stores in *. rewrite E1, E2, Hgl. done.
- destruct s as [g l t1 t2 pc ou]. unfold race_inv, total_stores in *. simpl in *.
destruct (plain_step loops 0 g l t1) as [[[g' l'] t']|] eqn:E; [|done]. injection Ha as <-. simpl.
destruct (plain_step_inv _ _ _ _ (t_j t2) _ _ _ ltac:(apply H2) H1 Hg ltac:(apply H2) E) as (Hn & Hg' & Hle & Hp1 & Hp2 & Hp3).
split; [done|]. split; [eapply plain_inv_mono; [done|lia]|]. split; [done|].
eapply main_inv_thread1; [| | |exact Hm]; done.
- destruct s as [g l t1 t2 pc ou]. unfold race_inv, total_stores in *. simpl in *.
destruct (plain_step loops 1 g l t2) as [[[g' l'] t']|] eqn:E; [|done]. injection Ha as <-. simpl.
rewrite (Z.add_comm (t_j t1)) in *.
destruct (plain_step_inv _ _ _ _ (t_j t1) _ _ _ ltac:(apply H1) H2 Hg ltac:(apply H1) E) as (Hn & Hg' & Hle & Hp1 & Hp2 & Hp3).
split; [eapply plain_inv_mono; [done|lia]|]. split; [done|]. split; [done|].
eapply main_inv_thread2; [| | |exact Hm]; done.
Qed.

Lemma race_reachable s v : reaches (pstep plain) process_start s -> out s = Some v -> 1 <= v <= 2 * loops.
Proof using Hloops Hint.
intros Hr Hv. assert (Hinv : race_inv s).
{ revert Hr. apply reaches_inv; [|apply race_step].
unfold race_inv, plain_inv, glob_inv, total_stores. simpl. intuition (try lia). apply main_inv_start. }
destruct Hinv as (_ & _ & _ & Hm). destruct (main_inv_out _ s Hm) as [[Ho|(v' & Hv' & Hb)] _]; congruence.
Qed.
(** In lockstep both threads load the same value, and one increment of two is lost. *)
Definition lockstep (k c : Z) : pstate unit :=
Process k tt (Thread THead k c) (Thread THead k c) MJoin1 None.
Definition round : list who := [Thread1; Thread2; Thread1; Thread2; Thread1; Thread2; Thread1; Thread2].

Lemma lockstep_round k c : 0 <= k < loops -> run_schedule plain round (lockstep k c) = Some (lockstep (k + 1) (k + 1)).
Proof using Hint.
intros Hk. unfold run_schedule, round, lockstep, step_of. simpl.
replace (k <? loops) with true by (symmetry; apply Z.ltb_lt; lia). simpl.
rewrite wrap_s32_id by (unfold in_int, INT_MIN, INT_MAX in *; lia). done.
Qed.

Lemma lockstep_reached n : Z.of_nat n <= loops -> exists c, reaches (pstep plain) process_start (lockstep (Z.of_nat n) c).
Proof using Hint.
induction n as [|n IH]; intros Hn.
- exists 0. by apply (run_schedule_reaches plain [Main; Main]).
- destruct IH as [c Hc]; [lia|]. exists (Z.of_nat n + 1). rewrite Nat2Z.inj_succ.
apply (reaches_trans _ _ _ _ Hc). apply (run_schedule_reaches plain round).
rewrite lockstep_round by lia. done.
Qed.

Lemma lost_updates : exists s, reaches (pstep plain) process_start s /\ main_pc s = MExit 0 /\ out s = Some loops.
Proof using Hloops Hint.
destruct (lockstep_reached (Z.to_nat loops)) as [c Hc]; [lia|]. rewrite Z2Nat.id in Hc by lia.
exists (Process loops tt (Thread TDone loops c) (Thread TDone loops c) (MExit 0) (Some loops)).
split; [|done]. apply (reaches_trans _ _ _ _ Hc).
apply (run_schedule_reaches plain [Thread1; Thread2; Main; Main; Main]).
unfold run_schedule, lockstep, step_of. simpl. by rewrite Z.ltb_irrefl.
Qed.
End Unprotected.

(** ** The four programs *)

Record machine (L : Type) := Machine { m_start : pstate L; m_step : pstate L -> pstate L -> Prop }.
Arguments Machine {L} _ _.
Arguments m_start {L} _.
Arguments m_step {L} _ _ _.

Definition thread_incr (loops : Z) : machine unit := Machine process_start (pstep (plain_step loops)).
Definition thread_incr_mutex (loops : Z) : machine mutex := Machine process_start (pstep (thread_step loops)).
Definition thread_incr_spinlock (loops : Z) : machine spinlock :=
  Machine process_start (pstep (thread_step loops)).
Definition thread_incr_psem (loops : Z) : machine semaphore :=
  Machine process_start (pstep (thread_step loops)).

(** Exclusion, and the right number printed. *)
Definition increments_exactly {L} (loops : Z) (m : machine L) : Prop :=
  forall s, reaches (m_step m) (m_start m) s ->
    critical (th1 s) && critical (th2 s) = false
    /\ (main_pc s = MExit 0 -> out s = Some (wrap_s32 (2 * loops)))
    /\ (out s = None \/ out s = Some (wrap_s32 (2 * loops))).

(** No infinite execution, and no state to hang in. *)
Definition always_ends {L} (m : machine L) : Prop :=
  terminates (m_step m) (m_start m)
  /\ forall s, reaches (m_step m) (m_start m) s ->
       (exists status, main_pc s = MExit status) \/ exists s', m_step m s s'.

Lemma lock_increments {L : Type} `{LockSpec L} loops :
  0 <= loops -> increments_exactly loops (Machine (process_start (L:=L)) (pstep (thread_step loops))).
Proof. intros Hl s Hr. by apply protected_reachable. Qed.

Lemma lock_ends {L : Type} `{LockSpec L} loops :
  0 <= loops -> always_ends (Machine (process_start (L:=L)) (pstep (thread_step loops))).
Proof.
  intros Hl. split; [by apply protected_terminates|]. intros s Hr.
  destruct (running s) eqn:E.
  - right. destruct (process_moves loops Hl s (inv_reachable loops Hl s Hr) E) as (a & s' & Hs).
    exists s'. left. by exists a.
  - left. unfold running in E. destruct (main_pc s); try done. by eexists.
Qed.

(** ** The results *)


(** Two loops each, the threads taking turns at the semaphore. *)
Definition turns : list who :=
  [Main; Main; Main; Thread1; Thread2; Thread1; Thread1; Thread1; Thread1; Thread1; Thread2; Thread1; Thread2;
   Thread2; Thread2; Thread2; Thread1; Thread1; Thread1; Thread1; Thread1; Thread2; Thread1; Thread2;
   Thread2; Thread2; Thread2; Thread2; Thread2; Main; Main; Main; Main].
Definition final_state : pstate semaphore :=
  Process 4 1 (Thread TDone 2 3) (Thread TDone 2 4) (MExit 0) (Some 4).

Lemma turns_run : run_schedule (thread_step 2) turns (process_start (L:=semaphore)) = Some final_state.
Proof. reflexivity. Qed.


(** Without a lock the same program loses updates: what it prints is only
    known to lie between 1 and twice the number of loops, and there is always an
    execution in which the two threads run in lockstep, half of all increments
    are lost, and the process ends with status 0. *)
Theorem thread_incr_races loops :
  0 < loops -> 2 * loops <= INT_MAX ->
  (forall s v, reaches (m_step (thread_incr loops)) (m_start (thread_incr loops)) s -> out s = Some v ->
     1 <= v <= 2 * loops)
  /\ exists s, reaches (m_step (thread_incr loops)) (m_start (thread_incr loops)) s
               /\ main_pc s = MExit 0 /\ out s = Some loops.
Proof. intros Hl Hi. split; [intros s v; by apply race_reachable|by apply lost_updates]. Qed.

Lemma thread_incr_races_witness :
  exists s, reaches (m_step (thread_incr 5)) process_start s /\ main_pc s = MExit 0 /\ out s = Some 5.
Proof. apply (thread_incr_races 5); [reflexivity|discriminate]. Defined.
