(* ===== verification/Workers.v ===== *)
(** * Workers: a list of threads that share a mutex with [main]

    The lemmas the condition-variable programs ([Producers], [Multijoin]) share:
    totals over the list of threads when one of them moves, and who holds the
    mutex ([main] is thread 0, worker [i] is thread [S i]); and the steps of such
    a process. *)

From S2P Require Import Prelude Threads.

(** ** Totals over the workers *)

Section Totals.
Context {W : Type} (f : W -> Z).

Definition sum_over (ws : list W) : Z := fold_right (fun w n => f w + n) 0 ws.

Lemma sum_over_nil : sum_over [] = 0.
Proof. done. Qed.

Lemma sum_over_cons w ws : sum_over (w :: ws) = f w + sum_over ws.
Proof. done. Qed.

Lemma sum_over_insert ws i w w' : ws !! i = Some w -> sum_over (<[i := w']> ws) = sum_over ws - f w + f w'.
Proof.
revert i. induction ws as [|v ws IH]; intros [|i] H; simpl in *; simplify_eq.
- lia.
- rewrite (IH i H). lia.
Qed.

Lemma sum_over_nonneg ws : (forall i w, ws !! i = Some w -> 0 <= f w) -> 0 <= sum_over ws.
Proof.
induction ws as [|w ws IH]; intros H; simpl; [lia|]. pose proof (H 0%nat w eq_refl).
assert (0 <= sum_over ws) by (apply IH; intros i; apply (H (S i))). lia.
Qed.

Lemma sum_over_elem ws i w : (forall j v, ws !! j = Some v -> 0 <= f v) -> ws !! i = Some w -> f w <= sum_over ws.
Proof.
revert i. induction ws as [|v ws IH]; intros [|i] Hall H; simpl in *; simplify_eq.
- pose proof (sum_over_nonneg ws (fun j => Hall (S j))). lia.
- pose proof (Hall 0%nat v eq_refl). specialize (IH i (fun j => Hall (S j)) H). lia.
Qed.

Lemma sum_over_app ws vs : sum_over (ws ++ vs) = sum_over ws + sum_over vs.
Proof. induction ws as [|w ws IH]; simpl; [done|]. rewrite IH. lia. Qed.

Lemma sum_over_take_S ws k w : ws !! k = Some w -> sum_over (take (S k) ws) = sum_over (take k ws) + f w.
Proof. intros H. rewrite (take_S_r _ _ _ H), sum_over_app. simpl. lia. Qed.

(** A positive total has a positive term. *)
Lemma sum_over_pos ws : 0 < sum_over ws -> exists i w, ws !! i = Some w /\ 0 < f w.
Proof.
induction ws as [|v ws IH]; simpl; [lia|]. intros H. destruct (decide (0 < f v)) as [Hv|Hv].
- by exists 0%nat, v.
- destruct IH as (i & w & Hi & Hw); [lia|]. by exists (S i), w.
Qed.
End Totals.

Lemma sum_over_ext {W} (f g : W -> Z) ws : (forall i w, ws !! i = Some w -> f w = g w) -> sum_over f ws = sum_over g ws.
Proof.
  induction ws as [|w ws IH]; intros H; simpl; [done|]. rewrite (H 0%nat w eq_refl), IH; [done|].
  intros i. apply (H (S i)).
Qed.

Lemma sum_over_le {W} (f g : W -> Z) ws : (forall i w, ws !! i = Some w -> f w <= g w) -> sum_over f ws <= sum_over g ws.
Proof.
  induction ws as [|w ws IH]; intros H; simpl; [lia|]. pose proof (H 0%nat w eq_refl).
  assert (sum_over f ws <= sum_over g ws) by (apply IH; intros i; apply (H (S i))). lia.
Qed.

Lemma sum_over_0 {W} (f : W -> Z) ws : (forall i w, ws !! i = Some w -> f w = 0) -> sum_over f ws = 0.
Proof. induction ws as [|w ws IH]; intros H; simpl; [done|]. rewrite (H 0%nat w eq_refl), IH; [done|]. intros i. apply (H (S i)). Qed.

Lemma sum_over_sub {W} (f g : W -> Z) ws : sum_over (fun w => f w - g w) ws = sum_over f ws - sum_over g ws.
Proof. induction ws as [|w ws IH]; simpl; [done|]. rewrite IH. lia. Qed.

Lemma sum_over_prefix {W} (f : W -> Z) ws k :
  Forall (fun w => 0 <= f w) ws -> 0 <= sum_over f (take k ws) <= sum_over f ws.
Proof.
  intros H. rewrite Forall_lookup in H.
  assert (Hs : sum_over f ws = sum_over f (take k ws) + sum_over f (drop k ws))
    by (by rewrite <- sum_over_app, take_drop).
  assert (0 <= sum_over f (take k ws)).
  { apply sum_over_nonneg. intros i w Hw. apply lookup_take_Some in Hw as [Hw _]. by apply (H i). }
  assert (0 <= sum_over f (drop k ws)) by (apply sum_over_nonneg; intros i w; rewrite lookup_drop; apply H). lia.
Qed.

(** ** An assertion about every worker *)

(** The worker that moved, or one that did not. *)
Lemma lookup_moved {W} (ws : list W) i j w' v :
  <[i := w']> ws !! j = Some v -> (i = j /\ v = w') \/ (i <> j /\ ws !! j = Some v).
Proof. rewrite list_lookup_insert_Some. intuition. Qed.

Lemma all_insert {W} (P : nat -> W -> Prop) (ws : list W) i w' :
  (forall j v, ws !! j = Some v -> P j v) -> P i w' -> forall j v, <[i := w']> ws !! j = Some v -> P j v.
Proof. intros H Hi j v Hj. destruct (lookup_moved _ _ _ _ _ Hj) as [[<- ->]|[_ Hj']]; [done|by apply H]. Qed.

(** ** Who holds the mutex *)

Section Owner.
Context {W : Type} (holds : W -> bool).

(** [mh]: [main] is between its lock and unlock; a worker [w] is when [holds w]. *)
Definition mutex_inv (mh : bool) (m : mutex) (ws : list W) : Prop :=
(m = Some 0%nat <-> mh = true)
/\ (forall i w, ws !! i = Some w -> (m = Some (S i) <-> holds w = true))
/\ (forall i, m = Some (S i) -> exists w, ws !! i = Some w).

Lemma mutex_inv_start ws : (forall i w, ws !! i = Some w -> holds w = false) -> mutex_inv false None ws.
Proof.
intros H. split; [done|]. split; [|done]. intros i w Hw. rewrite (H i w Hw). done.
Qed.

(** Two never hold it. *)
Lemma mutex_excl_main m ws i w : mutex_inv true m ws -> ws !! i = Some w -> holds w = false.
Proof.
intros (H0 & H1 & _) Hw. destruct (holds w) eqn:E; [|done]. pose proof (proj2 H0 eq_refl).
apply (H1 i w Hw) in E. congruence.
Qed.
Lemma mutex_excl mh m ws i j w v :
mutex_inv mh m ws -> ws !! i = Some w -> ws !! j = Some v -> holds w = true -> holds v = true -> i = j.
Proof. intros (_ & H1 & _) Hw Hv Ew Ev. apply (H1 i w Hw) in Ew. apply (H1 j v Hv) in Ev. congruence. Qed.

(** A worker moves without touching the mutex, takes it, or releases it. *)
Lemma mutex_inv_move mh m ws i w w' :
ws !! i = Some w -> holds w' = holds w -> mutex_inv mh m ws -> mutex_inv mh m (<[i := w']> ws).
Proof.
intros Hw He (H0 & H1 & H2). split; [done|]. split.
- intros j v Hj. destruct (lookup_moved _ _ _ _ _ Hj) as [[<- ->]|[_ Hj']]; [rewrite He|]; by apply H1.
- intros j Hj. apply H2 in Hj as [v Hv]. destruct (decide (i = j)) as [->|Hn].
+ exists w'. by apply list_lookup_insert_eq, (lookup_lt_Some _ _ _ Hw).
+ exists v. by rewrite list_lookup_insert_ne.
Qed.

Lemma mutex_inv_take mh m m' ws i w w' :
ws !! i = Some w -> holds w' = true -> lock_acquire (S i) m = Some m' ->
mutex_inv mh m ws -> m = None /\ mh = false /\ mutex_inv mh m' (<[i := w']> ws).
Proof.
intros Hw He Ha (H0 & H1 & H2). destruct m; [done|]. injection Ha as <-.
assert (mh = false) as -> by (destruct mh; [by pose proof (proj2 H0 eq_refl)|done]).
split; [done|]. split; [done|]. split; [done|]. split.
- intros j v Hj. destruct (lookup_moved _ _ _ _ _ Hj) as [[<- ->]|[Hn Hj']]; [done|].
rewrite <- (H1 j v Hj'). split; [congruence|done].
- intros j [= <-]. exists w'. by apply list_lookup_insert_eq, (lookup_lt_Some _ _ _ Hw).
Qed.

Lemma mutex_inv_drop mh m m' ws i w w' :
ws !! i = Some w -> holds w = true -> holds w' = false -> lock_release (S i) m = Some m' ->
mutex_inv mh m ws -> mh = false /\ mutex_inv mh m' (<[i := w']> ws).
Proof.
intros Hw He He' Hr (H0 & H1 & H2). apply (H1 i w Hw) in He as ->. simpl in Hr.
rewrite Nat.eqb_refl in Hr. injection Hr as <-.
assert (mh = false) as -> by (destruct mh; [by pose proof (proj2 H0 eq_refl)|done]).
split; [done|]. split; [done|]. split; [|done].
intros j v Hj. destruct (lookup_moved _ _ _ _ _ Hj) as [[<- ->]|[Hn Hj']]; [by rewrite He'|].
rewrite <- (H1 j v Hj'). split; congruence.
Qed.

(** The same for [main]. *)
Lemma mutex_inv_main_take m m' ws :
lock_acquire 0 m = Some m' -> mutex_inv false m ws -> m = None /\ mutex_inv true m' ws.
Proof.
intros Ha (H0 & H1 & H2). destruct m; [done|]. injection Ha as <-.
split; [done|]. split; [done|]. split; [|done]. intros j v Hj. rewrite <- (H1 j v Hj). split; congruence.
Qed.
Lemma mutex_inv_main_drop m m' ws :
lock_release 0 m = Some m' -> mutex_inv true m ws -> m' = None /\ mutex_inv false m' ws.
Proof.
intros Hr (H0 & H1 & H2). rewrite (proj2 H0 eq_refl) in *. injection Hr as <-.
split; [done|]. split; [done|]. split; [|done]. intros j v Hj. rewrite <- (H1 j v Hj). split; congruence.
Qed.

(** It is known from the mutex who holds it. *)
Lemma mutex_inv_who mh m ws : mutex_inv mh m ws -> mutex_inv (bool_decide (m = Some 0%nat)) m ws.
Proof. intros (H0 & H). split; [by rewrite bool_decide_eq_true|done]. Qed.

(** The holder can release; when nobody holds it, everybody can take it. *)
Lemma mutex_release_ok mh m ws i w :
mutex_inv mh m ws -> ws !! i = Some w -> holds w = true -> lock_release (S i) m = Some None.
Proof. intros (_ & H1 & _) Hw He. apply (H1 i w Hw) in He as ->. simpl. by rewrite Nat.eqb_refl. Qed.
Lemma mutex_main_release_ok m ws : mutex_inv true m ws -> lock_release 0 m = Some None.
Proof. intros (H0 & _). by rewrite (proj2 H0 eq_refl). Qed.
Lemma mutex_free_or m ws : mutex_inv false m ws ->
m = None \/ exists i w, m = Some (S i) /\ ws !! i = Some w /\ holds w = true.
Proof.
intros (H0 & H1 & H2). destruct m as [[|i]|]; [by pose proof (proj1 H0 eq_refl)| |by left].
right. destruct (H2 i eq_refl) as [w Hw]. exists i, w. split; [done|]. split; [done|]. by apply (H1 i w Hw).
Qed.
End Owner.

(** ** The process *)

(** [main] and the workers of a process that share a mutex and a condition
    variable, on which only [main] waits. *)
Record system (St W : Type) := System {
  sys_workers : St -> list W;
  sys_work : nat -> W -> St -> option St;
  sys_main : St -> option St;
  sys_running : St -> bool;
  sys_waits : St -> bool;
  sys_wake : St -> St;
  sys_exit : Z -> St -> St;
}.
Arguments System {St W} _ _ _ _ _ _ _.
Arguments sys_workers {St W} _ _.
Arguments sys_work {St W} _ _ _ _.
Arguments sys_main {St W} _ _.
Arguments sys_running {St W} _ _.
Arguments sys_waits {St W} _ _.
Arguments sys_wake {St W} _ _.
Arguments sys_exit {St W} _ _ _.

Section System.
Context {St W : Type} (sys : system St W).

(** The next step of [main] ([None]) or of a worker. *)
Definition sys_step_of (a : option nat) (s : St) : option St :=
if sys_running sys s then
match a with
| None => sys_main sys s
| Some i => match sys_workers sys s !! i with Some w => sys_work sys i w s | None => None end
end
else None.
Fixpoint sys_run (l : list (option nat)) (s : St) : option St :=
match l with
| [] => Some s
| a :: l => match sys_step_of a s with Some s' => sys_run l s' | None => None end
end.

(** Somebody moves; a call fails and its thread ends the process with status 1;
pthread_cond_wait() returns without a signal. *)
Definition sys_step (s s' : St) : Prop := exists a, sys_step_of a s = Some s'.
Definition sys_fail (s s' : St) : Prop := sys_running sys s = true /\ s' = sys_exit sys 1 s.
Definition sys_spurious (s s' : St) : Prop := sys_waits sys s = true /\ s' = sys_wake sys s.
Definition sys_any (s s' : St) : Prop := sys_step s s' \/ sys_fail s s' \/ sys_spurious s s'.

Lemma sys_run_reaches l s s' : sys_run l s = Some s' -> reaches sys_any s s'.
Proof.
assert (Hgen : forall s0, reaches sys_any s0 s -> sys_run l s = Some s' -> reaches sys_any s0 s');
[|intros; by apply (Hgen s); [constructor|]].
revert s. induction l as [|a l IH]; intros s s0 H0; simpl; [by intros [= <-]|].
destruct (sys_step_of a s) as [s1|] eqn:E; [|done]. apply IH.
eapply reaches_step; [exact H0|]. left. by exists a.
Qed.

Lemma sys_work_step i w s s' :
sys_running sys s = true -> sys_workers sys s !! i = Some w -> sys_work sys i w s = Some s' -> exists s'', sys_step s s''.
Proof. intros Ha Hw Hs. exists s', (Some i). unfold sys_step_of. by rewrite Ha, Hw. Qed.
Lemma sys_main_step s : sys_running sys s = true -> (exists s', sys_main sys s = Some s') -> exists s', sys_step s s'.
Proof. intros Ha [s' Hs]. exists s', None. unfold sys_step_of. by rewrite Ha. Qed.

(** A step is one of [main] or of a worker. *)
Lemma sys_step_inv s s' : sys_step s s' ->
sys_running sys s = true /\
(sys_main sys s = Some s' \/ exists i w, sys_workers sys s !! i = Some w /\ sys_work sys i w s = Some s').
Proof.
intros [[i|] H]; unfold sys_step_of in H; destruct (sys_running sys s); try done; split; try done.
- right. destruct (sys_workers sys s !! i) as [w|] eqn:E; [|done]. by exists i, w.
- by left.
Qed.

(** While [main] does not hold the mutex, its holder can move. *)
Lemma sys_holder_moves (holds : W -> bool) m s :
sys_running sys s = true -> mutex_inv holds false m (sys_workers sys s) ->
(forall i w, sys_workers sys s !! i = Some w -> holds w = true -> exists s', sys_work sys i w s = Some s') ->
m = None \/ exists s', sys_step s s'.
Proof.
intros Ha Hx Hm. destruct (mutex_free_or _ _ _ Hx) as [Hf|(i & w & _ & Hw & Hh)]; [by left|right].
destruct (Hm i w Hw Hh) as [s' Hs]. by eapply sys_work_step.
Qed.
End System.
