(* ===== verification/Producers.v ===== *)
(** * Producers: producers and a consumer (30-thread-sync/prod_condvar.c,
    prod_no_condvar.c)

    Any number of producer threads and [main], which consumes, share [avail]
    under a mutex; the first program waits on a condition variable, the second
    polls.  Both are step relations over every interleaving; a spurious wakeup
    of pthread_cond_wait() and a failure of a call are steps too. *)

From S2P Require Import Prelude Clib Sys Threads Workers.

#[local] Arguments lock_acquire {L LockOps} _ _ : simpl never.
#[local] Arguments lock_release {L LockOps} _ _ : simpl never.

(** ** The processes *)

(** [producer]: its loop test and sleep, the lock, [avail++], the unlock and the
    signal.  [main]: creating the thread of [argv[j]], then the consuming loop;
    [CWait] is blocked in pthread_cond_wait(), [CWoken] about to get the mutex
    back. *)
Inductive ppc := PNew | PHead | PLock | PAdd | PUnlock | PSignal | PDone.
Record producer := Producer { p_pc : ppc; p_cnt : Z; p_j : Z }.
Inductive cpc := CCreate (j : nat) | CLock | CTest | CWait | CWoken | CConsume | CUnlock | CBreak | CExit (status : Z).

Record prod_state := ProdState {
  avail : Z; mtx : mutex; prods : list producer;
  c_pc : cpc; totRequired : Z; numConsumed : Z; done : bool; consumed_lines : list Z }.

#[export] Instance ppc_eq_dec : EqDecision ppc.
Proof. solve_decision. Defined.
#[export] Instance cpc_eq_dec : EqDecision cpc.
Proof. solve_decision. Defined.

Definition producer_of (arg : string) : producer := Producer PNew (atoi arg) 0.
Definition prod_start (argv : list string) : prod_state :=
  ProdState 0 None (map producer_of (tail argv)) (CCreate 0) 0 0 false [].

Section Steps.
Context (condvar : bool).

(** Replace a producer, and the program counter of [main]. *)
Definition with_prod (i : nat) (p : producer) (s : prod_state) : prod_state :=
let 'ProdState a m ps c t n d o := s in ProdState a m (<[i := p]> ps) c t n d o.
Definition with_cpc (c : cpc) (s : prod_state) : prod_state :=
let 'ProdState a m ps _ t n d o := s in ProdState a m ps c t n d o.
Definition with_mtx (m : mutex) (s : prod_state) : prod_state :=
let 'ProdState a _ ps c t n d o := s in ProdState a m ps c t n d o.
Definition with_avail (a : Z) (s : prod_state) : prod_state :=
let 'ProdState _ m ps c t n d o := s in ProdState a m ps c t n d o.

(** pthread_cond_signal(): a consumer that waits is woken. *)
Definition cond_signal (s : prod_state) : prod_state :=
match c_pc s with CWait => with_cpc CWoken s | _ => s end.

(** One step of producer [i]. *)
Definition produce_step (i : nat) (p : producer) (s : prod_state) : option prod_state :=
let 'Producer pc cnt j := p in
match pc with
| PNew | PDone => None
| PHead => Some (with_prod i (Producer (if j <? cnt then PLock else PDone) cnt j) s)
| PLock => match lock_acquire (S i) (mtx s) with
 | Some m => Some (with_mtx m (with_prod i (Producer PAdd cnt j) s)) | None => None end
| PAdd => Some (with_avail (wrap_s32 (avail s + 1)) (with_prod i (Producer PUnlock cnt j) s))
| PUnlock => match lock_release (S i) (mtx s) with
 | Some m => Some (with_mtx m (with_prod i
 (if condvar then Producer PSignal cnt j else Producer PHead cnt (j + 1)) s))
 | None => None end
| PSignal => Some (cond_signal (with_prod i (Producer PHead cnt (j + 1)) s))
end.

(** One step of [main]. *)
Definition consume_step (s : prod_state) : option prod_state :=
let 'ProdState a m ps c t n d o := s in
match c with
| CCreate j => match ps !! j with
 | Some p => Some (ProdState a m (<[j := Producer PHead (p_cnt p) 0]> ps) (CCreate (S j))
 (wrap_s32 (t + p_cnt p)) n d o)
 | None => Some (with_cpc CLock s) end
| CLock => match lock_acquire 0 m with
 | Some m' => Some (with_mtx m' (with_cpc (if condvar then CTest else CConsume) s)) | None => None end
| CTest => if a =? 0
 then match lock_release 0 m with Some m' => Some (with_mtx m' (with_cpc CWait s)) | None => None end
 else Some (with_cpc CConsume s)
| CWait => None
| CWoken => match lock_acquire 0 m with Some m' => Some (with_mtx m' (with_cpc CTest s)) | None => None end
| CConsume => if a >? 0
then let n' := wrap_s32 (n + 1) in
 Some (ProdState (wrap_s32 (a - 1)) m ps CConsume t n' (n' >=? t) (o ++ [n']))
else Some (with_cpc CUnlock s)
| CUnlock => match lock_release 0 m with Some m' => Some (with_mtx m' (with_cpc CBreak s)) | None => None end
| CBreak => Some (with_cpc (if d then CExit 0 else CLock) s)
| CExit _ => None
end.

Definition active (s : prod_state) : bool := match c_pc s with CExit _ => false | _ => true end.
Definition waiting (s : prod_state) : bool := match c_pc s with CWait => true | _ => false end.

Definition prod_system : system prod_state producer :=
System prods produce_step consume_step active waiting (with_cpc CWoken) (fun st => with_cpc (CExit st)).
End Steps.

(** The two programs. *)
Definition prod_condvar : system prod_state producer := prod_system true.
Definition prod_no_condvar : system prod_state producer := prod_system false.

(** ** The invariant *)

(** The units a producer has added to [avail]. *)
Definition made (p : producer) : Z := p_j p + match p_pc p with PUnlock | PSignal => 1 | _ => 0 end.
Definition prod_holds (p : producer) : bool := match p_pc p with PAdd | PUnlock => true | _ => false end.
Definition main_holds (c : cpc) (m : mutex) : bool :=
  match c with CTest | CConsume | CUnlock => true | CExit _ => bool_decide (m = Some 0%nat) | _ => false end.

Definition producer_ok (p : producer) : Prop :=
  0 <= p_j p <= p_cnt p /\
  match p_pc p with
  | PNew => p_j p = 0 | PHead => True
  | PLock | PAdd | PUnlock | PSignal => p_j p < p_cnt p
  | PDone => p_j p = p_cnt p
  end.

(** A signal is still to come. *)
Definition pending (p : producer) : Prop := p_pc p = PUnlock \/ p_pc p = PSignal.

Section Invariant.
Context (condvar : bool) (counts : list Z).
Hypothesis counts_nonneg : Forall (fun n => 0 <= n) counts.
Hypothesis counts_small : sum_over id counts <= INT_MAX.

Definition units : Z := sum_over id counts.

(** How far [main] has come, and what it knows there. *)
Definition main_ok (s : prod_state) : Prop :=
match c_pc s with
| CCreate k =>
(forall i p, prods s !! i = Some p -> p_pc p = PNew <-> (k <= i)%nat)
/\ totRequired s = sum_over id (take k counts) /\ numConsumed s = 0
| CExit 0 => done s = true
| CExit _ => True
| c => (forall i p, prods s !! i = Some p -> p_pc p <> PNew) /\ totRequired s = units
 /\ (c = CLock \/ c = CTest \/ c = CWait \/ c = CWoken -> done s = false)
 /\ (c = CWait -> 0 < avail s -> exists i p, prods s !! i = Some p /\ pending p)
 /\ (c = CTest \/ c = CWait \/ c = CWoken -> condvar = true)
end.

Record prod_inv (s : prod_state) : Prop := {
inv_prods i p : prods s !! i = Some p -> producer_ok p;
inv_counts : map p_cnt (prods s) = counts;
inv_mutex : mutex_inv prod_holds (main_holds (c_pc s) (mtx s)) (mtx s) (prods s);
inv_total : avail s + numConsumed s = sum_over made (prods s);
inv_avail : 0 <= avail s;
inv_consumed : 0 <= numConsumed s;
inv_done : done s = (0 <? numConsumed s) && (units <=? numConsumed s);
inv_lines : consumed_lines s = seqZ 1 (numConsumed s);
inv_main : main_ok s;
}.

Lemma sum_counts (ps : list producer) : sum_over p_cnt ps = sum_over id (map p_cnt ps).
Proof. induction ps as [|p ps IH]; simpl; [done|by rewrite IH]. Qed.

(** What is made is at most what was asked for. *)
Lemma made_units ps :
(forall i p, ps !! i = Some p -> producer_ok p) -> map p_cnt ps = counts -> 0 <= sum_over made ps <= units.
Proof.
intros Hok Hc. split.
- apply sum_over_nonneg. intros i p Hp. destruct (Hok i p Hp) as [Hj _].
unfold made. destruct (p_pc p); lia.
- unfold units. rewrite <- Hc, <- sum_counts. apply sum_over_le. intros i p Hp.
destruct (Hok i p Hp) as [Hj Ht]. unfold made. destruct (p_pc p); lia.
Qed.

Lemma prod_inv_start argv : map atoi (tail argv) = counts -> prod_inv (prod_start argv).
Proof using counts_nonneg.
intros Hc.
assert (Hp : forall i p, map producer_of (tail argv) !! i = Some p ->
exists n, counts !! i = Some n /\ p = Producer PNew n 0).
{ intros i p. rewrite <- Hc, !list_lookup_fmap. destruct (tail argv !! i); [|done].
intros [= <-]. by eexists. }
constructor; simpl; try done.
- intros i p H. destruct (Hp i p H) as (n & Hn & ->). split; [|done]. simpl.
rewrite Forall_lookup in counts_nonneg. by pose proof (counts_nonneg i n Hn).
- rewrite <- Hc, map_map. done.
- apply mutex_inv_start. intros i p H. by destruct (Hp i p H) as (n & _ & ->).
- symmetry. apply sum_over_0. intros i p H. by destruct (Hp i p H) as (n & _ & ->).
- split; [|done]. intros i p H. destruct (Hp i p H) as (n & _ & ->). simpl. split; [lia|done].
Qed.

(** An upper bound on the steps left to a producer. *)
Definition producer_left (p : producer) : Z :=
let r := 7 * (p_cnt p - p_j p) in
match p_pc p with
| PNew => r + 2 | PHead => r + 1 | PLock => r | PAdd => r - 1 | PUnlock => r - 2 | PSignal => r - 3 | PDone => 0
end.

(** What a step of producer [i] does, and what it leaves alone. *)
Definition woken_by (p : producer) (c : cpc) : cpc :=
match p_pc p, c with PSignal, CWait => CWoken | _, _ => c end.

Lemma produce_effect i p s s' :
produce_step condvar i p s = Some s' -> producer_ok p ->
exists p', prods s' = <[i := p']> (prods s) /\ p_cnt p' = p_cnt p /\ producer_ok p'
/\ p_pc p <> PNew /\ p_pc p' <> PNew
/\ (avail s' = avail s /\ made p' = made p /\ (pending p -> p_pc p = PSignal \/ condvar = false \/ pending p')
\/ p_pc p = PAdd /\ pending p' /\ avail s' = wrap_s32 (avail s + 1) /\ made p' = made p + 1)
/\ c_pc s' = woken_by p (c_pc s)
/\ totRequired s' = totRequired s /\ numConsumed s' = numConsumed s /\ done s' = done s
/\ consumed_lines s' = consumed_lines s
/\ (prod_holds p' = prod_holds p /\ mtx s' = mtx s
\/ prod_holds p' = true /\ lock_acquire (S i) (mtx s) = Some (mtx s')
\/ prod_holds p = true /\ prod_holds p' = false /\ lock_release (S i) (mtx s) = Some (mtx s'))
/\ producer_left p' < producer_left p.
Proof.
destruct p as [pc cnt j], s as [a m ps c t n d o]. unfold produce_step, producer_ok, pending, made, prod_holds, woken_by, producer_left.
simpl. intros Hs [Hj Ht]. destruct pc; try done.
- injection Hs as <-. eexists. simpl. split; [done|]. destruct (j <? cnt) eqn:E; zbool; simpl; intuition (try done; try lia).
- destruct (lock_acquire (S i) m) as [m'|] eqn:E; [|done]. injection Hs as <-. eexists. simpl.
split; [done|]. simpl. intuition (try done; try lia).
- injection Hs as <-. eexists. simpl. split; [done|]. simpl. intuition (try done; try lia).
- destruct (lock_release (S i) m) as [m'|] eqn:E; [|done]. injection Hs as <-.
destruct condvar; eexists; simpl; (split; [done|]); simpl; intuition (try done; try lia).
- injection Hs as <-. eexists. destruct c; simpl; (split; [done|]); simpl; intuition (try done; try lia).
Qed.
(** [main] moves on without touching [avail] or the producers. *)
Lemma prod_inv_main s c m :
prod_inv s -> mutex_inv prod_holds (main_holds c m) m (prods s) -> main_ok (with_mtx m (with_cpc c s)) ->
prod_inv (with_mtx m (with_cpc c s)).
Proof. intros [] Hm Ho. destruct s as [a m0 ps c0 t n d o]. by constructor. Qed.
Lemma with_mtx_same s c : with_cpc c s = with_mtx (mtx s) (with_cpc c s).
Proof. by destruct s. Qed.

Lemma counts_insert ps i p p' :
ps !! i = Some p -> p_cnt p' = p_cnt p -> map p_cnt ps = counts -> map p_cnt (<[i := p']> ps) = counts.
Proof.
intros Hp He <-. etransitivity; [apply (list_fmap_insert p_cnt)|]. rewrite He. apply list_insert_id.
by rewrite list_lookup_fmap, Hp.
Qed.

Lemma main_ok_produce s s' i p p' :
prods s !! i = Some p -> prods s' = <[i := p']> (prods s) -> p_pc p <> PNew -> p_pc p' <> PNew ->
(avail s' = avail s /\ (pending p -> p_pc p = PSignal \/ condvar = false \/ pending p') \/ pending p') ->
c_pc s' = woken_by p (c_pc s) -> totRequired s' = totRequired s -> numConsumed s' = numConsumed s -> done s' = done s ->
main_ok s -> main_ok s'.
Proof.
intros Hp Hps Hn Hn' Hpend Hc Ht Hnum Hd Hm.
assert (Hnew : forall j q, prods s' !! j = Some q -> p_pc q = PNew -> exists q0, prods s !! j = Some q0 /\ p_pc q0 = PNew).
{ intros j q Hq Hqn. rewrite Hps in Hq. destruct (lookup_moved _ _ _ _ _ Hq) as [[<- ->]|[_ Hq']]; [done|by exists q]. }
unfold main_ok in *. rewrite Hc, Ht, Hnum, Hd.
destruct (c_pc s) as [k| | | | | | | |st] eqn:Ec; unfold woken_by.
1: { assert (E : match p_pc p with PSignal => CCreate k | _ => CCreate k end = CCreate k) by (by destruct (p_pc p)).
 rewrite E. destruct Hm as (Hk & Hm). split; [|done]. intros j q Hq. rewrite Hps in Hq.
 destruct (lookup_moved _ _ _ _ _ Hq) as [[<- ->]|[_ Hq']]; [|by apply Hk].
 split; [done|]. intros Hki. by apply (Hk i p Hp) in Hki. }
all: destruct (p_pc p) eqn:Ep; try done.
all: destruct Hm as (Hm1 & Hm2 & Hm3 & Hm4 & Hm5); split; [intros j q Hq Hqn; destruct (Hnew j q Hq Hqn) as (q0 & Hq0 & ?); by apply (Hm1 j q0)|].
all: split; [done|]; split; [intros; apply Hm3; intuition congruence|]; split; [|intros; apply Hm5; intuition congruence].
all: try done.
all: intros _ Ha.
all: assert (Hi : <[i := p']> (prods s) !! i = Some p') by (by apply list_lookup_insert_eq, (lookup_lt_Some _ _ _ Hp)).
all: rewrite Hps; destruct Hpend as [[Hav Hpend]|Hpend]; [|by exists i, p'].
all: rewrite Hav in Ha; destruct (Hm4 eq_refl Ha) as (j & q & Hq & Hqp).
all: destruct (decide (i = j)) as [<-|Hij]; [|by exists j, q; rewrite list_lookup_insert_ne].
all: assert (q = p) as -> by congruence; exists i, p'; split; [done|].
all: destruct (Hpend Hqp) as [|[Hcv|]]; [congruence| |done].
all: rewrite Hm5 in Hcv by tauto; done.
Qed.

Lemma prod_inv_produce i p s s' :
active s = true -> prod_inv s -> prods s !! i = Some p -> produce_step condvar i p s = Some s' -> prod_inv s'.
Proof using counts_nonneg counts_small.
intros Hact Hi Hp Hs. destruct (produce_effect i p s s' Hs (inv_prods s Hi i p Hp))
as (p' & Hps & Hcnt & Hok & Hn & Hn' & Hav & Hc & Ht & Hnum & Hd & Hl & Hmx & _).
pose proof (inv_total s Hi) as Htot. pose proof (inv_avail s Hi) as Hav0. pose proof (inv_consumed s Hi) as Hnc.
assert (Hoks : forall j q, prods s' !! j = Some q -> producer_ok q)
by (rewrite Hps; apply (all_insert (fun _ => producer_ok)); [apply (inv_prods s Hi)|done]).
assert (Hcs : map p_cnt (prods s') = counts) by (rewrite Hps; eapply counts_insert, (inv_counts s Hi); done).
pose proof (made_units _ Hoks Hcs) as Hmu. rewrite Hps, (sum_over_insert made _ _ _ _ Hp) in Hmu.
assert (Hav' : avail s' + numConsumed s = sum_over made (prods s) - made p + made p' /\ 0 <= avail s').
{ unfold units in *. destruct Hav as [(-> & -> & _)|(_ & _ & -> & Hm)]; [lia|].
rewrite wrap_s32_id by (unfold in_int, INT_MIN; lia). lia. }
constructor; [exact Hoks|exact Hcs| | | | | | |].
- assert (Hmh : main_holds (c_pc s') (mtx s') = main_holds (c_pc s) (mtx s))
by (rewrite Hc; unfold woken_by, active in *; by destruct (p_pc p), (c_pc s)).
rewrite Hmh, Hps. pose proof (inv_mutex s Hi) as Hm.
destruct Hmx as [[He ->]|[[He Ha]|(He & He' & Hr)]].
+ by eapply mutex_inv_move.
+ by eapply mutex_inv_take.
+ by eapply mutex_inv_drop.
- rewrite Hnum, Hps, (sum_over_insert made _ _ _ _ Hp). lia.
- lia.
- by rewrite Hnum.
- by rewrite Hd, Hnum, (inv_done s Hi).
- by rewrite Hl, Hnum, (inv_lines s Hi).
- eapply main_ok_produce; try done; [|apply (inv_main s Hi)]. destruct Hav as [(? & _ & ?)|(_ & ? & _)]; [left|right]; done.
Qed.
(** Creating the next thread. *)
Lemma prod_inv_create s k p :
prod_inv s -> c_pc s = CCreate k -> prods s !! k = Some p ->
prod_inv (ProdState (avail s) (mtx s) (<[k := Producer PHead (p_cnt p) 0]> (prods s)) (CCreate (S k))
 (wrap_s32 (totRequired s + p_cnt p)) (numConsumed s) (done s) (consumed_lines s)).
Proof using counts_nonneg counts_small.
intros Hi Hc Hp. pose proof (inv_main s Hi) as Hm. unfold main_ok in Hm. rewrite Hc in Hm.
destruct Hm as (Hk & Ht & Hn). destruct (inv_prods s Hi k p Hp) as [Hj Hpc].
rewrite (proj2 (Hk k p Hp)) in Hpc by lia.
assert (Hcnt : counts !! k = Some (p_cnt p)) by (rewrite <- (inv_counts s Hi), list_lookup_fmap, Hp; done).
assert (Hmade : made p = 0) by (unfold made; rewrite (proj2 (Hk k p Hp)) by lia; lia).
constructor; simpl; try apply Hi.
- apply (all_insert (fun _ => producer_ok)); [apply (inv_prods s Hi)|]. split; simpl; [lia|done].
- by eapply counts_insert, (inv_counts s Hi).
- eapply mutex_inv_move; [exact Hp| |pose proof (inv_mutex s Hi) as Hm; by rewrite Hc in Hm].
unfold prod_holds. simpl. by rewrite (proj2 (Hk k p Hp)) by lia.
- rewrite (sum_over_insert made _ _ _ _ Hp), (inv_total s Hi), Hmade. unfold made. simpl. lia.
- unfold main_ok. simpl. split; [|split; [|done]].
+ intros i q Hq. destruct (lookup_moved _ _ _ _ _ Hq) as [[<- ->]|[Hik Hq']]; [simpl; split; [done|lia]|].
rewrite (Hk i q Hq'). lia.
+ rewrite (sum_over_take_S id _ _ _ Hcnt), Ht. apply wrap_s32_id.
pose proof (sum_over_prefix id counts (S k) counts_nonneg) as Hb. rewrite (sum_over_take_S id _ _ _ Hcnt) in Hb.
unfold in_int, INT_MIN, id in *. lia.
Qed.

(** Consuming one unit. *)
Lemma prod_inv_unit s :
prod_inv s -> c_pc s = CConsume -> 0 < avail s ->
let n := wrap_s32 (numConsumed s + 1) in
prod_inv (ProdState (wrap_s32 (avail s - 1)) (mtx s) (prods s) CConsume (totRequired s) n (n >=? totRequired s)
 (consumed_lines s ++ [n])).
Proof using counts_nonneg counts_small.
intros Hi Hc Ha n. pose proof (inv_main s Hi) as Hm. unfold main_ok in Hm. rewrite Hc in Hm.
destruct Hm as (Hnew & Ht & _). pose proof (inv_total s Hi) as Htot. pose proof (inv_consumed s Hi) as Hn0.
pose proof (made_units _ (inv_prods s Hi) (inv_counts s Hi)) as Hmu. unfold units in Hmu.
assert (n = numConsumed s + 1) as -> by (apply wrap_s32_id; unfold in_int, INT_MIN; lia).
assert (wrap_s32 (avail s - 1) = avail s - 1) as -> by (apply wrap_s32_id; unfold in_int, INT_MIN; lia).
constructor; simpl; try apply Hi; try lia.
- pose proof (inv_mutex s Hi) as Hm. by rewrite Hc in Hm.
- rewrite (inv_lines s Hi). rewrite <- (Z2Nat.id (numConsumed s)) at 1 2 by done.
replace (numConsumed s + 1) with (Z.of_nat (S (Z.to_nat (numConsumed s)))) by lia. rewrite seqZ_S. do 2 f_equal. lia.
- unfold main_ok. simpl. split; [done|]. split; [done|]. split; [|split]; intuition congruence.
Qed.

(** Every step of [main]. *)
Lemma prod_inv_consume s s' : prod_inv s -> consume_step condvar s = Some s' -> prod_inv s'.
Proof using counts_nonneg counts_small.
intros Hi Hs. pose proof (inv_main s Hi) as Hm. pose proof (inv_mutex s Hi) as Hx.
destruct s as [a m ps c t n d o]. unfold main_ok in Hm. simpl in Hm, Hx. unfold consume_step in Hs.
destruct c as [k| | | | | | | |st]; try done.
- destruct (ps !! k) as [p|] eqn:Hp; injection Hs as <-; [by apply (prod_inv_create _ k p Hi)|].
apply (prod_inv_main _ CLock m Hi); [done|]. unfold main_ok. simpl.
destruct Hm as (Hk & Ht & Hn). apply lookup_ge_None in Hp. split; [|split; [|split]].
+ intros i p Hip Hpn. pose proof (lookup_lt_Some _ _ _ Hip). apply (Hk i p Hip) in Hpn. lia.
+ rewrite Ht. unfold units. f_equal. apply take_ge. rewrite <- (inv_counts _ Hi), length_map. done.
+ intros _. pose proof (inv_done _ Hi) as Hd. simpl in Hd. by rewrite Hd, Hn.
+ intuition congruence.
- destruct (lock_acquire 0 m) as [m'|] eqn:E; [|done]. injection Hs as <-.
apply (prod_inv_main _ (if condvar then CTest else CConsume) m' Hi).
+ destruct (mutex_inv_main_take _ _ _ _ E Hx) as [_ Hx']. by destruct condvar.
+ unfold main_ok in *. simpl. destruct condvar eqn:Ec; simpl; intuition congruence.
- destruct (a =? 0) eqn:Ea; zbool.
+ destruct (lock_release 0 m) as [m'|] eqn:E; [|done]. injection Hs as <-.
apply (prod_inv_main _ CWait m' Hi).
* by destruct (mutex_inv_main_drop _ _ _ _ E Hx) as [_ Hx'].
* unfold main_ok. simpl. intuition (try congruence; try lia).
+ injection Hs as <-. apply (prod_inv_main _ CConsume m Hi); [done|]. unfold main_ok. simpl. intuition congruence.
- destruct (lock_acquire 0 m) as [m'|] eqn:E; [|done]. injection Hs as <-.
apply (prod_inv_main _ CTest m' Hi).
+ by destruct (mutex_inv_main_take _ _ _ _ E Hx) as [_ Hx'].
+ unfold main_ok in *. simpl. intuition congruence.
- destruct (a >? 0) eqn:Ea; zbool.
+ injection Hs as <-. by apply (prod_inv_unit _ Hi).
+ injection Hs as <-. apply (prod_inv_main _ CUnlock m Hi); [done|]. unfold main_ok. simpl. intuition congruence.
- destruct (lock_release 0 m) as [m'|] eqn:E; [|done]. injection Hs as <-.
apply (prod_inv_main _ CBreak m' Hi).
+ by destruct (mutex_inv_main_drop _ _ _ _ E Hx) as [_ Hx'].
+ unfold main_ok in *. simpl. intuition congruence.
- injection Hs as <-. apply (prod_inv_main _ (if d then CExit 0 else CLock) m Hi).
+ destruct d; [|done]. simpl. by eapply mutex_inv_who.
+ unfold main_ok in *. destruct d; simpl; [done|]. intuition congruence.
Qed.

Abbreviation sys := (prod_system condvar).

Lemma prod_inv_any s s' : prod_inv s -> sys_any sys s s' -> prod_inv s'.
Proof using counts_nonneg counts_small.
intros Hi [Hs|[[Hact ->]|[Hc ->]]].
- destruct (sys_step_inv _ _ _ Hs) as [Hact [Hm|(i & p & Hp & Hw)]].
+ by apply (prod_inv_consume s).
+ by apply (prod_inv_produce i p s).
- simpl. rewrite with_mtx_same. apply prod_inv_main; [done| |by destruct s].
simpl. eapply mutex_inv_who, (inv_mutex s Hi).
- simpl in *. rewrite with_mtx_same. unfold waiting in Hc. pose proof (inv_main s Hi) as Hm.
pose proof (inv_mutex s Hi) as Hx. unfold main_ok in Hm. destruct (c_pc s) eqn:Ec; try done.
apply prod_inv_main; [done|done|]. destruct s as [a m ps c t n d o]. unfold main_ok. simpl in *. intuition congruence.
Qed.

(** ** No deadlock *)

(** A producer that is not done moves, unless it waits for the mutex. *)
Lemma producer_moves mh s i p :
mutex_inv prod_holds mh (mtx s) (prods s) -> prods s !! i = Some p -> p_pc p <> PNew -> p_pc p <> PDone ->
mtx s = None \/ p_pc p <> PLock -> exists s', produce_step condvar i p s = Some s'.
Proof.
intros Hx Hp Hn Hd Hl. destruct p as [pc cnt j]. simpl in *. destruct pc; try done; try by eexists.
- destruct Hl as [->|]; [|done]. by eexists.
- rewrite (mutex_release_ok prod_holds _ _ _ _ _ Hx Hp eq_refl). by eexists.
Qed.

Lemma holder_moves s : active s = true -> mutex_inv prod_holds false (mtx s) (prods s) ->
mtx s = None \/ exists s', sys_step sys s s'.
Proof.
intros Ha Hx. apply (sys_holder_moves sys prod_holds); [done|done|]. intros i p Hp Hh.
apply (producer_moves false s i p Hx Hp); unfold prod_holds in Hh; destruct (p_pc p); try done; by right.
Qed.

(** If there is anything to produce, or the consumer polls, somebody can move. *)
Lemma prod_moves s :
prod_inv s -> active s = true -> 0 < units \/ condvar = false -> exists s', sys_step sys s s'.
Proof using counts_nonneg counts_small.
intros Hi Ha Hu. pose proof (inv_main s Hi) as Hm. pose proof (inv_mutex s Hi) as Hx.
unfold main_ok in Hm. assert (Hmain : (exists s', consume_step condvar s = Some s') -> exists s', sys_step sys s s').
{ by apply (sys_main_step sys). }
assert (Hlock : mutex_inv prod_holds false (mtx s) (prods s) ->
(mtx s = None -> exists s', consume_step condvar s = Some s') -> exists s', sys_step sys s s').
{ intros Hx' Hs. destruct (holder_moves s Ha Hx') as [Hf|]; [by apply Hmain, Hs|done]. }
destruct (c_pc s) as [k| | | | | | | |st] eqn:Hc; try (unfold active in Ha; rewrite Hc in Ha; done).
- apply Hmain. destruct s as [a m ps c t n d o]. simpl in *. subst c. destruct (ps !! k); by eexists.
- apply Hlock; [done|]. intros Hf. destruct s as [a m ps c t n d o]. simpl in *. subst c m. by eexists.
- apply Hmain. pose proof (mutex_main_release_ok _ _ _ Hx) as Hr.
destruct s as [a m ps c t n d o]. simpl in *. subst c. rewrite Hr. destruct (a =? 0); by eexists.
- destruct Hm as (Hnew & Ht & Hd & Hp & Hcv). destruct (holder_moves s Ha Hx) as [Hf|]; [|done].
destruct Hu as [Hu|Hu]; [|by rewrite Hcv in Hu by auto].
assert (Hex : exists i p, prods s !! i = Some p /\ p_pc p <> PDone).
{ destruct (decide (0 < avail s)) as [Hav|Hav].
- destruct (Hp eq_refl Hav) as (i & p & Hpi & Hpp). exists i, p. split; [done|]. destruct Hpp; congruence.
- assert (Hlt : 0 < sum_over (fun p => p_cnt p - made p) (prods s)).
{ rewrite sum_over_sub, sum_counts, (inv_counts s Hi), <- (inv_total s Hi). fold units.
pose proof (inv_done s Hi) as Hdn. rewrite Hd in Hdn by auto. pose proof (inv_avail s Hi).
destruct (0 <? numConsumed s) eqn:E1, (units <=? numConsumed s) eqn:E2; try done; zbool; lia. }
apply sum_over_pos in Hlt as (i & p & Hpi & Hlt). exists i, p. split; [done|]. intros Hpd.
destruct (inv_prods s Hi i p Hpi) as [_ Hj]. unfold made in Hlt. rewrite Hpd in *. lia. }
destruct Hex as (i & p & Hpi & Hpd). destruct (producer_moves false s i p Hx Hpi) as [s' Hs]; [by eapply Hnew|done|by left|].
by eapply (sys_work_step sys).
- apply Hlock; [done|]. intros Hf. destruct s as [a m ps c t n d o]. simpl in *. subst c m. by eexists.
- apply Hmain. destruct s as [a m ps c t n d o]. simpl in *. subst c. destruct (a >? 0); by eexists.
- apply Hmain. pose proof (mutex_main_release_ok _ _ _ Hx) as Hr.
destruct s as [a m ps c t n d o]. simpl in *. subst c. rewrite Hr. by eexists.
- apply Hmain. destruct s as [a m ps c t n d o]. simpl in *. subst c. by eexists.
Qed.

(** ** Termination *)

(** Steps left to a rank of [main]; [prod_left] weighs them with what is left to
produce and to consume. *)
Definition cpc_left (c : cpc) (a : Z) : Z :=
match c with
| CCreate _ => 15 | CConsume => if a >? 0 then 4 else 12 | CUnlock => 11 | CBreak => 10
| CLock => 8 | CWoken => 7 | CTest => 6 | CWait => 5 | CExit _ => 0
end.
Definition prod_left (s : prod_state) : nat :=
Z.to_nat (10 * sum_over producer_left (prods s) + 20 * (units - numConsumed s) + cpc_left (c_pc s) (avail s)).

Lemma cpc_left_range c a : 0 <= cpc_left c a <= 15 /\ (0 < cpc_left c a \/ exists st, c = CExit st).
Proof. destruct c; simpl; try (destruct (a >? 0)); split; try lia; by right; eexists. Qed.

Lemma producer_left_nonneg ps : (forall i p, ps !! i = Some p -> producer_ok p) -> 0 <= sum_over producer_left ps.
Proof.
intros H. apply sum_over_nonneg. intros i p Hp. destruct (H i p Hp) as [Hj Ht]. unfold producer_left.
destruct (p_pc p); lia.
Qed.

Lemma consumed_units s : prod_inv s -> 0 <= units - numConsumed s.
Proof.
intros Hi. pose proof (made_units _ (inv_prods s Hi) (inv_counts s Hi)). pose proof (inv_total s Hi).
pose proof (inv_avail s Hi). lia.
Qed.

Lemma consume_left s s' :
condvar = true -> prod_inv s -> consume_step condvar s = Some s' -> prod_inv s' ->
(prod_left s' < prod_left s)%nat.
Proof.
intros Hcv Hi Hs Hi'. pose proof (producer_left_nonneg _ (inv_prods s Hi)) as Hp0.
pose proof (producer_left_nonneg _ (inv_prods s' Hi')) as Hp0'.
pose proof (consumed_units s Hi) as Hu. pose proof (consumed_units s' Hi') as Hu'.
pose proof (inv_main s Hi) as Hm. unfold prod_left. destruct s as [a m ps c t n d o]. unfold main_ok, consume_step in *.
destruct c as [k| | | | | | | |st]; simpl in *; try done.
- destruct (ps !! k) as [p|] eqn:Hp; injection Hs as <-; simpl in *; [|lia].
rewrite (sum_over_insert producer_left _ _ _ _ Hp) in *.
destruct (inv_prods _ Hi k p Hp) as [Hj Hpc]. destruct Hm as [Hk _]. rewrite (proj2 (Hk k p Hp)) in Hpc by lia.
unfold producer_left in *. rewrite (proj2 (Hk k p Hp)) in * by lia. simpl in *. lia.
- rewrite Hcv in Hs. destruct (lock_acquire 0 m); [|done]. injection Hs as <-. simpl. lia.
- destruct (a =? 0) eqn:Ea; zbool.
+ destruct (lock_release 0 m); [|done]. injection Hs as <-. simpl. lia.
+ pose proof (inv_avail _ Hi) as Ha. simpl in Ha. injection Hs as <-. simpl.
replace (a >? 0) with true by (symmetry; apply Z.gtb_gt; lia). lia.
- destruct (lock_acquire 0 m); [|done]. injection Hs as <-. simpl. lia.
- destruct (a >? 0) eqn:Ea.
+ injection Hs as <-. simpl in *. pose proof (inv_consumed _ Hi) as Hn. simpl in Hn.
pose proof (made_units _ (inv_prods _ Hi) (inv_counts _ Hi)) as Hmu. pose proof (inv_total _ Hi) as Ht. simpl in *.
assert (wrap_s32 (n + 1) = n + 1) as Hw
by (apply wrap_s32_id; zbool; unfold units, in_int, INT_MIN in *; lia).
rewrite Hw in *. clear Hi'.
destruct (wrap_s32 (a - 1) >? 0); lia.
+ injection Hs as <-. simpl. lia.
- destruct (lock_release 0 m); [|done]. injection Hs as <-. simpl. lia.
- injection Hs as <-. destruct d; simpl; lia.
Qed.

Lemma prod_decreases s s' :
condvar = true -> prod_inv s -> sys_step sys s s' \/ sys_fail sys s s' -> (prod_left s' < prod_left s)%nat.
Proof using counts_nonneg counts_small.
intros Hcv Hi [Hs|[Hact ->]].
- assert (Hi' : prod_inv s') by (apply (prod_inv_any s); [done|by left]).
destruct (sys_step_inv _ _ _ Hs) as [Hact [Hm|(i & p & Hp & Ha)]]; [by apply consume_left|]. simpl in Hp, Ha.
destruct (produce_effect i p s s' Ha (inv_prods s Hi i p Hp))
as (p' & Hps & _ & _ & _ & _ & Hav & Hc & _ & Hn & _ & _ & _ & Hlt).
pose proof (producer_left_nonneg _ (inv_prods s' Hi')) as Hp0. pose proof (consumed_units s Hi) as Hu.
unfold prod_left. rewrite Hps in *. rewrite (sum_over_insert producer_left _ _ _ _ Hp) in *. rewrite Hn, Hc.
destruct (cpc_left_range (woken_by p (c_pc s)) (avail s')) as [Hr' _].
assert (Hr : cpc_left (woken_by p (c_pc s)) (avail s') <= cpc_left (c_pc s) (avail s) + 8).
{ unfold woken_by. destruct (p_pc p), (c_pc s); simpl; repeat case_if; lia. }
lia.
- pose proof (producer_left_nonneg _ (inv_prods s Hi)) as Hp0. pose proof (consumed_units s Hi) as Hu.
destruct (cpc_left_range (c_pc s) (avail s)) as [_ [Hr|[st Hr]]]; [|simpl in Hact; unfold active in Hact; by rewrite Hr in Hact].
unfold prod_left in *. destruct s as [a m ps c t n d o]. simpl in *. lia.
Qed.
End Invariant.

(** ** The results *)

Definition counts_of (argv : list string) : list Z := map atoi (tail argv).
Definition units_of (argv : list string) : Z := sum_over id (counts_of argv).
Definition argv_ok (argv : list string) : Prop :=
  Forall (fun n => 0 <= n) (counts_of argv) /\ units_of argv <= INT_MAX.

(** What holds in every reachable state [s] of either program. *)
Definition hands_over (argv : list string) (s : prod_state) : Prop :=
  (forall i j p q, prods s !! i = Some p -> prods s !! j = Some q -> prod_holds p = true ->
     main_holds (c_pc s) (mtx s) = false /\ (prod_holds q = true -> i = j))
  /\ avail s + numConsumed s = sum_over made (prods s)
  /\ 0 <= avail s /\ 0 <= numConsumed s <= units_of argv
  /\ consumed_lines s = seqZ 1 (numConsumed s)
  /\ (c_pc s = CExit 0 -> 0 < units_of argv /\ numConsumed s = units_of argv /\ avail s = 0).

Section Reachable.
Context (condvar : bool) (argv : list string) (Hargv : argv_ok argv).
Abbreviation sys := (prod_system condvar).

Lemma prod_reachable s : reaches (sys_any sys) (prod_start argv) s -> prod_inv condvar (counts_of argv) s.
Proof using Hargv.
destruct Hargv as [H1 H2]. apply reaches_inv; [by apply prod_inv_start|]. intros s1 s2. by apply prod_inv_any.
Qed.

Lemma hands_over_reachable s : reaches (sys_any sys) (prod_start argv) s -> hands_over argv s.
Proof using Hargv.
intros Hr. pose proof (prod_reachable s Hr) as Hi. pose proof (inv_mutex _ _ s Hi) as Hx.
pose proof (consumed_units _ _ s Hi) as Hu. unfold units in Hu. fold (units_of argv) in Hu.
pose proof (made_units _ _ (inv_prods _ _ s Hi) (inv_counts _ _ s Hi)) as Hmu. unfold units in Hmu.
fold (units_of argv) in Hmu. pose proof (inv_total _ _ s Hi) as Ht. pose proof (inv_avail _ _ s Hi) as Ha.
pose proof (inv_consumed _ _ s Hi) as Hn.
split; [|split; [done|split; [done|split; [lia|split; [apply Hi|]]]]].
- intros i j p q Hp Hq Hh. split.
+ destruct (main_holds (c_pc s) (mtx s)); [|done]. by rewrite (mutex_excl_main _ _ _ i p Hx Hp) in Hh.
+ intros Hh'. by eapply mutex_excl.
- intros Hc. pose proof (inv_main _ _ s Hi) as Hm. unfold main_ok in Hm. rewrite Hc in Hm.
rewrite (inv_done _ _ s Hi) in Hm. unfold units in Hm. fold (units_of argv) in Hm. zbool. lia.
Qed.

Lemma prod_live s : reaches (sys_any sys) (prod_start argv) s -> active s = true ->
0 < units_of argv \/ condvar = false -> exists s', sys_step sys s s'.
Proof using Hargv. intros Hr Ha Hu. eapply prod_moves; [..|by apply prod_reachable|done|done]; apply Hargv. Qed.

Lemma prod_ends s : condvar = true -> reaches (sys_any sys) (prod_start argv) s ->
terminates (fun s s' => sys_step sys s s' \/ sys_fail sys s s') s.
Proof using Hargv.
intros Hcv Hr. apply (terminates_measure _ (prod_inv condvar (counts_of argv)) (prod_left (counts_of argv)));
[by apply prod_reachable|].
destruct Hargv as [H1 H2]. intros s1 s2 Hi Hs. split; [|by apply (prod_decreases condvar)].
eapply prod_inv_any; [done..|]. unfold sys_any. tauto.
Qed.
End Reachable.

(** C9.  Whatever the interleaving, the failures and the spurious wakeups: the
    threads exclude each other while they use [avail]; every unit made is either
    available or consumed, and none is consumed twice or before it is made; the
    consumer reports 1, 2, 3, ... and ends with status 0 only when all units have
    been consumed.  With the condition variable no wakeup is lost: as long as
    there is something to produce somebody can always move, and only endless
    spurious wakeups could make a run infinite.  The polling version never
    blocks. *)
Theorem producers_correct argv :
  argv_ok argv ->
  (forall s, reaches (sys_any prod_condvar) (prod_start argv) s ->
     hands_over argv s
     /\ (active s = true -> 0 < units_of argv -> exists s', sys_step prod_condvar s s')
     /\ terminates (fun s s' => sys_step prod_condvar s s' \/ sys_fail prod_condvar s s') s)
  /\ (forall s, reaches (sys_any prod_no_condvar) (prod_start argv) s ->
        hands_over argv s /\ (active s = true -> exists s', sys_step prod_no_condvar s s')).
Proof.
  intros Hok. split; intros s Hr.
  - split; [by eapply hands_over_reachable|]. split; [|by eapply prod_ends].
    intros Ha Hu. eapply prod_live; eauto.
  - split; [by eapply hands_over_reachable|]. intros Ha. eapply prod_live; eauto.
Qed.

(** A run with one producer of two units: the consumer waits, is woken, and has
    the second unit ready when it comes back. *)
Definition two_unit_turns : list (option nat) :=
  [None; None; None; None; Some 0; Some 0; Some 0; Some 0; Some 0; None; None; None; None; None; None;
   Some 0; Some 0; Some 0; Some 0; Some 0; None; None; None; None; None; None]%nat.

Lemma producers_correct_witness :
  exists s, sys_run prod_condvar two_unit_turns (prod_start ["prod_condvar"; "2"]) = Some s
            /\ numConsumed s = 2 /\ consumed_lines s = [1; 2].
Proof.
  destruct (sys_run prod_condvar two_unit_turns (prod_start ["prod_condvar"; "2"])) as [s|] eqn:E; [|vm_compute in E; discriminate].
  exists s. split; [reflexivity|].
  destruct (producers_correct ["prod_condvar"; "2"]) as [H _]; [split; [repeat constructor|]; vm_compute; discriminate|].
  destruct (H s (sys_run_reaches _ _ _ _ E)) as ((_ & _ & _ & _ & Hl & He) & _).
  assert (Hc : c_pc s = CExit 0) by (vm_compute in E; by injection E as <-).
  destruct (He Hc) as (_ & Hn & _). rewrite Hl, Hn. split; reflexivity.
Defined.

(** With nothing to produce the consumer waits for ever. *)
Lemma nothing_to_consume :
  exists s, reaches (sys_any prod_condvar) (prod_start ["prod_condvar"]) s /\ active s = true
            /\ forall s', ~ sys_step prod_condvar s s'.
Proof.
  eexists. split; [by apply (sys_run_reaches prod_condvar [None; None; None])|]. split; [done|].
  intros s' [[i|] Hs]; [|done]. unfold sys_step_of in Hs. simpl in Hs. by destruct i.
Qed.
