(* ===== verification/Multijoin.v ===== *)
(** * Multijoin: joining any thread as it terminates (30-thread-sync/thread_multijoin.c)

    Each thread marks itself terminated under the mutex and signals; [main] waits
    for such threads and joins them.  The process is a [system] of [Workers]: a
    step relation over every interleaving, with spurious wakeups and failures.
    A thread's life time only decides when it takes its steps. *)

From S2P Require Import Prelude Clib Sys Threads Workers.

#[local] Arguments lock_acquire {L LockOps} _ _ : simpl never.
#[local] Arguments lock_release {L LockOps} _ _ : simpl never.

(** ** The process *)

Inductive thread_state := TS_ALIVE | TS_TERMINATED | TS_JOINED.

(** [threadFunc]: created, asleep, before the lock, the update, the unlock and
    the signal, and returned. *)
Inductive wpc := WNew | WSleep | WLock | WMark | WUnlock | WSignal | WDone.
Record worker := Worker { w_pc : wpc; w_state : thread_state }.

(** [main]: creating thread [k], the outer loop's test, the lock, the wait loop,
    the scan at index [k], joining thread [k], the unlock. *)
Inductive jpc := JCreate (k : nat) | JHead | JLock | JTest | JWait | JWoken | JScan (k : nat) | JJoin (k : nat)
               | JUnlock | JExit (status : Z).

Record mj_state := MJ {
  threadMutex : mutex; thread : list worker; j_pc : jpc; numLive : Z; numUnjoined : Z;
  reaped : list (nat * Z) }.

#[export] Instance thread_state_eq_dec : EqDecision thread_state.
Proof. solve_decision. Defined.
#[export] Instance wpc_eq_dec : EqDecision wpc.
Proof. solve_decision. Defined.
#[export] Instance jpc_eq_dec : EqDecision jpc.
Proof. solve_decision. Defined.

(** One thread for each argument; [calloc] leaves its state 0, [TS_ALIVE]. *)
Definition mj_start (argv : list string) : mj_state :=
  let totThreads := length (tail argv) in
  MJ None (replicate totThreads (Worker WNew TS_ALIVE)) (JCreate 0) (Z.of_nat totThreads) 0 [].

Definition with_worker (i : nat) (w : worker) (s : mj_state) : mj_state :=
  let 'MJ m ws c l u r := s in MJ m (<[i := w]> ws) c l u r.
Definition with_jpc (c : jpc) (s : mj_state) : mj_state := let 'MJ m ws _ l u r := s in MJ m ws c l u r.
Definition with_mutex (m : mutex) (s : mj_state) : mj_state := let 'MJ _ ws c l u r := s in MJ m ws c l u r.
Definition with_unjoined (u : Z) (s : mj_state) : mj_state := let 'MJ m ws c l _ r := s in MJ m ws c l u r.

Definition died_signal (s : mj_state) : mj_state :=
  match j_pc s with JWait => with_jpc JWoken s | _ => s end.

(** One step of [threadFunc] in thread [i]. *)
Definition work_step (i : nat) (w : worker) (s : mj_state) : option mj_state :=
  let 'Worker pc st := w in
  match pc with
  | WNew | WDone => None
  | WSleep => Some (with_worker i (Worker WLock st) s)
  | WLock => match lock_acquire (S i) (threadMutex s) with
             | Some m => Some (with_mutex m (with_worker i (Worker WMark st) s)) | None => None end
  | WMark => Some (with_unjoined (wrap_s32 (numUnjoined s + 1)) (with_worker i (Worker WUnlock TS_TERMINATED) s))
  | WUnlock => match lock_release (S i) (threadMutex s) with
               | Some m => Some (with_mutex m (with_worker i (Worker WSignal st) s)) | None => None end
  | WSignal => Some (died_signal (with_worker i (Worker WDone st) s))
  end.

(** One step of [main]. *)
Definition join_step (s : mj_state) : option mj_state :=
  let 'MJ m ws c live unj r := s in
  match c with
  | JCreate k => match ws !! k with
                 | Some _ => Some (with_jpc (JCreate (S k)) (with_worker k (Worker WSleep TS_ALIVE) s))
                 | None => Some (with_jpc JHead s) end
  | JHead => Some (with_jpc (if live >? 0 then JLock else JExit 0) s)
  | JLock => match lock_acquire 0 m with Some m' => Some (with_mutex m' (with_jpc JTest s)) | None => None end
  | JTest => if unj =? 0
             then match lock_release 0 m with Some m' => Some (with_mutex m' (with_jpc JWait s)) | None => None end
             else Some (with_jpc (JScan 0) s)
  | JWait => None
  | JWoken => match lock_acquire 0 m with Some m' => Some (with_mutex m' (with_jpc JTest s)) | None => None end
  | JScan k => match ws !! k with
               | Some w => Some (with_jpc (if decide (w_state w = TS_TERMINATED) then JJoin k else JScan (S k)) s)
               | None => Some (with_jpc JUnlock s) end
  | JJoin k => match ws !! k with
               | Some (Worker WDone _) =>
                   let live' := wrap_s32 (live - 1) in
                   Some (MJ m (<[k := Worker WDone TS_JOINED]> ws) (JScan (S k)) live' (wrap_s32 (unj - 1))
                           (r ++ [(k, live')]))
               | _ => None end
  | JUnlock => match lock_release 0 m with Some m' => Some (with_mutex m' (with_jpc JHead s)) | None => None end
  | JExit _ => None
  end.

Definition mj_active (s : mj_state) : bool := match j_pc s with JExit _ => false | _ => true end.
Definition mj_waiting (s : mj_state) : bool := match j_pc s with JWait => true | _ => false end.

Definition thread_multijoin : system mj_state worker :=
  System thread work_step join_step mj_active mj_waiting (with_jpc JWoken) (fun st => with_jpc (JExit st)).

(** ** The invariant *)

Definition unjoined (w : worker) : Z := match w_state w with TS_TERMINATED => 1 | _ => 0 end.
Definition live (w : worker) : Z := match w_state w with TS_JOINED => 0 | _ => 1 end.
Definition work_holds (w : worker) : bool := match w_pc w with WMark | WUnlock => true | _ => false end.
Definition join_holds (c : jpc) (m : mutex) : bool :=
  match c with JTest | JScan _ | JJoin _ | JUnlock => true | JExit _ => bool_decide (m = Some 0%nat) | _ => false end.

Definition worker_ok (w : worker) : Prop :=
  match w_pc w with
  | WNew | WSleep | WLock | WMark => w_state w = TS_ALIVE
  | WUnlock | WSignal => w_state w = TS_TERMINATED
  | WDone => w_state w <> TS_ALIVE
  end.
Definition to_signal (w : worker) : Prop := w_pc w = WUnlock \/ w_pc w = WSignal.

(** An upper bound on the steps left to a thread. *)
Definition worker_left (w : worker) : Z :=
  match w_pc w with WNew => 6 | WSleep => 5 | WLock => 4 | WMark => 3 | WUnlock => 2 | WSignal => 1 | WDone => 0 end.

(** The part that depends on where [main] is. *)
Definition join_ok (s : mj_state) : Prop :=
  match j_pc s with
  | JCreate k => forall i w, thread s !! i = Some w -> w_pc w = WNew <-> (k <= i)%nat
  | JExit 0 => numLive s = 0
  | JExit _ => True
  | c => (forall i w, thread s !! i = Some w -> w_pc w <> WNew)
         /\ match c with
            | JLock | JTest | JWoken => 0 < numLive s
            | JWait => 0 < numLive s
                       /\ (0 < numUnjoined s -> exists i w, thread s !! i = Some w /\ to_signal w)
            | JScan k => (k <= length (thread s))%nat
                         /\ forall i w, thread s !! i = Some w -> (i < k)%nat -> w_state w <> TS_TERMINATED
            | JJoin k => (exists w, thread s !! k = Some w /\ w_state w = TS_TERMINATED)
                         /\ forall i w, thread s !! i = Some w -> (i < k)%nat -> w_state w <> TS_TERMINATED
            | _ => True
            end
  end.

(** What [main] has reported: each joined thread once, with the number left. *)
Definition reaped_ok (n : nat) (s : mj_state) : Prop :=
  NoDup (reaped s).*1
  /\ (forall k, k ∈ (reaped s).*1 <-> exists w, thread s !! k = Some w /\ w_state w = TS_JOINED)
  /\ (forall i k z, reaped s !! i = Some (k, z) -> z = Z.of_nat n - 1 - Z.of_nat i)
  /\ Z.of_nat (length (reaped s)) + numLive s = Z.of_nat n.

Section Invariant.
Context (n : nat) (Hn : Z.of_nat n <= INT_MAX).
Abbreviation sys := thread_multijoin.

Record mj_inv (s : mj_state) : Prop := {
mj_workers i w : thread s !! i = Some w -> worker_ok w;
mj_length : length (thread s) = n;
mj_mutex : mutex_inv work_holds (join_holds (j_pc s) (threadMutex s)) (threadMutex s) (thread s);
mj_unjoined : numUnjoined s = sum_over unjoined (thread s);
mj_live : numLive s = sum_over live (thread s);
mj_reaped : reaped_ok n s;
mj_main : join_ok s;
}.

Lemma mj_inv_start argv : length (tail argv) = n -> mj_inv (mj_start argv).
Proof.
intros Hl. unfold mj_start. rewrite Hl.
assert (Hw : forall i w, replicate n (Worker WNew TS_ALIVE) !! i = Some w -> w = Worker WNew TS_ALIVE)
by (intros i w H; by apply lookup_replicate in H as [-> _]).
constructor; simpl.
- by intros i w ->%Hw.
- apply length_replicate.
- apply mutex_inv_start. by intros i w ->%Hw.
- symmetry. apply sum_over_0. by intros i w ->%Hw.
- clear. induction n as [|k IH]; [done|]. simpl replicate. rewrite sum_over_cons, <- IH. unfold live. simpl. lia.
- split; [constructor|]. split; [|split; [done|simpl; lia]]. intros k. simpl. split; [by intros ?%elem_of_nil|].
by intros (w & ->%Hw & ?).
- intros i w ->%Hw. simpl. split; [lia|done].
Qed.

(** The counters stay in range. *)
Lemma mj_bounds ws : length ws = n -> 0 <= sum_over unjoined ws <= sum_over live ws /\ sum_over live ws <= INT_MAX.
Proof using Hn.
intros Hl. split; [split|].
- apply sum_over_nonneg. intros i w _. unfold unjoined. destruct (w_state w); lia.
- apply sum_over_le. intros i w _. unfold unjoined, live. destruct (w_state w); lia.
- assert (sum_over live ws <= Z.of_nat (length ws)); [|lia]. clear. induction ws as [|w ws IH]; simpl; [lia|].
assert (live w <= 1) by (unfold live; destruct (w_state w); lia). lia.
Qed.
(** What a step of thread [i] does, and what it leaves alone. *)
Definition woken_by (w : worker) (c : jpc) : jpc := match w_pc w, c with WSignal, JWait => JWoken | _, _ => c end.

Lemma work_effect i w s s' :
work_step i w s = Some s' -> worker_ok w ->
exists w', thread s' = <[i := w']> (thread s) /\ worker_ok w'
/\ w_pc w <> WNew /\ w_pc w' <> WNew
/\ (numUnjoined s' = numUnjoined s /\ w_state w' = w_state w /\ (to_signal w -> w_pc w = WSignal \/ to_signal w')
\/ w_pc w = WMark /\ to_signal w' /\ numUnjoined s' = wrap_s32 (numUnjoined s + 1)
 /\ w_state w = TS_ALIVE /\ w_state w' = TS_TERMINATED)
/\ j_pc s' = woken_by w (j_pc s) /\ numLive s' = numLive s /\ reaped s' = reaped s
/\ (work_holds w' = work_holds w /\ threadMutex s' = threadMutex s
\/ work_holds w' = true /\ lock_acquire (S i) (threadMutex s) = Some (threadMutex s')
\/ work_holds w = true /\ work_holds w' = false /\ lock_release (S i) (threadMutex s) = Some (threadMutex s'))
/\ worker_left w' < worker_left w.
Proof.
destruct w as [pc st], s as [m ws c l u r]. unfold work_step, worker_ok, to_signal, work_holds, woken_by, worker_left.
simpl. intros Hs Ht. destruct pc; try done.
- injection Hs as <-. eexists. simpl. split; [done|]. simpl. intuition (try done; try lia).
- destruct (lock_acquire (S i) m) as [m'|] eqn:E; [|done]. injection Hs as <-. eexists. simpl.
split; [done|]. simpl. intuition (try done; try lia).
- injection Hs as <-. eexists. simpl. split; [done|]. simpl. intuition (try done; try lia).
- destruct (lock_release (S i) m) as [m'|] eqn:E; [|done]. injection Hs as <-.
eexists; simpl; (split; [done|]); simpl; intuition (try done; try lia).
- injection Hs as <-. eexists. destruct c; simpl; (split; [done|]); simpl; subst st; intuition (try done; try lia).
Qed.

Lemma woken_other w c : c <> JWait -> woken_by w c = c.
Proof. unfold woken_by. by destruct (w_pc w), c. Qed.

Lemma join_ok_work s s' i w w' :
thread s !! i = Some w -> thread s' = <[i := w']> (thread s) -> w_pc w <> WNew -> w_pc w' <> WNew ->
(numUnjoined s' = numUnjoined s /\ w_state w' = w_state w /\ (to_signal w -> w_pc w = WSignal \/ to_signal w')
 \/ to_signal w' /\ join_holds (j_pc s) (threadMutex s) = false) ->
j_pc s' = woken_by w (j_pc s) -> numLive s' = numLive s -> join_ok s -> join_ok s'.
Proof.
intros Hw Hws Hn0 Hn' Hst Hc Hl Hj.
assert (Hnew : (forall j v, thread s !! j = Some v -> w_pc v <> WNew) -> forall j v, thread s' !! j = Some v -> w_pc v <> WNew)
by (intros H; rewrite Hws; by apply (all_insert (fun _ v => w_pc v <> WNew))).
assert (Hself : thread s' !! i = Some w') by (by rewrite Hws; apply list_lookup_insert_eq, (lookup_lt_Some _ _ _ Hw)).
assert (Hscan : join_holds (j_pc s) (threadMutex s) = true -> forall j v, thread s' !! j = Some v ->
exists v0, thread s !! j = Some v0 /\ w_state v0 = w_state v).
{ intros Hh j v Hv. destruct Hst as [(_ & He & _)|[_ Hf]]; [|congruence].
rewrite Hws in Hv. destruct (lookup_moved _ _ _ _ _ Hv) as [[<- ->]|[_ Hv']]; [by exists w|by exists v]. }
unfold join_ok in *. rewrite Hc, Hl. destruct (decide (j_pc s = JWait)) as [Ew|Ew].
- rewrite Ew in *. destruct Hj as (Hjn & Hlive & Hp). unfold woken_by.
destruct (decide (w_pc w = WSignal)) as [Es|Es]; [rewrite Es; split; [by apply Hnew|done]|].
assert (match w_pc w with WSignal => JWoken | _ => JWait end = JWait) as -> by (by destruct (w_pc w)).
split; [by apply Hnew|]. split; [done|]. intros Hu. destruct Hst as [(He & _ & Hs)|[Hs _]]; [|by exists i, w'].
rewrite He in Hu. destruct (Hp Hu) as (j & v & Hv & Hvs). destruct (decide (i = j)) as [<-|Hij].
+ exists i, w'. split; [done|]. assert (v = w) as -> by congruence. by destruct (Hs Hvs).
+ exists j, v. split; [|done]. by rewrite Hws, list_lookup_insert_ne.
- rewrite (woken_other w _ Ew). clear Hc. destruct (j_pc s) as [k| | | | | |k|k| |st]; try done;
try (destruct Hj as [Hjn Hj]; split; [by apply Hnew|]; try done).
+ intros j v Hv. rewrite Hws in Hv. destruct (lookup_moved _ _ _ _ _ Hv) as [[<- ->]|[_ Hv']]; [|by apply Hj].
split; [done|]. intros Hk. by apply (Hj i w Hw) in Hk.
+ destruct Hj as [Hk Hj]. split; [by rewrite Hws, length_insert|].
intros j v Hv Hjk. destruct (Hscan eq_refl j v Hv) as (v0 & Hv0 & <-). by apply (Hj j).
+ destruct Hj as [(w0 & Hw0 & Ht) Hj]. split.
* destruct (decide (i = k)) as [->|Hik]; [|exists w0; by rewrite Hws, list_lookup_insert_ne].
exists w'. split; [done|]. destruct (Hscan eq_refl k w' Hself) as (v0 & Hv0 & <-). congruence.
* intros j v Hv Hjk. destruct (Hscan eq_refl j v Hv) as (v0 & Hv0 & <-). by apply (Hj j).
Qed.

(** The threads that have been joined do not change when thread [i] moves. *)
Lemma reaped_ok_work s s' i w w' :
thread s !! i = Some w -> thread s' = <[i := w']> (thread s) -> numLive s' = numLive s -> reaped s' = reaped s ->
(w_state w' = TS_JOINED <-> w_state w = TS_JOINED) -> reaped_ok n s -> reaped_ok n s'.
Proof.
intros Hw Hws Hl Hr Hst (Hnd & Hin & Hz & Hlen). unfold reaped_ok. rewrite Hr, Hl.
split; [done|]. split; [|done]. intros k. rewrite Hin, Hws. split; intros (v & Hv & Hj).
- destruct (decide (i = k)) as [<-|Hik]; [|exists v; by rewrite list_lookup_insert_ne].
exists w'. split; [by apply list_lookup_insert_eq, (lookup_lt_Some _ _ _ Hw)|]. apply Hst. congruence.
- destruct (lookup_moved _ _ _ _ _ Hv) as [[<- ->]|[_ Hv']]; [|by exists v]. exists w. split; [done|by apply Hst].
Qed.

Lemma mj_inv_work i w s s' :
mj_active s = true -> mj_inv s -> thread s !! i = Some w -> work_step i w s = Some s' -> mj_inv s'.
Proof using Hn.
intros Hact Hi Hw Hs. destruct (work_effect i w s s' Hs (mj_workers s Hi i w Hw))
as (w' & Hws & Hok & Hn0 & Hn' & Hst & Hc & Hl & Hr & Hmx & _).
assert (Hnj : w_state w = TS_ALIVE -> w_state w' = TS_TERMINATED -> unjoined w' = unjoined w + 1 /\ live w' = live w)
by (intros E1 E2; unfold unjoined, live; by rewrite E1, E2).
assert (Hlen : length (<[i := w']> (thread s)) = n) by (rewrite length_insert; apply Hi).
pose proof (mj_bounds _ Hlen) as Hb. rewrite (sum_over_insert unjoined _ _ _ _ Hw) in Hb.
pose proof (mj_mutex s Hi) as Hm.
constructor; rewrite ?Hws; try done.
- apply (all_insert (fun _ => worker_ok)); [apply (mj_workers s Hi)|done].
- assert (Hmh : join_holds (j_pc s') (threadMutex s') = join_holds (j_pc s) (threadMutex s))
by (rewrite Hc; unfold woken_by, mj_active in *; by destruct (w_pc w), (j_pc s)).
rewrite Hmh. destruct Hmx as [[He ->]|[[He Ha]|(He & He' & Hrl)]].
+ by eapply mutex_inv_move.
+ by eapply mutex_inv_take.
+ by eapply mutex_inv_drop.
- rewrite (sum_over_insert unjoined _ _ _ _ Hw). rewrite (mj_unjoined s Hi) in Hst.
destruct Hst as [(-> & He & _)|(_ & _ & -> & E1 & E2)].
+ unfold unjoined at 3 4. rewrite He. lia.
+ destruct (Hnj E1 E2) as [E3 E4]. rewrite (sum_over_insert live _ _ _ _ Hw), E3, E4 in Hb. rewrite E3.
rewrite wrap_s32_id by (unfold in_int, INT_MIN; lia). lia.
- rewrite (sum_over_insert live _ _ _ _ Hw), Hl, (mj_live s Hi).
destruct Hst as [(_ & He & _)|(_ & _ & _ & E1 & E2)]; [unfold live at 3 4; rewrite He; lia|].
destruct (Hnj E1 E2) as [_ ->]. lia.
- apply (reaped_ok_work s s' i w w'); try done; [|apply Hi].
destruct Hst as [(_ & -> & _)|(_ & _ & _ & -> & ->)]; [done|split; done].
- apply (join_ok_work s s' i w w'); try done; [|apply Hi].
destruct Hst as [Hst|(Hp & Hts & _)]; [by left|right]. split; [done|].
destruct (join_holds (j_pc s) (threadMutex s)) eqn:E; [|done].
pose proof (mutex_excl_main _ _ _ _ _ Hm Hw) as Hx. unfold work_holds in Hx. by rewrite Hp in Hx.
Qed.

(** The steps of [main] that only move it. *)
Lemma mj_inv_main s c m :
mj_inv s -> mutex_inv work_holds (join_holds c m) m (thread s) -> join_ok (with_mutex m (with_jpc c s)) ->
mj_inv (with_mutex m (with_jpc c s)).
Proof. intros [] Hm Ho. destruct s as [m0 ws c0 l u r]. by constructor. Qed.
Lemma with_mutex_same s c : with_jpc c s = with_mutex (threadMutex s) (with_jpc c s).
Proof. by destruct s. Qed.

(** Creating thread [k]. *)
Lemma mj_inv_create s k w :
mj_inv s -> j_pc s = JCreate k -> thread s !! k = Some w ->
mj_inv (with_jpc (JCreate (S k)) (with_worker k (Worker WSleep TS_ALIVE) s)).
Proof.
intros Hi Hc Hw. pose proof (mj_main s Hi) as Hj. unfold join_ok in Hj. rewrite Hc in Hj.
pose proof (mj_workers s Hi k w Hw) as Hok. pose proof (proj2 (Hj k w Hw)) as Hnew.
destruct w as [pc st]. unfold worker_ok in Hok. simpl in *. rewrite Hnew in * by lia. subst st.
destruct s as [m ws c l u r]. simpl in *. subst c. constructor; simpl; try apply Hi.
- apply (all_insert (fun _ => worker_ok)); [apply (mj_workers _ Hi)|done].
- rewrite length_insert. apply (mj_length _ Hi).
- eapply mutex_inv_move; [exact Hw|done|apply (mj_mutex _ Hi)].
- rewrite (sum_over_insert unjoined _ _ _ _ Hw). pose proof (mj_unjoined _ Hi) as Hu. unfold unjoined at 2 3. simpl in *. lia.
- rewrite (sum_over_insert live _ _ _ _ Hw). pose proof (mj_live _ Hi) as Hu. unfold live at 2 3. simpl in *. lia.
- eapply (reaped_ok_work (MJ m ws (JCreate k) l u r)); [exact Hw|done..|apply Hi].
- intros i v Hv. destruct (lookup_moved _ _ _ _ _ Hv) as [[<- ->]|[Hik Hv']]; [simpl; split; [done|lia]|].
rewrite (Hj i v Hv'). lia.
Qed.

(** Joining thread [k]: reporting it, and the whole step. *)
Lemma reaped_ok_join s k w live' c m u :
reaped_ok n s -> thread s !! k = Some w -> w_state w = TS_TERMINATED -> live' = numLive s - 1 ->
reaped_ok n (MJ m (<[k := Worker WDone TS_JOINED]> (thread s)) c live' u (reaped s ++ [(k, live')])).
Proof.
intros (Hnd & Hin & Hz & Hlen) Hw Ht ->. unfold reaped_ok. simpl. rewrite fmap_app. simpl.
assert (Hk : k ∉ (reaped s).*1) by (rewrite Hin; intros (v & Hv & Hj); congruence).
split; [|split; [|split]].
- apply NoDup_app. split; [done|]. split; [|apply NoDup_singleton]. intros x Hx ->%list_elem_of_singleton. done.
- intros x. rewrite elem_of_app, list_elem_of_singleton, Hin. split.
+ intros [(v & Hv & Hj)| ->].
* destruct (decide (k = x)) as [<-|Hkx]; [|exists v; by rewrite list_lookup_insert_ne]. congruence.
* eexists. split; [by apply list_lookup_insert_eq, (lookup_lt_Some _ _ _ Hw)|done].
+ intros (v & Hv & Hj). destruct (lookup_moved _ _ _ _ _ Hv) as [[<- ->]|[_ Hv']]; [by right|left; by exists v].
- intros i x z Hi. apply lookup_app_Some in Hi as [Hi|[Hi1 Hi2]]; [by eapply Hz|].
apply list_lookup_singleton_Some in Hi2 as [Hi2 [= <- <-]]. lia.
- rewrite length_app. simpl. lia.
Qed.

Lemma mj_inv_join s k st :
mj_inv s -> j_pc s = JJoin k -> thread s !! k = Some (Worker WDone st) ->
let live' := wrap_s32 (numLive s - 1) in
mj_inv (MJ (threadMutex s) (<[k := Worker WDone TS_JOINED]> (thread s)) (JScan (S k)) live'
(wrap_s32 (numUnjoined s - 1)) (reaped s ++ [(k, live')])).
Proof using Hn.
intros Hi Hc Hw live'. pose proof (mj_main s Hi) as Hj. unfold join_ok in Hj. rewrite Hc in Hj.
destruct Hj as (Hnew & (w0 & Hw0 & Ht) & Hscan). assert (w0 = Worker WDone st) as -> by congruence.
simpl in Ht. subst st. pose proof (mj_bounds _ (mj_length s Hi)) as Hb.
assert (Hu1 : 1 <= sum_over unjoined (thread s)).
{ apply (sum_over_elem unjoined _ k (Worker WDone TS_TERMINATED)); [|done]. intros j v _. unfold unjoined. destruct (w_state v); lia. }
assert (live' = numLive s - 1) as El.
{ apply wrap_s32_id. rewrite (mj_live s Hi). unfold in_int, INT_MIN. lia. }
assert (wrap_s32 (numUnjoined s - 1) = numUnjoined s - 1) as ->.
{ apply wrap_s32_id. rewrite (mj_unjoined s Hi). unfold in_int, INT_MIN. lia. }
constructor; simpl; try apply Hi.
- apply (all_insert (fun _ => worker_ok)); [apply (mj_workers _ Hi)|done].
- rewrite length_insert. apply (mj_length _ Hi).
- pose proof (mj_mutex s Hi) as Hm. rewrite Hc in Hm. by eapply mutex_inv_move.
- rewrite (sum_over_insert unjoined _ _ _ _ Hw), (mj_unjoined s Hi). unfold unjoined at 3 4. simpl. lia.
- rewrite (sum_over_insert live _ _ _ _ Hw), El, (mj_live s Hi). unfold live at 3 4. simpl. lia.
- by eapply reaped_ok_join; [apply (mj_reaped s Hi)|..].
- split; [by apply (all_insert (fun _ v => w_pc v <> WNew))|]. simpl. rewrite length_insert.
split; [apply lookup_lt_Some in Hw; lia|]. intros j v Hv Hjk.
destruct (lookup_moved _ _ _ _ _ Hv) as [[<- ->]|[Hne Hv']]; [done|]. apply (Hscan j v Hv'). lia.
Qed.

(** Every step of [main]. *)
Lemma mj_inv_join_step s s' : mj_inv s -> join_step s = Some s' -> mj_inv s'.
Proof using Hn.
intros Hi Hs. pose proof (mj_main s Hi) as Hj. pose proof (mj_mutex s Hi) as Hx.
destruct s as [m ws c l u r]. unfold join_ok in Hj. simpl in Hj, Hx. unfold join_step in Hs.
destruct c as [k| | | | | |k|k| |st]; try done.
- destruct (ws !! k) as [w|] eqn:Hw; injection Hs as <-; [by apply (mj_inv_create _ k w Hi)|].
apply (mj_inv_main _ JHead m Hi); [done|]. split; [|done]. intros i w Hiw Hpn. simpl in Hiw.
apply (Hj i w Hiw) in Hpn. apply lookup_lt_Some in Hiw. apply lookup_ge_None in Hw. lia.
- injection Hs as <-. apply (mj_inv_main _ (if l >? 0 then JLock else JExit 0) m Hi).
+ destruct (l >? 0); [done|]. simpl. by eapply mutex_inv_who.
+ unfold join_ok. simpl. destruct (l >? 0) eqn:El; zbool; simpl; [intuition lia|].
pose proof (mj_live _ Hi) as Hl. pose proof (mj_bounds _ (mj_length _ Hi)). simpl in *. lia.
- destruct (lock_acquire 0 m) as [m'|] eqn:E; [|done]. injection Hs as <-. apply (mj_inv_main _ JTest m' Hi); [|done].
by destruct (mutex_inv_main_take _ _ _ _ E Hx) as [_ Hx'].
- destruct (u =? 0) eqn:Eu; zbool.
+ destruct (lock_release 0 m) as [m'|] eqn:E; [|done]. injection Hs as <-. apply (mj_inv_main _ JWait m' Hi).
* by destruct (mutex_inv_main_drop _ _ _ _ E Hx) as [_ Hx'].
* unfold join_ok. simpl. intuition lia.
+ injection Hs as <-. apply (mj_inv_main _ (JScan 0) m Hi); [done|]. unfold join_ok. simpl.
split; [tauto|]. split; [lia|]. intros; lia.
- destruct (lock_acquire 0 m) as [m'|] eqn:E; [|done]. injection Hs as <-. apply (mj_inv_main _ JTest m' Hi); [|done].
by destruct (mutex_inv_main_take _ _ _ _ E Hx) as [_ Hx'].
- destruct Hj as (Hnew & Hk & Hscan). destruct (ws !! k) as [w|] eqn:Hw; injection Hs as <-.
+ apply (mj_inv_main _ (if decide (w_state w = TS_TERMINATED) then JJoin k else JScan (S k)) m Hi); [by case_decide|].
unfold join_ok. simpl. case_decide as Hd; simpl; [by eauto|]. split; [done|].
split; [apply lookup_lt_Some in Hw; lia|]. intros j v Hv Hjk. destruct (decide (j = k)) as [->|]; [congruence|].
apply (Hscan j v Hv). lia.
+ by apply (mj_inv_main _ JUnlock m Hi).
- destruct (ws !! k) as [[pc st]|] eqn:Hw; [|done]. destruct pc; try done. injection Hs as <-.
by apply (mj_inv_join _ k st Hi).
- destruct (lock_release 0 m) as [m'|] eqn:E; [|done]. injection Hs as <-. apply (mj_inv_main _ JHead m' Hi); [|done].
by destruct (mutex_inv_main_drop _ _ _ _ E Hx) as [_ Hx'].
Qed.

Lemma mj_inv_any s s' : mj_inv s -> sys_any sys s s' -> mj_inv s'.
Proof using Hn.
intros Hi [Hs|[[Hact ->]|[Hc ->]]].
- destruct (sys_step_inv _ _ _ Hs) as [Hact [Hm|(i & w & Hw & Hk)]].
+ by apply (mj_inv_join_step s).
+ by apply (mj_inv_work i w s).
- simpl. rewrite with_mutex_same. apply mj_inv_main; [done| |by destruct s].
simpl. eapply mutex_inv_who, (mj_mutex s Hi).
- simpl in *. rewrite with_mutex_same. unfold mj_waiting in Hc. pose proof (mj_main s Hi) as Hj.
pose proof (mj_mutex s Hi) as Hx. unfold join_ok in Hj. destruct (j_pc s) eqn:Ec; try done.
apply mj_inv_main; [done|done|]. destruct s as [m ws c l u r]. unfold join_ok. simpl in *. tauto.
Qed.
(** ** No deadlock *)

Lemma worker_moves mh s i w :
mutex_inv work_holds mh (threadMutex s) (thread s) -> thread s !! i = Some w -> w_pc w <> WNew -> w_pc w <> WDone ->
threadMutex s = None \/ w_pc w <> WLock -> exists s', work_step i w s = Some s'.
Proof.
intros Hx Hw Hn0 Hd Hl. destruct w as [pc st]. simpl in *. destruct pc; try done; try by eexists.
- destruct Hl as [->|]; [|done]. by eexists.
- rewrite (mutex_release_ok work_holds _ _ _ _ _ Hx Hw eq_refl). by eexists.
Qed.

(** A thread that has not been joined, while [main] waits, is still to signal or to terminate. *)
Lemma not_done_waiting s :
mj_inv s -> j_pc s = JWait -> exists i w, thread s !! i = Some w /\ w_pc w <> WNew /\ w_pc w <> WDone.
Proof using Hn.
intros Hi Hc. pose proof (mj_main s Hi) as Hj. unfold join_ok in Hj. rewrite Hc in Hj. destruct Hj as (Hnew & Hl & Hp).
pose proof (mj_bounds _ (mj_length s Hi)) as Hb.
destruct (decide (0 < numUnjoined s)) as [Hu|Hu].
- destruct (Hp Hu) as (i & w & Hw & Hs). exists i, w. split; [done|]. split; [by eapply Hnew|]. destruct Hs; congruence.
- rewrite (mj_live s Hi) in Hl. rewrite (mj_unjoined s Hi) in Hu.
assert (Hpos : 0 < sum_over (fun w => live w - unjoined w) (thread s)) by (rewrite sum_over_sub; lia).
apply sum_over_pos in Hpos as (i & w & Hw & Hlu). exists i, w. split; [done|]. split; [by eapply Hnew|].
intros Hd. pose proof (mj_workers s Hi i w Hw) as Hok. unfold worker_ok, live, unjoined in *. rewrite Hd in Hok.
destruct (w_state w); [done|lia..].
Qed.

Lemma mj_moves s : mj_inv s -> mj_active s = true -> exists s', sys_step sys s s'.
Proof using Hn.
intros Hi Ha. pose proof (mj_main s Hi) as Hj. pose proof (mj_mutex s Hi) as Hx. unfold join_ok in Hj.
assert (Hmain : (exists s', join_step s = Some s') -> exists s', sys_step sys s s') by (by apply (sys_main_step sys)).
assert (Hwork : forall mh i w, mutex_inv work_holds mh (threadMutex s) (thread s) -> thread s !! i = Some w ->
w_pc w <> WNew -> w_pc w <> WDone -> threadMutex s = None \/ w_pc w <> WLock -> exists s', sys_step sys s s').
{ intros mh i w Hx' Hw Hn0 Hd Hl. destruct (worker_moves mh s i w Hx' Hw Hn0 Hd Hl) as [s' Hs].
by eapply (sys_work_step sys). }
assert (Hfree : mutex_inv work_holds false (threadMutex s) (thread s) ->
threadMutex s = None \/ exists s', sys_step sys s s').
{ intros Hx'. apply (sys_holder_moves sys work_holds); [done|done|]. intros i w Hw Hh.
apply (worker_moves false s i w Hx' Hw); unfold work_holds in Hh; destruct (w_pc w); try done; by right. }
assert (Hlock : mutex_inv work_holds false (threadMutex s) (thread s) ->
(threadMutex s = None -> exists s', join_step s = Some s') -> exists s', sys_step sys s s').
{ intros Hx' Hs. destruct (Hfree Hx') as [Hf|]; [by apply Hmain, Hs|done]. }
assert (Hrel : mutex_inv work_holds true (threadMutex s) (thread s) -> lock_release 0 (threadMutex s) = Some None)
by apply mutex_main_release_ok.
destruct (j_pc s) as [k| | | | | |k|k| |st] eqn:Hc; try (unfold mj_active in Ha; rewrite Hc in Ha; done).
- apply Hmain. destruct s as [m ws c l u r]. simpl in *. subst c. destruct (ws !! k); by eexists.
- apply Hmain. destruct s as [m ws c l u r]. simpl in *. subst c. by eexists.
- apply Hlock; [done|]. intros Hf. destruct s as [m ws c l u r]. simpl in *. subst c m. by eexists.
- apply Hmain. specialize (Hrel Hx). destruct s as [m ws c l u r]. simpl in *. subst c. rewrite Hrel.
destruct (u =? 0); by eexists.
- destruct (Hfree Hx) as [Hf|]; [|done]. destruct (not_done_waiting s Hi Hc) as (i & w & Hw & Hn0 & Hd). by eauto.
- apply Hlock; [done|]. intros Hf. destruct s as [m ws c l u r]. simpl in *. subst c m. by eexists.
- apply Hmain. destruct s as [m ws c l u r]. simpl in *. subst c. destruct (ws !! k); by eexists.
- destruct Hj as (Hnew & (w & Hw & Ht) & _). pose proof (mj_workers s Hi k w Hw) as Hok. unfold worker_ok in Hok.
destruct (decide (w_pc w = WDone)) as [Hd|Hd].
+ apply Hmain. destruct w as [pc st]. simpl in *. subst pc. destruct s as [m ws c l u r]. simpl in *. subst c.
rewrite Hw. by eexists.
+ apply (Hwork true k w); try done; [by eapply Hnew|]. right. intros He. rewrite He in Hok. congruence.
- apply Hmain. specialize (Hrel Hx). destruct s as [m ws c l u r]. simpl in *. subst c. rewrite Hrel. by eexists.
Qed.

(** ** Termination *)

Definition jpc_left (c : jpc) (u : Z) : Z :=
let N := Z.of_nat n in
match c with
| JCreate _ => 2 * N + 10
| JScan k => (if u >? 0 then 1 else 2 * N + 10) + 2 * (N - Z.of_nat k)
| JJoin k => 2 * (N - Z.of_nat k)
| JUnlock => 2 * N + 8 | JHead => 2 * N + 7 | JLock => 2 * N + 6 | JWoken => 2 * N + 5
| JTest => 2 * N + 4 | JWait => 2 * N + 3 | JExit _ => 0
end.
Definition mj_left (s : mj_state) : nat :=
Z.to_nat (10 * sum_over worker_left (thread s) + (4 * Z.of_nat n + 20) * numLive s + jpc_left (j_pc s) (numUnjoined s)).
Lemma worker_left_nonneg ws : 0 <= sum_over worker_left ws.
Proof. apply sum_over_nonneg. intros i w _. unfold worker_left. destruct (w_pc w); lia. Qed.

(** At the end of a scan no terminated thread is left. *)
Lemma scan_complete s k :
mj_inv s -> j_pc s = JScan k -> thread s !! k = None -> numUnjoined s = 0 /\ k = n.
Proof.
intros Hi Hc Hk. pose proof (mj_main s Hi) as Hj. unfold join_ok in Hj. rewrite Hc in Hj.
destruct Hj as (_ & Hle & Hscan). apply lookup_ge_None in Hk. pose proof (mj_length s Hi).
split; [|lia]. rewrite (mj_unjoined s Hi). apply sum_over_0. intros i w Hw.
pose proof (lookup_lt_Some _ _ _ Hw). pose proof (Hscan i w Hw ltac:(lia)) as Ht.
unfold unjoined. by destruct (w_state w).
Qed.

Lemma jpc_left_pos s : mj_inv s -> mj_active s = true -> 0 < jpc_left (j_pc s) (numUnjoined s).
Proof.
intros Hi Ha. pose proof (mj_main s Hi) as Hj. pose proof (mj_length s Hi) as Hl. unfold join_ok, mj_active in *.
destruct (j_pc s) as [k| | | | | |k|k| |st]; simpl; try done; try lia.
- destruct Hj as (_ & Hk & _). case_if; lia.
- destruct Hj as (_ & (w & Hw & _) & _). apply lookup_lt_Some in Hw. lia.
Qed.

Lemma join_left s s' : mj_inv s -> join_step s = Some s' -> mj_inv s' -> (mj_left s' < mj_left s)%nat.
Proof using Hn.
intros Hi Hs Hi'. pose proof (worker_left_nonneg (thread s')) as Hw0.
pose proof (mj_bounds _ (mj_length s Hi)) as Hb. pose proof (mj_bounds _ (mj_length s' Hi')) as Hb'.
pose proof (mj_live s Hi) as Hl. pose proof (mj_live s' Hi') as Hl'. pose proof (mj_unjoined s Hi) as Hu.
pose proof (mj_unjoined s' Hi') as Hu'. pose proof (mj_main s Hi) as Hj. unfold mj_left.
pose proof (scan_complete s) as Hscan. pose proof (mj_length s Hi) as Hlen.
destruct s as [m ws c l u r]. unfold join_ok, join_step in *. simpl in Hj, Hl, Hu, Hb, Hscan, Hlen.
assert (Hlt : forall c', jpc_left c' u < jpc_left c u -> 0 <= jpc_left c' u ->
(Z.to_nat (10 * sum_over worker_left ws + (4 * Z.of_nat n + 20) * l + jpc_left c' u) <
 Z.to_nat (10 * sum_over worker_left ws + (4 * Z.of_nat n + 20) * l + jpc_left c u))%nat).
{ intros c' H1 H2. pose proof (worker_left_nonneg ws). nia. }
destruct c as [k| | | | | |k|k| |st]; try done.
- destruct (ws !! k) as [w|] eqn:Hw; injection Hs as <-; [|apply (Hlt JHead); simpl; lia].
simpl in *. rewrite (sum_over_insert worker_left _ _ _ _ Hw) in *.
pose proof (proj2 (Hj k w Hw)) as Hnew. unfold worker_left in *. rewrite Hnew in * by lia. simpl in *. nia.
- injection Hs as <-. destruct (l >? 0); [apply (Hlt JLock)|apply (Hlt (JExit 0))]; simpl; lia.
- destruct (lock_acquire 0 m); [|done]. injection Hs as <-. apply (Hlt JTest); simpl; lia.
- destruct (u =? 0) eqn:Eu; zbool.
+ destruct (lock_release 0 m); [|done]. injection Hs as <-. apply (Hlt JWait); simpl; lia.
+ injection Hs as <-. apply (Hlt (JScan 0)); simpl; replace (u >? 0) with true by (symmetry; apply Z.gtb_gt; lia); lia.
- destruct (lock_acquire 0 m); [|done]. injection Hs as <-. apply (Hlt JTest); simpl; lia.
- destruct (ws !! k) as [w|] eqn:Hw; injection Hs as <-.
+ apply lookup_lt_Some in Hw. case_decide; [apply (Hlt (JJoin k))|apply (Hlt (JScan (S k)))]; simpl; repeat case_if; lia.
+ destruct (Hscan k Hi eq_refl Hw) as [-> ->]. apply (Hlt JUnlock); simpl; lia.
- destruct (ws !! k) as [[pc st]|] eqn:Hw; [|done]. destruct pc; try done. injection Hs as <-.
destruct Hj as (_ & (w0 & He0 & Ht) & _). injection He0 as <-. simpl in Ht. subst st. clear Hi Hi' Hscan Hlt.
pose proof (lookup_lt_Some _ _ _ Hw) as Hk. simpl in *. rewrite (sum_over_insert worker_left _ _ _ _ Hw) in *.
rewrite Hl' in *. rewrite (sum_over_insert live _ _ _ _ Hw) in *. unfold live at 2 3, worker_left at 2 3. simpl.
unfold worker_left at 2 3 in Hw0. unfold live at 2 3 in Hb'. simpl in Hw0, Hb'.
assert (0 <= (4 * Z.of_nat n + 20) * (sum_over live ws - 1)) by (apply Z.mul_nonneg_nonneg; lia).
rewrite Hl. case_if; lia.
- destruct (lock_release 0 m); [|done]. injection Hs as <-. apply (Hlt JHead); simpl; lia.
Qed.

Lemma mj_decreases s s' : mj_inv s -> sys_step sys s s' \/ sys_fail sys s s' -> (mj_left s' < mj_left s)%nat.
Proof using Hn.
intros Hi [Hs|[Hact ->]].
- assert (Hi' : mj_inv s') by (apply (mj_inv_any s); [done|by left]).
destruct (sys_step_inv _ _ _ Hs) as [Hact [Hm|(i & w & Hw & Hk)]]; [by apply join_left|]. simpl in Hw, Hk, Hact.
destruct (work_effect i w s s' Hk (mj_workers s Hi i w Hw)) as (w' & Hws & _ & _ & _ & Hst & Hc & Hl & _ & _ & Hlt).
pose proof (worker_left_nonneg (thread s')) as Hw0. pose proof (jpc_left_pos s Hi Hact) as Hp.
pose proof (mj_bounds _ (mj_length s Hi)) as Hb. pose proof (mj_live s Hi) as Hlive.
pose proof (mj_unjoined s' Hi') as Hu'. pose proof (mj_bounds _ (mj_length s' Hi')) as Hb'.
assert (Hr : jpc_left (j_pc s') (numUnjoined s') <= jpc_left (j_pc s) (numUnjoined s) + 2).
{ rewrite Hc. unfold woken_by. assert (Hge : numUnjoined s > 0 -> numUnjoined s' > 0).
{ destruct Hst as [(-> & _)|(_ & _ & E & _)]; [done|]. intros Hpos. pose proof (mj_unjoined s Hi).
destruct (decide (numUnjoined s = INT_MAX)) as [Em|Em].
- rewrite Em in E. change (wrap_s32 (INT_MAX + 1)) with INT_MIN in E. unfold INT_MIN in E. lia.
- rewrite E, wrap_s32_id by (unfold in_int, INT_MIN; lia). lia. }
destruct (w_pc w), (j_pc s); simpl; repeat case_if; zbool; lia. }
unfold mj_left. rewrite Hws in *. rewrite (sum_over_insert worker_left _ _ _ _ Hw) in *. rewrite Hl.
assert (0 <= (4 * Z.of_nat n + 20) * numLive s) by (apply Z.mul_nonneg_nonneg; lia). lia.
- pose proof (worker_left_nonneg (thread s)) as Hw0. pose proof (jpc_left_pos s Hi Hact) as Hp.
pose proof (mj_bounds _ (mj_length s Hi)) as Hb. pose proof (mj_live s Hi) as Hlive.
assert (0 <= (4 * Z.of_nat n + 20) * numLive s) by (apply Z.mul_nonneg_nonneg; lia).
unfold mj_left in *. destruct s as [m ws c l u r]. simpl in *. lia.
Qed.
End Invariant.

(** ** The results *)

(** With no thread left alive, all have been reported. *)
Lemma all_reaped n s : mj_inv n s -> numLive s = 0 -> Permutation (reaped s).*1 (seq 0 n).
Proof.
  intros Hi Hl. destruct (mj_reaped n s Hi) as (Hnd & Hin & _).
  apply NoDup_Permutation; [done|apply NoDup_seq|]. intros k. rewrite Hin, elem_of_seq. split.
  - intros (w & Hw & _). apply lookup_lt_Some in Hw. rewrite (mj_length n s Hi) in Hw. lia.
  - intros [_ Hk]. destruct (lookup_lt_is_Some_2 (thread s) k) as [w Hw]; [rewrite (mj_length n s Hi); lia|].
    exists w. split; [done|]. assert (Hle : live w <= sum_over live (thread s)).
    { apply (sum_over_elem live _ k); [|done]. intros j v _. unfold live. destruct (w_state v); lia. }
    rewrite <- (mj_live n s Hi), Hl in Hle. unfold live in Hle. destruct (w_state w); [lia..|done].
Qed.

(** C8.  Whatever the interleaving, the failures and the spurious wakeups of a
    run of thread_multijoin with [n] threads: the mutex excludes; [numLive]
    counts the threads not yet joined and [numUnjoined] those that have
    terminated and await it; the threads reported as joined are exactly those
    that have been, each once, with the number left counting down from [n - 1];
    a thread is joined only after it has terminated; and the process ends with
    status 0 only when all are joined.  No wakeup is lost: while the process
    runs somebody can always move, and only endless spurious wakeups could make
    a run infinite. *)
Theorem thread_multijoin_correct argv s :
  let n := length (tail argv) in
  Z.of_nat n <= INT_MAX -> reaches (sys_any thread_multijoin) (mj_start argv) s ->
  (forall i w, thread s !! i = Some w -> work_holds w = true ->
     join_holds (j_pc s) (threadMutex s) = false
     /\ forall j v, thread s !! j = Some v -> work_holds v = true -> i = j)
  /\ numLive s = sum_over live (thread s) /\ numUnjoined s = sum_over unjoined (thread s)
  /\ reaped_ok n s
  /\ (forall i w, thread s !! i = Some w -> w_state w = TS_JOINED -> w_pc w = WDone)
  /\ (j_pc s = JExit 0 -> Permutation (reaped s).*1 (seq 0 n))
  /\ (mj_active s = true -> exists s', sys_step thread_multijoin s s')
  /\ terminates (fun s s' => sys_step thread_multijoin s s' \/ sys_fail thread_multijoin s s') s.
Proof.
  intros n Hn Hr.
  assert (Hi : mj_inv n s) by (revert Hr; apply reaches_inv; [by apply mj_inv_start|intros s1 s2; by apply mj_inv_any]).
  pose proof (mj_mutex n s Hi) as Hx. pose proof (mj_reaped n s Hi) as Hrp.
  split; [|split; [apply Hi|split; [apply Hi|split; [done|split; [|split; [|split]]]]]].
  - intros i w Hw Hh. split; [|intros j v Hv Hh'; by eapply mutex_excl].
    destruct (join_holds (j_pc s) (threadMutex s)); [|done]. by rewrite (mutex_excl_main _ _ _ i w Hx Hw) in Hh.
  - intros i w Hw Ht. pose proof (mj_workers n s Hi i w Hw) as Hok. unfold worker_ok in Hok.
    destruct (w_pc w); congruence.
  - intros Hc. pose proof (mj_main n s Hi) as Hj. unfold join_ok in Hj. rewrite Hc in Hj.
    by apply (all_reaped n).
  - by apply (mj_moves n Hn).
  - apply (terminates_measure _ (mj_inv n) (mj_left n)); [done|]. intros s1 s2 H1 Hs.
    split; [|by apply mj_decreases]. eapply mj_inv_any; [done..|]. unfold sys_any. tauto.
Qed.

(** Two threads: [main] waits, joins the first, and finds the second terminated. *)
Definition two_thread_turns : list (option nat) :=
  [None; None; None; None; None; None; Some 0; Some 0; Some 0; Some 0; Some 0;
   None; None; None; None; None; None; None; Some 1; Some 1; Some 1; Some 1; Some 1;
   None; None; None; None; None; None; None; None; None]%nat.

Lemma thread_multijoin_correct_witness :
  exists s, sys_run thread_multijoin two_thread_turns (mj_start ["thread_multijoin"; "1"; "2"]) = Some s
            /\ Permutation (reaped s).*1 [0; 1]%nat /\ reaped s = [(0%nat, 1); (1%nat, 0)].
Proof.
  destruct (sys_run thread_multijoin two_thread_turns (mj_start ["thread_multijoin"; "1"; "2"])) as [s|] eqn:E;
    [|vm_compute in E; discriminate].
  exists s. split; [reflexivity|].
  destruct (thread_multijoin_correct ["thread_multijoin"; "1"; "2"] s) as (_ & _ & _ & _ & _ & He & _);
    [vm_compute; discriminate|exact (sys_run_reaches _ _ _ _ E)|].
  assert (Hc : j_pc s = JExit 0) by (vm_compute in E; by injection E as <-).
  split; [exact (He Hc)|]. vm_compute in E. by injection E as <-.
Defined.
