(* ===== verification/Strerror.v ===== *)
(** * Strerror: strerror() with a static, a thread-local and a thread-specific
    buffer (31-thread-safe-specific)

    The three versions of strerror() differ only in where the text is kept.  A
    history is a list of calls, of uses of the pointers returned, and of thread
    exits, in the order in which the scheduler lets them happen. *)

From S2P Require Import Prelude Clib Sys Errors.

Definition MAX_ERROR_LEN : Z := 256.

(** Which of the calls that strerror() makes would fail: none, pthread_once() or
    pthread_key_create(), malloc(), pthread_setspecific(). *)
Inductive fault := NoFault | OnceFault | MallocFault | SetFault.

(** [SCall t err f]: thread [t] sets its [str] to [strerror(err)]; [SShow t]: it
    prints [str]; [SExit t]: it terminates. *)
Inductive sop := SCall (t : nat) (err : Z) (f : fault) | SShow (t : nat) | SExit (t : nat).
Inductive sout := CustomStrerror | MallocCalled (l : nat) | CalledDestructor (l : nat) | Shown (t : nat) (s : option string).

(** An implementation: its buffers, its pointers, and what a call, a use of a
    pointer and the exit of a thread do.  A call that fails ends the process. *)
Record strerror_impl := StrerrorImpl {
  sstate : Type;
  sptr : Type;
  sinit : sstate;
  scall : nat -> Z -> fault -> sstate -> list sout * option (sstate * sptr);
  sderef : sstate -> sptr -> option string;
  sexit : nat -> sstate -> list sout * sstate;
}.

(** The run of a history, with the [str] of each thread. *)
Fixpoint shist (im : strerror_impl) (ops : list sop) (s : sstate im) (str : gmap nat (sptr im)) : list sout :=
  match ops with
  | [] => []
  | SCall t err f :: ops =>
      match scall im t err f s with
      | (o, Some (s', p)) => o ++ shist im ops s' (<[t := p]> str)
      | (o, None) => o
      end
  | SShow t :: ops => Shown t (str !! t ≫= sderef im s) :: shist im ops s str
  | SExit t :: ops => let '(o, s') := sexit im t s in o ++ shist im ops s' (delete t str)
  end.
Definition run_hist (im : strerror_impl) (ops : list sop) : list sout := shist im ops (sinit im) ∅.

(** What has been printed through a [str]. *)
Fixpoint shows (l : list sout) : list (nat * option string) :=
  match l with
  | [] => []
  | Shown t s :: l => (t, s) :: shows l
  | _ :: l => shows l
  end.

Section Versions.
(** libc's table of messages. *)
Context (_sys_nerr : Z) (_sys_errlist : Z -> option string).

(** The text the body of strerror() puts in its buffer. *)
Definition error_text (err : Z) : string :=
if (err <? 0) || (err >=? _sys_nerr) then snprintf MAX_ERROR_LEN ("Unknown error " +:+ dec err)
else match _sys_errlist err with
 | None => snprintf MAX_ERROR_LEN ("Unknown error " +:+ dec err)
 | Some text => strncpy_str text (MAX_ERROR_LEN - 1)
 end.

(** strerror.c: one static buffer. *)
Definition strerror_static : strerror_impl := {|
sstate := string; sptr := unit; sinit := EmptyString;
scall _ err _ _ := ([CustomStrerror], Some (error_text err, tt));
sderef buf _ := Some buf;
sexit _ buf := ([], buf) |}.

(** strerror_tls.c: a buffer in each thread, gone when the thread is. *)
Definition strerror_tls : strerror_impl := {|
sstate := gmap nat string; sptr := nat; sinit := ∅;
scall t err _ bufs := ([CustomStrerror], Some (<[t := error_text err]> bufs, t));
sderef bufs t := bufs !! t;
sexit t bufs := ([], delete t bufs) |}.

(** strerror_tsd.c: whether the key has been created, the value each thread has
under it, and the allocated buffers. *)
Record tsd := Tsd { once : bool; specific : gmap nat nat; heap : gmap nat string }.

Definition createKey (s : tsd) : tsd := Tsd true (specific s) (heap s).
Definition pthread_once (s : tsd) : tsd := if once s then s else createKey s.
(** malloc() returns storage that is not in use. *)
Definition malloc (s : tsd) : nat * tsd :=
let l := fresh (dom (heap s)) in (l, Tsd (once s) (specific s) (<[l := EmptyString]> (heap s))).
Definition pthread_setspecific (t l : nat) (s : tsd) : tsd := Tsd (once s) (<[t := l]> (specific s)) (heap s).
Definition fill (l : nat) (text : string) (s : tsd) : tsd := Tsd (once s) (specific s) (<[l := text]> (heap s)).

Definition tsd_call (t : nat) (err : Z) (f : fault) (s : tsd) : list sout * option (tsd * nat) :=
match f with
| OnceFault => ([], None)
| _ =>
let s := pthread_once s in
match specific s !! t with
| Some l => ([], Some (fill l (error_text err) s, l))
| None =>
match f with
| MallocFault => ([], None)
| _ => let '(l, s) := malloc s in
 match f with
 | SetFault => ([MallocCalled l], None)
 | _ => let s := pthread_setspecific t l s in
([MallocCalled l], Some (fill l (error_text err) s, l))
 end
end
end
end.
(** A thread that ends has its value, if it is not NULL, passed to the destructor. *)
Definition destructor (l : nat) (s : tsd) : tsd := Tsd (once s) (specific s) (delete l (heap s)).
Definition tsd_exit (t : nat) (s : tsd) : list sout * tsd :=
match specific s !! t with
| Some l => ([CalledDestructor l], destructor l (Tsd (once s) (delete t (specific s)) (heap s)))
| None => ([], s)
end.

Definition strerror_tsd : strerror_impl := {|
sstate := tsd; sptr := nat; sinit := Tsd false ∅ ∅;
scall := tsd_call; sderef s l := heap s !! l; sexit := tsd_exit |}.

(** ** The reference: each thread sees the text of its own last call *)

Fixpoint private_shows (ops : list sop) (last : gmap nat Z) : list (nat * option string) :=
match ops with
| [] => []
| SCall t err _ :: ops => private_shows ops (<[t := err]> last)
| SShow t :: ops => (t, error_text <$> last !! t) :: private_shows ops last
| SExit t :: ops => private_shows ops (delete t last)
end.

Lemma shows_app l m : shows (l ++ m) = shows l ++ shows m.
Proof. induction l as [|[] l IH]; simpl; [done|done..|by rewrite IH]. Qed.

(** An implementation keeps the threads apart: a relation between its state, the
pointers returned and the last call of each thread, kept by every operation. *)
Class Private (im : strerror_impl) := {
prel : sstate im -> gmap nat (sptr im) -> gmap nat Z -> Prop;
prel_init : prel (sinit im) ∅ ∅;
prel_call t err s str last : prel s str last ->
exists o s' p, scall im t err NoFault s = (o, Some (s', p)) /\ shows o = []
 /\ prel s' (<[t := p]> str) (<[t := err]> last);
prel_fail t err f s : match scall im t err f s with
| (o, None) => shows o = [] /\ f <> NoFault
| r => r = scall im t err NoFault s end;
prel_show t s str last : prel s str last -> str !! t ≫= sderef im s = error_text <$> last !! t;
prel_exit t s str last : prel s str last ->
shows (fst (sexit im t s)) = [] /\ prel (snd (sexit im t s)) (delete t str) (delete t last);
}.

Definition all_succeed (ops : list sop) : Prop := Forall (fun o => match o with SCall _ _ f => f = NoFault | _ => True end) ops.

Lemma private_hist `{Private im} ops s str last :
prel s str last ->
shows (shist im ops s str) `prefix_of` private_shows ops last
/\ (all_succeed ops -> shows (shist im ops s str) = private_shows ops last).
Proof.
revert s str last. induction ops as [|[t err f|t|t] ops IH]; intros s str last Hr; simpl.
- split; [done|done].
- destruct (prel_call t err s str last Hr) as (o & s' & p & Hc & Ho & Hr'). destruct (IH _ _ _ Hr') as [IH1 IH2].
pose proof (prel_fail (im:=im) t err f s) as Hf. destruct (scall im t err f s) as [o' [[s'' p']|]].
+ rewrite Hc in Hf. injection Hf as -> -> ->. rewrite shows_app, Ho. split; [done|].
intros Hall. apply IH2. by inversion Hall.
+ destruct Hf as [-> Hf]. split; [apply prefix_nil|]. intros Hall. by inversion Hall.
- rewrite (prel_show t s str last Hr). destruct (IH _ _ _ Hr) as [IH1 IH2]. split; [by apply prefix_cons|].
intros Hall. rewrite IH2; [done|]. by inversion Hall.
- destruct (prel_exit t s str last Hr) as [Ho Hr']. destruct (sexit im t s) as [o s']. simpl in *.
rewrite shows_app, Ho. destruct (IH _ _ _ Hr') as [IH1 IH2]. split; [done|]. intros Hall. apply IH2. by inversion Hall.
Qed.

(** ** The three versions *)

(** A thread's buffer holds the text of its last call. *)
Definition tls_rel (bufs : gmap nat string) (str : gmap nat nat) (last : gmap nat Z) : Prop :=
forall t, bufs !! t = error_text <$> last !! t /\ str !! t = (fun _ => t) <$> last !! t.

#[export] Instance tls_private : Private strerror_tls.
Proof.
apply Build_Private with (prel := tls_rel); unfold tls_rel; simpl.
- intros t. by rewrite !lookup_empty.
- intros t err s str last Hr. eexists _, _, _. split; [done|]. split; [done|]. intros u.
destruct (decide (t = u)) as [<-|Hu]; [by rewrite !lookup_insert_eq|by rewrite !lookup_insert_ne].
- done.
- intros t s str last Hr. destruct (Hr t) as [Hb ->]. rewrite <- Hb. destruct (last !! t); [done|]. by rewrite Hb.
- intros t s str last Hr. split; [done|]. intros u.
destruct (decide (t = u)) as [<-|Hu]; [by rewrite !lookup_delete_eq|by rewrite !lookup_delete_ne].
Defined.

(** Every thread that has called strerror() has a heap buffer of its own. *)
Definition tsd_rel (s : tsd) (str : gmap nat nat) (last : gmap nat Z) : Prop :=
(forall t, str !! t = specific s !! t)
/\ (forall t, specific s !! t ≫= (fun l => heap s !! l) = error_text <$> last !! t)
/\ (forall t, last !! t = None -> specific s !! t = None)
/\ (forall t u l, specific s !! t = Some l -> specific s !! u = Some l -> t = u).

(** The state after the buffer [l], new or the thread's own, has been filled. *)
Lemma tsd_rel_fill s str last t l err o :
tsd_rel s str last -> (specific s !! t = Some l \/ l ∉ dom (heap s)) ->
tsd_rel (Tsd o (<[t := l]> (specific s)) (<[l := error_text err]> (heap s))) (<[t := l]> str) (<[t := err]> last).
Proof.
intros (Hs & Hh & Hn & Hi) Hl.
assert (Hne : forall u, specific s !! u = Some l -> u = t).
{ intros u Hu. destruct Hl as [Hl|Hl]; [by eapply Hi|]. exfalso. apply Hl, elem_of_dom.
pose proof (Hh u) as Hhu. rewrite Hu in Hhu. simpl in Hhu. rewrite Hhu.
destruct (last !! u) eqn:E; [by eexists|]. rewrite (Hn u E) in Hu. done. }
split; [|split; [|split]]; simpl.
- intros u. destruct (decide (t = u)) as [<-|Hu]; [by rewrite !lookup_insert_eq|by rewrite !lookup_insert_ne].
- intros u. destruct (decide (t = u)) as [<-|Hu]; [by rewrite !lookup_insert_eq; simpl; rewrite lookup_insert_eq|].
rewrite !(lookup_insert_ne _ t) by done. rewrite <- Hh. destruct (specific s !! u) as [l'|] eqn:E; [|done]. simpl.
rewrite lookup_insert_ne; [done|]. intros <-. by apply Hne in E.
- intros u. destruct (decide (t = u)) as [<-|Hu]; [by rewrite lookup_insert_eq|]. rewrite !lookup_insert_ne by done. apply Hn.
- intros u v l'. destruct (decide (t = u)) as [<-|Hu], (decide (t = v)) as [<-|Hv]; rewrite ?lookup_insert_eq, ?lookup_insert_ne by done; try done.
+ intros [= <-] Hv'. by apply Hne in Hv'.
+ intros Hu' [= <-]. by apply Hne in Hu'.
+ apply Hi.
Qed.

#[export] Instance tsd_private : Private strerror_tsd.
Proof.
apply Build_Private with (prel := tsd_rel); simpl.
- split; [|split; [|split]]; simpl; intros; by rewrite ?lookup_empty in *.
- intros t err s str last Hr. unfold tsd_call. set (s1 := pthread_once s).
assert (E : specific s1 = specific s /\ heap s1 = heap s) by (unfold s1, pthread_once; by destruct (once s)).
destruct E as [E1 E2]. destruct (specific s1 !! t) as [l|] eqn:El.
+ eexists _, _, _. split; [done|]. split; [done|]. unfold fill. rewrite E1, E2.
assert (specific s = <[t := l]> (specific s)) as -> by (symmetry; apply insert_id; congruence).
apply tsd_rel_fill; [done|left; congruence].
+ eexists _, _, _. split; [done|]. split; [done|]. unfold fill, pthread_setspecific. simpl. rewrite insert_insert_eq, E1, E2.
apply tsd_rel_fill; [done|right]. apply is_fresh.
- intros t err f s. unfold tsd_call. destruct f; try done; destruct (specific (pthread_once s) !! t); done.
- intros t s str last (Hs & Hh & _). rewrite Hs. apply Hh.
- intros t s str last Hr. pose proof Hr as (Hs & Hh & Hn & Hi). unfold tsd_exit.
destruct (specific s !! t) as [l|] eqn:El; simpl.
+ split; [done|]. split; [|split; [|split]]; simpl; intros u.
* destruct (decide (t = u)) as [<-|Hu]; [by rewrite !lookup_delete_eq|by rewrite !lookup_delete_ne].
* destruct (decide (t = u)) as [<-|Hu]; [by rewrite !lookup_delete_eq|]. rewrite !(lookup_delete_ne _ t) by done.
rewrite <- Hh. destruct (specific s !! u) as [l'|] eqn:E; [|done]. simpl.
rewrite lookup_delete_ne; [done|]. intros <-. by apply Hu, (Hi t u l).
* destruct (decide (t = u)) as [<-|Hu]; [by rewrite !lookup_delete_eq|]. rewrite !lookup_delete_ne by done. apply Hn.
* intros v l'. rewrite !lookup_delete_Some. intros [_ Hu] [_ Hv]. by eapply Hi.
+ split; [done|]. assert (last !! t = None) as Hl.
{ pose proof (Hh t) as Ht. rewrite El in Ht. simpl in Ht. symmetry in Ht. by apply fmap_None in Ht. }
rewrite !delete_id; [done|done|by rewrite Hs].
Defined.

(** strerror_tls.c makes no call that can fail. *)
Definition faultless : list sop -> list sop := map (fun o => match o with SCall t err _ => SCall t err NoFault | o => o end).
Lemma tls_faultless ops s str : shist strerror_tls ops s str = shist strerror_tls (faultless ops) s str.
Proof. revert s str. induction ops as [|[] ops IH]; intros s str; simpl; [done|by rewrite IH..]. Qed.
Lemma private_faultless ops last : private_shows ops last = private_shows (faultless ops) last.
Proof. revert last. induction ops as [|[] ops IH]; intros last; simpl; [done|by rewrite IH..]. Qed.
Lemma faultless_succeed ops : all_succeed (faultless ops).
Proof. induction ops as [|[] ops IH]; simpl; by constructor. Qed.

Lemma tls_shows ops : shows (run_hist strerror_tls ops) = private_shows ops ∅.
Proof.
unfold run_hist. rewrite tls_faultless, private_faultless.
apply (private_hist (im:=strerror_tls)); [apply prel_init|apply faultless_succeed].
Qed.
Lemma tsd_shows ops :
shows (run_hist strerror_tsd ops) `prefix_of` private_shows ops ∅
/\ (all_succeed ops -> shows (run_hist strerror_tsd ops) = private_shows ops ∅).
Proof. apply (private_hist (im:=strerror_tsd)). apply prel_init. Qed.

(** The static buffer holds the text of the last call of any thread. *)
Lemma static_one_thread t ops s str last :
Forall (fun o => match o with SCall u _ _ | SShow u | SExit u => u = t end) ops ->
(last !! t = None /\ str !! t = None \/ exists e, last !! t = Some e /\ str !! t = Some tt /\ s = error_text e) ->
shows (shist strerror_static ops s str) = private_shows ops last.
Proof.
intros Hall. revert s str last. induction Hall as [|o ops Ho Hall IH]; intros s str last Hr; [done|].
destruct o as [u err f|u|u]; subst u; simpl.
- apply IH. right. exists err. by rewrite !lookup_insert_eq.
- rewrite (IH s str last Hr). f_equal. f_equal. destruct Hr as [[H1 H2]|(e & H1 & H2 & ->)]; rewrite H1; simpl in *.
+ etransitivity; [apply (f_equal (fun p => p ≫= (fun _ => Some s)) H2)|done].
+ etransitivity; [apply (f_equal (fun p => p ≫= (fun _ => Some (error_text e))) H2)|done].
- apply IH. left. by rewrite !lookup_delete_eq.
Qed.
End Versions.

(** ** strerror_test.c *)

Definition thread_script (t : nat) (err : Z) : list sop := [SCall t err NoFault; SShow t; SExit t].

(** The interleavings of two lists. *)
Inductive interleaved {A} : list A -> list A -> list A -> Prop :=
| interleaved_nil : interleaved [] [] []
| interleaved_l x l m k : interleaved l m k -> interleaved (x :: l) m (x :: k)
| interleaved_r x l m k : interleaved l m k -> interleaved l (x :: m) (x :: k).

(** [main] calls strerror(), the two threads run, [main] joins them and prints. *)
Definition strerror_test (l : list sop) : list sop := SCall 0 EINVAL NoFault :: l ++ [SShow 0].


(** C11.  strerror_tls.c and strerror_tsd.c are equivalent: in every history each
    use of a pointer shows the text of the same thread's last call, whatever the
    other threads have done (with strerror_tsd.c a failed call ends the process,
    until which the same is shown); strerror.c shows it too while only one thread
    uses it, but in every schedule of strerror_test.c [main] ends up with the
    text of another thread's call. *)
Theorem strerror_versions nerr errlist ops :
  shows (run_hist (strerror_tls nerr errlist) ops) = private_shows nerr errlist ops ∅
  /\ shows (run_hist (strerror_tsd nerr errlist) ops) `prefix_of` private_shows nerr errlist ops ∅
  /\ (all_succeed ops -> shows (run_hist (strerror_tsd nerr errlist) ops) = shows (run_hist (strerror_tls nerr errlist) ops))
  /\ (forall t, Forall (fun o => match o with SCall u _ _ | SShow u | SExit u => u = t end) ops ->
        shows (run_hist (strerror_static nerr errlist) ops) = shows (run_hist (strerror_tls nerr errlist) ops))
  /\ (forall l, interleaved (thread_script 1 EPERM) (thread_script 2 EINTR) l ->
        last (shows (run_hist (strerror_tls nerr errlist) (strerror_test l))) = Some (0%nat, Some (error_text nerr errlist EINVAL))
        /\ last (shows (run_hist (strerror_tsd nerr errlist) (strerror_test l))) = Some (0%nat, Some (error_text nerr errlist EINVAL))
        /\ exists err, (err = EPERM \/ err = EINTR) /\
             last (shows (run_hist (strerror_static nerr errlist) (strerror_test l))) = Some (0%nat, Some (error_text nerr errlist err))).
Proof.
  destruct (tsd_shows nerr errlist ops) as [Hp He]. rewrite tls_shows.
  split; [done|]. split; [done|]. split; [done|]. split.
  - intros t Hall. eapply (static_one_thread _ _ t); [done|]. left. by rewrite lookup_empty.
  - intros l Hl. unfold thread_script in Hl.
    repeat match goal with H : interleaved _ _ _ |- _ => inversion H; clear H; subst end.
    all: split; [reflexivity|]; split; [reflexivity|].
    all: first [by exists EPERM; split; [left|]|by exists EINTR; split; [right|]].
Qed.

(** Two threads use their buffers in turn, and then one of them fails to get one. *)
Definition sample_errlist (e : Z) : option string :=
  if e =? EPERM then Some "Operation not permitted" else if e =? EINTR then Some "Interrupted system call" else None.
Definition sample_hist : list sop :=
  [SCall 1 EPERM NoFault; SCall 2 EINTR NoFault; SShow 1; SShow 2; SExit 1; SCall 2 999 NoFault; SShow 2]%nat.
Definition sample_shows : list (nat * option string) :=
  [(1, Some "Operation not permitted"); (2, Some "Interrupted system call"); (2, Some "Unknown error 999")]%nat.

Lemma strerror_versions_witness :
  shows (run_hist (strerror_tsd 134 sample_errlist) sample_hist) = sample_shows
  /\ exists err, (err = EPERM \/ err = EINTR) /\
       last (shows (run_hist (strerror_static 134 sample_errlist)
                      (strerror_test (thread_script 1 EPERM ++ thread_script 2 EINTR))))
       = Some (0%nat, Some (error_text 134 sample_errlist err)).
Proof.
  destruct (strerror_versions 134 sample_errlist sample_hist) as (Ht & _ & He & _ & Hs). split.
  - rewrite He, Ht; [reflexivity|repeat constructor].
  - apply (Hs (thread_script 1 EPERM ++ thread_script 2 EINTR)). repeat constructor.
Defined.
