(* ===== verification/Sigs.v ===== *)
(** * Sigs: the signal attributes of a process

    The mask and the dispositions a process has, as the calls of a trace leave
    them; shared by the programs that change them ([system()], the handlers of
    SIGTSTP, the parents that wait for SIGCHLD). *)

From S2P Require Import Prelude Clib Sys Errors Posix Frame.

(** ** Signal attributes of a process *)

(** A [struct sigaction], as a call takes and returns it. *)
Record sigact := Sigact { sa_handler : Z; sa_flags : Z; sa_mask : list Z }.
Definition sigaction (sig : Z) (a : sigact) : M resp := sys (Sigaction sig (sa_handler a) (sa_flags a) (sa_mask a)).
(** The previous action and the previous mask a call stores. *)
Definition old_action (r : resp) : sigact :=
  match r_vals r with h :: f :: m => Sigact h f m | _ => Sigact 0 0 [] end.
Definition old_mask (r : resp) : list Z := r_vals r.

#[export] Instance sigaction_sane s a : Sane (sigaction s a).
Proof. unfold sigaction. apply _. Qed.
#[export] Instance sigaction_calm s a : Calm (sigaction s a).
Proof. unfold sigaction. apply _. Qed.
#[export] Instance sigaction_total s a : Total (sigaction s a).
Proof. unfold sigaction. apply _. Qed.

(** ** The signal attributes along a run *)

Record sigstate := SigState { s_mask : gset Z; s_disp : Z -> sigact }.

(** What a call leaves behind; glibc's [signal] blocks the signal while its
    handler runs and restarts calls. *)
Definition sig_after (st : sigstate) (e : event) : sigstate :=
  match e with
  | Called (Sigaction s h f m) _ => SigState (s_mask st) (fun t => if t =? s then Sigact h f m else s_disp st t)
  | Called (Signal s h) _ => SigState (s_mask st) (fun t => if t =? s then Sigact h SA_RESTART [s] else s_disp st t)
  | Called (Sigprocmask how (Some set)) _ =>
      SigState (if how =? SIG_BLOCK then s_mask st ∪ list_to_set set
                else if how =? SIG_UNBLOCK then s_mask st ∖ list_to_set set else list_to_set set) (s_disp st)
  | _ => st
  end.
Definition sig_run (st : sigstate) (es : list event) : sigstate := fold_left sig_after es st.

(** The calls succeed and store the previous attributes. *)
Definition sig_answer (st : sigstate) (e : event) : Prop :=
  match e with
  | Called (Sigaction s _ _ _) r => r_ret r = 0 /\ old_action r = s_disp st s
  | Called (Signal s _) r => r_ret r = sa_handler (s_disp st s)
  | Called (SigactionGet s) r => r_ret r = 0 /\ old_action r = s_disp st s
  | Called (Sigprocmask _ _) r => r_ret r = 0 /\ list_to_set (old_mask r) = s_mask st
  | _ => True
  end.
Fixpoint sig_history (st : sigstate) (es : list event) : Prop :=
  match es with [] => True | e :: es => sig_answer st e /\ sig_history (sig_after st e) es end.

Lemma sig_run_app st es fs : sig_run st (es ++ fs) = sig_run (sig_run st es) fs.
Proof. apply fold_left_app. Qed.
Lemma sig_history_app st es fs : sig_history st (es ++ fs) <-> sig_history st es /\ sig_history (sig_run st es) fs.
Proof. revert st. induction es as [|e es IH]; intros st; simpl; [tauto|]. rewrite IH. unfold sig_run. simpl. tauto. Qed.

(** Events that are not about signal attributes. *)
Definition no_sig (e : event) : Prop :=
  match e with Called (Sigaction _ _ _ _ | Signal _ _ | Sigprocmask _ _) _ => False | _ => True end.
Lemma sig_run_none st es : Forall no_sig es -> sig_run st es = st.
Proof.
  induction 1 as [|e es He Hes IH]; [done|]. unfold sig_run in *. simpl.
  assert (sig_after st e = st) as -> by (destruct e as [[]| |]; simpl in He; done). done.
Qed.

(** ** lib/signal.c: [signal] by [sigaction]; [old] is the macro OLD_SIGNAL. *)

Definition signal (old : bool) (sig handler : Z) : M Z :=
  _ ← printf "using customized signal()!";
  r ← sigaction sig (Sigact handler (if old then SA_RESETHAND .| SA_NODEFER else SA_RESTART) []);
  if r_ret r =? -1 then mret SIG_ERR else mret (sa_handler (old_action r)).
#[export] Instance signal_sane b s h : Sane (signal b s h).
Proof. unfold signal. apply _. Qed.

(** It changes the action of that signal only, and returns the previous handler. *)
Lemma signal_correct law old sig handler st w :
  spec law (signal old sig handler) w (fun o es _ =>
    match o with
    | Ret z => sig_history st es -> z = sa_handler (s_disp st sig) /\ sig_run st es = SigState (s_mask st) (fun t =>
        if t =? sig then Sigact handler (if old then SA_RESETHAND .| SA_NODEFER else SA_RESTART) [] else s_disp st t)
    | Blocked c => True
    | _ => False
    end).
Proof.
  unfold signal, sigaction. cbn [sa_handler sa_flags sa_mask]. spec_run; try done; cbn; intros (_ & [Hr Ho] & _).
  - zbool. lia.
  - by rewrite Ho.
Qed.
