(* ===== verification/Exec.v ===== *)
(** * Exec: executing programs and shell commands (27-process-execute/) *)

From S2P Require Import Prelude Clib Sys Errors Posix Status Frame Sigs.

(** ** system.c *)

(** The child: reset the signals that were not ignored, restore the mask, and
    become the shell. *)
Definition system_child (command : string) (saOrigInt saOrigQuit : sigact) (origMask : list Z) : M Z :=
  let saDefault := Sigact SIG_DFL 0 [] in
  _ ← when (negb (sa_handler saOrigInt =? SIG_IGN)) (_ ← sigaction SIGINT saDefault; mret tt);
  _ ← when (negb (sa_handler saOrigQuit =? SIG_IGN)) (_ ← sigaction SIGQUIT saDefault; mret tt);
  _ ← sys (Sigprocmask SIG_SETMASK (Some origMask));
  _ ← exec (Exec "/bin/sh" ["sh"; "-c"; cstr command] None);
  quick_exit 127.

(** [while (waitpid(childPid, &status, 0) == -1) ...]: the status. *)
Definition wait_child (childPid : Z) : M Z :=
  loop (fun _ : unit =>
    r ← sys (Waitpid childPid 0);
    if r_ret r =? -1 then
      errno ← get_errno;
      if negb (errno =? EINTR) then mret (inr (-1)) else mret (inl tt)
    else mret (inr (r_val 0 r))) tt.

Definition system_command (command : string) : M Z :=
  m ← sys (Sigprocmask SIG_BLOCK (Some [SIGCHLD]));
  let origMask := old_mask m in
  let saIgnore := Sigact SIG_IGN 0 [] in
  i ← sigaction SIGINT saIgnore;
  let saOrigInt := old_action i in
  q ← sigaction SIGQUIT saIgnore;
  let saOrigQuit := old_action q in
  childPid ← scall Fork;
  status ← (if childPid =? -1 then mret (-1)
            else if childPid =? 0 then system_child command saOrigInt saOrigQuit origMask
            else wait_child childPid);
  savedErrno ← get_errno;
  _ ← sys (Sigprocmask SIG_SETMASK (Some origMask));
  _ ← sigaction SIGINT saOrigInt;
  _ ← sigaction SIGQUIT saOrigInt;
  _ ← set_errno savedErrno;
  mret status.

(** A null [command] is [None]. *)
Definition system (command : option string) : M Z :=
  match command with
  | None => s ← system_command ":"; mret (if s =? 0 then 1 else 0)
  | Some command => system_command command
  end.

(** ** simple_system.c, t_system.c *)

Definition simple_system (command : string) : M Z :=
  childPid ← scall Fork;
  if childPid =? -1 then mret (-1)
  else if childPid =? 0 then
    _ ← exec (Exec "/bin/sh" ["sh"; "-c"; cstr command] None);
    quick_exit 127
  else
    r ← sys (Waitpid childPid 0);
    if r_ret r =? -1 then mret (-1) else mret (r_val 0 r).

(** t_system.c's copy calls the library's system() for a null command. *)
Definition my_system (command : option string) : M Z :=
  match command with
  | None => s ← scall (System ":"); mret (if s =? 0 then 1 else 0)
  | Some command => system_command command
  end.

Definition MAX_CMD_LEN : Z := 200.

Definition report_status (status : Z) : M unit :=
  _ ← printf ("system(3) returned: status=0x" +:+ lpad 4 "0" (hex (wrap_u32 status))
              +:+ " (" +:+ dec (Z.shiftr status 8) +:+ "," +:+ dec (Z.land status 255) +:+ ")" +:+ nl);
  if status =? -1 then errExit "system"
  else if WIFEXITED status && (WEXITSTATUS status =? 127)
  then printf ("(Probably) could not invoke shell" +:+ nl)
  else printWaitStatus None status.

Definition t_system_main (argv : list string) : M Z :=
  _ ← loop (fun _ : unit =>
        _ ← printf "Command: ";
        _ ← fflush Stdout;
        r ← sys (Fgets MAX_CMD_LEN Stdin);
        if r_ret r =? 0 then mret (inr tt)
        else
          status ← simple_system (r_buf r);
          _ ← report_status status;
          mret (inl tt)) tt;
  exit EXIT_SUCCESS.

(** ** The programs that execute another *)

(** [strrchr(path, '/') + 1], or the whole path. *)
Fixpoint after_slash (path : string) : option string :=
  match path with
  | EmptyString => None
  | String c rest =>
      match after_slash rest with
      | Some b => Some b
      | None => if ceqb c "/" then Some rest else None
      end
  end.
Definition basename (path : string) : string := default (cstr path) (after_slash (cstr path)).

Definition envVec : list string := ["GREET=salut"; "BYE=abdieu"].

Definition t_execve_main (argv : list string) : M Z :=
  if negb (argc_of argv =? 2) || wants_help argv then
    usageErr (cstr (argv_at argv 0) +:+ " pathname" +:+ nl) else
  let path := argv_at argv 1 in
  _ ← exec (Exec (cstr path) [basename path; "hello world"; "goodbye"] (Some envVec));
  errExit "execve".

Definition t_execle_main (argv : list string) : M Z :=
  if negb (argc_of argv =? 2) || wants_help argv then
    usageErr (cstr (argv_at argv 0) +:+ " pathname" +:+ nl) else
  let path := argv_at argv 1 in
  _ ← exec (Exec (cstr path) [basename path; "hello world"; "goodbye"] (Some envVec));
  errExit "execle".

Definition t_execlp_main (argv : list string) : M Z :=
  if negb (argc_of argv =? 2) || wants_help argv then
    usageErr (cstr (argv_at argv 0) +:+ " pathname" +:+ nl) else
  let path := argv_at argv 1 in
  _ ← exec (Execp (cstr path) [cstr path; "hello world"]);
  errExit "execlp".

(** printf prints a null pointer as (null) in glibc. *)
Definition t_execl_main (argv : list string) : M Z :=
  g ← sys (Getenv "USER");
  _ ← printf ("Initial value of USER: " +:+ (if r_ret g =? 0 then "(null)" else cstr (r_buf g)) +:+ nl);
  p ← scall (Putenv "USER=britta");
  if negb (p =? 0) then errExit "putenv" else
  _ ← exec (Exec "/usr/bin/printenv" ["printenv"; "USER"; "SHELL"; "PATH"] None);
  errExit "execl".

Definition closeonexec_main (argv : list string) : M Z :=
  _ ← (if argc_of argv >? 1 then
         flags ← scall (FcntlInt STDOUT_FILENO F_GETFD 0);
         if flags =? -1 then errExit "fcntl - F_GETFD" else
         k ← scall (FcntlInt STDOUT_FILENO F_SETFD (flags .| FD_CLOEXEC));
         if k =? -1 then errExit "fcntl - F_SETFD" else mret tt
       else mret tt);
  _ ← exec (Execp "ls" ["ls"; "-l"; cstr (argv_at argv 0)]);
  errExit "execlp".

(** The lines [argv[j] = ...]. *)
Fixpoint print_args (j : Z) (argv : list string) : M unit :=
  match argv with
  | [] => mret tt
  | a :: argv => _ ← printf ("argv[" +:+ dec j +:+ "] = " +:+ cstr a +:+ nl); print_args (j + 1) argv
  end.
Definition necho_main (argv : list string) : M Z := _ ← print_args 0 argv; exit EXIT_SUCCESS.
Definition envargs_main (argv environ : list string) : M Z :=
  _ ← print_args 0 argv;
  _ ← for_each (fun ep => printf ("environ: " +:+ cstr ep +:+ nl)) environ;
  exit EXIT_SUCCESS.

#[export] Instance system_child_sane c i q m : Sane (system_child c i q m).
Proof. unfold system_child. apply _. Qed.
#[export] Instance wait_child_sane c : Sane (wait_child c).
Proof. unfold wait_child. apply _. Qed.
#[export] Instance system_command_sane c : Sane (system_command c).
Proof. unfold system_command. apply _. Qed.
#[export] Instance system_sane c : Sane (system c).
Proof. unfold system. destruct c; apply _. Qed.
#[export] Instance simple_system_sane c : Sane (simple_system c).
Proof. unfold simple_system. apply _. Qed.
#[export] Instance my_system_sane c : Sane (my_system c).
Proof. unfold my_system. destruct c; apply _. Qed.
#[export] Instance report_status_sane s : Sane (report_status s).
Proof. unfold report_status. apply _. Qed.
#[export] Instance t_system_main_sane a : Sane (t_system_main a).
Proof. unfold t_system_main. apply _. Qed.
#[export] Instance closeonexec_main_sane a : Sane (closeonexec_main a).
Proof. unfold closeonexec_main. apply _. Qed.

(** The calls of [wait_child]. *)
Definition interrupted (p : Z) (e : event) : Prop :=
  match e with Called (Waitpid q 0) r => q = p /\ r_ret r = -1 | _ => False end.
Definition wait_answer (p : Z) (es : list event) (status : Z) (errno : Z) : Prop :=
  exists early r, es = early ++ [Called (Waitpid p 0) r] /\ Forall (interrupted p) early
    /\ (r_ret r = -1 -> status = -1 /\ (r_err r <> 0 -> r_err r <> EINTR /\ errno = r_err r))
    /\ (r_ret r <> -1 -> status = r_val 0 r).

Lemma spec_wait_child law p w (Q : outcome Z -> list event -> world -> Prop) :
  (forall es w', Forall (interrupted p) es -> Q (Blocked (Waitpid p 0)) es w') ->
  (forall s es w', wait_answer p es s (errno w') -> Q (Ret s) es w') ->
  spec law (wait_child p) w Q.
Proof.
  intros HB HR. unfold wait_child.
  apply spec_loop with (I := fun _ es _ => Forall (interrupted p) es); [intros; apply _|intros; apply _|constructor|].
  intros _ es w1 Hes. spec_step. spec_step; cbn [pass]; [rewrite app_nil_r; by apply HB|].
  spec_run; zbool; simpl.
  - apply HR. exists es, r. split; [done|]. split; [done|]. split; [|done]. intros _. split; [done|]. intros Hr.
    rewrite He in Heqb0. unfold errno_after in *. replace (r_err r =? 0) with false in Heqb0 by (symmetry; by apply Z.eqb_neq).
    rewrite He. by replace (r_err r =? 0) with false by (symmetry; by apply Z.eqb_neq).
  - apply Forall_app. split; [done|]. by repeat constructor.
  - apply HR. exists es, r. done.
Qed.

Lemma wait_no_sig p es s e : wait_answer p es s e -> Forall no_sig es.
Proof.
  intros (early & r & -> & He & _). apply Forall_app. split; [|by repeat constructor].
  eapply Forall_impl; [exact He|]. by intros [[]| |].
Qed.
Lemma interrupted_no_sig p es : Forall (interrupted p) es -> Forall no_sig es.
Proof. intros H. eapply Forall_impl; [exact H|]. by intros [[]| |]. Qed.

Definition dfl_or_ign (a : sigact) (now : sigact) : sigact :=
  if sa_handler a =? SIG_IGN then now else Sigact SIG_DFL 0 [].

Lemma spec_system_child law command i q m st1 w :
  spec law (system_child command i q m) w (fun o es _ =>
    match o with
    | Halt (Replaced c) =>
        c = Exec "/bin/sh" ["sh"; "-c"; cstr command] None
        /\ s_mask (sig_run st1 es) = list_to_set m
        /\ forall sig, s_disp (sig_run st1 es) sig =
             if sig =? SIGQUIT then dfl_or_ign q (s_disp st1 sig)
             else if sig =? SIGINT then dfl_or_ign i (s_disp st1 sig) else s_disp st1 sig
    | Halt (QuickExit n) => n = 127
    | Blocked (Waitpid _ _) => False
    | Blocked _ => True
    | _ => False
    end).
Proof.
  unfold system_child, sigaction, dfl_or_ign.
  spec_run; cbn [pass]; try done; zbool; (split; [done|]); (split; [done|]); intros sig.
  all: simpl; destruct (sig =? SIGQUIT) eqn:Eq, (sig =? SIGINT) eqn:Ei; zbool; subst; try done.
  all: case_if; zbool; congruence.
Qed.

(** The first three calls, and what is restored at the end. *)
Definition sig_setup (m i q : resp) : list event :=
  [Called (Sigprocmask SIG_BLOCK (Some [SIGCHLD])) m; Called (Sigaction SIGINT SIG_IGN 0 []) i;
   Called (Sigaction SIGQUIT SIG_IGN 0 []) q].
Definition sig_reset (m i : resp) (rs : resp * resp * resp) : list event :=
  [Called (Sigprocmask SIG_SETMASK (Some (old_mask m))) (fst (fst rs));
   Called (Sigaction SIGINT (sa_handler (old_action i)) (sa_flags (old_action i)) (sa_mask (old_action i))) (snd (fst rs));
   Called (Sigaction SIGQUIT (sa_handler (old_action i)) (sa_flags (old_action i)) (sa_mask (old_action i))) (snd rs)].

Lemma sig_setup_run st m i q :
  s_mask (sig_run st (sig_setup m i q)) = s_mask st ∪ {[SIGCHLD]}
  /\ forall sig, s_disp (sig_run st (sig_setup m i q)) sig
       = if (sig =? SIGQUIT) || (sig =? SIGINT) then Sigact SIG_IGN 0 [] else s_disp st sig.
Proof.
  split; [simpl; set_solver|]. intros sig. simpl. by destruct (sig =? SIGQUIT), (sig =? SIGINT).
Qed.

(** What the first three calls must have answered. *)
Lemma sig_setup_history st m i q es :
  sig_history st (sig_setup m i q ++ es) ->
  list_to_set (old_mask m) = s_mask st /\ old_action i = s_disp st SIGINT /\ old_action q = s_disp st SIGQUIT.
Proof. simpl. intros ([_ Hm] & [_ Hi] & [_ Hq] & _). done. Qed.

Lemma sig_restored st m i q r waits rs :
  Forall no_sig waits -> sig_history st (sig_setup m i q ++ [Called Fork r] ++ waits ++ sig_reset m i rs) ->
  let st' := sig_run st (sig_setup m i q ++ [Called Fork r] ++ waits ++ sig_reset m i rs) in
  s_mask st' = s_mask st /\ forall sig, s_disp st' sig = s_disp st (if sig =? SIGQUIT then SIGINT else sig).
Proof.
  intros Hw Hh. destruct (sig_setup_history _ _ _ _ _ Hh) as (Hm & Hi & _).
  rewrite !sig_run_app, (sig_run_none _ waits Hw).
  destruct (sig_setup_run st m i q) as [_ Hd]. set (st1 := sig_run st (sig_setup m i q)) in *. clearbody st1.
  split; [exact Hm|]. intros sig. simpl. rewrite Hd, Hi.
  destruct (sig =? SIGQUIT) eqn:Eq, (sig =? SIGINT) eqn:Ei; zbool; subst; try done; by destruct (s_disp st SIGINT).
Qed.
(** What the child leaves for the command, from what it did to the signals. *)
Lemma child_signals st m i q es :
  sig_history st (sig_setup m i q ++ es) ->
  let st1 := sig_run st (sig_setup m i q) in
  s_mask (sig_run st1 es) = list_to_set (old_mask m) ->
  (forall sig, s_disp (sig_run st1 es) sig =
     if sig =? SIGQUIT then dfl_or_ign (old_action q) (s_disp st1 sig)
     else if sig =? SIGINT then dfl_or_ign (old_action i) (s_disp st1 sig) else s_disp st1 sig) ->
  s_mask (sig_run st (sig_setup m i q ++ es)) = s_mask st
  /\ forall sig, s_disp (sig_run st (sig_setup m i q ++ es)) sig =
       if (sig =? SIGINT) || (sig =? SIGQUIT)
       then Sigact (if sa_handler (s_disp st sig) =? SIG_IGN then SIG_IGN else SIG_DFL) 0 []
       else s_disp st sig.
Proof.
  intros Hh st1 Hmask Hdisp. destruct (sig_setup_history _ _ _ _ _ Hh) as (Hm & Hi & Hq).
  destruct (sig_setup_run st m i q) as [_ Hd]. rewrite sig_run_app. fold st1.
  split; [by rewrite Hmask|]. intros sig. rewrite Hdisp. unfold st1. rewrite !Hd, Hi, Hq. unfold dfl_or_ign.
  destruct (sig =? SIGQUIT) eqn:Eq, (sig =? SIGINT) eqn:Ei; zbool; subst; try done; simpl; by case_if.
Qed.

(** While the parent waits. *)
Lemma waiting_signals st m i q es :
  Forall no_sig es ->
  let st' := sig_run st (sig_setup m i q ++ es) in
  SIGCHLD ∈ s_mask st' /\ sa_handler (s_disp st' SIGINT) = SIG_IGN /\ sa_handler (s_disp st' SIGQUIT) = SIG_IGN.
Proof.
  intros Hes. cbv zeta. rewrite sig_run_app, (sig_run_none _ es Hes). destruct (sig_setup_run st m i q) as [-> Hd].
  rewrite !Hd. split; [set_solver|done].
Qed.

Definition not_wait (c : call) : Prop := match c with Waitpid _ _ => False | _ => True end.
Lemma spec_system_reset law status m i w (Q : outcome Z -> list event -> world -> Prop) :
  (forall c es w', not_wait c -> Q (Blocked c) es w') ->
  (forall rs w', errno w' = errno w -> Q (Ret status) (sig_reset m i rs) w') ->
  spec law (savedErrno ← get_errno;
            _ ← sys (Sigprocmask SIG_SETMASK (Some (old_mask m)));
            _ ← sigaction SIGINT (old_action i);
            _ ← sigaction SIGQUIT (old_action i);
            _ ← set_errno savedErrno;
            mret status) w Q.
Proof.
  intros HB HR. unfold sigaction. spec_run; cbn [pass]; try by apply HB.
  match goal with |- Q _ (_ ++ [Called _ ?r1] ++ [Called _ ?r2] ++ [Called _ ?r3] ++ _) _ =>
    apply (HR (r1, r2, r3)) end. done.
Qed.

(** C12.  [system()]: while it waits SIGCHLD is blocked and SIGINT and SIGQUIT are
    ignored; the shell is executed with the caller's mask, and with the two
    signals ignored if the caller ignored them and at their default otherwise; a
    child that cannot execute it ends by [_exit(127)]; the status returned is the
    one the last [waitpid] of the child reported, or -1, [errno] then being that
    of the failure; and the caller's mask and dispositions are restored, except
    that SIGQUIT is left with the disposition of SIGINT. *)
Theorem system_correct law command st w :
  spec law (system_command command) w (fun o es w' =>
    sig_history st es ->
    match o with
    | Ret status =>
        s_mask (sig_run st es) = s_mask st
        /\ (forall sig, s_disp (sig_run st es) sig = s_disp st (if sig =? SIGQUIT then SIGINT else sig))
        /\ exists m i q r waits rs, es = sig_setup m i q ++ [Called Fork r] ++ waits ++ sig_reset m i rs
             /\ (r_ret r = -1 /\ status = -1 /\ waits = [] /\ (r_err r <> 0 -> errno w' = r_err r)
                 \/ r_ret r <> -1 /\ r_ret r <> 0 /\ wait_answer (r_ret r) waits status (errno w'))
    | Halt (Replaced c) =>
        c = Exec "/bin/sh" ["sh"; "-c"; cstr command] None
        /\ s_mask (sig_run st es) = s_mask st
        /\ forall sig, s_disp (sig_run st es) sig =
             if (sig =? SIGINT) || (sig =? SIGQUIT)
             then Sigact (if sa_handler (s_disp st sig) =? SIG_IGN then SIG_IGN else SIG_DFL) 0 []
             else s_disp st sig
    | Halt (QuickExit n) => n = 127
    | Blocked (Waitpid _ _) =>
        SIGCHLD ∈ s_mask (sig_run st es)
        /\ sa_handler (s_disp (sig_run st es) SIGINT) = SIG_IGN
        /\ sa_handler (s_disp (sig_run st es) SIGQUIT) = SIG_IGN
    | Blocked _ => True
    | _ => False
    end).
Proof.
  match goal with |- spec _ _ _ ?P => set (Q := P) end. unfold system_command, sigaction.
  do 4 (spec_step; spec_step; cbn [pass]; try done).
  assert (HB : forall c es w', not_wait c -> Q (Blocked c) es w') by (intros [] es w' Hc; try done; simpl in Hc; done).
  assert (Htail : forall status w4 waits, Forall no_sig waits ->
    (forall rs w', errno w' = errno w4 -> Q (Ret status) (sig_setup r r0 r1 ++ [Called Fork r2] ++ waits ++ sig_reset r r0 rs) w') ->
    spec law (savedErrno ← get_errno;
            _ ← sys (Sigprocmask SIG_SETMASK (Some (old_mask r)));
            _ ← sigaction SIGINT (old_action r0);
            _ ← sigaction SIGQUIT (old_action r0);
            _ ← set_errno savedErrno;
            mret status) w4 (fun o es w' => Q o (sig_setup r r0 r1 ++ [Called Fork r2] ++ waits ++ es) w')).
  { intros status w4 waits Hw HR. apply spec_system_reset; [intros; by apply HB|exact HR]. }
  apply spec_bind; [apply _|intros; apply _|]. unfold sigaction in Htail. spec_step.
  - spec_step. eapply spec_mono; [|apply (Htail (-1) w3 []); [constructor|]]; [intros o es w'; exact id|].
    intros rs w' He'. zbool. unfold Q. intros Hh. destruct (sig_restored st r r0 r1 r2 [] rs ltac:(constructor) Hh) as [Hm Hd].
    split; [exact Hm|]. split; [exact Hd|]. exists r, r0, r1, r2, [], rs. split; [done|]. left.
    split; [done|]. split; [done|]. split; [done|]. intros Hr. rewrite He', He2. unfold errno_after.
    by replace (r_err r2 =? 0) with false by (symmetry; by apply Z.eqb_neq).
  - zbool. spec_step.
    + eapply spec_mono; [|apply (spec_system_child law command _ _ _ (sig_run st (sig_setup r r0 r1)))].
      intros o es w'. cbn beta. intros Ho.
      destruct o as [s|[n|n| |c]|c|]; try done; simpl.
      * intros _. exact Ho.
      * intros Hh. destruct Ho as (-> & Hmask & Hdisp). split; [done|]. exact (child_signals _ _ _ _ _ Hh Hmask Hdisp).
      * apply HB. by destruct c.
    + apply spec_wait_child.
      * intros es w' Hes _. simpl. apply (waiting_signals st r r0 r1 (Called Fork r2 :: es)).
        constructor; [done|]. by eapply interrupted_no_sig.
      * intros s es w' Hwait. eapply spec_mono; [|apply (Htail s w' es); [by eapply wait_no_sig|]].
        { intros o es' w''. cbn beta. done. }
        intros rs w'' He'. unfold Q. intros Hh.
        destruct (sig_restored st r r0 r1 r2 es rs ltac:(by eapply wait_no_sig) Hh) as [Hm Hd].
        split; [exact Hm|]. split; [exact Hd|]. exists r, r0, r1, r2, es, rs. split; [done|]. right. rewrite He'. zbool. by split; [|split].
Qed.

(** A caller that ignores SIGINT and handles SIGQUIT loses its handler. *)
Lemma system_loses_quit st es (rs : resp * resp * resp) m i q r waits :
  sa_handler (s_disp st SIGINT) <> sa_handler (s_disp st SIGQUIT) -> Forall no_sig waits ->
  es = sig_setup m i q ++ [Called Fork r] ++ waits ++ sig_reset m i rs -> sig_history st es ->
  s_disp (sig_run st es) SIGQUIT <> s_disp st SIGQUIT.
Proof. intros Hne Hw -> Hh. destruct (sig_restored _ _ _ _ _ _ _ Hw Hh) as [_ ->]. simpl. congruence. Qed.
