(* ===== verification/PosixIpc.v ===== *)
(** * PosixIpc: POSIX message queues, semaphores and shared memory
    (52-posix-msgqueue/, 53-posix-semaphore/, 54-posix-sharedmem/)

    thread_incr_psem.c is in file Threads. *)

From S2P Require Import Prelude Clib Sys Errors GetNum RdWr Posix Status Frame Getopt.

(** The lines of a [usageError], then [exit(EXIT_FAILURE)]. *)
Definition usage_lines {A} (lines : list string) : M A :=
  _ ← for_each (fputs Stderr) lines; exit EXIT_FAILURE.

Definition rw_owner : Z := S_IRUSR .| S_IWUSR.

(** ** 52-posix-msgqueue *)

Definition create_usage (progName : string) : list string :=
  ["Usage: " +:+ cstr progName +:+ " [-cx] [-m maxmsg] [-s msgsize] mq-name [octal-perms]" +:+ nl;
   "    -c          Create queue (O_CREAT)" +:+ nl;
   "    -m maxmsg   Set maximum # of messages" +:+ nl;
   "    -s msgsize  Set maximum message size" +:+ nl;
   "    -x          Create exclusively (O_EXCL)" +:+ nl].

(** [flags], [attr.mq_maxmsg], [attr.mq_msgsize], and whether [attrp] is set. *)
Definition create_opts : Type := Z * Z * Z * bool.
Definition create_option (usage : list string) (s : create_opts) (opt : ascii) (optarg : option string) : M create_opts :=
  let '(flags, maxmsg, msgsize, given) := s in
  let n := atoi (default EmptyString optarg) in
  if ceqb opt "c" then mret (flags .| O_CREAT, maxmsg, msgsize, given)
  else if ceqb opt "m" then mret (flags, n, msgsize, true)
  else if ceqb opt "s" then mret (flags, maxmsg, n, true)
  else if ceqb opt "x" then mret (flags .| O_EXCL, maxmsg, msgsize, given)
  else usage_lines usage.

(** The permissions operand [k], or the default. *)
Definition perms_arg (operands : list string) (k : nat) : M Z :=
  match nth_error operands k with
  | None => mret rw_owner
  | Some a => p ← getInt (Some a) GN_BASE_8 (Some "octal-perms"); mret (wrap_u32 p)
  end.

Definition pmsg_create_main (argv : list string) : M Z :=
  let usage := create_usage (argv_at argv 0) in
  '(s, operands) ← getopt_loop argv "cm:s:x" (create_option usage) (O_RDWR, 10, 2048, false);
  let '(flags, maxmsg, msgsize, given) := (s : create_opts) in
  match operands with
  | [] => usage_lines usage
  | name :: _ =>
      perms ← perms_arg operands 1;
      mqd ← scall (MqOpen (cstr name) flags perms (if given then Some (MqAttr 0 maxmsg msgsize 0) else None));
      if mqd =? -1 then errExit "mq_open" else exit EXIT_SUCCESS
  end.

Definition pmsg_getattr_main (argv : list string) : M Z :=
  if negb (argc_of argv =? 2) || wants_help argv then
    usageErr (cstr (argv_at argv 0) +:+ " mq-name" +:+ nl) else
  mqd ← scall (MqOpen (cstr (argv_at argv 1)) O_RDONLY 0 None);
  if mqd =? -1 then errExit "mq_open" else
  a ← sys (MqGetattr mqd);
  if r_ret a =? -1 then errExit "mq_getattr" else
  _ ← printf ("Maximum # of messages on queue:   " +:+ dec (mq_maxmsg (r_attr a)) +:+ nl);
  _ ← printf ("Maximum message size:             " +:+ dec (mq_msgsize (r_attr a)) +:+ nl);
  _ ← printf ("# of messages currently on queue: " +:+ dec (mq_curmsgs (r_attr a)) +:+ nl);
  exit EXIT_SUCCESS.

(** [-n], in pmsg_receive.c and pmsg_send.c. *)
Definition nonblock_option (usage : list string) (flags : Z) (opt : ascii) (optarg : option string) : M Z :=
  if ceqb opt "n" then mret (flags .| O_NONBLOCK) else usage_lines usage.
Definition nonblock_usage (progName operands : string) : list string :=
  ["Usage: " +:+ cstr progName +:+ " [-n] " +:+ operands +:+ nl; "    -n           Use O_NONBLOCK flag" +:+ nl].

Definition pmsg_receive_main (argv : list string) : M Z :=
  let usage := nonblock_usage (argv_at argv 0) "mq-name" in
  '(flags, operands) ← getopt_loop argv "n" (nonblock_option usage) O_RDONLY;
  match operands with
  | [] => usage_lines usage
  | name :: _ =>
      mqd ← scall (MqOpen (cstr name) flags 0 None);
      if mqd =? -1 then errExit "mq_open" else
      a ← sys (MqGetattr mqd);
      if r_ret a =? -1 then errExit "mq_getattr" else
      buffer ← scall (Malloc (mq_msgsize (r_attr a)));
      if buffer =? 0 then errExit "malloc" else
      r ← sys (MqReceive mqd (mq_msgsize (r_attr a)));
      let numRead := r_ret r in
      if numRead =? -1 then errExit "mq_receive" else
      _ ← printf ("Read " +:+ dec numRead +:+ " bytes; priority = " +:+ dec (wrap_u32 (r_val 0 r)) +:+ nl);
      k ← scall (Write STDOUT_FILENO (ztake numRead (r_buf r)));
      if k =? -1 then errExit "write" else
      _ ← scall (Write STDOUT_FILENO nl);
      exit EXIT_SUCCESS
  end.

(** The priority operand, or 0. *)
Definition prio_arg (rest : list string) : Z := match rest with a :: _ => wrap_u32 (atoi a) | [] => 0 end.

Definition pmsg_send_main (argv : list string) : M Z :=
  let usage := nonblock_usage (argv_at argv 0) "mq-name msg [prio]" in
  '(flags, operands) ← getopt_loop argv "n" (nonblock_option usage) O_WRONLY;
  match operands with
  | name :: msg :: rest =>
      mqd ← scall (MqOpen (cstr name) flags 0 None);
      if mqd =? -1 then errExit "mq_open" else
      s ← scall (MqSend mqd (cstr msg) (prio_arg rest));
      if s =? -1 then errExit "mq_send" else exit EXIT_SUCCESS
  | _ => usage_lines usage
  end.

Definition pmsg_unlink_main (argv : list string) : M Z :=
  if negb (argc_of argv =? 2) || wants_help argv then
    usageErr (cstr (argv_at argv 0) +:+ " mq-name" +:+ nl) else
  u ← scall (MqUnlink (cstr (argv_at argv 1)));
  if u =? -1 then errExit "mq_unlink" else exit EXIT_SUCCESS.

Definition SIGEV_SIGNAL : Z := 0.
Definition SIGEV_THREAD : Z := 2.
Definition NOTIFY_SIG : Z := SIGUSR1.
Definition NOTIFY_HANDLER : Z := 100.

(** [while ((numRead = mq_receive(...)) >= 0) ...], then the test of [errno]. *)
Definition mq_drain (mqd size : Z) : M unit :=
  _ ← loop (fun _ : unit =>
        numRead ← scall (MqReceive mqd size);
        if numRead >=? 0 then _ ← printf ("Read " +:+ dec numRead +:+ " bytes" +:+ nl); mret (inl tt)
        else mret (inr tt)) tt;
  errno ← get_errno;
  if negb (errno =? EAGAIN) then errExit "mq_receive" else mret tt.

(** One notification: wait for it, register again, empty the queue. *)
Definition notify_round (mqd size : Z) : M unit :=
  _ ← sys (Sigsuspend []);
  n ← scall (MqNotify mqd SIGEV_SIGNAL NOTIFY_SIG);
  if n =? -1 then errExit "mq_notify" else mq_drain mqd size.

Definition mq_notify_sig_main (argv : list string) : M Z :=
  if negb (argc_of argv =? 2) || wants_help argv then
    usageErr (cstr (argv_at argv 0) +:+ " mq-name" +:+ nl) else
  mqd ← scall (MqOpen (cstr (argv_at argv 1)) (O_RDONLY .| O_NONBLOCK) 0 None);
  if mqd =? -1 then errExit "mq_open" else
  a ← sys (MqGetattr mqd);
  if r_ret a =? -1 then errExit "mq_getattr" else
  buffer ← scall (Malloc (mq_msgsize (r_attr a)));
  if buffer =? 0 then errExit "malloc" else
  p ← scall (Sigprocmask SIG_BLOCK (Some [NOTIFY_SIG]));
  if p =? -1 then errExit "sigprocmask" else
  s ← scall (Sigaction NOTIFY_SIG NOTIFY_HANDLER 0 []);
  if s =? -1 then errExit "sigaction" else
  n ← scall (MqNotify mqd SIGEV_SIGNAL NOTIFY_SIG);
  if n =? -1 then errExit "mq_notify" else
  forever (notify_round mqd (mq_msgsize (r_attr a))).

(** mq_notify_thread.c; the function that runs in the new thread is [notify_thread]. *)
Definition THREAD_FUNC : Z := 101.
Definition notifySetup (mqd : Z) : M unit :=
  n ← scall (MqNotify mqd SIGEV_THREAD THREAD_FUNC);
  if n =? -1 then errExit "mq_notify" else mret tt.
Definition notify_thread (mqd : Z) : M unit :=
  a ← sys (MqGetattr mqd);
  if r_ret a =? -1 then errExit "mq_getattr" else
  buffer ← scall (Malloc (mq_msgsize (r_attr a)));
  if buffer =? 0 then errExit "malloc" else
  _ ← notifySetup mqd;
  _ ← mq_drain mqd (mq_msgsize (r_attr a));
  _ ← sys (Free buffer);
  mret tt.
Definition mq_notify_thread_main (argv : list string) : M Z :=
  if negb (argc_of argv =? 2) || wants_help argv then
    usageErr (cstr (argv_at argv 0) +:+ " mq-name" +:+ nl) else
  mqd ← scall (MqOpen (cstr (argv_at argv 1)) (O_RDONLY .| O_NONBLOCK) 0 None);
  if mqd =? -1 then errExit "mq_open" else
  _ ← notifySetup mqd;
  _ ← sys Pause;
  exit EXIT_SUCCESS.

(** ** 53-posix-semaphore *)

Definition SEM_FAILED : Z := 0.

Definition sem_usage (progName : string) : list string :=
  ["Usage: " +:+ cstr progName +:+ " [-cx] name [octal-perms [value]]" +:+ nl;
   "    -c   Create semaphore (O_CREAT)" +:+ nl; "    -x   Create exclusively (O_EXCL)" +:+ nl].
(** [-c] and [-x], in psem_create.c and pshm_create.c. *)
Definition creat_option (usage : list string) (flags : Z) (opt : ascii) (optarg : option string) : M Z :=
  if ceqb opt "c" then mret (flags .| O_CREAT)
  else if ceqb opt "x" then mret (flags .| O_EXCL) else usage_lines usage.

Definition psem_create_main (argv : list string) : M Z :=
  let usage := sem_usage (argv_at argv 0) in
  '(flags, operands) ← getopt_loop argv "cx" (creat_option usage) 0;
  match operands with
  | [] => usage_lines usage
  | name :: _ =>
      perms ← perms_arg operands 1;
      value ← match nth_error operands 2 with
              | None => mret 0
              | Some a => v ← getInt (Some a) 0 (Some "value"); mret (wrap_u32 v) end;
      sem ← scall (SemOpen (cstr name) flags perms value);
      if sem =? SEM_FAILED then errExit "sem_open" else exit EXIT_SUCCESS
  end.

Definition psem_getvalue_main (argv : list string) : M Z :=
  if negb (argc_of argv =? 2) then usageErr (cstr (argv_at argv 0) +:+ " sem-name" +:+ nl) else
  sem ← scall (SemOpen (cstr (argv_at argv 1)) 0 0 0);
  if sem =? SEM_FAILED then errExit "sem_open" else
  g ← sys (SemGetvalue sem);
  if r_ret g =? -1 then errExit "sem_getvalue" else
  _ ← printf (dec (r_val 0 g) +:+ nl);
  exit EXIT_SUCCESS.

Definition psem_post_main (argv : list string) : M Z :=
  if negb (argc_of argv =? 2) then usageErr (cstr (argv_at argv 0) +:+ " sem-name" +:+ nl) else
  sem ← scall (SemOpen (cstr (argv_at argv 1)) 0 0 0);
  if sem =? SEM_FAILED then errExit "sem_open" else
  p ← scall (SemPost sem);
  if p =? -1 then errExit "sem_post" else exit EXIT_SUCCESS.

Definition psem_wait_main (argv : list string) : M Z :=
  if (argc_of argv <? 2) || wants_help argv then usageErr (cstr (argv_at argv 0) +:+ " sem-name" +:+ nl) else
  sem ← scall (SemOpen (cstr (argv_at argv 1)) 0 0 0);
  if sem =? SEM_FAILED then errExit "sem_open" else
  s ← scall (SemWait sem);
  if s =? -1 then errExit "sem_wait" else
  pid ← scall Getpid;
  _ ← printf (dec pid +:+ " sem_wait() succeeded" +:+ nl);
  exit EXIT_SUCCESS.

Definition psem_unlink_main (argv : list string) : M Z :=
  if negb (argc_of argv =? 2) || wants_help argv then
    usageErr (cstr (argv_at argv 0) +:+ " sem-name" +:+ nl) else
  u ← scall (SemUnlink (cstr (argv_at argv 1)));
  if u =? -1 then errExit "sem_unlink" else exit EXIT_SUCCESS.

(** ** 54-posix-sharedmem *)

Definition PROT_READ : Z := 1.
Definition PROT_WRITE : Z := 2.
Definition MAP_SHARED : Z := 1.
Definition MAP_FAILED : Z := -1.

Definition shm_usage (progName : string) : list string :=
  ["Usage: " +:+ cstr progName +:+ " [-cx] shm-name size [octal-perms]" +:+ nl;
   "    -c   Create shared memory (O_CREAT)" +:+ nl; "    -x   Create exclusively (O_EXCL)" +:+ nl].

(** [size] is a [size_t], passed to [ftruncate] as an [off_t]. *)
Definition pshm_create_main (argv : list string) : M Z :=
  let usage := shm_usage (argv_at argv 0) in
  '(flags, operands) ← getopt_loop argv "cx" (creat_option usage) O_RDWR;
  match operands with
  | name :: sz :: rest =>
      n ← getLong (Some sz) GN_ANY_BASE (Some "size");
      let size := wrap_u64 n in
      perms ← match rest with
              | [] => mret rw_owner
              | a :: _ => p ← getLong (Some a) GN_BASE_8 (Some "octal-perms"); mret (wrap_u32 p) end;
      fd ← scall (ShmOpen (cstr name) flags perms);
      if fd =? -1 then errExit "shm_open" else
      t ← scall (Ftruncate fd (wrap_s64 size));
      if t =? -1 then errExit "ftruncate" else
      addr ← scall (Mmap size (PROT_READ .| PROT_WRITE) MAP_SHARED fd 0);
      if addr =? MAP_FAILED then errExit "mmap" else
      _ ← stop "created shared memory, check maps";
      exit EXIT_SUCCESS
  | _ => usage_lines usage
  end.

Definition pshm_write_main (argv : list string) : M Z :=
  if negb (argc_of argv =? 3) || wants_help argv then
    usageErr (cstr (argv_at argv 0) +:+ " shm-name string" +:+ nl) else
  fd ← scall (ShmOpen (cstr (argv_at argv 1)) O_RDWR 0);
  if fd =? -1 then errExit "shm_open" else
  let len := strlen (argv_at argv 2) in
  t ← scall (Ftruncate fd len);
  if t =? -1 then errExit "ftruncate" else
  _ ← printf ("Resized to " +:+ dec len +:+ " bytes" +:+ nl);
  addr ← scall (Mmap len (PROT_READ .| PROT_WRITE) MAP_SHARED fd 0);
  if addr =? MAP_FAILED then errExit "mmap" else
  c ← scall (Close fd);
  if c =? -1 then errExit "close" else
  _ ← printf ("copying " +:+ dec len +:+ " bytes" +:+ nl);
  _ ← sys (WriteMem addr (ztake len (cstr (argv_at argv 2))));
  exit EXIT_SUCCESS.

(** [r_val 0] of [fstat] is [st_size]. *)
Definition pshm_read_main (argv : list string) : M Z :=
  if negb (argc_of argv =? 2) || wants_help argv then
    usageErr (cstr (argv_at argv 0) +:+ " shm-name" +:+ nl) else
  fd ← scall (ShmOpen (cstr (argv_at argv 1)) O_RDONLY 0);
  if fd =? -1 then errExit "shm_open" else
  sb ← sys (Fstat fd);
  if r_ret sb =? -1 then errExit "fstat" else
  let st_size := r_val 0 sb in
  addr ← scall (Mmap st_size PROT_READ MAP_SHARED fd 0);
  if addr =? MAP_FAILED then errExit "mmap" else
  c ← scall (Close fd);
  if c =? -1 then errExit "close" else
  m ← sys (ReadMem addr st_size);
  _ ← scall (Write STDOUT_FILENO (r_buf m));
  exit EXIT_SUCCESS.

Definition pshm_unlink_main (argv : list string) : M Z :=
  if negb (argc_of argv =? 2) || wants_help argv then
    usageErr (cstr (argv_at argv 0) +:+ " shm-name" +:+ nl) else
  u ← scall (ShmUnlink (cstr (argv_at argv 1)));
  if u =? -1 then errExit "shm_unlink" else exit EXIT_SUCCESS.

#[export] Instance usage_lines_sane {A} l : Sane (usage_lines (A:=A) l).
Proof. unfold usage_lines. apply _. Qed.
#[export] Instance create_option_sane u s c a : Sane (create_option u s c a).
Proof. unfold create_option. destruct s as [[[? ?] ?] ?]. apply _. Qed.
#[export] Instance nonblock_option_sane u s c a : Sane (nonblock_option u s c a).
Proof. unfold nonblock_option. apply _. Qed.
#[export] Instance creat_option_sane u s c a : Sane (creat_option u s c a).
Proof. unfold creat_option. apply _. Qed.
#[export] Instance perms_arg_sane o k : Sane (perms_arg o k).
Proof. unfold perms_arg. apply _. Qed.
#[export] Instance mq_drain_sane m n : Sane (mq_drain m n).
Proof. unfold mq_drain. apply _. Qed.
#[export] Instance notify_round_sane m n : Sane (notify_round m n).
Proof. unfold notify_round. apply _. Qed.
#[export] Instance notify_round_uses m n : Uses (notify_round m n).
Proof. unfold notify_round. apply _. Qed.
#[export] Instance notifySetup_sane m : Sane (notifySetup m).
Proof. unfold notifySetup. apply _. Qed.
#[export] Instance notify_thread_sane m : Sane (notify_thread m).
Proof. unfold notify_thread. apply _. Qed.
#[export] Instance pmsg_create_main_sane a : Sane (pmsg_create_main a).
Proof. unfold pmsg_create_main. apply _. Qed.
#[export] Instance psem_create_main_sane a : Sane (psem_create_main a).
Proof. unfold psem_create_main. apply _. Qed.
#[export] Instance pshm_create_main_sane a : Sane (pshm_create_main a).
Proof. unfold pshm_create_main. apply _. Qed.

(** A usage error is a diagnostic that ends the process. *)
#[export] Instance dies_usage_lines {A} l : Dies (usage_lines (A:=A) l).
Proof.
  intros law w. unfold usage_lines, for_each. spec_step.
  eapply spec_mono; [|apply (spec_fold_m law _ (fun _ _ es _ => Forall diag es)
    (fun o es _ => Forall diag es /\ o = Ret tt) l tt [] w)]; [|constructor|intros [] es w' Hes; done|].
  - simpl. intros o es w' [Hes ->]. spec_run. split; [done|]. by rewrite app_nil_r.
  - intros s x l' es w' Hes. spec_run. apply Forall_app. split; [done|]. by repeat constructor.
Qed.

(** ** Messages *)

(** The queue calls of a trace that transfer or open something. *)
Fixpoint mq_events (es : list event) : list event :=
  match es with
  | [] => []
  | Called (MqOpen n f m a) r :: es => Called (MqOpen n f m a) r :: mq_events es
  | Called (MqSend q d p) r :: es => Called (MqSend q d p) r :: mq_events es
  | Called (MqReceive q n) r :: es => Called (MqReceive q n) r :: mq_events es
  | _ :: es => mq_events es
  end.
Lemma mq_events_app es fs : mq_events (es ++ fs) = mq_events es ++ mq_events fs.
Proof. induction es as [|[[]| |] es IH]; simpl; try done; by rewrite IH. Qed.
Lemma mq_events_diag es : Forall diag es -> mq_events es = [].
Proof. induction 1 as [|e es He Hes IH]; [done|]. by destruct e as [[]| |]. Qed.

(** What was written on a descriptor, as the program asked for it. *)
Fixpoint asked (fd : Z) (es : list event) : list string :=
  match es with
  | [] => []
  | Called (Write fd' d) _ :: es => if fd' =? fd then d :: asked fd es else asked fd es
  | _ :: es => asked fd es
  end.
Lemma asked_app fd es fs : asked fd (es ++ fs) = asked fd es ++ asked fd fs.
Proof. induction es as [|[[]| |] es IH]; simpl; try done. case_if; simpl; by rewrite IH. Qed.
Lemma asked_diag fd es : Forall diag es -> asked fd es = [].
Proof. induction 1 as [|e es He Hes IH]; [done|]. by destruct e as [[]| |]. Qed.

(** The flags the [-n] options make of the initial ones. *)
Definition nonblock (flags : Z) (opt : ascii) (arg : option string) : Z := flags .| O_NONBLOCK.
Definition mq_flags_of (argv : list string) (flags : Z) : Z := opt_fold nonblock (fst (getopt_of argv "n")) flags.
Definition mq_operands (argv : list string) : list string := snd (getopt_of argv "n").

Lemma nonblock_option_dies law u s c a w (R : outcome Z -> list event -> world -> Prop) :
  R (Ret (nonblock s c a)) [] w ->
  (forall c es w', Forall diag es -> R (Blocked c) es w') ->
  (forall h es w', died h -> Forall diag es -> R (Halt h) es w') -> spec law (nonblock_option u s c a) w R.
Proof.
  intros HR HB HD. unfold nonblock_option. destruct (ceqb c "n").
  - by apply spec_ret.
  - apply spec_dies; [apply _|done..].
Qed.

(** One message is sent, as the command line says. *)
Definition sent_message (argv : list string) (es : list event) : Prop :=
  exists name msg rest q s, mq_operands argv = name :: msg :: rest
    /\ mq_events es = [Called (MqOpen (cstr name) (mq_flags_of argv O_WRONLY) 0 None) q;
                       Called (MqSend (r_ret q) (cstr msg) (prio_arg rest)) s]
    /\ r_ret q <> -1 /\ r_ret s <> -1.
(** One message, the answer [r], is received into a buffer of the queue's message
    size, and shown. *)
Definition showed_message (argv : list string) (es : list event) (r : resp) : Prop :=
  exists name rest q a, mq_operands argv = name :: rest
    /\ In (Called (MqGetattr (r_ret q)) a) es
    /\ mq_events es = [Called (MqOpen (cstr name) (mq_flags_of argv O_RDONLY) 0 None) q;
                       Called (MqReceive (r_ret q) (mq_msgsize (r_attr a))) r]
    /\ r_ret r <> -1
    /\ printed Stdout es = "Read " +:+ dec (r_ret r) +:+ " bytes; priority = " +:+ dec (wrap_u32 (r_val 0 r)) +:+ nl
    /\ asked STDOUT_FILENO es = [ztake (r_ret r) (r_buf r); nl].

Lemma pmsg_send_spec law argv w :
  spec law (pmsg_send_main argv) w (fun o es _ =>
    match o with Halt (Exit 0) => sent_message argv es | Halt h => died h | Blocked _ => True | _ => False end).
Proof.
  match goal with |- spec _ _ _ ?P => set (Q := P) end.
  assert (HB : forall c es w', Q (Blocked c) es w') by done.
  assert (HD : forall h es w', died h -> Q (Halt h) es w')
    by (intros [[]| | |] es w' Hh; simpl in *; try done; subst; done).
  unfold pmsg_send_main. spec_step.
  apply (spec_getopt_loop _ _ _ _ nonblock); [intros; apply _|intros; by apply nonblock_option_dies|..];
    cbn [pass]; [intros; apply HB|intros; by apply HD|].
  intros es0 w0 Hd0. cbn beta iota. fold (mq_operands argv) (mq_flags_of argv O_WRONLY).
  die_run HB HD. exists s, s0, l0, r, r0. zbool. split; [done|].
  rewrite !mq_events_app, (mq_events_diag es0) by done. done.
Qed.

Lemma pmsg_receive_spec law argv w :
  spec law (pmsg_receive_main argv) w (fun o es _ =>
    match o with
    | Halt (Exit 0) => exists r, showed_message argv es r
    | Halt h => died h | Blocked _ => True | _ => False end).
Proof.
  match goal with |- spec _ _ _ ?P => set (Q := P) end.
  assert (HB : forall c es w', Q (Blocked c) es w') by done.
  assert (HD : forall h es w', died h -> Q (Halt h) es w')
    by (intros [[]| | |] es w' Hh; simpl in *; try done; subst; done).
  unfold pmsg_receive_main. spec_step.
  apply (spec_getopt_loop _ _ _ _ nonblock); [intros; apply _|intros; by apply nonblock_option_dies|..];
    cbn [pass]; [intros; apply HB|intros; by apply HD|].
  intros es0 w0 Hd0. cbn beta iota. fold (mq_operands argv) (mq_flags_of argv O_RDONLY).
  die_run HB HD. exists r2, s, l, r, r0. zbool. split; [done|].
  split; [rewrite !in_app_iff; simpl; tauto|].
  rewrite !mq_events_app, (mq_events_diag es0), !printed_app, (printed_diag es0), !asked_app, (asked_diag _ es0) by done.
  simpl. split; [done|]. split; [done|]. split; [|done]. rewrite !sapp_nil_r. done.
Qed.

(** ** Shared memory *)

(** A shared memory object: its contents and the address it is mapped at. *)
Definition resize (n : Z) (s : string) : string := ztake n s +:+ srep (Z.to_nat (n - slen s)) nul.
Definition shm_step (o : string * Z) (e : event) : string * Z :=
  let '(s, a) := o in
  match e with
  | Called (Ftruncate _ n) r => if r_ret r =? -1 then o else (resize n s, a)
  | Called (Mmap _ _ _ _ _) r => (s, r_ret r)
  | Called (WriteMem a' d) _ => if a' =? a then (d +:+ zdrop (slen d) s, a) else o
  | _ => o
  end.
Definition shm_after (s : string) (es : list event) : string := fst (fold_left shm_step es (s, -1)).

Lemma slen_resize n s : 0 <= n -> slen (resize n s) = n.
Proof. intros Hn. unfold resize. rewrite slen_app, slen_ztake, slen_srep by lia. lia. Qed.

Lemma pshm_write_spec law argv w :
  spec law (pshm_write_main argv) w (fun o es _ =>
    match o with
    | Halt (Exit 0) => forall old, shm_after old es = cstr (argv_at argv 2)
    | Halt h => died h | Blocked _ => True | _ => False end).
Proof.
  match goal with |- spec _ _ _ ?P => set (Q := P) end.
  assert (HB : forall c es w', Q (Blocked c) es w') by done.
  assert (HD : forall h es w', died h -> Q (Halt h) es w')
    by (intros [[]| | |] es w' Hh; simpl in *; try done; subst; done).
  unfold pshm_write_main. die_run HB HD. intros old. unfold shm_after. simpl.
  rewrite Heqb1. simpl. rewrite Z.eqb_refl. simpl. set (s := cstr (argv_at argv 2)).
  assert (Hl : strlen (argv_at argv 2) = slen s) by done. rewrite Hl, ztake_all by lia.
  rewrite zdrop_all; [apply sapp_nil_r|]. rewrite slen_resize; [lia|apply slen_nonneg].
Qed.

Lemma pshm_read_spec law argv w :
  spec law (pshm_read_main argv) w (fun o es _ =>
    match o with
    | Halt (Exit 0) => forall s,
        (forall fd r, In (Called (Fstat fd) r) es -> r_val 0 r = slen s) ->
        (forall a n r, In (Called (ReadMem a n) r) es -> r_buf r = ztake n s) -> asked STDOUT_FILENO es = [s]
    | Halt h => died h | Blocked _ => True | _ => False end).
Proof.
  match goal with |- spec _ _ _ ?P => set (Q := P) end.
  assert (HB : forall c es w', Q (Blocked c) es w') by done.
  assert (HD : forall h es w', died h -> Q (Halt h) es w')
    by (intros [[]| | |] es w' Hh; simpl in *; try done; subst; done).
  unfold pshm_read_main. die_run HB HD. intros s Hf Hm. simpl.
  rewrite (Hm (r_ret r1) (r_val 0 r0) r3) by (simpl; tauto).
  rewrite (Hf (r_ret r) r0) by (simpl; tauto). by rewrite ztake_all.
Qed.

(** C14.  The transfer programs.  pmsg_send sends exactly one message, its operand
    with its priority, to the queue named; pmsg_receive receives one message into
    a buffer of the queue's message size and prints its length and priority and
    exactly its bytes, so that what was sent is what is shown; pshm_write leaves
    the object holding exactly its operand, whatever it held before; pshm_read
    shows the whole object; every failure ends with a diagnostic. *)
Theorem posix_ipc_transfers law argv w :
  spec law (pmsg_send_main argv) w (fun o es _ =>
    match o with Halt (Exit 0) => sent_message argv es | Halt h => died h | Blocked _ => True | _ => False end)
  /\ spec law (pmsg_receive_main argv) w (fun o es _ =>
    match o with
    | Halt (Exit 0) => exists r, showed_message argv es r
        /\ forall msg, r_ret r = strlen msg -> r_buf r = cstr msg -> asked STDOUT_FILENO es = [cstr msg; nl]
    | Halt h => died h | Blocked _ => True | _ => False end)
  /\ spec law (pshm_write_main argv) w (fun o es _ =>
    match o with
    | Halt (Exit 0) => forall old, shm_after old es = cstr (argv_at argv 2)
    | Halt h => died h | Blocked _ => True | _ => False end)
  /\ spec law (pshm_read_main argv) w (fun o es _ =>
    match o with
    | Halt (Exit 0) => forall s,
        (forall fd r, In (Called (Fstat fd) r) es -> r_val 0 r = slen s) ->
        (forall a n r, In (Called (ReadMem a n) r) es -> r_buf r = ztake n s) -> asked STDOUT_FILENO es = [s]
    | Halt h => died h | Blocked _ => True | _ => False end).
Proof.
  split; [apply pmsg_send_spec|]. split; [|split; [apply pshm_write_spec|apply pshm_read_spec]].
  eapply spec_mono; [|apply pmsg_receive_spec]. intros [|[[]| | |]| |] es w' H; try exact H.
  destruct H as [r H]. exists r. split; [exact H|]. intros msg Hn Hb.
  destruct H as (name & rest & q & a & _ & _ & _ & _ & _ & Hw). rewrite Hw, Hn, Hb.
  unfold strlen. by rewrite ztake_all.
Qed.

(** ** Notification *)

Definition read_report (mqd size : Z) (r : resp) : list event :=
  [Called (MqReceive mqd size) r; Printed Stdout ("Read " +:+ dec (r_ret r) +:+ " bytes" +:+ nl)].

(** The queue has been emptied: every message received is reported, and the last
    attempt found none. *)
Definition drained (mqd size : Z) (es : list event) : Prop :=
  exists rs r, es = flat_map (read_report mqd size) rs ++ [Called (MqReceive mqd size) r]
    /\ Forall (fun r => 0 <= r_ret r) rs /\ r_ret r < 0 /\ (r_err r <> 0 -> r_err r = EAGAIN).

(** Complete rounds: a notification, a new registration, then an empty queue. *)
Inductive notify_log (mqd size : Z) : list event -> Prop :=
| notify_none : notify_log mqd size []
| notify_one es s n ds : notify_log mqd size es -> r_ret n <> -1 -> drained mqd size ds ->
    notify_log mqd size (es ++ [Called (Sigsuspend []) s; Called (MqNotify mqd SIGEV_SIGNAL NOTIFY_SIG) n] ++ ds).

Definition not_suspend (c : call) : Prop := match c with Sigsuspend _ => False | _ => True end.
Lemma spec_errExit_calls {A} law msg w (Q : outcome A -> list event -> world -> Prop) :
  (forall c es w', not_suspend c -> Q (Blocked c) es w') -> (forall h es w', died h -> Q (Halt h) es w') ->
  spec law (errExit msg) w Q.
Proof.
  intros HB HD. unfold errExit, terminate. spec_run. apply spec_outputError; [intros _; by apply HB|].
  intros es w' _. spec_run; first [by apply HB|by apply HD].
Qed.

Lemma spec_mq_drain law mqd size w (Q : outcome unit -> list event -> world -> Prop) :
  (forall c es w', not_suspend c -> Q (Blocked c) es w') ->
  (forall h es w', died h -> Q (Halt h) es w') ->
  (forall es w', drained mqd size es -> Q (Ret tt) es w') ->
  spec law (mq_drain mqd size) w Q.
Proof.
  intros HB HD HR. unfold mq_drain. spec_step.
  set (I := fun (_ : unit) es (_ : world) =>
    exists rs, es = flat_map (read_report mqd size) rs /\ Forall (fun r => 0 <= r_ret r) rs).
  apply spec_loop with (I := I); [intros; apply _|intros; apply _|by exists []|].
  intros [] es w1 (rs & -> & Hrs). spec_step. spec_step; cbn [pass]; [by apply HB|]. spec_step.
  - spec_run. zbool. exists (rs ++ [r]). rewrite flat_map_app. split; [done|].
    apply Forall_app. split; [done|]. repeat constructor. lia.
  - zbool. do 4 spec_step.
    + apply spec_errExit_calls; cbn [pass]; [intros; by apply HB|intros; by apply HD].
    + spec_run. rewrite !app_nil_r. apply HR. exists rs, r. split; [done|]. split; [done|]. split; [done|].
      intros Hr. zbool. unfold errno_after in He. replace (r_err r =? 0) with false in He by (symmetry; by apply Z.eqb_neq).
      congruence.
Qed.

Lemma spec_notify_rounds law mqd size w (Q : outcome Z -> list event -> world -> Prop) :
  (forall c es w', not_suspend c -> Q (Blocked c) es w') -> (forall h es w', died h -> Q (Halt h) es w') ->
  (forall es w', notify_log mqd size es -> Q (Blocked (Sigsuspend [])) es w') ->
  spec law (forever (notify_round mqd size)) w Q.
Proof.
  intros HB HD HS. unfold forever.
  apply spec_loop with (I := fun _ es _ => notify_log mqd size es); [intros; apply _|intros; apply _|constructor|].
  intros [] es w1 Hlog. unfold notify_round. spec_step. spec_step. spec_step; cbn [pass]; [by rewrite app_nil_r; apply HS|].
  spec_step. spec_step; cbn [pass]; [by apply HB|]. spec_step.
  - apply spec_errExit_calls; cbn [pass]; [intros; by apply HB|intros; by apply HD].
  - zbool. apply spec_mq_drain; cbn [pass]; [intros; by apply HB|intros; by apply HD|].
    intros ds w3 Hds. spec_run. rewrite app_nil_r. by apply (notify_one mqd size es r r0 ds).
Qed.

(** C13.  mq_notify_sig never misses a message once it has been notified: whenever
    it waits, it has registered again after each notification and has then emptied
    the queue, down to EAGAIN, so that the next message finds it registered; each
    message it received was reported with its length; and the notification signal
    is blocked except while it waits.  It never returns and dies only with a
    diagnostic. *)
Theorem mq_notify_sig_correct law argv w :
  spec law (mq_notify_sig_main argv) w (fun o es _ =>
    match o with
    | Blocked (Sigsuspend m) => m = [] /\ exists pre q a n body,
        es = pre ++ [Called (MqNotify (r_ret q) SIGEV_SIGNAL NOTIFY_SIG) n] ++ body
        /\ In (Called (MqOpen (cstr (argv_at argv 1)) (O_RDONLY .| O_NONBLOCK) 0 None) q) pre
        /\ In (Called (MqGetattr (r_ret q)) a) pre
        /\ In (Sigprocmask SIG_BLOCK (Some [NOTIFY_SIG])) (calls pre)
        /\ In (Sigaction NOTIFY_SIG NOTIFY_HANDLER 0 []) (calls pre)
        /\ r_ret n <> -1 /\ notify_log (r_ret q) (mq_msgsize (r_attr a)) body
    | Blocked _ => True
    | Halt h => died h
    | _ => False
    end).
Proof.
  match goal with |- spec _ _ _ ?P => set (Q := P) end.
  assert (HB : forall c es w', not_suspend c -> Q (Blocked c) es w') by (intros [] es w' Hc; try done; by simpl in Hc).
  assert (HD : forall h es w', died h -> Q (Halt h) es w') by done.
  unfold mq_notify_sig_main. 
  repeat first [ apply spec_errExit_calls; cbn [pass]; [intros; by apply HB|intros; by apply HD]
    | progress (spec_step; cbn [pass]) | by apply HB ].
  - unfold usageErr. spec_run. by apply HD.
  - zbool. apply spec_notify_rounds; [intros; by apply HB|intros; by apply HD|].
    intros body w' Hlog. split; [done|].
    match goal with |- context [Called (MqNotify _ _ _) ?n] => eexists (_ :: _ :: _ :: _ :: [_]), r, r0, n, body end.
    split; [simpl; reflexivity|]. simpl. split_and!; tauto.
Qed.
