(* ===== verification/Reaper.v ===== *)
(** * Reaper: waiting for children (26-process-watch/multi_SIGCHLD.c, multi_wait.c)

    The signal handler runs while its process is inside [sigsuspend]: the answer
    of that call says which signal was delivered.  What the kernel knows of the
    children (how many run, how many are zombies, whether SIGCHLD is pending) is a
    history of the trace in which a child may end at any moment. *)

From S2P Require Import Prelude Clib Sys Errors Frame GetNum Posix Status Sigs.

(** ** multi_SIGCHLD.c *)

(** [while ((childPid = waitpid(-1, &status, WNOHANG)) > 0)]: the last [childPid]
    and the variable [numLiveChildren]. *)
Definition reap_all (numLiveChildren : Z) : M (Z * Z) :=
  loop (fun live : Z =>
    r ← sys (Waitpid (-1) WNOHANG);
    let childPid := r_ret r in
    if childPid >? 0 then
      t ← currTime (Some "%T");
      _ ← printf (show_opt t +:+ " handler: Reaped child " +:+ dec childPid +:+ " - ");
      _ ← printWaitStatus None (r_val 0 r);
      mret (inl (live - 1))
    else mret (inr (childPid, live))) numLiveChildren.

(** The parameter and the result are the variable [numLiveChildren]. *)
Definition sigchldHandler (numLiveChildren : Z) : M Z :=
  savedErrno ← get_errno;
  t ← currTime (Some "%T");
  _ ← printf (show_opt t +:+ " handler: Caught SIGCHLD" +:+ nl);
  '(childPid, live) ← reap_all numLiveChildren;
  e ← get_errno;
  _ ← when ((childPid =? -1) && negb (e =? ECHILD)) (errMsg "waitpid");
  _ ← scall (Sleep 5);
  t ← currTime (Some "%T");
  _ ← printf (show_opt t +:+ " handler: returning" +:+ nl);
  _ ← set_errno savedErrno;
  mret live.

(** The case of the [switch] in the creation loop: only the parent returns. *)
Definition start_child (argv : list string) (j : Z) : M unit :=
  pid ← scall Fork;
  if pid =? -1 then errExit "fork"
  else if pid =? 0 then
    n ← getInt (argv_opt argv (Z.to_nat j)) GN_NONNEG (Some "child-sleep-time");
    _ ← scall (Sleep n);
    pid ← scall Getpid;
    t ← currTime (Some "%T");
    _ ← printf (show_opt t +:+ " Child " +:+ dec j +:+ " (PID=" +:+ dec pid +:+ ") exiting" +:+ nl);
    quick_exit EXIT_SUCCESS
  else mret tt.

(** [sigsuspend(&emptyMask)] and the handler it lets run; the loop carries
    [numLiveChildren] and [sigCnt]. *)
Definition await_children (numLiveChildren : Z) : M Z :=
  loop (fun '(live, sigCnt) =>
    if live >? 0 then
      r ← sys (Sigsuspend []);
      live' ← (if r_val 0 r =? SIGCHLD then sigchldHandler live else mret live);
      e ← get_errno;
      if (r_ret r =? -1) && negb (e =? EINTR) then errExit "sigsuspend"
      else mret (inl (live', sigCnt + 1))
    else mret (inr sigCnt)) (numLiveChildren, 0).

(** [CHLD_HANDLER] stands for the address of the handler. *)
Definition CHLD_HANDLER : Z := 5.

Definition multi_SIGCHLD_main (argv : list string) : M Z :=
  if (argc_of argv <? 2) || wants_help argv then
    usageErr (cstr (argv_at argv 0) +:+ " child-sleep-time..." +:+ nl) else
  _ ← scall (Lib "setbuf" ["stdout"%string] []);
  let numLiveChildren := argc_of argv - 1 in
  s ← scall (Sigaction SIGCHLD CHLD_HANDLER 0 []);
  if s =? -1 then errExit "sigaction" else
  b ← scall (Sigprocmask SIG_SETMASK (Some [SIGCHLD]));
  if b =? -1 then errExit "sigprocmask" else
  _ ← for_each (start_child argv) (seqZ 1 (argc_of argv - 1));
  sigCnt ← await_children numLiveChildren;
  t ← currTime (Some "%T");
  _ ← printf (show_opt t +:+ " All " +:+ dec (argc_of argv - 1)
              +:+ " children have terminated; SIGCHLD was caught " +:+ dec sigCnt +:+ " times" +:+ nl);
  exit EXIT_SUCCESS.

(** ** multi_wait.c *)

Definition start_sleeper (argv : list string) (j : Z) : M unit :=
  pid ← scall Fork;
  if pid =? -1 then errExit "fork"
  else if pid =? 0 then
    pid ← scall Getpid;
    t ← currTime (Some "%T");
    _ ← printf ("[" +:+ show_opt t +:+ "] child " +:+ dec j +:+ " started with PID " +:+ dec pid
                +:+ ", sleeping " +:+ cstr (argv_at argv (Z.to_nat j)) +:+ " seconds" +:+ nl);
    n ← getInt (argv_opt argv (Z.to_nat j)) GN_NONNEG (Some "sleep-time");
    _ ← scall (Sleep n);
    quick_exit EXIT_SUCCESS
  else mret tt.

Definition multi_wait_main (argv : list string) : M Z :=
  if (argc_of argv <? 2) || wants_help argv then
    usageErr (cstr (argv_at argv 0) +:+ " sleep-time..." +:+ nl) else
  _ ← scall (Lib "setbuf" ["stdout"%string] []);
  _ ← for_each (start_sleeper argv) (seqZ 1 (argc_of argv - 1));
  loop (fun numDead : Z =>
    childPid ← scall Wait;
    if childPid =? -1 then
      e ← get_errno;
      if e =? ECHILD then _ ← printf ("No more children - bye!" +:+ nl); exit EXIT_SUCCESS
      else errExit "wait"
    else
      t ← currTime (Some "%T");
      _ ← printf ("[" +:+ show_opt t +:+ "] wait() returned child PID " +:+ dec childPid
                  +:+ " (numDead=" +:+ dec (numDead + 1) +:+ ")" +:+ nl);
      mret (inl (numDead + 1))) 0.

#[export] Instance currTime_calm f : Calm (currTime f).
Proof. unfold currTime. apply _. Qed.
#[export] Instance printWaitStatus_calm m s : Calm (printWaitStatus m s).
Proof. unfold printWaitStatus. apply _. Qed.
#[export] Instance reap_all_sane n : Sane (reap_all n).
Proof. unfold reap_all. apply _. Qed.
#[export] Instance sigchldHandler_sane n : Sane (sigchldHandler n).
Proof. unfold sigchldHandler. apply _. Qed.
#[export] Instance start_child_sane a j : Sane (start_child a j).
Proof. unfold start_child. apply _. Qed.
#[export] Instance await_children_sane n : Sane (await_children n).
Proof. unfold await_children. apply emits_loop. intros [live c]. apply _. Qed.
#[export] Instance multi_SIGCHLD_main_sane a : Sane (multi_SIGCHLD_main a).
Proof. unfold multi_SIGCHLD_main. apply _. Qed.
#[export] Instance start_sleeper_sane a j : Sane (start_sleeper a j).
Proof. unfold start_sleeper. apply _. Qed.
#[export] Instance multi_wait_main_sane a : Sane (multi_wait_main a).
Proof. unfold multi_wait_main. apply _. Qed.

(** ** What the kernel knows of the children of a process *)

Record kids := Kids { running : nat; zombies : nat; pending : bool }.
Definition no_kids : kids := Kids 0 0 false.

(** A child ends, or stops or continues, at any moment: SIGCHLD becomes pending
    (it is blocked; one that is pending already is not queued). *)
Inductive kid_async : kids -> kids -> Prop :=
  | kid_exits r z p : kid_async (Kids (S r) z p) (Kids r (S z) true)
  | kid_stops r z p : kid_async (Kids (S r) z p) (Kids (S r) z true).

(** The calls that concern them.  In a child, which has none yet, [fork] answers 0. *)
Inductive kid_call : kids -> event -> kids -> Prop :=
  | kid_forked r z p x : 0 < r_ret x -> kid_call (Kids r z p) (Called Fork x) (Kids (S r) z p)
  | kid_is_child k x : r_ret x = 0 -> kid_call k (Called Fork x) no_kids
  | kid_no_fork k x : r_ret x = -1 -> kid_call k (Called Fork x) k
  | kid_reaped r z p x : 0 < r_ret x -> kid_call (Kids r (S z) p) (Called (Waitpid (-1) WNOHANG) x) (Kids r z p)
  | kid_none_yet r p x : r_ret x = 0 -> kid_call (Kids (S r) 0 p) (Called (Waitpid (-1) WNOHANG) x) (Kids (S r) 0 p)
  | kid_echild p x : r_ret x = -1 -> r_err x = ECHILD ->
      kid_call (Kids 0 0 p) (Called (Waitpid (-1) WNOHANG) x) (Kids 0 0 p)
  | kid_waited r z p x : 0 < r_ret x -> kid_call (Kids r (S z) p) (Called Wait x) (Kids r z p)
  | kid_wait_echild p x : r_ret x = -1 -> r_err x = ECHILD -> kid_call (Kids 0 0 p) (Called Wait x) (Kids 0 0 p)
  | kid_signalled r z x : r_ret x = -1 -> r_err x = EINTR -> r_val 0 x = SIGCHLD ->
      kid_call (Kids r z true) (Called (Sigsuspend []) x) (Kids r z false).

(** Events that do not concern children. *)
Definition no_kid (e : event) : Prop :=
  match e with Called (Fork | Wait | Waitpid _ _ | Sigsuspend _) _ => False | _ => True end.

Inductive kid_history : kids -> list event -> kids -> Prop :=
  | kid_nil k : kid_history k [] k
  | kid_moves k k' es k'' : kid_async k k' -> kid_history k' es k'' -> kid_history k es k''
  | kid_calls k e k' es k'' : kid_call k e k' -> kid_history k' es k'' -> kid_history k (e :: es) k''
  | kid_other k e es k' : no_kid e -> kid_history k es k' -> kid_history k (e :: es) k'.

(** ** Properties of every history *)

(** Children that exist: started and not yet waited for. *)
Definition live_kids (k : kids) : Z := Z.of_nat (running k + zombies k).
(** No end of a child has been forgotten. *)
Definition kids_ok (k : kids) : Prop := (0 < zombies k)%nat -> pending k = true.

Definition forked (e : event) : bool := match e with Called Fork r => 0 <? r_ret r | _ => false end.
Definition reaped_kid (e : event) : bool :=
  match e with Called (Wait | Waitpid _ _) r => 0 <? r_ret r | _ => false end.
Definition forks (es : list event) : Z := Z.of_nat (length (List.filter forked es)).
Definition reaps (es : list event) : Z := Z.of_nat (length (List.filter reaped_kid es)).
(** The trace of the process that created the children. *)
Definition parent_event (e : event) : Prop := match e with Called Fork r => r_ret r <> 0 | _ => True end.

Lemma forks_app es fs : forks (es ++ fs) = forks es + forks fs.
Proof. unfold forks. rewrite List.filter_app, length_app. lia. Qed.
Lemma reaps_app es fs : reaps (es ++ fs) = reaps es + reaps fs.
Proof. unfold reaps. rewrite List.filter_app, length_app. lia. Qed.

Lemma no_kid_counts es : Forall no_kid es -> forks es = 0 /\ reaps es = 0.
Proof. unfold forks, reaps. induction 1 as [|[[]| |] es He _ [IH1 IH2]]; simpl in *; try done; split; lia. Qed.

Lemma kid_history_app k es fs k' : kid_history k (es ++ fs) k' ->
  exists k1, kid_history k es k1 /\ kid_history k1 fs k'.
Proof.
  intros H. remember (es ++ fs) as l eqn:El. revert es fs El.
  induction H as [k|k k1 l k' Ha H IH|k e k1 l k' Hc H IH|k e l k' Hn H IH]; intros es fs El.
  - symmetry in El. apply app_eq_nil in El as [-> ->]. exists k. split; constructor.
  - destruct (IH es fs El) as (k2 & H1 & H2). exists k2. split; [by eapply kid_moves|done].
  - destruct es as [|e' es]; simpl in El.
    + subst fs. exists k. split; [constructor|by eapply kid_calls].
    + injection El as -> ->. destruct (IH es fs eq_refl) as (k2 & H1 & H2). exists k2. split; [by eapply kid_calls|done].
  - destruct es as [|e' es]; simpl in El.
    + subst fs. exists k. split; [constructor|by apply kid_other].
    + injection El as -> ->. destruct (IH es fs eq_refl) as (k2 & H1 & H2). exists k2. split; [by apply kid_other|done].
Qed.

(** Children are created by [fork] and disappear by being waited for. *)
Lemma kid_history_count k es k' : kid_history k es k' -> Forall parent_event es ->
  live_kids k' = live_kids k + forks es - reaps es.
Proof.
  assert (Hcons : forall e es, forks (e :: es) = forks [e] + forks es /\ reaps (e :: es) = reaps [e] + reaps es).
  { intros e l. split; [apply (forks_app [e])|apply (reaps_app [e])]. }
  induction 1 as [k|k k1 l k' Ha H IH|k e k1 l k' Hc H IH|k e l k' Hn H IH]; intros Hp.
  - unfold forks, reaps. simpl. lia.
  - rewrite IH by done. destruct Ha; unfold live_kids; simpl; lia.
  - inversion Hp as [|?? Hpe Hpl]; subst. rewrite IH by done. destruct (Hcons e l) as [-> ->].
    destruct Hc; unfold live_kids, forks, reaps; simpl in *; try done;
      repeat match goal with |- context [0 <? ?x] => destruct (0 <? x) eqn:?; zbool end; simpl; lia.
  - inversion Hp as [|?? Hpe Hpl]; subst. rewrite IH by done. destruct (Hcons e l) as [-> ->].
    destruct (no_kid_counts [e]) as [-> ->]; [by constructor|lia].
Qed.

(** [Settled es]: the events forget no end of a child; [Cleared es]: they
    discovered all of them. *)
Definition Settled (es : list event) : Prop := forall k k', kids_ok k -> kid_history k es k' -> kids_ok k'.
Definition Cleared (es : list event) : Prop := forall k k', kid_history k es k' -> kids_ok k'.

Lemma kid_async_ok k k' : kid_async k k' -> kids_ok k'.
Proof. intros []; by intros _. Qed.
Lemma kid_nil_ok k k' : kid_history k [] k' -> kids_ok k -> kids_ok k'.
Proof.
  intros H. remember [] as l eqn:El. induction H as [k|k k1 l k' Ha H IH| |]; try done.
  intros _. apply IH; [done|by eapply kid_async_ok].
Qed.

(** A call that concerns children was answered by the kernel. *)
Lemma kid_history_call k e k' : kid_history k [e] k' -> ~ no_kid e -> exists k1 k2, kid_call k1 e k2.
Proof.
  intros H Hn. remember [e] as l eqn:El. revert El.
  induction H as [k|k k1 l k' Ha H IH|k e' k1 l k' Hc H IH|k e' l k' Hn' H IH]; intros El; try done.
  - by apply IH.
  - injection El as -> ->. by exists k, k1.
  - by injection El as -> ->.
Qed.

(** One event, reduced to what can happen at the event itself. *)
Lemma kid_one_ok e (P : kids -> Prop) k k' :
  (forall k1 k2, (P k1 -> kid_async k1 k2 -> P k2)) -> P k ->
  (forall k1 k2, P k1 -> kid_call k1 e k2 -> kids_ok k2) ->
  (forall k1, P k1 -> no_kid e -> kids_ok k1) ->
  kid_history k [e] k' -> kids_ok k'.
Proof.
  intros Ha Hk Hc Hn H. remember [e] as l eqn:El.
  induction H as [|k k1 l k' Ha' H IH|k e' k1 l k' Hc' H IH|k e' l k' Hn' H IH]; try done.
  - apply IH; [by eapply Ha|done].
  - injection El as -> ->. eapply kid_nil_ok; [exact H|by eapply Hc].
  - injection El as -> ->. eapply kid_nil_ok; [exact H|by apply Hn].
Qed.

Definition no_suspend (e : event) : Prop := match e with Called (Sigsuspend _) _ => False | _ => True end.

Lemma settled_app es fs : Settled es -> Settled fs -> Settled (es ++ fs).
Proof. intros He Hf k k' Hk (k1 & H1 & H2)%kid_history_app. eapply Hf; [|exact H2]. by eapply He. Qed.
Lemma cleared_app es fs : Cleared es -> Settled fs -> Cleared (es ++ fs).
Proof. intros He Hf k k' (k1 & H1 & H2)%kid_history_app. eapply Hf; [|exact H2]. by eapply He. Qed.
Lemma cleared_after es fs : Cleared fs -> Cleared (es ++ fs).
Proof. intros Hf k k' (k1 & H1 & H2)%kid_history_app. by eapply Hf. Qed.
Lemma cleared_settled es : Cleared es -> Settled es.
Proof. intros He k k' _ H. by eapply He. Qed.

Lemma settled_events es : Forall no_suspend es -> Settled es.
Proof.
  induction 1 as [|e es He _ IH]; [intros k k' Hk H; by eapply kid_nil_ok|].
  apply (settled_app [e]); [|done]. clear IH. intros k k' Hk.
  apply (kid_one_ok e kids_ok); [intros; by eapply kid_async_ok|done| |done].
  intros k1 k2 Hk1 Hc. destruct Hc; unfold kids_ok in *; simpl in *; try done; try lia; intros; apply Hk1; lia.
Qed.
Lemma cleared_waitpid r : r_ret r <= 0 -> Cleared [Called (Waitpid (-1) WNOHANG) r].
Proof.
  intros Hr k k'. apply (kid_one_ok _ (fun _ => True)); [done|done| |done].
  intros k1 k2 _ Hc. inversion Hc; subst; unfold kids_ok; simpl; lia.
Qed.

(** ** The handler *)

(** Looking at the clock, naming a signal, printing, sleeping. *)
Definition aux (e : event) : Prop :=
  match e with
  | Called (Time | Localtime _ | Strftime _ _ _ | Strsignal _ | Strerror _ | Getenv _ | Sleep _ | Getpid) _
  | Printed _ _ | Flushed _ => True
  | _ => False
  end.
Definition handler_event (e : event) : Prop :=
  match e with Called (Waitpid p o) _ => p = -1 /\ o = WNOHANG | _ => aux e end.

(** The calls a handler may wait in. *)
Definition not_suspend (c : call) : Prop := match c with Sigsuspend _ => False | _ => True end.
#[export] Instance currTime_waits f : Waits not_suspend (currTime f).
Proof. unfold currTime. apply _. Qed.
#[export] Instance printWaitStatus_waits m s : Waits not_suspend (printWaitStatus m s).
Proof. unfold printWaitStatus. apply _. Qed.
#[export] Instance errMsg_waits m : Waits not_suspend (errMsg m).
Proof. unfold errMsg, outputError. apply _. Qed.
#[export] Instance currTime_aux f : Emits aux (currTime f).
Proof. unfold currTime. apply _. Qed.
#[export] Instance printWaitStatus_aux m s : Emits aux (printWaitStatus m s).
Proof. unfold printWaitStatus. apply _. Qed.
#[export] Instance errMsg_aux m : Emits aux (errMsg m).
Proof. emits_tac. Qed.

Lemma aux_handler es : Forall aux es -> Forall handler_event es.
Proof. intros H. eapply Forall_impl; [exact H|]. by intros [[]| |]. Qed.
Lemma aux_no_kid es : Forall aux es -> Forall no_kid es.
Proof. intros H. eapply Forall_impl; [exact H|]. by intros [[]| |]. Qed.
Lemma aux_no_sig es : Forall aux es -> Forall no_sig es.
Proof. intros H. eapply Forall_impl; [exact H|]. by intros [[]| |]. Qed.
Lemma diag_aux es : Forall diag es -> Forall aux es.
Proof. intros H. eapply Forall_impl; [exact H|]. by intros [[]| |]. Qed.
Lemma handler_no_suspend es : Forall handler_event es -> Forall no_suspend es.
Proof. intros H. eapply Forall_impl; [exact H|]. by intros [[]| |]. Qed.
Lemma handler_no_sig es : Forall handler_event es -> Forall no_sig es.
Proof. intros H. eapply Forall_impl; [exact H|]. by intros [[]| |]. Qed.
Lemma handler_no_forks es : Forall handler_event es -> forks es = 0 /\ Forall parent_event es.
Proof.
  unfold forks. induction 1 as [|[[]| |] es He _ [IH1 IH2]]; simpl in *; try done; (split; [done|by constructor]).
Qed.
Lemma aux_reaps es : Forall aux es -> reaps es = 0.
Proof. intros H. by apply no_kid_counts, aux_no_kid. Qed.
#[export] Hint Resolve aux_handler : cdb.

(** Run a part whose events all satisfy [P]; close a condition on a trace that is
    put together from such parts. *)
Ltac run_frame P := apply (spec_frame_waits _ P _ not_suspend); cbn [pass].
Ltac events := rewrite ?Forall_app; split_and?; auto with cdb; by repeat constructor.

Lemma reaps_one c r : reaps [Called c r] = if reaped_kid (Called c r) then 1 else 0.
Proof. unfold reaps. cbn [List.filter]. by destruct (reaped_kid _). Qed.
Lemma reaps_hit r : 0 < r_ret r -> reaps [Called (Waitpid (-1) WNOHANG) r] = 1.
Proof. intros H%Z.ltb_lt. rewrite reaps_one. cbn [reaped_kid]. by rewrite H. Qed.
Lemma reaps_miss r : r_ret r <= 0 -> reaps [Called (Waitpid (-1) WNOHANG) r] = 0.
Proof. intros H%Z.ltb_ge. rewrite reaps_one. cbn [reaped_kid]. by rewrite H. Qed.
Lemma reaps_printed st s : reaps [Printed st s] = 0.
Proof. done. Qed.
Lemma forks_printed st s : forks [Printed st s] = 0.
Proof. done. Qed.
Lemma reaps_nil : reaps [] = 0.
Proof. done. Qed.

Lemma spec_reap_all law n w (Q : outcome (Z * Z) -> list event -> world -> Prop) :
  (forall c es w', not_suspend c -> Forall handler_event es -> Q (Blocked c) es w') ->
  (forall p live es w', p <= 0 -> Forall handler_event es -> Cleared es -> live = n - reaps es ->
     Q (Ret (p, live)) es w') ->
  spec law (reap_all n) w Q.
Proof.
  intros HB HR. unfold reap_all.
  apply spec_loop with (I := fun live es _ => Forall handler_event es /\ live = n - reaps es);
    [intros; apply _|intros; apply _|split; [constructor|by rewrite reaps_nil, Z.sub_0_r]|].
  intros live es w2 [Hes Hlive]. spec_run; cbn [pass]; [apply HB; [done|events]| |]; zbool.
  - run_frame aux; [intros; apply HB; [done|events]|].
    intros t es2 w4 H2. spec_run. run_frame aux; [intros; apply HB; [done|events]|].
    intros [] es3 w6 H3. spec_run. split; [events|].
    rewrite !reaps_app, reaps_hit, reaps_printed, reaps_nil, (aux_reaps es2), (aux_reaps es3) by done. lia.
  - rewrite app_nil_r. apply HR; [done|events|by apply cleared_after, cleared_waitpid|].
    rewrite reaps_app, reaps_miss by done. lia.
Qed.

(** The handler waits until no ended child is left, counts what it waited for and
    leaves [errno] alone. *)
Lemma spec_sigchldHandler law n w (Q : outcome Z -> list event -> world -> Prop) :
  (forall c es w', not_suspend c -> Forall handler_event es -> Q (Blocked c) es w') ->
  (forall n' es w', errno w' = errno w -> Forall handler_event es -> Cleared es -> n' = n - reaps es ->
     Q (Ret n') es w') ->
  spec law (sigchldHandler n) w Q.
Proof.
  intros HB HR. unfold sigchldHandler. spec_run.
  run_frame aux; [intros; apply HB; [done|events]|]. intros t es1 w1 H1.
  spec_run. apply spec_reap_all; cbn [pass]; [intros; apply HB; [done|events]|].
  intros p live es2 w2 Hp H2 Hc Hn. spec_step; spec_step. spec_step.
  run_frame aux; [intros; apply HB; [done|events]|]. intros [] es3 w3 H3.
  spec_run; cbn [pass]; [apply HB; [done|events]|].
  run_frame aux; [intros; apply HB; [done|events]|]. intros t' es4 w5 H4. spec_run.
  apply HR; [done|events| |].
  - do 3 apply cleared_after. apply cleared_app; [done|]. apply settled_events, handler_no_suspend. events.
  - rewrite !reaps_app, !reaps_printed, reaps_nil, reaps_one, (aux_reaps es1), (aux_reaps es3), (aux_reaps es4) by done.
    cbn [reaped_kid]. lia.
Qed.

(** ** The programs *)

Definition is_suspend (e : event) : bool := match e with Called (Sigsuspend _) _ => true | _ => false end.
Definition suspends (es : list event) : Z := Z.of_nat (length (List.filter is_suspend es)).
Lemma suspends_app es fs : suspends (es ++ fs) = suspends es + suspends fs.
Proof. unfold suspends. rewrite List.filter_app, length_app. lia. Qed.
Lemma suspends_none es : Forall no_suspend es -> suspends es = 0.
Proof. unfold suspends. induction 1 as [|[[]| |] es He _ IH]; simpl in *; done. Qed.

(** A suspension that no SIGCHLD ended belongs to no history. *)
Lemma cleared_odd r : r_val 0 r <> SIGCHLD -> Cleared [Called (Sigsuspend []) r].
Proof.
  intros Hr k k'. apply (kid_one_ok _ (fun _ => True)); [done|done| |done].
  intros k1 k2 _ Hc. by inversion Hc.
Qed.

(** Creating a child, seen from the parent: the child never returns. *)
Definition start_event (e : event) : Prop := match e with Called Fork _ => True | _ => aux e end.
Lemma start_no_suspend es : Forall start_event es -> Forall no_suspend es.
Proof. intros H. eapply Forall_impl; [exact H|]. by intros [[]| |]. Qed.
Lemma start_reaps es : Forall start_event es -> reaps es = 0.
Proof. unfold reaps. induction 1 as [|[[]| |] es He _ IH]; simpl in *; done. Qed.

Lemma spec_start_children law (start : Z -> M unit) l w (Q : outcome unit -> list event -> world -> Prop)
    `{!forall j, Sane (start j)} :
  (forall j w1 (R : outcome unit -> list event -> world -> Prop),
     (forall c es w', not_suspend c -> Forall start_event es -> R (Blocked c) es w') ->
     (forall h es w', died h \/ ~ Forall parent_event es -> R (Halt h) es w') ->
     (forall r w', 0 < r_ret r \/ r_ret r < -1 -> R (Ret tt) [Called Fork r] w') -> spec law (start j) w1 R) ->
  (forall c es w', not_suspend c -> Forall start_event es -> Q (Blocked c) es w') ->
  (forall h es w', died h \/ ~ Forall parent_event es -> Q (Halt h) es w') ->
  (forall es w', Forall start_event es -> Forall parent_event es ->
     (forall k k', kid_history k es k' -> forks es = Z.of_nat (length l)) -> Q (Ret tt) es w') ->
  spec law (for_each start l) w Q.
Proof.
  intros Hstart. unfold for_each. revert w Q. induction l as [|j l IH]; intros w Q HB HD HR; cbn [fold_m].
  - spec_step. apply HR; [constructor..|done].
  - spec_step. apply Hstart; cbn [pass]; [done|done|].
    intros r w1 Hr. apply IH; cbn [pass].
    + intros c es w2 Hc Hes. apply HB; [done|by constructor].
    + intros h es w2 [Hh|Hp]; apply HD; [by left|right]. intros [_ Hq]%Forall_app. done.
    + intros es w2 Hes Hp Hf. apply HR; [by constructor|constructor; [simpl; lia|done]|].
      intros k k' (k1 & H1 & H2)%kid_history_app. rewrite forks_app, (Hf _ _ H2).
      assert (0 < r_ret r) as Hpos.
      { destruct (kid_history_call _ _ _ H1) as (k2 & k3 & Hc); [by intros []|]. inversion Hc; subst; lia. }
      apply Z.ltb_lt in Hpos. unfold forks. simpl. rewrite Hpos. simpl. lia.
Qed.

Lemma diag_start es : Forall diag es -> Forall start_event es.
Proof. intros H. eapply Forall_impl; [exact H|]. by intros [[]| |]. Qed.
Lemma aux_start es : Forall aux es -> Forall start_event es.
Proof. intros H. eapply Forall_impl; [exact H|]. by intros [[]| |]. Qed.
#[export] Hint Resolve diag_start aux_start diag_aux : cdb.

(** A child's trace shows that it is one. *)
Lemma not_parent r es : r_ret r = 0 -> ~ Forall parent_event (Called Fork r :: es).
Proof. intros Hr [H _]%Forall_cons. done. Qed.

(** The two functions that create a child; [HB], [HD] and [HR] are the three
    outcomes of [spec_start_children]. *)
Section Start.
Context (law : call -> resp -> Prop) (argv : list string) (j : Z).
Context (R : outcome unit -> list event -> world -> Prop).
Context (HB : forall c es w', not_suspend c -> Forall start_event es -> R (Blocked c) es w').
Context (HD : forall h es w', died h \/ ~ Forall parent_event es -> R (Halt h) es w').
Context (HR : forall r w', 0 < r_ret r \/ r_ret r < -1 -> R (Ret tt) [Called Fork r] w').

Lemma spec_start_child w : spec law (start_child argv j) w R.
Proof using HB HD HR.
unfold start_child. spec_run; cbn [pass]; [apply HB; [done|events]| | |apply HR; zbool; lia]; zbool.
- apply spec_dies_in; [apply _|..]; [intros c ? ? Hc ?; apply HB; [by destruct c|events]|intros; apply HD; by left].
- apply spec_getInt; cbn [pass]; [|intros; apply HD; right; by apply not_parent].
intros v w1 _ _. spec_run; cbn [pass]; [apply HB; [done|events]|apply HB; [done|events]|].
run_frame aux; [intros; apply HB; [done|events]|]. intros. spec_run. apply HD. right. by apply not_parent.
Qed.

Lemma spec_start_sleeper w : spec law (start_sleeper argv j) w R.
Proof using HB HD HR.
unfold start_sleeper. spec_run; cbn [pass]; [apply HB; [done|events]| | | |apply HR; zbool; lia]; zbool.
- apply spec_dies_in; [apply _|..]; [intros c ? ? Hc ?; apply HB; [by destruct c|events]|intros; apply HD; by left].
- apply HB; [done|events].
- run_frame aux; [intros; apply HB; [done|events]|]. intros. spec_run.
apply spec_getInt; cbn [pass]; [|intros; apply HD; right; by apply not_parent].
intros v w5 _ _. spec_run; cbn [pass]; [apply HB; [done|events]|]. apply HD. right. by apply not_parent.
Qed.
End Start.

(** What the parent of [n] children may come to.  When it waits for a signal, one
    is pending or will be sent; when it ends, none of its children is left. *)
Definition parent_post (n : Z) (o : outcome Z) (es : list event) : Prop :=
  match o with
  | Halt (Exit 0) => Forall parent_event es -> forall k, kid_history no_kids es k ->
      forks es = n /\ reaps es = n /\ running k = 0%nat /\ zombies k = 0%nat
  | Blocked (Sigsuspend _) => Forall parent_event es -> forall k, kid_history no_kids es k ->
      (0 < running k)%nat \/ pending k = true
  | Halt h => died h \/ ~ Forall parent_event es
  | Blocked _ => True
  | _ => False
  end.

Lemma live_kids_none k : live_kids k = 0 -> running k = 0%nat /\ zombies k = 0%nat.
Proof. unfold live_kids. lia. Qed.
Lemma parent_post_exit n es :
  (Forall parent_event es -> forall k, kid_history no_kids es k -> forks es = n /\ reaps es = n) ->
  parent_post n (Halt (Exit EXIT_SUCCESS)) es.
Proof.
  intros H Hp k Hk. destruct (H Hp k Hk) as [Hf Hr]. split_and!; [done|done|..];
    apply live_kids_none; rewrite (kid_history_count _ _ _ Hk Hp), Hf, Hr; unfold live_kids, no_kids; simpl; lia.
Qed.
Lemma parent_post_halt n h es : died h \/ ~ Forall parent_event es -> parent_post n (Halt h) es.
Proof. destruct h as [[]| | |]; try done. intros [Hd|Hp]; [done|]. intros Hq. by destruct Hp. Qed.
Lemma parent_post_blocked n c es : not_suspend c -> parent_post n (Blocked c) es.
Proof. by destruct c. Qed.

(** A parent that would wait with children left is going to be woken. *)
Lemma parent_post_suspend n es m :
  Settled es -> (forall k, kid_history no_kids es k -> reaps es < forks es) -> parent_post n (Blocked (Sigsuspend m)) es.
Proof.
  intros Hs Hc Hp k Hk. assert (Hok : kids_ok k) by (eapply Hs; [|exact Hk]; unfold kids_ok; simpl; lia).
  pose proof (kid_history_count _ _ _ Hk Hp) as Hn. specialize (Hc k Hk).
  unfold live_kids, no_kids in Hn. simpl in Hn. unfold kids_ok in Hok.
  destruct (zombies k); [left; lia|right; apply Hok; lia].
Qed.

(** The waiting loop after the events [es0]. *)
Lemma spec_await_children law n es0 w (Q : outcome Z -> list event -> world -> Prop) :
  Settled es0 -> reaps es0 = 0 -> suspends es0 = 0 -> (forall k, kid_history no_kids es0 k -> forks es0 = n) ->
  (forall c es w', not_suspend c -> Q (Blocked c) es w') ->
  (forall m es w', parent_post n (Blocked (Sigsuspend m)) (es0 ++ es) -> Q (Blocked (Sigsuspend m)) es w') ->
  (forall h es w', died h -> Q (Halt h) es w') ->
  (forall es w', forks es = 0 -> n <= reaps es -> Q (Ret (suspends es)) es w') ->
  spec law (await_children n) w Q.
Proof.
  intros Hset Hr0 Hs0 Hf0 HB HS HD HR. unfold await_children.
  apply spec_loop with (I := fun '(live, c) es _ =>
    Settled (es0 ++ es) /\ live = n - reaps es /\ forks es = 0 /\ c = suspends es);
    [intros []; apply _|intros []; apply _|rewrite app_nil_r; by rewrite Z.sub_0_r|].
  intros [live c] es w1 (Hes & Hlive & Hf & Hc). destruct (live >? 0) eqn:El; zbool.
  2:{ spec_step. rewrite app_nil_r, Hc. apply HR; [done|lia]. }
  spec_step; spec_step; cbn [pass].
  { apply HS. rewrite app_nil_r. apply parent_post_suspend; [done|]. intros k Hk.
    apply kid_history_app in Hk as (k1 & Hk & _). rewrite reaps_app, forks_app, Hr0, Hf, (Hf0 _ Hk). lia. }
  assert (Hnext : forall fs w2, Forall handler_event fs -> Cleared ([Called (Sigsuspend []) r] ++ fs) ->
    spec law (e ← get_errno; if (r_ret r =? -1) && negb (e =? EINTR) then errExit "sigsuspend"
              else mret (inl (live - reaps fs, c + 1))) w2 (fun o gs w3 => match o with
      | Ret (inl (l, d)) => Settled (es0 ++ es ++ [Called (Sigsuspend []) r] ++ fs ++ gs)
          /\ l = n - reaps (es ++ [Called (Sigsuspend []) r] ++ fs ++ gs)
          /\ forks (es ++ [Called (Sigsuspend []) r] ++ fs ++ gs) = 0
          /\ d = suspends (es ++ [Called (Sigsuspend []) r] ++ fs ++ gs)
      | Ret (inr a) => Q (Ret a) (es ++ [Called (Sigsuspend []) r] ++ fs ++ gs) w3
      | Diverged => False
      | _ => Q (pass o) (es ++ [Called (Sigsuspend []) r] ++ fs ++ gs) w3
      end)).
  { intros fs w2 Hfs Hcl. spec_step; spec_step. destruct ((r_ret r =? -1) && negb (errno w2 =? EINTR)).
    - apply spec_dies_in; [apply _|intros d ? ? Hd ?; apply HB; by destruct d|intros; by apply HD].
    - spec_step. rewrite !app_nil_r. split.
      { rewrite app_assoc. apply settled_app; [done|by apply cleared_settled]. }
      destruct (handler_no_forks _ Hfs) as [Hff _].
      rewrite !reaps_app, !forks_app, !suspends_app, Hff, Hf, (suspends_none fs) by (by apply handler_no_suspend).
      rewrite reaps_one. split_and!; [cbn [reaped_kid]; lia|done|subst c; unfold suspends; simpl; lia]. }
  spec_step. destruct (r_val 0 r =? SIGCHLD) eqn:Esig; zbool.
  - apply spec_sigchldHandler; cbn [pass].
    { intros d fs w3 Hd Hfs. by apply HB. }
    intros l fs w3 _ Hfs Hcl ->. eapply spec_mono; [|apply (Hnext fs w3 Hfs); by apply cleared_after].
    intros [[[]|]| | |] gs w4; done.
  - spec_step. specialize (Hnext [] w0 ltac:(constructor) (cleared_odd r Esig)).
    rewrite reaps_nil, Z.sub_0_r in Hnext. eapply spec_mono; [|exact Hnext].
    intros [[[]|]| | |] gs w4; done.
Qed.

(** The signal attributes: while there are children, SIGCHLD is blocked. *)
Definition chld_blocked (es : list event) : Prop :=
  forall a b st, es = a ++ b -> 0 < forks a -> SIGCHLD ∈ s_mask (sig_run st a).

Lemma chld_blocked_after es fs :
  forks es = 0 -> (forall st, SIGCHLD ∈ s_mask (sig_run st es)) -> Forall no_sig fs -> chld_blocked (es ++ fs).
Proof.
  intros Hf Hm Hn a b st He Ha.
  assert (exists c, a = es ++ c /\ c ++ b = fs) as (c & -> & <-).
  { apply app_eq_app in He as (c & [[-> ->]|[-> ->]]); [|by exists c].
    rewrite forks_app in Hf. unfold forks in *. lia. }
  apply Forall_app in Hn as [Hn _]. rewrite sig_run_app, (sig_run_none _ c Hn). apply Hm.
Qed.

Lemma chld_blocked_none es : forks es = 0 -> chld_blocked es.
Proof. intros Hf a b st -> Ha. rewrite forks_app in Hf. unfold forks in *. lia. Qed.
Lemma diag_forks es : Forall diag es -> forks es = 0.
Proof. intros H. apply no_kid_counts. eapply Forall_impl; [exact H|]. by intros [[]| |]. Qed.

#[export] Instance getInt_no_sig a f n : Emits no_sig (getInt a f n).
Proof. apply (emits_impl diag); [by intros [[]| |]|apply _]. Qed.
#[export] Instance currTime_no_sig f : Emits no_sig (currTime f).
Proof. unfold currTime. apply _. Qed.
#[export] Instance printWaitStatus_no_sig m s : Emits no_sig (printWaitStatus m s).
Proof. unfold printWaitStatus. apply _. Qed.
#[export] Instance start_child_no_sig a j : Emits no_sig (start_child a j).
Proof. unfold start_child. emits_tac. Qed.
#[export] Instance await_children_no_sig n : Emits no_sig (await_children n).
Proof.
  unfold await_children. apply emits_loop. intros [live c].
  unfold sigchldHandler, reap_all. emits_tac.
Qed.

(** After the children were created: wait for all of them and report. *)
Lemma spec_parent_rest law argv pre w :
  1 <= argc_of argv - 1 -> Forall (fun e => no_kid e /\ no_suspend e) pre ->
  spec law (_ ← for_each (start_child argv) (seqZ 1 (argc_of argv - 1));
            sigCnt ← await_children (argc_of argv - 1);
            t ← currTime (Some "%T");
            _ ← printf (show_opt t +:+ " All " +:+ dec (argc_of argv - 1)
                  +:+ " children have terminated; SIGCHLD was caught " +:+ dec sigCnt +:+ " times" +:+ nl);
            exit EXIT_SUCCESS) w
    (fun o es _ => parent_post (argc_of argv - 1) o (pre ++ es) /\
       (o = Halt (Exit 0) -> Forall parent_event es -> exists es0 t,
          es = es0 ++ [Printed Stdout (t +:+ " All " +:+ dec (argc_of argv - 1)
            +:+ " children have terminated; SIGCHLD was caught " +:+ dec (suspends es0) +:+ " times" +:+ nl)])).
Proof.
  intros Hn Hpre. set (n := argc_of argv - 1) in *.
  assert (Hpk : Forall no_kid pre /\ Forall no_suspend pre) by by apply Forall_and. destruct Hpk as [Hpk Hps].
  match goal with |- spec _ _ _ ?P => set (Q := P) end.
  assert (HB : forall c es w', not_suspend c -> Q (Blocked c) es w') by (intros; split; [by apply parent_post_blocked|done]).
  assert (HD : forall h es w', died h \/ ~ Forall parent_event es -> Q (Halt h) es w').
  { intros h es w' Hh. split.
    - apply parent_post_halt. destruct Hh as [Hh|Hh]; [by left|right; by intros [_ ?]%Forall_app].
    - intros [= ->] Hp. by destruct Hh as [Hh|[]]. }
  spec_step. apply spec_start_children; cbn [pass]; [apply _|..].
  - intros j w1 R HB' HD' HR'. by apply spec_start_child.
  - intros c es w1 Hc _. by apply HB.
  - intros h es w1 Hh. by apply HD.
  - intros es1 w1 Hes1 Hp1 Hf1. spec_step.
    assert (Hf1' : forall k, kid_history no_kids (pre ++ es1) k -> forks (pre ++ es1) = n).
    { intros k (k1 & _ & H1)%kid_history_app. destruct (no_kid_counts _ Hpk) as [Hp0 _].
      rewrite forks_app, Hp0, (Hf1 _ _ H1), length_seqZ. lia. }
    apply (spec_await_children law n (pre ++ es1)); cbn [pass].
    + apply settled_app; apply settled_events; [done|by apply start_no_suspend].
    + destruct (no_kid_counts _ Hpk) as [_ Hp0]. by rewrite reaps_app, Hp0, start_reaps.
    + rewrite suspends_app, !suspends_none; [done|by apply start_no_suspend|done].
    + done.
    + intros c es w2 Hc. by apply HB.
    + intros m es w2 Hs. split; [by rewrite app_assoc|done].
    + intros h es w2 Hh. apply HD. by left.
    + intros es2 w2 Hf2 Hr2. spec_step. run_frame aux; [intros; by apply HB|].
      intros t es3 w3 Hes3. spec_run. split.
      * apply parent_post_exit. intros Hp k Hk. pose proof (kid_history_count _ _ _ Hk Hp) as Hc.
        rewrite app_assoc in Hk. apply kid_history_app in Hk as (k1 & H1 & _). specialize (Hf1' _ H1).
        destruct (no_kid_counts _ Hpk) as [_ Hp0]. destruct (no_kid_counts es3) as [Hf3 Hr3]; [by apply aux_no_kid|].
        rewrite forks_app in Hf1'. rewrite !forks_app, !reaps_app, Hf2, Hf3, Hr3, Hp0, (start_reaps _ Hes1), reaps_printed, reaps_nil in *.
        unfold live_kids, no_kids, forks in Hc |- *. unfold forks in Hf1'. simpl in *. lia.
      * intros _ _. exists (es1 ++ es2 ++ es3), (show_opt t). rewrite app_nil_r, <- !app_assoc.
        rewrite !suspends_app, (suspends_none es1), (suspends_none es3); [|by apply handler_no_suspend, aux_handler|by apply start_no_suspend].
        by rewrite Z.add_0_r.
Qed.

Lemma multi_SIGCHLD_parent law argv w :
  spec law (multi_SIGCHLD_main argv) w (fun o es _ =>
    parent_post (argc_of argv - 1) o es /\ chld_blocked es /\
    (o = Halt (Exit 0) -> Forall parent_event es -> exists es0 t,
       es = es0 ++ [Printed Stdout (t +:+ " All " +:+ dec (argc_of argv - 1)
          +:+ " children have terminated; SIGCHLD was caught " +:+ dec (suspends es0) +:+ " times" +:+ nl)])).
Proof.
  match goal with |- spec _ _ _ ?P => set (Q := P) end.
  assert (HB : forall c es w', not_suspend c -> forks es = 0 -> Q (Blocked c) es w')
    by (intros; split_and!; [by apply parent_post_blocked|by apply chld_blocked_none|done]).
  assert (HD : forall h es w', died h -> forks es = 0 -> Q (Halt h) es w').
  { intros h es w' Hh Hf. split_and!; [apply parent_post_halt; by left|by apply chld_blocked_none|].
    intros [= ->]. done. }
  assert (Hdie : forall pre (m : M Z) w1, Dies m -> forks pre = 0 -> spec law m w1 (fun o es w2 => Q o (pre ++ es) w2)).
  { intros pre m w1 Hm Hp. apply spec_dies_in; [done|..]; intros x es w2 Hx Hes;
      [apply HB; [by destruct x|]|apply HD; [done|]]; by rewrite forks_app, Hp, diag_forks. }
  unfold multi_SIGCHLD_main. spec_step; [apply (Hdie []); [apply _|done]|]. apply orb_false_iff in Heqb as [Hargc _]. zbool.
  spec_step; spec_step; cbn [pass]; [by apply HB|].
  spec_step; spec_step; cbn [pass]; [by apply HB|]. spec_step; [apply (Hdie [_; _]); [apply _|done]|].
  spec_step; spec_step; cbn [pass]; [by apply HB|]. spec_step; [apply (Hdie [_; _; _]); [apply _|done]|].
  apply (spec_with_emits law no_sig); [apply _|].
  set (pre := [Called (Lib "setbuf" ["stdout"%string] []) r; Called (Sigaction SIGCHLD CHLD_HANDLER 0 []) r0;
     Called (Sigprocmask SIG_SETMASK (Some [SIGCHLD])) r1]).
  eapply spec_mono; [|apply (spec_parent_rest law argv pre); [lia|by repeat constructor]].
  intros o es w' [Hpost Hprint] Hsig. split_and!; [exact Hpost| |].
  - apply (chld_blocked_after pre es); [done| |done]. intros st. simpl. set_solver.
  - intros Ho Hp. destruct (Hprint Ho) as (es0 & t & ->); [by repeat (apply Forall_cons in Hp as [_ Hp])|].
    by exists (pre ++ es0), t.
Qed.

(** ** [multi_wait] *)

(** No child is left when [wait] fails for want of one. *)
Lemma echild_none es r k : r_ret r = -1 -> kid_history no_kids (es ++ [Called Wait r]) k -> live_kids k = 0.
Proof.
  intros Hr (k1 & _ & H)%kid_history_app. remember [Called Wait r] as l eqn:El. revert El.
  induction H as [k|k k2 l k' Ha H IH|k e k2 l k' Hc H IH|k e l k' Hn H IH]; intros El; try done.
  - by apply IH.
  - injection El as -> ->. inversion Hc; subst; [lia|]. remember [] as l eqn:El.
    remember (Kids 0 0 p) as k0 eqn:Ek. revert Ek El.
    clear IH. induction H as [k|k k2 l k' Ha H' IH'| |]; intros -> El; try done. inversion Ha.
  - by injection El as -> ->.
Qed.

Lemma multi_wait_parent law argv w :
  spec law (multi_wait_main argv) w (fun o es _ => parent_post (argc_of argv - 1) o es).
Proof.
  match goal with |- spec _ _ _ ?P => set (Q := P) end.
  assert (HB : forall c es w', not_suspend c -> Q (Blocked c) es w') by (intros; by apply parent_post_blocked).
  assert (HD : forall h es w', died h -> Q (Halt h) es w') by (intros; apply parent_post_halt; by left).
  unfold multi_wait_main. spec_step.
  { apply spec_dies_in; [apply _|intros c ? ? Hc _; apply HB; by destruct c|intros; by apply HD]. }
  apply orb_false_iff in Heqb as [Hargc _]. zbool.
  spec_step; spec_step; cbn [pass]; [by apply HB|]. spec_step. apply spec_start_children; cbn [pass]; [apply _|..].
  { intros j w1 R HB' HD' HR'. by apply spec_start_sleeper. }
  { intros c es w1 Hc _. by apply HB. }
  { intros h es w1 [Hh|Hp]; [by apply HD|]. apply parent_post_halt. right. by intros [_ ?]%Forall_app. }
  intros es1 w1 Hes1 Hp1 Hf1.
  apply spec_loop with (I := fun _ es _ => forks es = 0); [intros; apply _|intros; apply _|done|].
  intros n es w2 Hf. spec_run; cbn [pass]; zbool.
  - by apply HB.
  - set (pre := [Called (Lib "setbuf" ["stdout"%string] []) r] ++ es1 ++ es).
    match goal with |- Q _ ?l _ => replace l with ((pre ++ [Called Wait r0]) ++
      [Printed Stdout ("No more children - bye!" +:+ nl)]) by (unfold pre; by rewrite <- !app_assoc) end.
    apply parent_post_exit. intros [Hp _]%Forall_app k (k1 & H1 & _)%kid_history_app.
    pose proof (echild_none _ _ _ Heqb H1) as Hlive. rewrite (kid_history_count _ _ _ H1 Hp) in Hlive.
    apply kid_history_app in H1 as (k2 & H2 & _). unfold pre in H2.
    apply kid_history_app in H2 as (k3 & _ & H3). apply kid_history_app in H3 as (k4 & H4 & _).
    assert (Hf' : forks ((pre ++ [Called Wait r0]) ++ [Printed Stdout ("No more children - bye!" +:+ nl)]) = argc_of argv - 1).
    { unfold pre. rewrite !forks_app, Hf, (Hf1 _ _ H4), length_seqZ. unfold forks. simpl. lia. }
    split; [exact Hf'|]. rewrite forks_app, forks_printed in Hf'. rewrite reaps_app, reaps_printed.
    change (live_kids no_kids) with 0 in Hlive. lia.
  - apply spec_dies_in; [apply _|intros c ? ? Hc _; apply HB; by destruct c|intros; by apply HD].
  - run_frame aux; [intros; by apply HB|]. intros t es3 w5 Hes3. spec_run.
    destruct (no_kid_counts es3) as [Hf3 _]; [by apply aux_no_kid|]. by rewrite !forks_app, Hf, Hf3.
Qed.

(** C15.  Parents that wait for all their children.  [multi_SIGCHLD] counts what its
    handler waited for although signals that arrive while SIGCHLD is blocked or
    pending are merged: SIGCHLD is blocked whenever it has a child, so that none
    is lost between the test of the counter and [sigsuspend]; whenever it waits
    there, a SIGCHLD is pending or a child still runs, whatever the children do and
    in whatever order; it ends with status 0 only when every child it created has
    been waited for, and reports the number of signals that woke it.  [multi_wait]
    ends with status 0 only when every child it created has been waited for. *)
Theorem parents_wait_for_all law argv w :
  spec law (multi_SIGCHLD_main argv) w (fun o es _ =>
    parent_post (argc_of argv - 1) o es /\ chld_blocked es /\
    (o = Halt (Exit 0) -> Forall parent_event es -> exists es0 t,
       es = es0 ++ [Printed Stdout (t +:+ " All " +:+ dec (argc_of argv - 1)
          +:+ " children have terminated; SIGCHLD was caught " +:+ dec (suspends es0) +:+ " times" +:+ nl)]))
  /\ spec law (multi_wait_main argv) w (fun o es _ => parent_post (argc_of argv - 1) o es).
Proof. split; [apply multi_SIGCHLD_parent|apply multi_wait_parent]. Qed.

(** Both children end before the parent first waits: one SIGCHLD for the two. *)
Definition merged_script : list resp :=
  let clock := [ok 0; ok 0] in
  [ok 0; ok 0; ok 0; ok 7; ok 8; Resp (-1) EINTR "" (Vals [SIGCHLD])] ++ clock
  ++ [Resp 7 0 "" (Vals [0])] ++ clock ++ [Resp 8 0 "" (Vals [0])] ++ clock ++ [err ECHILD; ok 0] ++ clock ++ clock.
Example merged_signals :
  let '(o, es) := run (multi_SIGCHLD_main ["p"; "1"; "1"]) merged_script in
  o = Halt (Exit 0) /\ suspends es = 1 /\ reaps es = 2 /\ kid_history no_kids es (Kids 0 0 false).
Proof.
  vm_compute run. split_and!; [done|done|done|].
  do 3 (apply kid_other; [done|]). do 2 (eapply kid_calls; [by apply kid_forked|]).
  do 2 (eapply kid_moves; [apply kid_exits|]). eapply kid_calls; [by apply kid_signalled|].
  repeat first [apply kid_other; [exact I|] | eapply kid_calls; [first [by apply kid_reaped|by apply kid_echild]|] | apply kid_nil].
Qed.
