(* ===== verification/Stops.v ===== *)
(** * Stops: job control and the terminal programs
    (34-process-credentials/handling_SIGTSTP.c, 62-terminal/, 62-experimental/) *)

From S2P Require Import Prelude Clib Sys Errors Frame GetNum Posix Terminal Sigs.

(** ** handling_SIGTSTP.c *)

(** [TSTP_HANDLER] stands for the address of the handler. *)
Definition TSTP_HANDLER : Z := 6.

Definition tstpHandler (sig : Z) : M unit :=
  savedErrno ← get_errno;
  _ ← printf ("Caught SIGTSTP" +:+ nl);
  s ← scall (Signal SIGTSTP SIG_DFL);
  if s =? SIG_ERR then errExit "signal" else
  _ ← scall (Raise SIGTSTP);
  m ← sys (Sigprocmask SIG_UNBLOCK (Some [SIGTSTP]));
  if r_ret m =? -1 then errExit "sigprocmask" else
  _ ← printf ("Caught SIGCONT" +:+ nl);
  k ← scall (Sigprocmask SIG_SETMASK (Some (old_mask m)));
  if k =? -1 then errExit "sigprocmask" else
  a ← scall (Sigaction SIGTSTP TSTP_HANDLER SA_RESTART []);
  if a =? -1 then errExit "sigaction" else
  _ ← printf ("Exiting SIGTSTP handler" +:+ nl);
  set_errno savedErrno.

(** The answer of [pause] says which signal's handler ended it. *)
Definition handling_SIGTSTP_main (argv : list string) : M Z :=
  g ← sys (SigactionGet SIGTSTP);
  if r_ret g =? -1 then errExit "sigaction" else
  _ ← when (negb (sa_handler (old_action g) =? SIG_IGN))
        (s ← scall (Sigaction SIGTSTP TSTP_HANDLER SA_RESTART []);
         when (s =? -1) (errExit "sigaction"));
  forever (
    r ← sys Pause;
    _ ← when (r_val 0 r =? SIGTSTP) (tstpHandler SIGTSTP);
    printf ("Main" +:+ nl)).

(** ** test_tty_functions.c *)

Definition EXIT_HANDLER : Z := 7.
Definition TTY_TSTP_HANDLER : Z := 8.

(** The variable [userTermios] is the argument of the handlers and, for the one
    that changes it, the result. *)
Definition exit_handler (userTermios : termios) : M unit :=
  t ← scall (Tcsetattr STDIN_FILENO TCSAFLUSH userTermios);
  if t =? -1 then errExit "tcsetattr" else quick_exit EXIT_SUCCESS.

Definition tty_tstpHandler (userTermios : termios) : M termios :=
  savedErrno ← get_errno;
  g ← sys (Tcgetattr STDIN_FILENO);
  if r_ret g =? -1 then errExit "tcgetattr" else
  let ourTermios := r_termios g in
  t ← scall (Tcsetattr STDIN_FILENO TCSAFLUSH userTermios);
  if t =? -1 then errExit "tcsetattr" else
  s ← scall (Signal SIGTSTP SIG_DFL);
  if s =? SIG_ERR then errExit "signal" else
  _ ← scall (Raise SIGTSTP);
  m ← sys (Sigprocmask SIG_UNBLOCK (Some [SIGTSTP]));
  if r_ret m =? -1 then errExit "sigprocmask" else
  k ← scall (Sigprocmask SIG_SETMASK (Some (old_mask m)));
  if k =? -1 then errExit "sigprocmask" else
  a ← scall (Sigaction SIGTSTP TTY_TSTP_HANDLER SA_RESTART []);
  if a =? -1 then errExit "sigaction" else
  u ← sys (Tcgetattr STDIN_FILENO);
  if r_ret u =? -1 then errExit "tcgetattr" else
  o ← scall (Tcsetattr STDIN_FILENO TCSAFLUSH ourTermios);
  if o =? -1 then errExit "tcsetattr" else
  _ ← set_errno savedErrno;
  mret (r_termios u).

(** Establish a handler unless the signal is ignored. *)
Definition catch_unless_ignored (sig handler : Z) : M unit :=
  p ← sys (SigactionGet sig);
  if r_ret p =? -1 then errExit "sigaction" else
  when (negb (sa_handler (old_action p) =? SIG_IGN))
    (s ← scall (Sigaction sig handler SA_RESTART []); when (s =? -1) (errExit "sigaction")).

Definition iscntrl (c : ascii) : bool := in_range 0 31 c || (ascii_Z c =? 127).
Definition tolower (c : ascii) : ascii := if isupper c then Z_ascii (ascii_Z c + 32) else c.

(** What is echoed for a character. *)
Definition tty_echo (ch : ascii) : string :=
  if isalpha ch then String (tolower ch) EmptyString
  else if ceqb ch nlc || ceqb ch "013" then String ch EmptyString
  else if iscntrl ch then "^" +:+ String (Z_ascii (Z.lxor (ascii_Z ch) 64)) EmptyString
  else "*".

(** Signals that arrive while the program waits for a character: the environment
    says which handler runs next (0: none, the character is there). *)
Definition tty_signals (userTermios : termios) : M termios :=
  loop (fun u =>
    s ← scall (Lib "signal" [] []);
    if s =? 0 then mret (inr u)
    else if s =? SIGTSTP then u' ← tty_tstpHandler u; mret (inl u')
    else _ ← exit_handler u; mret (inl u)) userTermios.

(** The loop that reads and echoes; its result is [userTermios] when it ends. *)
Definition tty_echo_loop (userTermios : termios) : M termios :=
  loop (fun u =>
    u ← tty_signals u;
    r ← sys (Read STDIN_FILENO 1);
    if r_ret r =? -1 then _ ← errMsg "read"; mret (inr u)
    else if r_ret r =? 0 then mret (inr u)
    else
      let ch := schar 0 (r_buf r) in
      _ ← printf (tty_echo ch);
      if ceqb ch "q" then mret (inr u) else mret (inl u)) userTermios.

Definition test_tty_functions_main (argv : list string) : M Z :=
  userTermios ←
    (if argc_of argv >? 1 then
       '(b, orig) ← ttySetCbreak STDIN_FILENO true;
       if b =? -1 then errExit "ttySetCbreak" else
       _ ← catch_unless_ignored SIGQUIT EXIT_HANDLER;
       _ ← catch_unless_ignored SIGINT EXIT_HANDLER;
       _ ← catch_unless_ignored SIGTSTP TTY_TSTP_HANDLER;
       mret (default (Termios 0 0 0 0 []) orig)
     else
       '(b, orig) ← ttySetRaw STDIN_FILENO true;
       if b =? -1 then errExit "ttySetRaw" else mret (default (Termios 0 0 0 0 []) orig));
  s ← scall (Sigaction SIGTERM EXIT_HANDLER SA_RESTART []);
  if s =? -1 then errExit "sigaction" else
  _ ← scall (Lib "setbuf" ["stdout"%string] []);
  userTermios ← tty_echo_loop userTermios;
  t ← scall (Tcsetattr STDIN_FILENO TCSAFLUSH userTermios);
  if t =? -1 then errExit "tcsetattr" else exit EXIT_SUCCESS.

(** ** no_echo.c *)

Definition NO_ECHO_BUF_SIZE : Z := 100.

Definition no_echo_main (argv : list string) : M Z :=
  g ← sys (Tcgetattr STDIN_FILENO);
  if r_ret g =? -1 then errExit "tcgetattr" else
  let save := r_termios g in
  let tp := Termios (c_iflag save) (c_oflag save) (c_cflag save) (clear (c_lflag save) ECHO) (c_cc save) in
  t ← scall (Tcsetattr STDIN_FILENO TCSAFLUSH tp);
  if t =? -1 then errExit "tcsetattr" else
  _ ← printf "Enter text: ";
  _ ← fflush Stdout;
  r ← sys (Fgets NO_ECHO_BUF_SIZE Stdin);
  _ ← (if r_ret r =? 0 then printf ("Got end-of-file/error on fgets()" +:+ nl)
       else printf (nl +:+ "Read: " +:+ cstr (r_buf r)));
  t ← scall (Tcsetattr STDIN_FILENO TCSANOW save);
  if t =? -1 then errExit "tcsetattr" else exit EXIT_SUCCESS.

(** ** new_intr.c *)

Definition ULONG_MAX : Z := 18446744073709551615.
Definition _PC_VDISABLE : Z := 8.

(** [strtoul(s, NULL, 0)], the result only. *)
Definition strtoul (arg : string) (base : Z) : Z :=
  let '(neg, s2) := split_sign (skip_ws (cstr arg)) in
  let '(b, s3) := split_base base s2 in
  if starts_digit b s3 then
    let m := fst (digits b 0 s3) in
    if m >? ULONG_MAX then ULONG_MAX else if neg then wrap_u64 (- m) else m
  else 0.

(** The new INTR character: a [cc_t] holds the low byte. *)
Definition intr_char (argv : list string) : M Z :=
  if argc_of argv =? 1 then
    v ← scall (Lib "fpathconf" [] [STDIN_FILENO; _PC_VDISABLE]);
    let intrChar := wrap_s32 v in
    if intrChar =? -1 then errExit "Couln't determine VDISABLE" else mret intrChar
  else if isdigit (schar 0 (argv_at argv 1)) then mret (wrap_s32 (strtoul (argv_at argv 1) 0))
  else mret (wrap_s8 (ascii_Z (schar 0 (argv_at argv 1)))).

Definition new_intr_main (argv : list string) : M Z :=
  if (argc_of argv >? 1) && wants_help argv then
    usageErr (cstr (argv_at argv 0) +:+ " [intr-char]" +:+ nl) else
  intrChar ← intr_char argv;
  g ← sys (Tcgetattr STDIN_FILENO);
  if r_ret g =? -1 then errExit "tcgetattr" else
  let tp := r_termios g in
  t ← scall (Tcsetattr STDIN_FILENO TCSAFLUSH
        (Termios (c_iflag tp) (c_oflag tp) (c_cflag tp) (c_lflag tp) (set_cc VINTR (intrChar mod 256) (c_cc tp))));
  if t =? -1 then errExit "tcsetattr" else exit EXIT_SUCCESS.

(** ** demo_SIGWINCH.c

    [ws] and [sigmask] are partly uninitialised: [pixels] and [junk] are what the
    stack holds there. *)

Definition WINCH_HANDLER : Z := 9.
Definition WINT_HANDLER : Z := 10.

Definition sigintHandler (pixels junk : list Z) : M unit :=
  i ← scall (Ioctl STDIN_FILENO TIOCSWINSZ (40 :: 100 :: pixels));
  if i =? -1 then errExit "ioctl" else
  _ ← scall (Sleep 3);
  _ ← scall (Signal SIGINT SIG_DFL);
  _ ← scall (Raise SIGINT);
  _ ← scall (Sigprocmask SIG_UNBLOCK (Some (SIGINT :: junk)));
  mret tt.

Definition demo_SIGWINCH_main (pixels junk : list Z) (argv : list string) : M Z :=
  s ← scall (Sigaction SIGWINCH WINCH_HANDLER 0 []);
  if s =? -1 then errExit "sigaction" else
  s ← scall (Sigaction SIGINT WINT_HANDLER 0 []);
  if s =? -1 then errExit "sigaction2" else
  forever (
    r ← sys Pause;
    _ ← when (r_val 0 r =? SIGINT) (sigintHandler pixels junk);
    g ← sys (Ioctl STDIN_FILENO TIOCGWINSZ []);
    if r_ret g =? -1 then errExit "ioctl" else
    printf ("Caught SIGWINCH, new window size: " +:+ dec (r_val 0 g) +:+ " rows * "
            +:+ dec (r_val 1 g) +:+ " columns" +:+ nl)).

(** ** print_terminal.c: [main] returns 0 after its last statement *)

Definition show_ptr (r : resp) : string := if r_ret r =? 0 then "(null)" else cstr (r_buf r).

Definition print_terminal_main : M Z :=
  c ← sys (Lib "ctermid" [] [0]);
  _ ← printf ("ctermid(): " +:+ show_ptr c +:+ nl);
  t ← sys (Ttyname 0);
  _ ← printf ("ttyname(): " +:+ show_ptr t +:+ nl);
  _ ← scall Pause;
  exit EXIT_SUCCESS.

#[export] Instance tstpHandler_sane s : Sane (tstpHandler s).
Proof. unfold tstpHandler. apply _. Qed.
#[export] Instance handling_SIGTSTP_main_sane a : Sane (handling_SIGTSTP_main a).
Proof. unfold handling_SIGTSTP_main. apply _. Qed.
#[export] Instance exit_handler_sane u : Sane (exit_handler u).
Proof. unfold exit_handler. apply _. Qed.
#[export] Instance tty_tstpHandler_sane u : Sane (tty_tstpHandler u).
Proof. unfold tty_tstpHandler. apply _. Qed.
#[export] Instance catch_unless_ignored_sane s h : Sane (catch_unless_ignored s h).
Proof. unfold catch_unless_ignored. apply _. Qed.
#[export] Instance tty_signals_sane u : Sane (tty_signals u).
Proof. unfold tty_signals. apply _. Qed.
#[export] Instance tty_echo_loop_sane u : Sane (tty_echo_loop u).
Proof. unfold tty_echo_loop. apply _. Qed.
#[export] Instance test_tty_functions_main_sane a : Sane (test_tty_functions_main a).
Proof. unfold test_tty_functions_main. apply _. Qed.
#[export] Instance no_echo_main_sane a : Sane (no_echo_main a).
Proof. unfold no_echo_main. apply _. Qed.
#[export] Instance intr_char_sane a : Sane (intr_char a).
Proof. unfold intr_char. apply _. Qed.
#[export] Instance new_intr_main_sane a : Sane (new_intr_main a).
Proof. unfold new_intr_main. apply _. Qed.
#[export] Instance sigintHandler_sane p j : Sane (sigintHandler p j).
Proof. unfold sigintHandler. apply _. Qed.
#[export] Instance demo_SIGWINCH_main_sane p j a : Sane (demo_SIGWINCH_main p j a).
Proof. unfold demo_SIGWINCH_main. apply _. Qed.

(** ** The signal attributes around a stop *)

(** A handler of SIGTSTP that stops its process the way a job-control shell
    expects: default disposition, the signal raised and then unblocked, and
    afterwards the mask and the handler put back. *)
Definition stop_events (s r m : resp) : list event :=
  [Called (Signal SIGTSTP SIG_DFL) s; Called (Raise SIGTSTP) r; Called (Sigprocmask SIG_UNBLOCK (Some [SIGTSTP])) m].
Definition resume_events (h : Z) (m k a : resp) : list event :=
  [Called (Sigprocmask SIG_SETMASK (Some (old_mask m))) k; Called (Sigaction SIGTSTP h SA_RESTART []) a].

Definition stop_ok (h : Z) (st : sigstate) (es : list event) : Prop :=
  sig_history st es ->
  s_mask (sig_run st es) = s_mask st
  /\ (forall t, s_disp (sig_run st es) t = if t =? SIGTSTP then Sigact h SA_RESTART [] else s_disp st t)
  /\ exists a s r m b, es = a ++ stop_events s r m ++ b
       /\ let now := sig_run st (a ++ stop_events s r m) in
          (SIGTSTP ∉ s_mask now) /\ sa_handler (s_disp now SIGTSTP) = SIG_DFL.

Lemma stop_ok_intro h st p1 s r m p2 k a p3 :
  Forall no_sig p1 -> Forall no_sig p2 -> Forall no_sig p3 ->
  stop_ok h st (p1 ++ stop_events s r m ++ p2 ++ resume_events h m k a ++ p3).
Proof.
  intros H1 H2 H3 Hh. rewrite !sig_history_app in Hh. destruct Hh as (_ & Hs & _). rewrite (sig_run_none _ p1 H1) in Hs.
  cbn [stop_events sig_history sig_answer sig_after] in Hs. destruct Hs as (_ & _ & [_ Hm] & _).
  assert (Hrun : sig_run st (p1 ++ stop_events s r m) = SigState (s_mask st ∖ {[SIGTSTP]})
    (fun t => if t =? SIGTSTP then Sigact SIG_DFL SA_RESTART [SIGTSTP] else s_disp st t)).
  { rewrite sig_run_app, (sig_run_none _ p1 H1). unfold sig_run. simpl. f_equal. }
  split_and!.
  - rewrite app_assoc, (sig_run_app st (p1 ++ _)), Hrun, !sig_run_app, (sig_run_none _ p2 H2), (sig_run_none _ p3 H3). exact Hm.
  - intros t. rewrite app_assoc, (sig_run_app st (p1 ++ _)), Hrun, !sig_run_app, (sig_run_none _ p2 H2), (sig_run_none _ p3 H3).
    simpl. by destruct (t =? SIGTSTP).
  - exists p1, s, r, m. eexists. split; [reflexivity|]. cbv zeta. rewrite Hrun.
    split; [|done]. simpl. rewrite elem_of_difference, elem_of_singleton. by intros [_ []].
Qed.

Lemma spec_tstpHandler law sig w (Q : outcome unit -> list event -> world -> Prop) :
  (forall c es w', Q (Blocked c) es w') ->
  (forall h es w', died h -> Q (Halt h) es w') ->
  (forall es w', errno w' = errno w -> (forall st, stop_ok TSTP_HANDLER st es) -> Q (Ret tt) es w') ->
  spec law (tstpHandler sig) w Q.
Proof.
  intros HB HD HR. unfold tstpHandler. die_run HB HD. apply HR; [done|]. intros st.
  apply (stop_ok_intro TSTP_HANDLER st [_] r r0 r1 [_] r2 r3 [_]); by repeat constructor.
Qed.

(** ** The attributes of the terminal along a run *)

(** The current attributes of the terminal on standard input, and those its user
    last gave it: the ones at the start, or what another program has set while
    this one was stopped. *)
Record ttystate := TtyState { tty_cur : termios; tty_user : termios }.

Definition is_stop (e : event) : Prop :=
  match e with Called (Sigprocmask how _) _ => how = SIG_UNBLOCK | _ => False end.
Definition no_tty (e : event) : Prop :=
  match e with
  | Called (Tcgetattr _ | Tcsetattr _ _ _) _ => False
  | Called (Sigprocmask how _) _ => how <> SIG_UNBLOCK
  | _ => True
  end.

Inductive tty_event : ttystate -> event -> ttystate -> Prop :=
  | tty_set c u a t r : r_ret r <> -1 -> tty_event (TtyState c u) (Called (Tcsetattr STDIN_FILENO a t) r) (TtyState t u)
  | tty_set_fails s a t r : r_ret r = -1 -> tty_event s (Called (Tcsetattr STDIN_FILENO a t) r) s
  | tty_get s r : r_termios r = tty_cur s \/ r_ret r = -1 -> tty_event s (Called (Tcgetattr STDIN_FILENO) r) s
  | tty_stopped s e t : is_stop e -> tty_event s e (TtyState t t)
  | tty_other s e : no_tty e -> tty_event s e s.

Inductive tty_history : ttystate -> list event -> ttystate -> Prop :=
  | tty_nil s : tty_history s [] s
  | tty_cons s e s1 es s2 : tty_event s e s1 -> tty_history s1 es s2 -> tty_history s (e :: es) s2.

Lemma tty_history_app s es fs s' : tty_history s (es ++ fs) s' <-> exists s1, tty_history s es s1 /\ tty_history s1 fs s'.
Proof.
  revert s. induction es as [|e es IH]; intros s; simpl.
  - split; [intros H; exists s; split; [constructor|done]|by intros (s1 & H & ?); inversion H].
  - split.
    + intros H. inversion H; subst. apply IH in H5 as (s2 & H1 & H2). exists s2. split; [by econstructor|done].
    + intros (s1 & H & H2). inversion H; subst. econstructor; [done|]. apply IH. by exists s1.
Qed.

Lemma tty_history_none s es s' : Forall no_tty es -> tty_history s es s' -> s' = s.
Proof.
  intros Hf H. induction H as [s|s e s1 es s2 He H IH]; [done|]. apply Forall_cons in Hf as [Hn Hf].
  rewrite (IH Hf). destruct He; simpl in *; try done. by destruct e as [[]| |].
Qed.

(** [Tracks es u]: after [es] the variable [u] holds what the user wants;
    [Restored es]: the terminal is in that state; [Clean es]: it was whenever
    the process stopped. *)
Definition Tracks (es : list event) (u : termios) : Prop :=
  forall s0 s, tty_cur s0 = tty_user s0 -> tty_history s0 es s -> tty_user s = u.
Definition Restored (es : list event) : Prop :=
  forall s0 s, tty_cur s0 = tty_user s0 -> tty_history s0 es s -> tty_cur s = tty_user s.
Definition Clean (es : list event) : Prop :=
  forall a e b, es = a ++ e :: b -> is_stop e -> Restored a.

Lemma restored_nil : Restored [].
Proof. intros s0 s Hs H. by inversion H; subst. Qed.
Lemma tracks_none es fs u : Forall no_tty fs -> Tracks es u -> Tracks (es ++ fs) u.
Proof. intros Hf Ht s0 s Hs (s1 & H1 & H2)%tty_history_app. rewrite (tty_history_none _ _ _ Hf H2). by eapply Ht. Qed.
Lemma restored_none es fs : Forall no_tty fs -> Restored es -> Restored (es ++ fs).
Proof. intros Hf Ht s0 s Hs (s1 & H1 & H2)%tty_history_app. rewrite (tty_history_none _ _ _ Hf H2). by eapply Ht. Qed.

Lemma clean_nil : Clean [].
Proof. intros a e b H. by destruct a. Qed.
Lemma clean_app es fs : Clean es -> Forall (fun e => ~ is_stop e) fs -> Clean (es ++ fs).
Proof.
  intros Hc Hf a e b Heq He. apply app_eq_app in Heq as (l & [[-> Hl]|[-> Hl]]).
  - destruct l as [|x l]; simpl in Hl.
    + rewrite Forall_forall in Hf. exfalso. apply (Hf e); [rewrite <- Hl|done]. left.
    + injection Hl as <- ->. by apply (Hc _ e l).
  - exfalso. rewrite Hl in Hf. apply Forall_app in Hf as [_ [Hn _]%Forall_cons]. done.
Qed.
Lemma clean_stop es e : Clean es -> Restored es -> Clean (es ++ [e]).
Proof.
  intros Hc Hr a e' b Heq He. apply app_eq_app in Heq as (l & [[-> Hl]|[-> Hl]]).
  - destruct l as [|x l]; simpl in Hl; [by rewrite app_nil_r in Hr|]. injection Hl as <- ->. by apply (Hc _ e' l).
  - destruct l as [|x l]; [by rewrite app_nil_r|]. destruct l; done.
Qed.

(** Setting the attributes to what the user wants restores them. *)
Lemma restored_set es u a r : r_ret r <> -1 -> Tracks es u -> Restored (es ++ [Called (Tcsetattr STDIN_FILENO a u) r]).
Proof.
  intros Hr Ht s0 s Hs (s1 & H1 & H2)%tty_history_app. specialize (Ht _ _ Hs H1).
  inversion H2 as [|? ? ? ? ? He Hn]; subst. inversion Hn; subst. inversion He; subst; simpl in *; done.
Qed.
Lemma tracks_set es u a t r : Tracks es u -> Tracks (es ++ [Called (Tcsetattr STDIN_FILENO a t) r]) u.
Proof.
  intros Ht s0 s Hs (s1 & H1 & H2)%tty_history_app. specialize (Ht _ _ Hs H1).
  inversion H2 as [|? ? ? ? ? He Hn]; subst. inversion Hn; subst. inversion He; subst; simpl in *; done.
Qed.
(** Reading them in that state. *)
Lemma tracks_get es g : r_ret g <> -1 -> Restored es -> Tracks (es ++ [Called (Tcgetattr STDIN_FILENO) g]) (r_termios g).
Proof.
  intros Hg Ht s0 s Hs (s1 & H1 & H2)%tty_history_app. specialize (Ht _ _ Hs H1).
  inversion H2 as [|? ? ? ? ? He Hn]; subst. inversion Hn; subst. inversion He; subst; simpl in *; try done.
  match goal with H : _ \/ _ |- _ => destruct H; [congruence|done] end.
Qed.
Lemma tracks_read es u g : Tracks es u -> Tracks (es ++ [Called (Tcgetattr STDIN_FILENO) g]) u.
Proof.
  intros Ht s0 s Hs (s1 & H1 & H2)%tty_history_app. specialize (Ht _ _ Hs H1).
  inversion H2 as [|? ? ? ? ? He Hn]; subst. inversion Hn; subst. inversion He; subst; simpl in *; done.
Qed.
Lemma restored_get es g : Restored es -> Restored (es ++ [Called (Tcgetattr STDIN_FILENO) g]).
Proof.
  intros Ht s0 s Hs (s1 & H1 & H2)%tty_history_app. specialize (Ht _ _ Hs H1).
  inversion H2 as [|? ? ? ? ? He Hn]; subst. inversion Hn; subst. inversion He; subst; simpl in *; done.
Qed.
Lemma restored_stop es e : is_stop e -> Restored (es ++ [e]).
Proof.
  intros Hst s0 s Hs (s1 & H1 & H2)%tty_history_app.
  inversion H2 as [|? ? ? ? ? He Hn]; subst. inversion Hn; subst. inversion He; subst; simpl in *; try done.
  by destruct e as [[]| |].
Qed.

Lemma clean_after es p fs : Clean (es ++ p) -> Forall (fun e => ~ is_stop e) fs -> Clean (es ++ p ++ fs).
Proof. rewrite app_assoc. apply clean_app. Qed.
Lemma diag_no_stop es : Forall diag es -> Forall (fun e => ~ is_stop e) es.
Proof. intros H. eapply Forall_impl; [exact H|]. intros [[]| |]; simpl; try tauto. all: by intros ? ->. Qed.
Lemma diag_no_tty es : Forall diag es -> Forall no_tty es.
Proof. intros H. eapply Forall_impl; [exact H|]. by intros [[]| |]. Qed.

(** Close [Clean] of a trace that grew by events that are not stops. *)
Ltac no_stops :=
  repeat lazymatch goal with
  | |- Forall _ [] => exact (List.Forall_nil _)
  | |- Forall _ (_ :: _) => apply List.Forall_cons; [let H := fresh in intros H; first [exact H|discriminate H]|]
  | |- Forall _ (_ ++ _) => apply Forall_app; split
  | |- Forall _ _ => first [assumption | by apply diag_no_stop]
  end.
Ltac clean :=
  cbn [app]; first
    [ assumption
    | solve [apply clean_app; [assumption|no_stops]]
    | solve [eapply clean_after; [eassumption|no_stops]] ].

(** The stop of the handler. *)
Lemma clean_tty_stop es u g t s r m fs :
  Tracks es u -> Clean es -> r_ret t <> -1 -> Forall (fun e => ~ is_stop e) fs ->
  Clean (es ++ [Called (Tcgetattr STDIN_FILENO) g; Called (Tcsetattr STDIN_FILENO TCSAFLUSH u) t;
    Called (Signal SIGTSTP SIG_DFL) s; Called (Raise SIGTSTP) r; Called (Sigprocmask SIG_UNBLOCK (Some [SIGTSTP])) m] ++ fs).
Proof.
  intros Ht Hc Hr Hf. rewrite app_assoc. apply clean_app; [|done].
  set (tt := Called (Tcsetattr STDIN_FILENO TCSAFLUSH u) t). set (ss := Called (Signal SIGTSTP SIG_DFL) s).
  match goal with |- Clean (es ++ [?a; _; _; ?d; ?e]) =>
    replace (es ++ [a; tt; ss; d; e]) with ((((es ++ [a]) ++ [tt]) ++ [ss; d]) ++ [e]) by (by rewrite <- !app_assoc) end.
  apply clean_stop.
  - rewrite <- !app_assoc. apply clean_app; [done|]. cbn [app]. no_stops.
  - apply restored_none; [by repeat constructor|]. apply restored_set; [done|]. by apply tracks_read.
Qed.

(** The program finds the terminal as it left it. *)
Definition tty_same (es : list event) : Prop := forall s s', tty_history s es s' -> tty_cur s' = tty_cur s.
Lemma tty_same_restore g t mid r :
  r_ret g <> -1 -> r_ret r <> -1 ->
  tty_same ([Called (Tcgetattr STDIN_FILENO) g] ++ mid ++ [Called (Tcsetattr STDIN_FILENO t (r_termios g)) r]).
Proof.
  intros Hg Hr s s' (s1 & H1 & (s2 & _ & H2)%tty_history_app)%tty_history_app.
  inversion H1 as [|? ? ? ? ? He Hn]; subst. inversion Hn; subst.
  inversion H2 as [|? ? ? ? ? He' Hn']; subst. inversion Hn'; subst.
  assert (Ht : r_termios g = tty_cur s).
  { inversion He; subst; simpl in *; try done. by match goal with H : _ \/ _ |- _ => destruct H end. }
  inversion He'; subst; simpl in *; done.
Qed.

Lemma spec_tty_tstpHandler law es0 u w (Q : outcome termios -> list event -> world -> Prop) :
  Tracks es0 u -> Clean es0 ->
  (forall c es w', Clean (es0 ++ es) -> Q (Blocked c) es w') ->
  (forall h es w', died h -> Clean (es0 ++ es) -> Q (Halt h) es w') ->
  (forall u' es w', errno w' = errno w -> Tracks (es0 ++ es) u' -> Clean (es0 ++ es) -> tty_same es ->
     (forall st, stop_ok TTY_TSTP_HANDLER st es) -> Q (Ret u') es w') ->
  spec law (tty_tstpHandler u) w Q.
Proof.
  intros Ht Hc HB HD HR. unfold tty_tstpHandler. spec_run; cbn [pass].
  all: try (apply spec_dies; [apply _|intros ? ? ? ?|intros ? ? ? ? ?]); zbool.
  all: try (apply HB; clean). all: try (apply HD; [done|clean]).
  all: try (apply HB; cbn [app]; eapply clean_tty_stop; [eassumption|done|done|no_stops]).
  all: try (apply HD; [done|cbn [app]; eapply clean_tty_stop; [eassumption|done|done|no_stops]]).
  apply HR; [done| | | |].
  - set (l := [Called (Tcgetattr STDIN_FILENO) r; Called (Tcsetattr STDIN_FILENO TCSAFLUSH u) r0;
      Called (Signal SIGTSTP SIG_DFL) r1; Called (Raise SIGTSTP) r2]).
    set (stp := Called (Sigprocmask SIG_UNBLOCK (Some [SIGTSTP])) r3).
    set (mid := [Called (Sigprocmask SIG_SETMASK (Some (old_mask r3))) r4; Called (Sigaction SIGTSTP TTY_TSTP_HANDLER SA_RESTART []) r5]).
    match goal with |- Tracks ?es _ => replace es with ((((((es0 ++ l) ++ [stp]) ++ mid) ++ [Called (Tcgetattr STDIN_FILENO) r6])
      ++ [Called (Tcsetattr STDIN_FILENO TCSAFLUSH (r_termios r)) r7])) by (by rewrite <- !app_assoc) end.
    apply tracks_set, tracks_get; [done|]. apply restored_none; [by repeat constructor|]. by apply restored_stop.
  - cbn [app]. eapply clean_tty_stop; [eassumption|done|done|no_stops].
  - cbn [app]. match goal with |- tty_same [?a; ?b; ?c; ?d; ?e; ?f; ?g; ?h; ?i] =>
      apply (tty_same_restore r TCSAFLUSH [b; c; d; e; f; g; h] r7) end; done.
  - intros st. apply (stop_ok_intro TTY_TSTP_HANDLER st [_; _] r1 r2 r3 [] r4 r5 [_; _]); by repeat constructor.
Qed.


(** ** test_tty_functions *)

(** What the program guarantees of its trace in every outcome. *)
Definition term_post {A} (o : outcome A) (es : list event) : Prop :=
  Clean es /\
  match o with
  | Halt (Exit 0) | Halt (QuickExit 0) => Restored es
  | Halt h => died h
  | Blocked _ => True
  | _ => False
  end.

Lemma term_post_died {A} h es : died h -> Clean es -> term_post (Halt (A:=A) h) es.
Proof. intros Hh Hc. split; [done|]. destruct h as [[]|[]| |]; done. Qed.

(** The trace continues [es0]; [u] is the value of [userTermios]. *)
Section TtyPrograms.
Context (law : call -> resp -> Prop).

Lemma spec_exit_handler es0 u w :
Tracks es0 u -> Clean es0 ->
spec law (exit_handler u) w (fun o es _ => term_post o (es0 ++ es)).
Proof.
intros Ht Hc. unfold exit_handler. spec_run; cbn [pass]; zbool.
- split; [clean|done].
- apply spec_dies; [apply _|..]; [intros; split; [clean|done]|intros; apply term_post_died; [done|clean]].
- split; [clean|]. by apply restored_set.
Qed.

Lemma spec_tty_signals es0 u w (Q : outcome termios -> list event -> world -> Prop) :
Tracks es0 u -> Clean es0 ->
(forall o es w', term_post o (es0 ++ es) -> (forall a, o <> Ret a) -> Q o es w') ->
(forall u' es w', Tracks (es0 ++ es) u' -> Clean (es0 ++ es) -> Q (Ret u') es w') ->
spec law (tty_signals u) w Q.
Proof.
intros Ht Hc HO HR. unfold tty_signals.
apply spec_loop with (I := fun u es _ => Tracks (es0 ++ es) u /\ Clean (es0 ++ es));
[intros; apply _|intros; apply _|by rewrite app_nil_r|].
intros v es w1 [Hv Hcv]. spec_run; cbn [pass]; zbool.
- apply HO; [split; [rewrite app_nil_r|]; done|done].
- apply HR; rewrite app_assoc; [apply tracks_none; by repeat constructor|clean].
- apply spec_tty_tstpHandler with (es0 := es0 ++ es ++ [Called (Lib "signal" [] []) r]).
+ rewrite app_assoc. apply tracks_none; [by repeat constructor|done].
+ rewrite app_assoc. clean.
+ intros c fs w2 Hfs. cbn [pass]. rewrite <- !app_assoc in Hfs. apply HO; [split; [|done]; exact Hfs|done].
+ intros h fs w2 Hh Hfs. cbn [pass]. rewrite <- !app_assoc in Hfs. apply HO; [by apply term_post_died|done].
+ intros u' fs w2 _ Htr Hcl _ _. rewrite <- !app_assoc in Htr, Hcl. spec_run. by rewrite app_nil_r.
- eapply spec_mono; [|apply (spec_exit_handler (es0 ++ es ++ [Called (Lib "signal" [] []) r]) v)].
+ intros [[]|h|c|] fs w2 Hp; rewrite <- !app_assoc in Hp; cbn [pass].
* destruct Hp as [_ []].
* apply HO; [|done]. destruct h as [[]|[]| |]; exact Hp.
* by apply HO.
* destruct Hp as [_ []].
+ rewrite app_assoc. apply tracks_none; [by repeat constructor|done].
+ rewrite app_assoc. clean.
Qed.

(** [restored] of the last step: the attributes are set and the program ends. *)
Lemma spec_tty_echo_loop es0 u w (Q : outcome termios -> list event -> world -> Prop) :
Tracks es0 u -> Clean es0 ->
(forall o es w', term_post o (es0 ++ es) -> (forall a, o <> Ret a) -> Q o es w') ->
(forall u' es w', Tracks (es0 ++ es) u' -> Clean (es0 ++ es) -> Q (Ret u') es w') ->
spec law (tty_echo_loop u) w Q.
Proof.
intros Ht Hc HO HR. unfold tty_echo_loop.
apply spec_loop with (I := fun u es _ => Tracks (es0 ++ es) u /\ Clean (es0 ++ es));
[intros; apply _|intros; apply _|by rewrite app_nil_r|].
intros v es w1 [Hv Hcv]. spec_step. apply (spec_tty_signals (es0 ++ es) v); [done|done|..].
- intros o fs w2 Hp Hn. rewrite <- app_assoc in Hp. destruct o; cbn [pass]; try (by apply HO); [by edestruct Hn|by destruct Hp].
- intros v' fs w2 Hv' Hcl.
assert (Hq : forall gs, Forall no_tty gs -> Forall (fun e => ~ is_stop e) gs ->
Tracks (es0 ++ es ++ fs ++ gs) v' /\ Clean (es0 ++ es ++ fs ++ gs)).
{ intros gs H1 H2. rewrite !app_assoc. split; [by apply tracks_none|by apply clean_app]. }
spec_run; cbn [pass].
+ apply HO; [split; [|done]|done]. apply Hq; [constructor|no_stops].
+ apply spec_errMsg.
* cbn [pass]. apply HO; [split; [|done]|done]. apply Hq; [by repeat constructor|no_stops].
* intros ds w4 _ Hds. spec_run. rewrite app_nil_r.
apply HR; (apply Hq; [constructor; [done|by apply diag_no_tty]|no_stops]).
+ apply HR; (apply Hq; [by repeat constructor|no_stops]).
+ apply HR; (apply Hq; [by repeat constructor|no_stops]).
+ apply Hq; [by repeat constructor|no_stops].
Qed.
End TtyPrograms.

Definition off_tty (e : event) : Prop := no_tty e /\ ~ is_stop e.
Lemma diag_off_tty es : Forall diag es -> Forall off_tty es.
Proof. intros H. apply Forall_and. split; [by apply diag_no_tty|by apply diag_no_stop]. Qed.
Lemma off_no_tty es : Forall off_tty es -> Forall no_tty es.
Proof. by intros [? _]%Forall_and. Qed.
Lemma off_no_stop es : Forall off_tty es -> Forall (fun e => ~ is_stop e) es.
Proof. by intros [_ ?]%Forall_and. Qed.
Lemma clean_none es : Forall (fun e => ~ is_stop e) es -> Clean es.
Proof. intros H. apply (clean_app []); [apply clean_nil|done]. Qed.
Ltac no_stops ::=
  repeat lazymatch goal with
  | |- Forall _ [] => exact (List.Forall_nil _)
  | |- Forall _ (_ :: _) => apply List.Forall_cons; [let H := fresh in intros H; first [exact H|discriminate H]|]
  | |- Forall _ (_ ++ _) => apply Forall_app; split
  | |- Forall _ _ => first [assumption | by apply diag_no_stop | by apply off_no_stop]
  end.
Ltac off_events :=
  repeat lazymatch goal with
  | |- Forall _ [] => exact (List.Forall_nil _)
  | |- Forall _ (_ :: _) => apply List.Forall_cons; [split; [by first [exact I|done]|let H := fresh in intros H; first [exact H|discriminate H]]|]
  | |- Forall _ (_ ++ _) => apply Forall_app; split
  | |- Forall _ _ => first [assumption | by apply diag_off_tty]
  end.

Lemma spec_catch_unless_ignored law sig h w (Q : outcome unit -> list event -> world -> Prop) :
  (forall c es w', Forall off_tty es -> Q (Blocked c) es w') ->
  (forall x es w', died x -> Forall off_tty es -> Q (Halt x) es w') ->
  (forall es w', Forall off_tty es -> Q (Ret tt) es w') ->
  spec law (catch_unless_ignored sig h) w Q.
Proof.
  intros HB HD HR. unfold catch_unless_ignored. spec_run; cbn [pass].
  all: try (apply spec_dies; [apply _|intros ? ? ? ?|intros ? ? ? ? ?]).
  all: first [apply HB|apply HD; [done|]|apply HR]; off_events.
Qed.

(** The rest of the program once the mode is set: the trace so far is [es0]. *)
Lemma spec_tty_rest law es0 u w :
  Tracks es0 u -> Clean es0 ->
  spec law (s ← scall (Sigaction SIGTERM EXIT_HANDLER SA_RESTART []);
            if s =? -1 then errExit "sigaction" else
            _ ← scall (Lib "setbuf" ["stdout"%string] []);
            userTermios ← tty_echo_loop u;
            t ← scall (Tcsetattr STDIN_FILENO TCSAFLUSH userTermios);
            if t =? -1 then errExit "tcsetattr" else exit EXIT_SUCCESS) w
    (fun o es _ => term_post (A:=Z) o (es0 ++ es)).
Proof.
  intros Ht Hc. spec_step; spec_step; cbn [pass]; [split; [clean|done]|]. spec_step.
  { apply spec_dies; [apply _|intros; split; [clean|done]|intros; apply term_post_died; [done|clean]]. }
  spec_step; spec_step; cbn [pass]; [split; [clean|done]|]. spec_step.
  set (pre := [Called (Sigaction SIGTERM EXIT_HANDLER SA_RESTART []) r; Called (Lib "setbuf" ["stdout"%string] []) r0]).
  apply (spec_tty_echo_loop law (es0 ++ pre)).
  - apply tracks_none; [by repeat constructor|done].
  - unfold pre. clean.
  - intros o es w2 Hp Hn. rewrite <- app_assoc in Hp. destruct o; cbn [pass]; [by edestruct Hn|exact Hp..|by destruct Hp].
  - intros u' es w2 Hu Hcl. rewrite <- app_assoc in Hu, Hcl.
    assert (Hcl' : forall fs, Forall (fun e => ~ is_stop e) fs -> Clean (es0 ++ pre ++ es ++ fs)).
    { intros fs Hfs. rewrite (app_assoc pre), app_assoc. apply clean_app; [|done]. by rewrite <- ?app_assoc. }
    spec_run; cbn [pass]; zbool.
    + split; [|done]. apply Hcl'. no_stops.
    + apply spec_dies; [apply _|intros; split; [|done]|intros; apply term_post_died; [done|]]; apply Hcl'; cbn [app]; no_stops.
    + split; [apply Hcl'; cbn [app]; no_stops|]. 
      pose proof (restored_set (es0 ++ pre ++ es) u' TCSAFLUSH r1 Heqb0 Hu) as Hres.
      rewrite <- !app_assoc in Hres. exact Hres.
Qed.

(** After [ttySetCbreak] or [ttySetRaw]. *)
Lemma tracks_setup g t s fs :
  r_ret g <> -1 -> Forall no_tty fs ->
  Tracks ([Called (Tcgetattr STDIN_FILENO) g; Called (Tcsetattr STDIN_FILENO TCSAFLUSH t) s] ++ fs) (r_termios g).
Proof.
  intros Hg Hf. apply tracks_none; [done|]. apply (tracks_set [_]), (tracks_get []); [done|]. apply restored_nil.
Qed.

Lemma test_tty_restores law argv w :
  spec law (test_tty_functions_main argv) w (fun o es _ => term_post o es).
Proof.
  assert (HB : forall c es, Forall (fun e => ~ is_stop e) es -> term_post (Blocked (A:=Z) c) es)
    by (intros; split; [by apply clean_none|done]).
  assert (HD : forall h es, died h -> Forall (fun e => ~ is_stop e) es -> term_post (Halt (A:=Z) h) es)
    by (intros; apply term_post_died; [done|by apply clean_none]).
  unfold test_tty_functions_main. spec_step. destruct (argc_of argv >? 1).
  - unfold ttySetCbreak. spec_run; cbn [pass].
    all: try (apply HB; cbn [app]; no_stops); try done.
    all: try (apply spec_dies; [apply _|intros; apply HB; cbn [app]; no_stops|intros; apply HD; [done|cbn [app]; no_stops]]).
    zbool.
    do 3 (apply spec_catch_unless_ignored; cbn [pass];
      [intros; apply HB; cbn [app]; no_stops|intros; apply HD; [done|cbn [app]; no_stops]|intros ?es ?w ?Hes; spec_step]).
    cbn [default]. set (tr := es ++ es0 ++ es1).
    eapply spec_mono; [|apply (spec_tty_rest law ([Called (Tcgetattr STDIN_FILENO) r;
      Called (Tcsetattr STDIN_FILENO TCSAFLUSH (cbreak_termios (r_termios r))) r0] ++ tr) (r_termios r))].
    + cbn beta. intros o fs w5. unfold tr. by rewrite ?app_nil_r, <- !app_assoc.
    + apply tracks_setup; [done|]. apply off_no_tty. unfold tr. off_events.
    + apply clean_none. unfold tr. cbn [app]. no_stops.
  - unfold ttySetRaw. spec_step. spec_step; spec_step; cbn [pass]; [apply HB; cbn [app]; no_stops|]. spec_step.
    { spec_run. apply spec_dies; [apply _|intros; apply HB; cbn [app]; no_stops|intros; apply HD; [done|cbn [app]; no_stops]]. }
    spec_step; spec_step; cbn [pass]; [apply HB; cbn [app]; no_stops|]. spec_step.
    { spec_run. apply spec_dies; [apply _|intros; apply HB; cbn [app]; no_stops|intros; apply HD; [done|cbn [app]; no_stops]]. }
    spec_step. spec_step. spec_step. zbool. cbn [default].
    eapply spec_mono; [|apply (spec_tty_rest law ([Called (Tcgetattr STDIN_FILENO) r;
      Called (Tcsetattr STDIN_FILENO TCSAFLUSH (raw_termios (r_termios r))) r0] ++ []) (r_termios r))].
    + cbn beta. intros o fs w5. by rewrite ?app_nil_r, <- ?app_assoc.
    + apply tracks_setup; [done|constructor].
    + apply clean_none. cbn [app]. no_stops.
Qed.

Lemma no_echo_restores law argv w : spec law (no_echo_main argv) w (fun o es _ => term_post o es).
Proof.
  assert (HB : forall c es, Forall (fun e => ~ is_stop e) es -> term_post (Blocked (A:=Z) c) es)
    by (intros; split; [by apply clean_none|done]).
  assert (HD : forall h es, died h -> Forall (fun e => ~ is_stop e) es -> term_post (Halt (A:=Z) h) es)
    by (intros; apply term_post_died; [done|by apply clean_none]).
  assert (HX : forall g s save t mid r, r_ret g <> -1 -> r_ret r <> -1 -> save = r_termios g -> Forall off_tty mid ->
    term_post (Halt (A:=Z) (Exit EXIT_SUCCESS)) ((([Called (Tcgetattr STDIN_FILENO) g;
      Called (Tcsetattr STDIN_FILENO TCSAFLUSH t) s] ++ mid) ++ [Called (Tcsetattr STDIN_FILENO TCSANOW save) r]))).
  { intros g s save t mid r Hg Hr -> Hm. split; [apply clean_none; rewrite <- app_assoc; cbn [app]; no_stops|].
    apply restored_set; [done|]. apply tracks_setup; [done|by apply off_no_tty]. }
  unfold no_echo_main. spec_run; cbn [pass].
  all: try (apply HB; cbn [app]; no_stops).
  all: try (apply spec_dies; [apply _|intros; apply HB; cbn [app]; no_stops|intros; apply HD; [done|cbn [app]; no_stops]]).
  all: zbool; match goal with |- context [Called (Fgets ?a ?b) ?x] =>
    match goal with |- context [Called (Tcsetattr _ TCSANOW _) ?y] =>
      lazymatch goal with |- context [Printed Stdout (nl +:+ ?s)] =>
        apply (HX r r0 (r_termios r) _ [Printed Stdout "Enter text: "; Flushed Stdout; Called (Fgets a b) x; Printed Stdout (nl +:+ s)] y)
      | _ => apply (HX r r0 (r_termios r) _ [Printed Stdout "Enter text: "; Flushed Stdout; Called (Fgets a b) x;
                Printed Stdout ("Got end-of-file/error on fgets()" +:+ nl)] y) end end end; try done; off_events.
Qed.

(** The two handlers of SIGTSTP.  When such a handler returns, [errno], the
    signal mask and every disposition are as they were on entry, SIGTSTP having the
    handler again; in between there was a moment at which SIGTSTP, raised once
    more, was unblocked with its default action, so that the process did stop.
    That of [test_tty_functions] also leaves the terminal in the mode it found. *)
Theorem tstp_handlers_correct law sig u w :
  spec law (tstpHandler sig) w (fun o es w' =>
    match o with
    | Ret _ => errno w' = errno w /\ forall st, stop_ok TSTP_HANDLER st es
    | Halt h => died h
    | Blocked _ => True
    | _ => False
    end)
  /\ spec law (tty_tstpHandler u) w (fun o es w' =>
    match o with
    | Ret _ => errno w' = errno w /\ tty_same es /\ forall st, stop_ok TTY_TSTP_HANDLER st es
    | Halt h => died h
    | Blocked _ => True
    | _ => False
    end).
Proof.
  split; [by apply spec_tstpHandler|].
  match goal with |- spec _ _ _ ?P => set (Q := P) end.
  assert (HB : forall c es w', Q (Blocked c) es w') by done.
  assert (HD : forall h es w', died h -> Q (Halt h) es w') by done.
  unfold tty_tstpHandler. die_run HB HD. zbool. split_and!; [done| |].
  - cbn [app]. match goal with |- tty_same [?a; ?b; ?c; ?d; ?e; ?f; ?g; ?h; ?i] =>
      apply (tty_same_restore r TCSAFLUSH [b; c; d; e; f; g; h] r7) end; done.
  - intros st. apply (stop_ok_intro TTY_TSTP_HANDLER st [_; _] r1 r2 r3 [] r4 r5 [_; _]); by repeat constructor.
Qed.

