(* ===== verification/Script.v ===== *)
(** * Script: recording a terminal session (64-pty/script.c)

    The program runs a shell on a pseudoterminal and relays between the terminal
    and the pseudoterminal's master, recording the shell's output. *)

From S2P Require Import Prelude Clib Sys Errors Frame RdWr Posix Sigs Terminal Polling Stops.

Definition SCRIPT_BUF_SIZE : Z := 256.

Definition ttyReset (ttyOrig : termios) : M unit :=
  t ← scall (Tcsetattr STDIN_FILENO TCSANOW ttyOrig);
  when (t =? -1) (errExit "tcsetattr").

(** stdin to the pseudoterminal, and the pseudoterminal to stdout and the file. *)
Definition relay_in (masterFd : Z) : M unit :=
  r ← sys (Read STDIN_FILENO SCRIPT_BUF_SIZE);
  let numRead := r_ret r in
  if numRead <=? 0 then exit EXIT_SUCCESS else
  k ← scall (Write masterFd (ztake numRead (r_buf r)));
  when (negb (k =? numRead)) (fatal "partial/failed write (masterFd)").

Definition relay_out (masterFd scriptFd : Z) : M unit :=
  r ← sys (Read masterFd SCRIPT_BUF_SIZE);
  let numRead := r_ret r in
  if numRead <=? 0 then exit EXIT_SUCCESS else
  k ← scall (Write STDOUT_FILENO (ztake numRead (r_buf r)));
  if negb (k =? numRead) then fatal "partial/failed write (STDOUT_FILENO)" else
  k ← scall (Write scriptFd (ztake numRead (r_buf r)));
  when (negb (k =? numRead)) (fatal "partial/faield write (scriptFd)").

Definition relay_round (masterFd scriptFd : Z) : M unit :=
  let inFds := FD_SET masterFd (FD_SET STDIN_FILENO []) in
  r ← sys (Select (wrap_s32 (masterFd + 1)) inFds [] None);
  if r_ret r =? -1 then errExit "select" else
  let inFds := r_rdset r in
  _ ← when (FD_ISSET STDIN_FILENO inFds) (relay_in masterFd);
  when (FD_ISSET masterFd inFds) (relay_out masterFd scriptFd).

(** The shell to run: [s] is the answer of [getenv]. *)
Definition shell_of (s : resp) : string :=
  if (r_ret s =? 0) || ceqb (schar 0 (r_buf s)) nul then "/bin/sh" else cstr (r_buf s).

Definition script_child : M unit :=
  s ← sys (Getenv "SHELL");
  let shell := shell_of s in
  p ← scall Getpid;
  _ ← printf ("[" +:+ dec p +:+ "] Child starting exec..." +:+ nl);
  _ ← exec (Execp shell [shell]);
  errExit "execlp".

Definition script_main (argv : list string) : M Z :=
  _ ← scall (Lib "setbuf" ["stdout"%string] []);
  g ← sys (Tcgetattr STDIN_FILENO);
  if r_ret g =? -1 then errExit "tcgetattr" else
  let ttyOrig := r_termios g in
  i ← sys (Ioctl STDIN_FILENO TIOCGWINSZ []);
  if r_ret i <? 0 then errExit "ioctl-TIOCGWINSZ" else
  '(childPid, mfd, _) ← ptyFork true MAX_SNAME (Some ttyOrig) (Some (r_vals i));
  if childPid =? -1 then errExit "ptyFork" else
  _ ← when (childPid =? 0) script_child;
  let masterFd := default 0 mfd in
  scriptFd ← scall (Open (if argc_of argv >? 1 then cstr (argv_at argv 1) else "typescript")
                (O_WRONLY .| O_CREAT .| O_TRUNC)
                (S_IRUSR .| S_IWUSR .| S_IRGRP .| S_IWGRP .| S_IROTH .| S_IWOTH));
  if scriptFd =? -1 then errExit "open typescript" else
  '(_, orig) ← ttySetRaw STDIN_FILENO true;
  let ttyOrig := default ttyOrig orig in
  a ← scall (Lib "atexit" ["ttyReset"%string] []);
  if negb (a =? 0) then errExit "atexit" else
  with_atexit (ttyReset ttyOrig) (
    p ← scall Getpid;
    _ ← printf ("[" +:+ dec p +:+ "] Parent starting loop..." +:+ nl);
    forever (relay_round masterFd scriptFd)).

#[export] Instance ttyReset_sane t : Sane (ttyReset t).
Proof. unfold ttyReset. apply _. Qed.
#[export] Instance relay_in_sane m : Sane (relay_in m).
Proof. unfold relay_in. apply _. Qed.
#[export] Instance relay_out_sane m s : Sane (relay_out m s).
Proof. unfold relay_out. apply _. Qed.
#[export] Instance relay_round_sane m s : Sane (relay_round m s).
Proof. unfold relay_round. apply _. Qed.
#[export] Instance relay_round_uses m s : Uses (relay_round m s).
Proof. unfold relay_round. apply _. Qed.
#[export] Instance script_child_sane : Sane script_child.
Proof. unfold script_child. apply _. Qed.
#[export] Instance script_main_sane a : Sane (script_main a).
Proof. unfold script_main. apply _. Qed.

(** ** The relay *)

(** Everything read on one side has been written on the other; the descriptors
    are different ones. *)
Definition apart (m s : Z) : Prop := 2 < m /\ 2 < s /\ m <> s.
Definition Relayed (m s : Z) (es : list event) : Prop :=
  sent m es = delivered STDIN_FILENO es /\ sent STDOUT_FILENO es = delivered m es /\ sent s es = delivered m es.
Definition relay_event (e : event) : Prop :=
  match e with Called (Read _ _ | Write _ _) _ => False | _ => True end.

Lemma relayed_app m s es fs : Relayed m s es -> Relayed m s fs -> Relayed m s (es ++ fs).
Proof. intros (A1 & A2 & A3) (B1 & B2 & B3). unfold Relayed. rewrite !sent_app, !delivered_app. by rewrite A1, A2, A3, B1, B2, B3. Qed.
Lemma relayed_other m s es : Forall relay_event es -> Relayed m s es.
Proof.
  intros H. induction H as [|[[]| |] es He _ IH]; try done.
Qed.
Lemma relayed_eof m s fd n r : r_ret r <= 0 -> Relayed m s [Called (Read fd n) r].
Proof. intros H. unfold Relayed. simpl. repeat case_match; by rewrite ?ztake_neg by done. Qed.
Ltac eqb_cases :=
  repeat match goal with |- context [?a =? ?b] => destruct (Z.eqb_spec a b); [try lia|try (exfalso; lia)] end.
Lemma relayed_in m s n r k :
  apart m s -> r_ret k = r_ret r -> slen (r_buf r) = r_ret r ->
  Relayed m s [Called (Read STDIN_FILENO n) r; Called (Write m (ztake (r_ret r) (r_buf r))) k].
Proof.
  intros (H1 & H2 & H3) Hk Hr. unfold Relayed, STDIN_FILENO, STDOUT_FILENO. cbn [sent delivered].
  rewrite Hk, !(ztake_all (r_ret r) (r_buf r)) by lia.
  eqb_cases; by rewrite ?sapp_nil_r.
Qed.
Lemma relayed_out m s n r k k' :
  apart m s -> r_ret k = r_ret r -> r_ret k' = r_ret r -> slen (r_buf r) = r_ret r ->
  Relayed m s [Called (Read m n) r; Called (Write STDOUT_FILENO (ztake (r_ret r) (r_buf r))) k;
               Called (Write s (ztake (r_ret r) (r_buf r))) k'].
Proof.
  intros (H1 & H2 & H3) Hk Hk' Hr. unfold Relayed, STDIN_FILENO, STDOUT_FILENO. cbn [sent delivered].
  rewrite Hk, Hk', !(ztake_all (r_ret r) (r_buf r)) by lia.
  eqb_cases; by rewrite ?sapp_nil_r.
Qed.

(** The last event is end of input, or an error, on one of the two sides. *)
Definition input_ended (m : Z) (es : list event) : Prop :=
  exists es0 fd n r, es = es0 ++ [Called (Read fd n) r] /\ (fd = STDIN_FILENO \/ fd = m) /\ r_ret r <= 0.
Lemma input_ended_app m es fs : input_ended m fs -> input_ended m (es ++ fs).
Proof. intros (es0 & fd & n & r & -> & ?). exists (es ++ es0), fd, n, r. by rewrite app_assoc. Qed.

Definition relay_post (m s : Z) {A} (ends : Prop) (o : outcome A) (es : list event) : Prop :=
  Forall off_tty es /\
  match o with
  | Ret _ => ends /\ (apart m s -> Relayed m s es)
  | Blocked (Select _ _ _ _) => apart m s -> Relayed m s es
  | Halt (Exit 0) => input_ended m es /\ (apart m s -> Relayed m s es)
  | Halt h => died h
  | Blocked _ => True
  | Diverged => False
  end.

Lemma relay_post_died {A} m s E h es : died h -> Forall off_tty es -> relay_post m s E (Halt (A:=A) h) es.
Proof. intros Hh Hes. split; [done|]. destruct h as [[]|[]| |]; done. Qed.

(** What a part of the relay did comes after [es]. *)
Lemma relay_post_app {A} m s E (o : outcome A) es fs :
  Forall off_tty es -> (apart m s -> Relayed m s es) ->
  relay_post m s E o fs -> relay_post m s E o (es ++ fs).
Proof.
  intros He Hr [Hf Ho]. split; [by apply Forall_app|].
  assert (Ha : (apart m s -> Relayed m s fs) -> apart m s -> Relayed m s (es ++ fs))
    by (intros H1 H2; by apply relayed_app; auto).
  destruct o as [a|[[]|[]| |]|[]|]; simpl in *; try done; try (by apply Ha).
  - destruct Ho as [Ho1 Ho2]. split; [done|by apply Ha].
  - destruct Ho as [Ho1 Ho2]. split; [by apply input_ended_app|by apply Ha].
Qed.
Lemma relay_post_pass {A B} m s E F (o : outcome A) es :
  (forall a, o <> Ret a) -> relay_post m s E o es -> relay_post m s F (pass (B:=B) o) es.
Proof. intros Hn [Hf Ho]. split; [done|]. destruct o; try done. by edestruct Hn. Qed.

Ltac relay_step :=
  first [ apply spec_dies_in; [apply _|intros c ?es ?w ?Hc ?Hd; cbn [pass app]; split; [off_events|by destruct c]
                              |intros ?h ?es ?w ?Hh ?Hd; cbn [pass app]; apply relay_post_died; [done|off_events]]
        | spec_step ].

Section RelaySpecs.
Context (m s : Z).

Lemma spec_relay_in w : spec posix_io (relay_in m) w (fun o es _ => relay_post m s True o es).
Proof.
unfold relay_in. repeat relay_step; cbn [pass app]; zbool.
- split; [off_events|done].
- split; [off_events|]. split; [exists [], STDIN_FILENO, SCRIPT_BUF_SIZE, r; by auto|]. intros _. by apply relayed_eof.
- split; [off_events|done].
- split; [off_events|]. split; [done|]. intros Ha. apply relayed_in; [done|done|].
destruct Hlaw as [[? _]|(? & ? & _)]; lia.
Qed.

Lemma spec_relay_out w : spec posix_io (relay_out m s) w (fun o es _ => relay_post m s True o es).
Proof.
unfold relay_out. repeat relay_step; cbn [pass app]; zbool.
all: try (split; [off_events|done]).
- split; [off_events|]. split; [exists [], m, SCRIPT_BUF_SIZE, r; by auto|]. intros _. by apply relayed_eof.
- split; [off_events|]. split; [done|]. intros Ha. apply relayed_out; try done.
destruct Hlaw as [[? _]|(? & ? & _)]; lia.
Qed.

(** A part of the relay after the events [pre]. *)
Lemma spec_relay_part {A B} (F : Prop) pre (p : M A) w (Q : outcome A -> list event -> world -> Prop) :
Forall off_tty pre -> (apart m s -> Relayed m s pre) ->
spec posix_io p w (fun o es _ => relay_post m s True o es) ->
(forall (o : outcome A) es w', relay_post m s F (pass (B:=B) o) (pre ++ es) -> (forall a, o <> Ret a) -> Q o es w') ->
(forall a es w', relay_post m s True (Ret a) (pre ++ es) -> Q (Ret a) es w') ->
spec posix_io p w Q.
Proof.
intros Hp Hr Hs HO HR. eapply spec_mono; [|exact Hs]. cbn beta. intros o es w' Ho.
apply (relay_post_app _ _ _ _ pre) in Ho; [|done|done].
destruct o as [a|h|c|]; [by apply HR|..|by destruct Ho]; (apply HO; [|done]; by eapply relay_post_pass).
Qed.

Lemma spec_relay_round w : spec posix_io (relay_round m s) w (fun o es _ => relay_post m s True o es).
Proof.
unfold relay_round. repeat relay_step; cbn [pass app]; zbool.
1: split; [off_events|]; intros _; by apply relayed_other.
all: match goal with |- context [Called (Select ?a ?b ?c ?d) ?x] => set (e := Called (Select a b c d) x) end.
all: assert (H1 : Forall off_tty [e]) by off_events.
all: assert (H2 : apart m s -> Relayed m s [e]) by (intros _; by apply relayed_other; repeat constructor).
- apply (spec_relay_part (B:=unit) True [e]); [done|done|apply spec_relay_in|..].
+ intros o es w1 Ho Hn. destruct o; [by edestruct Hn|exact Ho..].
+ intros [] es w1 Ho. cbn [app] in *. destruct (FD_ISSET m (r_rdset r)); [|spec_step; by rewrite app_nil_r].
eapply spec_mono; [|apply spec_relay_out]. cbn beta. intros o es1 w2 Ho'.
apply (relay_post_app _ _ _ _ (e :: es)); [apply Ho|apply Ho|done].
- eapply spec_mono; [|apply spec_relay_out]. cbn beta. intros o es w1 Ho. by apply (relay_post_app _ _ _ _ [e]).
- by split.
Qed.

(** The loop never returns. *)
Lemma spec_script_loop w :
spec posix_io (forever (A:=Z) (relay_round m s)) w (fun o es _ => relay_post m s False o es).
Proof.
unfold forever. apply spec_loop with (I := fun _ es _ => relay_post m s True (Ret tt) es);
[intros; apply _|intros; apply _|by repeat split|].
intros [] es w1 [Hes Hrel]. spec_step. apply (spec_relay_part (B:=Z) False es).
- done.
- apply Hrel.
- apply spec_relay_round.
- intros o fs w2 Ho Hn. destruct o; [by edestruct Hn|exact Ho|exact Ho|by destruct Ho].
- intros [] fs w2 Ho. spec_step. by rewrite app_nil_r.
Qed.
End RelaySpecs.

(** ** The session *)

(** [ttyReset] has been registered; it could not do its work. *)
Definition registered (es : list event) : Prop := exists r, Called (Lib "atexit" ["ttyReset"%string] []) r ∈ es /\ r_ret r = 0.
Definition reset_failed (es : list event) : Prop :=
  exists u t, Called (Tcsetattr STDIN_FILENO TCSANOW u) t ∈ es /\ r_ret t = -1.

Definition no_atexit (e : event) : Prop := match e with Called (Lib f _ _) r => f = "atexit"%string -> r_ret r <> 0 | _ => True end.
Lemma not_registered es : Forall no_atexit es -> ~ registered es.
Proof. intros H (r & Hin & Hr). rewrite Forall_forall in H. by apply (H _ Hin). Qed.
Lemma no_atexit_calls es :
  Forall (fun c => match c with Lib _ _ _ => False | _ => True end) (calls es) -> Forall no_atexit es.
Proof.
  induction es as [|[c r|st x|st] es IH]; intros H; [constructor|simpl in H..].
  - apply Forall_cons in H as [Hc H]. constructor; [by destruct c|auto].
  - constructor; [done|auto].
  - constructor; [done|auto].
Qed.

(** Events that neither touch the terminal nor register anything. *)
Definition quiet (e : event) : Prop := off_tty e /\ no_atexit e.
Lemma diag_quiet es : Forall diag es -> Forall quiet es.
Proof. intros H. apply Forall_and. split; [by apply diag_off_tty|]. eapply Forall_impl; [exact H|]. by intros [[]| |]. Qed.
Ltac quiet_event := split; [split; [exact I|intros []]|first [exact I|intros [=]]].
Ltac quiet_events :=
  repeat lazymatch goal with
  | |- Forall _ [] => exact (List.Forall_nil _)
  | |- Forall quiet (_ :: _) => apply List.Forall_cons; [quiet_event|]
  | |- Forall _ (_ ++ _) => apply Forall_app; split
  | |- Forall _ _ => first [assumption | by apply diag_quiet]
  end.

#[local] Hint Extern 7 (Emits quiet (sys _)) => (apply emits_sys_pred; intros ?; quiet_event) : typeclass_instances.
#[local] Hint Extern 7 (Emits quiet (scall _)) => (apply emits_scall_pred; intros ?; quiet_event) : typeclass_instances.
#[export] Instance ptyMasterOpen_quiet n : Emits quiet (ptyMasterOpen n).
Proof. unfold ptyMasterOpen, close_keep_errno. apply _. Qed.

(** [ptyFork] for a program that then uses the terminal. *)
Lemma spec_ptyFork law n tio ws w (Q : outcome (Z * option Z * option string) -> list event -> world -> Prop) :
  (forall c es w', Q (Blocked c) es w') ->
  (forall h es w', h = QuickExit EXIT_FAILURE \/ h = Abort -> Q (Halt h) es w') ->
  (forall nm es w', Forall quiet es -> Q (Ret (-1, None, nm)) es w') ->
  (forall pid mfd nm es w', pid <> -1 -> pid <> 0 -> Forall quiet es -> held es = [mfd] -> Q (Ret (pid, Some mfd, nm)) es w') ->
  (forall mfd slave sn nm es0 es1 w', Forall quiet es0 -> calls es1 = child_calls mfd sn tio ws slave ->
     Q (Ret (0, None, nm)) (es0 ++ es1) w') ->
  spec law (ptyFork true n tio ws) w Q.
Proof.
  intros HB HH HF HP HC. unfold ptyFork. spec_step. apply (spec_with_emits law quiet (ptyMasterOpen MAX_SNAME)).
  apply spec_ptyMasterOpen; [intros; apply HB|..].
  { intros es w' _ _ Hoff. spec_run. apply HF. by rewrite app_nil_r. }
  intros mfd name es w' Hm Hes Hlen Hoff. cbn beta iota match.
  replace (mfd =? -1) with false by (symmetry; by apply Z.eqb_neq). cbn [default id andb].
  destruct (negb (strlen (cstr name) <? n)).
  { spec_run; [apply HB|]. apply HF. quiet_events. }
  spec_step; spec_step; [apply HB|]. destruct (r_ret r =? -1) eqn:Ef; zbool.
  { spec_step. apply spec_close_keep_errno; [apply HB|]. intros k w1 _. spec_run. apply HF. quiet_events. }
  destruct (negb (r_ret r =? 0)) eqn:Ep; zbool.
  { spec_run. apply HP; [done|done|quiet_events|]. by rewrite app_nil_r, held_app, Hes. }
  spec_step. apply spec_ptyFork_child; [intros; apply HB|intros; by apply HH|].
  intros slave es1 w1 Hsl Hcalls Hheld. spec_run. rewrite app_nil_r, (app_assoc es [_] es1).
  apply (HC mfd slave (cstr name)); [quiet_events|done].
Qed.

(** The relay [mid] between the master [m] and the file [s], after a set-up that opened just these. *)
Definition session {A} (o : outcome A) (es mid : list event) : Prop :=
  exists m s es0, es = es0 ++ mid /\ held es0 = [m; s] /\ registered es0 /\ relay_post m s False o mid.

Definition script_post (o : outcome Z) (es : list event) (_ : world) : Prop :=
  match o with
  | Halt (Exit 0) => exists es1 mid u t,
      es = es1 ++ [Called (Tcsetattr STDIN_FILENO TCSANOW u) t] /\ session o es1 mid /\ Restored es
  | Halt (Exit n) => n = EXIT_FAILURE /\ (registered es -> Restored es \/ reset_failed es)
  | Halt (Replaced c) => exists g i es0 m slave sn es1 s p x,
      es = es0 ++ es1 ++ [Called (Getenv "SHELL") s; Called Getpid p;
             Printed Stdout ("[" +:+ dec (r_ret p) +:+ "] Child starting exec..." +:+ nl); Called c x]
      /\ Called (Tcgetattr STDIN_FILENO) g ∈ es0 /\ Called (Ioctl STDIN_FILENO TIOCGWINSZ []) i ∈ es0
      /\ calls es1 = child_calls m sn (Some (r_termios g)) (Some (r_vals i)) slave
      /\ c = Execp (shell_of s) [shell_of s] /\ shell_of s <> EmptyString
  | Blocked (Select _ _ _ _) => exists mid, session o es mid
  | Halt h => died h
  | Blocked _ => True
  | _ => False
  end.

Lemma script_died h es w : died h -> Forall no_atexit es -> script_post (Halt h) es w.
Proof. intros Hh Hes. destruct h as [[]|[]| |]; try done. split; [done|]. intros Hr. by apply not_registered in Hr. Qed.
Lemma script_blocked c es w : match c with Select _ _ _ _ => False | _ => True end -> script_post (Blocked c) es w.
Proof. by destruct c. Qed.

(** After the registration: the trace so far is [es0]. *)
Lemma spec_session m s u es0 w :
  held es0 = [m; s] -> registered es0 -> Tracks es0 u ->
  spec posix_io (with_atexit (ttyReset u) (
    p ← scall Getpid;
    _ ← printf ("[" +:+ dec p +:+ "] Parent starting loop..." +:+ nl);
    forever (relay_round m s))) w (fun o es w' => script_post o (es0 ++ es) w').
Proof.
  intros Hh Hr Ht. apply spec_with_atexit; [apply _|apply _|]. do 2 spec_step; [by apply script_blocked|]. do 4 spec_step.
  eapply spec_mono; [|apply spec_script_loop]. cbn beta. intros o mid w2 Ho. cbn [app].
  set (p := [Called Getpid r; Printed Stdout ("[" +:+ dec (r_ret r) +:+ "] Parent starting loop..." +:+ nl)]).
  change (_ :: _ :: mid) with (p ++ mid).
  assert (Hoff : Forall off_tty (p ++ mid)) by (apply Forall_app; split; [unfold p; off_events|apply Ho]).
  assert (Hses : forall o, relay_post m s False o mid -> session (A:=Z) o (es0 ++ p ++ mid) mid).
  { intros o' Ho'. exists m, s, (es0 ++ p). rewrite <- app_assoc. split_and!; [done| | |done].
    - rewrite held_app, Hh. unfold p. done.
    - destruct Hr as (x & Hx & ?). exists x. split; [|done]. apply elem_of_app. by left. }
  destruct o as [a|[n|n| |c]|c|]; [by destruct Ho as [_ [[] _]]| | | |by destruct Ho| |by destruct Ho].
  2: by destruct Ho as [_ Ho]. 2: done.
  2: { destruct c; try done. exists mid. by apply Hses. }
  assert (Hres : forall t, r_ret t <> -1 -> Restored (es0 ++ p ++ mid ++ [Called (Tcsetattr STDIN_FILENO TCSANOW u) t])).
  { intros t Hrt. rewrite (app_assoc p), app_assoc. apply restored_set; [done|]. apply tracks_none; [by apply off_no_tty|done]. }
  unfold ttyReset. spec_run; cbn [pass]; [by apply script_blocked| |].
  - apply spec_dies_in; [apply _|intros c es w4 Hc _; apply script_blocked; by destruct c|].
    intros h es w4 Hh' _. cbn [pass]. destruct h as [k|k| |c]; try done. simpl in Hh'. subst k. split; [done|].
    intros _. right. exists u, r0. zbool. split; [|done]. apply elem_of_app. right. do 2 right.
    apply elem_of_app. right. apply elem_of_app. left. by left.
  - zbool. specialize (Hres r0 Heqb). destruct (decide (n = 0)) as [->|Hn].
    + exists (es0 ++ p ++ mid), mid, u, r0. split_and!; [by rewrite app_nil_r, <- !app_assoc|by apply Hses|].
      rewrite app_nil_r. exact Hres.
    + destruct Ho as [_ Ho]. assert (n = 1) as -> by (by destruct n). split; [done|]. intros _. left.
      rewrite app_nil_r. exact Hres.
Qed.

Lemma quiet_off es : Forall quiet es -> Forall off_tty es.
Proof. by intros [? _]%Forall_and. Qed.
Lemma quiet_no_atexit es : Forall quiet es -> Forall no_atexit es.
Proof. by intros [_ ?]%Forall_and. Qed.

Ltac no_atexits :=
  cbn [app]; repeat lazymatch goal with
  | |- Forall _ [] => exact (List.Forall_nil _)
  | |- Forall _ (_ :: _) => apply List.Forall_cons; [first [exact I|intros [=]; zbool; done]|]
  | |- Forall _ (_ ++ _) => apply Forall_app; split
  | |- Forall _ _ => first [assumption | apply quiet_no_atexit; first [assumption|by apply diag_quiet]]
  end.
Ltac script_step :=
  first [ apply spec_dies_in; [apply _|intros c ?es ?w ?Hc ?Hd; apply script_blocked; by destruct c
            |intros ?h ?es ?w ?Hh ?Hd; cbn [pass]; apply script_died; [done|]; no_atexits]
        | spec_step ].

(** What is known of the call a computation waits in comes on top of a specification. *)
Lemma spec_with_waits law W {A} (m : M A) `{Hw : !Waits W m} w (Q : outcome A -> list event -> world -> Prop) :
  spec law m w (fun o es w' => match o with Blocked c => W c -> Q o es w' | _ => Q o es w' end) -> spec law m w Q.
Proof.
  intros H. unfold spec in *. pose proof (Hw w) as Hc. destruct (m w) as [o w']. intros es Hl Hes.
  specialize (H es Hl Hes). destruct o; try done. apply H. by apply Hc.
Qed.

Definition not_select (c : call) : Prop := match c with Select _ _ _ _ => False | _ => True end.
#[export] Instance ptyFork_waits b n t ws : Waits not_select (ptyFork b n t ws).
Proof.
  unfold ptyFork, ptyFork_child, ptyMasterOpen, close_keep_errno, err_exit, outputError, terminate. apply _.
Qed.

(** The set-up of the parent: [ttySetRaw] did both of its calls or only the first. *)
Definition script_open (argv : list string) : call :=
  Open (if argc_of argv >? 1 then cstr (argv_at argv 1) else "typescript")
    (O_WRONLY .| O_CREAT .| O_TRUNC) (S_IRUSR .| S_IWUSR .| S_IRGRP .| S_IWGRP .| S_IROTH .| S_IWOTH).
Definition setup (argv : list string) (b g i : resp) (es : list event) (o : resp) : list event :=
  [Called (Lib "setbuf" ["stdout"%string] []) b; Called (Tcgetattr STDIN_FILENO) g;
   Called (Ioctl STDIN_FILENO TIOCGWINSZ []) i] ++ es ++ [Called (script_open argv) o].

Lemma setup_terminal argv b g i es o :
  r_ret g <> -1 -> Forall quiet es -> Tracks (setup argv b g i es o) (r_termios g) /\ Restored (setup argv b g i es o).
Proof.
  intros Hg Hes. unfold setup.
  replace ([_; _; _] ++ es ++ [_]) with ((([] ++ [Called (Lib "setbuf" ["stdout"%string] []) b]) ++ [Called (Tcgetattr STDIN_FILENO) g])
    ++ (Called (Ioctl STDIN_FILENO TIOCGWINSZ []) i :: es ++ [Called (script_open argv) o])) by (by rewrite <- !app_assoc).
  assert (H0 : Restored ([] ++ [Called (Lib "setbuf" ["stdout"%string] []) b])) by (apply restored_none; [by repeat constructor|apply restored_nil]).
  assert (Hn : Forall no_tty (Called (Ioctl STDIN_FILENO TIOCGWINSZ []) i :: es ++ [Called (script_open argv) o])).
  { constructor; [done|]. apply Forall_app. split; [by apply off_no_tty, quiet_off|by repeat constructor]. }
  split; [by apply tracks_none, tracks_get|by apply restored_none, restored_get].
Qed.

Lemma setup_held argv b g i es o m : held es = [m] -> r_ret o <> -1 -> held (setup argv b g i es o) = [m; r_ret o].
Proof.
  intros He Ho. unfold setup. rewrite !held_app. change (held [_; _; _]) with (@nil Z). fold (held es). rewrite He.
  cbn [held_from script_open opens app]. by apply Z.eqb_neq in Ho as ->.
Qed.

Lemma spec_parent_session m u s argv b g i es o raw a w :
  r_ret g <> -1 -> Forall quiet es -> held es = [m] -> r_ret o <> -1 -> s = r_ret o -> r_ret a = 0 ->
  (exists k, r_ret k = -1 /\ u = r_termios g /\ raw = [Called (Tcgetattr STDIN_FILENO) k])
  \/ (exists k t, r_ret k <> -1 /\ u = r_termios k
      /\ raw = [Called (Tcgetattr STDIN_FILENO) k; Called (Tcsetattr STDIN_FILENO TCSAFLUSH (raw_termios u)) t]) ->
  spec posix_io (with_atexit (ttyReset u) (
    p ← scall Getpid;
    _ ← printf ("[" +:+ dec p +:+ "] Parent starting loop..." +:+ nl);
    forever (relay_round m s))) w
    (fun x fs w' => script_post x ((setup argv b g i es o ++ raw ++ [Called (Lib "atexit" ["ttyReset"%string] []) a]) ++ fs) w').
Proof.
  intros Hg Hes Hh Ho -> Ha Hraw. destruct (setup_terminal argv b g i es o Hg Hes) as [Ht Hr].
  assert (Hat : Forall no_tty [Called (Lib "atexit" ["ttyReset"%string] []) a]) by (by repeat constructor).
  apply spec_session.
  - rewrite held_app, (setup_held _ _ _ _ _ _ _ Hh Ho). by destruct Hraw as [(k & _ & _ & ->)|(k & t & _ & _ & ->)].
  - exists a. split; [|done]. apply elem_of_app. right. apply elem_of_app. right. by left.
  - destruct Hraw as [(k & _ & -> & ->)|(k & t & Hk & -> & ->)]; rewrite app_assoc.
    + by apply tracks_none, tracks_read.
    + change [?a; ?b] with ([a] ++ [b]). rewrite app_assoc. by apply tracks_none, tracks_set, tracks_get.
Qed.

Lemma shell_nonempty s : shell_of s <> EmptyString.
Proof.
  unfold shell_of. destruct (r_ret s =? 0); [done|]. cbn [orb]. destruct (r_buf s) as [|c b]; [done|].
  unfold schar. simpl. by destruct (ceqb c nul) eqn:E; rewrite ?E.
Qed.
Lemma child_calls_no_atexit m sn t ws slave es : calls es = child_calls m sn t ws slave -> Forall no_atexit es.
Proof.
  intros H. apply no_atexit_calls. rewrite H. unfold child_calls.
  destruct t, ws, (slave >? STDERR_FILENO); by repeat constructor.
Qed.

(** C18.  A recorded session.  The child runs the user's shell, or /bin/sh, as a
    session leader on a pseudoterminal that has the terminal's attributes and size.
    The parent, once it waits for input or ends with status 0, has passed on every
    byte: what was typed to the pseudoterminal, what the shell wrote to the terminal
    and to the file; it ends only at end of input, and then, as on every later
    failure, the terminal's attributes are put back (unless that itself fails). *)
Theorem script_correct argv w : spec posix_io (script_main argv) w script_post.
Proof.
  assert (HB : forall c es w', match c with Select _ _ _ _ => False | _ => True end -> script_post (Blocked c) es w')
    by (intros; by apply script_blocked).
  unfold script_main. repeat script_step; try done.
  apply (spec_with_waits _ not_select (ptyFork _ _ _ _)), spec_ptyFork; cbn [pass].
  - intros c es w3 Hc. by apply script_blocked.
  - intros h es w3 [-> | ->]; done.
  - intros nm es w3 Hes. cbn. script_step.
  - intros pid m nm es w3 Hp1 Hp0 Hes Hheld. replace (pid =? -1) with false by (symmetry; by apply Z.eqb_neq).
    replace (pid =? 0) with false by (symmetry; by apply Z.eqb_neq). cbn [default id]. unfold ttySetRaw.
    repeat script_step; try done.
    all: zbool; match goal with Ha : posix_io (Lib "atexit" _ _) ?a, Hk : posix_io (Tcgetattr _) ?k |- _ =>
      tryif constr_eq k r0 then fail else idtac;
      lazymatch goal with
      | Ht : posix_io (Tcsetattr ?f ?n ?u) ?t |- _ => eapply spec_mono; [|apply (spec_parent_session m (r_termios k)
          (r_ret r2) argv r r0 r1 es r2 [Called (Tcgetattr STDIN_FILENO) k; Called (Tcsetattr f n u) t] a)]
      | _ => eapply spec_mono; [|apply (spec_parent_session m (r_termios r0)
          (r_ret r2) argv r r0 r1 es r2 [Called (Tcgetattr STDIN_FILENO) k] a)]
      end end; try done.
    all: try (cbn beta; intros o fs w9; unfold setup; rewrite <- !app_assoc; cbn [app]; intros Hx; exact Hx).
    all: first [left; by exists r3|right; by exists r3, r4].
  - intros m slave sn nm es0 es1 w3 Hes Hcalls. cbn [when Z.eqb]. unfold script_child. repeat script_step; try done.
    + by eapply child_calls_no_atexit.
    + exists r0, r1, ([Called (Lib "setbuf" ["stdout"%string] []) r; Called (Tcgetattr STDIN_FILENO) r0;
        Called (Ioctl STDIN_FILENO TIOCGWINSZ []) r1] ++ es0), m, slave, sn, es1, r2, r3, r4.
      split_and!; [by rewrite <- !app_assoc|..|exact Hcalls|reflexivity|apply shell_nonempty].
      * right. by left.
      * do 2 right. by left.
Qed.
