(* ===== verification/SigProgs.v ===== *)
(** * SigProgs: sending, catching and blocking signals
    (20-signal-basic/, 20-experimental/, 21-signal-handler/, 22-signal-advanced/)

    A handler runs where the program waits, or at a point marked [signals]: there
    the environment says which signals are delivered, one after the other.  As no
    handler here is interrupted by another one and [main] looks at what they change
    in a few places only, a delivery between two such points is one at the second. *)

From S2P Require Import Prelude Clib Sys Errors Frame GetNum Posix Status Sigs.

(** [siginfo_t]: signo, code, value, pid, uid. *)
Definition si_signo (si : list Z) : Z := nth 0 si 0.
Definition si_code (si : list Z) : Z := nth 1 si 0.
Definition si_value (si : list Z) : Z := nth 2 si 0.
Definition si_pid (si : list Z) : Z := nth 3 si 0.
Definition si_uid (si : list Z) : Z := nth 4 si 0.
Definition SI_USER : Z := 0.
Definition SI_QUEUE : Z := -1.
Definition ESRCH : Z := 3.

(** What [sigfillset] stores: every signal but the two that glibc keeps for itself. *)
Definition full_set : list Z := seqZ 1 31 ++ seqZ 34 31.
Definition sigdelset (sig : Z) (set : list Z) : list Z := List.filter (fun s => negb (s =? sig)) set.

(** Deliver signals until there is none. *)
Definition signals {S} (handler : S -> list Z -> M S) (s : S) : M S :=
  loop (fun s =>
    r ← sys (Lib "signal" [] []);
    if r_ret r =? 0 then mret (inr s)
    else s' ← handler s (r_vals r); mret (inl s')) s.

(** ** Sending: t_kill.c, sig_sender.c, t_sigqueue.c *)

Definition t_kill_main (argv : list string) : M Z :=
  if negb (argc_of argv =? 3) || wants_help argv then
    usageErr (cstr (argv_at argv 0) +:+ " pid sig-num" +:+ nl) else
  sig ← getInt (argv_opt argv 2) 0 (Some "sig-num");
  pid ← getLong (argv_opt argv 1) 0 (Some "pid");
  s ← scall (Kill (wrap_s32 pid) sig);
  _ ← (if negb (sig =? 0) then when (s =? -1) (errExit "kill")
       else if s =? 0 then printf ("Process exists and we can send it a signal" +:+ nl)
       else
         e ← get_errno;
         if e =? EPERM then printf ("Process exists, but we don't have permission to send it a signal" +:+ nl)
         else if e =? ESRCH then printf ("Process does not exist" +:+ nl)
         else errExit "kill");
  exit EXIT_SUCCESS.

Definition send_signal (pid sig : Z) : M unit :=
  k ← scall (Kill pid sig); when (k =? -1) (errExit "kill").

Definition sig_sender_main (argv : list string) : M Z :=
  if (argc_of argv <? 4) || wants_help argv then
    usageErr (cstr (argv_at argv 0) +:+ " pid num-sigs sig-num [sig-num-2]" +:+ nl) else
  p ← getLong (argv_opt argv 1) 0 (Some "PID");
  let pid := wrap_s32 p in
  numSigs ← getInt (argv_opt argv 2) GN_GT_0 (Some "num-sigs");
  sig ← getInt (argv_opt argv 3) 0 (Some "sig-num");
  _ ← printf (cstr (argv_at argv 0) +:+ ": sending signal " +:+ dec sig +:+ " to process " +:+ dec pid
              +:+ " (" +:+ dec numSigs +:+ " times)" +:+ nl);
  _ ← for_each (fun _ : Z => send_signal pid sig) (seqZ 0 numSigs);
  _ ← when (argc_of argv >? 4)
        (sig2 ← getInt (argv_opt argv 4) 0 (Some "sig-num-2"); send_signal pid sig2);
  _ ← printf (cstr (argv_at argv 0) +:+ ": exiting" +:+ nl);
  exit EXIT_SUCCESS.

(** The process id is parsed again for each signal. *)
Definition queue_signal (argv : list string) (sig sigData j : Z) : M unit :=
  pid ← getLong (argv_opt argv 1) 0 (Some "pid");
  k ← scall (Sigqueue (wrap_s32 pid) sig (wrap_s32 (sigData + j)));
  when (k =? -1) (errExit ("sigqueue " +:+ dec j)).

Definition t_sigqueue_main (argv : list string) : M Z :=
  if (argc_of argv <? 4) || wants_help argv then
    usageErr (cstr (argv_at argv 0) +:+ " pid sig-num data [num-sigs]" +:+ nl) else
  u ← scall (Lib "getuid" [] []);
  p ← scall Getpid;
  _ ← printf (cstr (argv_at argv 0) +:+ ": PID is " +:+ dec p +:+ ", UID is " +:+ dec u +:+ nl);
  sig ← getInt (argv_opt argv 2) 0 (Some "sig-num");
  sigData ← getInt (argv_opt argv 3) GN_ANY_BASE (Some "data");
  numSigs ← (if argc_of argv >? 4 then getInt (argv_opt argv 4) GN_GT_0 (Some "num-sigs") else mret 1);
  _ ← for_each (queue_signal argv sig sigData) (seqZ 0 numSigs);
  exit EXIT_SUCCESS.

(** ** sig_receiver.c *)

Definition RECEIVER_HANDLER : Z := 11.

(** The variables [sigCnt] and [gotSigint]. *)
Record received := Received { sigCnt : Z -> Z; gotSigint : bool }.

Definition receiver_handler (s : received) (sig : Z) : received :=
  if sig =? SIGINT then Received (sigCnt s) true
  else Received (fun n => if n =? sig then wrap_s32 (sigCnt s n + 1) else sigCnt s n) (gotSigint s).

Definition receive_signals : received -> M received :=
  signals (fun s si => mret (receiver_handler s (si_signo si))).

(** [while (!gotSigint) continue;]: only the arrival of a signal is an event. *)
Definition busy_wait (s : received) : M received :=
  loop (fun s =>
    if gotSigint s then mret (inr s)
    else
      r ← sys (Lib "signal" [] []);
      mret (inl (if r_ret r =? 0 then s else receiver_handler s (si_signo (r_vals r))))) s.

Definition report_line (prog : string) (n c : Z) : string :=
  if negb (c =? 0) then
    cstr prog +:+ ": signal " +:+ dec n +:+ " caught " +:+ dec c +:+ " time" +:+ (if c =? 1 then "" else "s") +:+ nl
  else EmptyString.

Definition report_signal (argv : list string) (s : received) (n : Z) : M received :=
  s ← receive_signals s;
  _ ← when (negb (sigCnt s n =? 0)) (printf (report_line (argv_at argv 0) n (sigCnt s n)));
  mret s.

Definition sig_receiver_main (argv : list string) : M Z :=
  p ← scall Getpid;
  _ ← printf (cstr (argv_at argv 0) +:+ ": PID is " +:+ dec p +:+ nl);
  _ ← for_each (fun n => _ ← scall (Signal n RECEIVER_HANDLER); mret tt) (seqZ 1 (NSIG - 1));
  s ← receive_signals (Received (fun _ => 0) false);
  _ ← when (argc_of argv >? 1) (
        numSecs ← getInt (argv_opt argv 1) GN_GT_0 None;
        b ← scall (Sigprocmask SIG_SETMASK (Some full_set));
        if b =? -1 then errExit "sigprocmask" else
        _ ← printf (cstr (argv_at argv 0) +:+ ": sleeping for " +:+ dec numSecs +:+ " seconds" +:+ nl);
        _ ← scall (Sleep numSecs);
        q ← sys Sigpending;
        if r_ret q =? -1 then errExit "sigpending" else
        _ ← printf (cstr (argv_at argv 0) +:+ ": pending signals are: " +:+ nl);
        _ ← printSigset Stdout (tab +:+ tab) (r_vals q);
        u ← scall (Sigprocmask SIG_SETMASK (Some []));
        when (u =? -1) (errExit "sigprocmask"));
  s ← busy_wait s;
  _ ← fold_m (report_signal argv) s (seqZ 1 (NSIG - 1));
  exit EXIT_SUCCESS.

(** ** catch_rtsigs.c *)

Definition RT_HANDLER : Z := 12.

(** The variables [sigCnt] and [allDone]. *)
Definition rt_state : Type := Z * bool.

Definition siginfoHandler (handlerSleepTime : Z) (s : rt_state) (si : list Z) : M rt_state :=
  let '(sigCnt, allDone) := s in
  let sig := si_signo si in
  if (sig =? SIGINT) || (sig =? SIGTERM) then mret (sigCnt, true)
  else
    _ ← printf ("caught signal " +:+ dec sig +:+ nl);
    _ ← printf ("    si_signo=" +:+ dec (si_signo si) +:+ ", si_code=" +:+ dec (si_code si) +:+ " ("
          +:+ (if si_code si =? SI_USER then "SI_USER" else if si_code si =? SI_QUEUE then "SI_QUEUE" else "other")
          +:+ "), ");
    _ ← printf ("si_value=" +:+ dec (si_value si) +:+ nl);
    _ ← printf ("    si_pid=" +:+ dec (si_pid si) +:+ ", si_uid=" +:+ dec (si_uid si) +:+ nl);
    _ ← scall (Sleep handlerSleepTime);
    mret (wrap_s32 (sigCnt + 1), allDone).

(** A signal may arrive between the test and [pause], and before the next test. *)
Definition wait_done (handlerSleepTime : Z) (s : rt_state) : M rt_state :=
  loop (fun s =>
    if snd s : bool then mret (inr s)
    else
      s ← signals (siginfoHandler handlerSleepTime) s;
      r ← sys Pause;
      s ← siginfoHandler handlerSleepTime s (r_vals r);
      s ← signals (siginfoHandler handlerSleepTime) s;
      mret (inl s)) s.

(** Block, sleep and unblock: all but SIGINT and SIGTERM wait until the end. *)
Definition rt_block (argv : list string) (handlerSleepTime : Z) (s : rt_state) : M rt_state :=
  m ← sys (Sigprocmask SIG_SETMASK (Some (sigdelset SIGTERM (sigdelset SIGINT full_set))));
  if r_ret m =? -1 then errExit "sigprocmask" else
  s ← signals (siginfoHandler handlerSleepTime) s;
  _ ← printf (cstr (argv_at argv 0) +:+ ": signals blocked - sleeping " +:+ cstr (argv_at argv 1) +:+ " seconds" +:+ nl);
  n ← getInt (argv_opt argv 1) GN_GT_0 (Some "block-time");
  _ ← scall (Sleep n);
  s ← signals (siginfoHandler handlerSleepTime) s;
  _ ← printf (cstr (argv_at argv 0) +:+ ": sleep complete" +:+ nl);
  u ← scall (Sigprocmask SIG_SETMASK (Some (old_mask m)));
  if u =? -1 then errExit "sigprocmask" else
  signals (siginfoHandler handlerSleepTime) s.

Definition catch_rtsigs_main (argv : list string) : M Z :=
  if (argc_of argv >? 1) && wants_help argv then
    usageErr (cstr (argv_at argv 0) +:+ " [block-time [handler-sleep-time]]" +:+ nl) else
  p ← scall Getpid;
  _ ← printf (cstr (argv_at argv 0) +:+ ": PID is " +:+ dec p +:+ nl);
  handlerSleepTime ← (if argc_of argv >? 2 then getInt (argv_opt argv 2) GN_NONNEG (Some "handler-sleep-time")
                      else mret 1);
  _ ← for_each (fun sig => when (negb (sig =? SIGTSTP) && negb (sig =? SIGQUIT))
                             (_ ← scall (Sigaction sig RT_HANDLER SA_SIGINFO full_set); mret tt)) (seqZ 1 (NSIG - 1));
  s ← signals (siginfoHandler handlerSleepTime) (0, false);
  s ← (if argc_of argv >? 1 then rt_block argv handlerSleepTime s else mret s);
  s ← wait_done handlerSleepTime s;
  _ ← printf ("Caught " +:+ dec (fst s) +:+ " signals" +:+ nl);
  exit EXIT_SUCCESS.

(** ** intquit.c, ouch.c, pause.c, block.c, allblock.c *)

Definition INTQUIT_HANDLER : Z := 13.
Definition OUCH_HANDLER : Z := 14.

(** The static variable [count] is the argument and the result. *)
Definition intquit_handler (count sig : Z) : M Z :=
  if sig =? SIGINT then
    let count := wrap_s32 (count + 1) in
    _ ← printf ("Caught SIGINT (" +:+ dec count +:+ ")" +:+ nl); mret count
  else
    _ ← printf ("Caught SIGQUIT - that's all forks!" +:+ nl); exit EXIT_SUCCESS.

Definition intquit_main : M Z :=
  s ← scall (Signal SIGINT INTQUIT_HANDLER);
  if s =? SIG_ERR then errExit "SIGINT" else
  s ← scall (Signal SIGQUIT INTQUIT_HANDLER);
  if s =? SIG_ERR then errExit "SIGQUIT" else
  loop (fun count => r ← sys Pause; count ← intquit_handler count (si_signo (r_vals r)); mret (inl count)) 0.

Definition ouch_handler : M unit := printf ("Ouch!" +:+ nl).

Definition ouch_main : M Z :=
  s ← scall (Signal SIGINT OUCH_HANDLER);
  if s =? SIG_ERR then errExit "signal" else
  loop (fun j =>
    _ ← printf (dec j +:+ nl);
    r ← sys (Sleep 1);
    _ ← when (si_signo (r_vals r) =? SIGINT) ouch_handler;
    _ ← when (j >=? 10) (_ ← scall (Signal SIGINT SIG_DFL); mret tt);
    mret (inl (wrap_s32 (j + 1)))) 0.

Definition pause_main : M Z :=
  _ ← scall (Signal SIGINT OUCH_HANDLER);
  r ← sys Pause;
  _ ← ouch_handler;
  _ ← printf "Hello world after pause()!";
  exit EXIT_SUCCESS.

(** The two programs differ in the set they block. *)
Definition block_signals (blockSet : list Z) : M Z :=
  m ← sys (Sigprocmask SIG_BLOCK (Some blockSet));
  if r_ret m =? -1 then errExit "sigprocmask1" else
  loop (fun j =>
    _ ← printf (dec j +:+ nl);
    _ ← scall (Sleep 1);
    _ ← when (j >=? 5) (
          _ ← printPendingSigs Stderr (Some "pending signal:"%string);
          u ← scall (Sigprocmask SIG_SETMASK (Some (old_mask m)));
          if u =? -1 then errExit "sigprocmask2" else
          printf ("never reached!" +:+ nl));
    mret (inl (wrap_s32 (j + 1)))) 0.
Definition block_main : M Z := block_signals [SIGINT].
Definition allblock_main : M Z := block_signals full_set.

(** ** sigaction-vs-signal.c

    [old_signal] is the conditional OLD_SIGNAL; [junk] is the uninitialised
    [newDisp.sa_mask]. *)

Definition signal_using_sigaction (old_signal : bool) (junk : list Z) (sig handler : Z) : M Z :=
  let sa_flags := if old_signal then SA_RESETHAND .| SA_NODEFER else SA_RESTART in
  r ← sys (Sigaction sig handler sa_flags junk);
  if r_ret r =? -1 then mret SIG_ERR else mret (sa_handler (old_action r)).

Definition SLOW_HANDLER : Z := 15.
Definition slow_handler : M unit :=
  _ ← scall (Write 1 "Ouch");
  _ ← scall (Sleep 1);
  _ ← scall (Write 1 ("!!!!!!" +:+ nl));
  mret tt.

Definition sigaction_vs_signal_main : M Z :=
  _ ← scall (Sigaction SIGINT SLOW_HANDLER 0 []);
  forever (
    _ ← printf ("waiting signal" +:+ nl);
    _ ← scall Pause;
    slow_handler).

(** ** sigmask_longjmp.c

    [use_sigsetjmp] is the conditional USE_SIGSETJMP.  The jumps are events, so that
    what they do to the signal mask can be told from the trace; control goes where
    [setjmp] returns for the second time. *)

Definition JMP_HANDLER : Z := 16.

Definition jmp_report (sig : Z) : M unit :=
  t ← sys (Strsignal sig);
  _ ← printf ("Received signal " +:+ dec sig +:+ " (" +:+ cstr (r_buf t) +:+ "), signal mask is:" +:+ nl);
  _ ← printSigMask Stdout None;
  mret tt.

(** The handler before and after [canJump] is set; in the second case control does
    not return to the place of the interruption. *)
Definition jmp_handler_early (_ : unit) (si : list Z) : M unit :=
  _ ← jmp_report (si_signo si);
  _ ← printf ("'env' buffer not yet set, doing a simple return" +:+ nl);
  _ ← scall (Lib "sigreturn" [] []);
  mret tt.
Definition jmp_handler (use_sigsetjmp : bool) (si : list Z) : M unit :=
  _ ← jmp_report (si_signo si);
  _ ← scall (Lib (if use_sigsetjmp then "siglongjmp" else "longjmp") [] [1]);
  mret tt.

Definition sigmask_longjmp_main (use_sigsetjmp : bool) : M Z :=
  _ ← printSigMask Stdout (Some ("Signal mask at startup:" +:+ nl));
  s ← scall (Sigaction SIGINT JMP_HANDLER 0 []);
  if s =? -1 then errExit "sigaction" else
  _ ← signals jmp_handler_early tt;
  _ ← printf ((if use_sigsetjmp then "Calling sigsetjmp()" else "Calling setjmp()") +:+ nl);
  _ ← scall (Lib (if use_sigsetjmp then "sigsetjmp" else "setjmp") [] [1]);
  forever (
    r ← sys Pause;
    _ ← jmp_handler use_sigsetjmp (r_vals r);
    _ ← printSigMask Stdout (Some ("After jump from handler, signal mask is:" +:+ nl));
    mret tt).

#[export] Instance signals_sane {S} (h : S -> list Z -> M S) s : (forall s si, Sane (h s si)) -> Sane (signals h s).
Proof. intros. unfold signals. apply _. Qed.
#[export] Instance t_kill_main_sane a : Sane (t_kill_main a).
Proof. unfold t_kill_main. apply _. Qed.
#[export] Instance send_signal_sane p s : Sane (send_signal p s).
Proof. unfold send_signal. apply _. Qed.
#[export] Instance sig_sender_main_sane a : Sane (sig_sender_main a).
Proof. unfold sig_sender_main. apply _. Qed.
#[export] Instance queue_signal_sane a s d j : Sane (queue_signal a s d j).
Proof. unfold queue_signal. apply _. Qed.
#[export] Instance t_sigqueue_main_sane a : Sane (t_sigqueue_main a).
Proof. unfold t_sigqueue_main. apply _. Qed.
#[export] Instance receive_signals_sane s : Sane (receive_signals s).
Proof. unfold receive_signals. apply _. Qed.
#[export] Instance busy_wait_sane s : Sane (busy_wait s).
Proof. unfold busy_wait. apply _. Qed.
#[export] Instance report_signal_sane a s n : Sane (report_signal a s n).
Proof. unfold report_signal. apply _. Qed.
#[export] Instance sig_receiver_main_sane a : Sane (sig_receiver_main a).
Proof. unfold sig_receiver_main. apply _. Qed.
#[export] Instance siginfoHandler_sane n s si : Sane (siginfoHandler n s si).
Proof. unfold siginfoHandler. apply _. Qed.
#[export] Instance wait_done_sane n s : Sane (wait_done n s).
Proof. unfold wait_done. apply _. Qed.
#[export] Instance rt_block_sane a n s : Sane (rt_block a n s).
Proof. unfold rt_block. apply _. Qed.
#[export] Instance catch_rtsigs_main_sane a : Sane (catch_rtsigs_main a).
Proof. unfold catch_rtsigs_main. apply _. Qed.
#[export] Instance intquit_handler_sane c s : Sane (intquit_handler c s).
Proof. unfold intquit_handler. apply _. Qed.
#[export] Instance jmp_report_sane s : Sane (jmp_report s).
Proof. unfold jmp_report. apply _. Qed.
#[export] Instance jmp_handler_early_sane u si : Sane (jmp_handler_early u si).
Proof. unfold jmp_handler_early. apply _. Qed.
#[export] Instance jmp_handler_sane b si : Sane (jmp_handler b si).
Proof. unfold jmp_handler. apply _. Qed.
#[export] Instance sigmask_longjmp_main_sane b : Sane (sigmask_longjmp_main b).
Proof. unfold sigmask_longjmp_main. apply _. Qed.

(** ** Pending and delivered signals

    The kernel keeps the pending signals in the order in which they were sent; a
    standard signal that is pending already is not queued again.  Of the unblocked
    ones any may be delivered next, but of the instances of one signal the oldest. *)

Record sigq := Sigq { q_mask : gset Z; q_pend : list (list Z) }.
Definition standard (sig : Z) : bool := sig <? 32.
Definition of_sig (sig : Z) (l : list (list Z)) : list (list Z) := List.filter (fun si => si_signo si =? sig) l.
Definition count (sig : Z) (l : list (list Z)) : Z := Z.of_nat (length (of_sig sig l)).

Definition arrive (q : sigq) (si : list Z) : sigq :=
  if standard (si_signo si) && negb (count (si_signo si) (q_pend q) =? 0) then q
  else Sigq (q_mask q) (q_pend q ++ [si]).

(** The signal an event delivers. *)
Definition delivery (e : event) : option (list Z) :=
  match e with
  | Called (Lib f _ _) r => if String.eqb f "signal" && negb (r_ret r =? 0) then Some (r_vals r) else None
  | Called Pause r => Some (r_vals r)
  | _ => None
  end.
Fixpoint caught (es : list event) : list (list Z) :=
  match es with
  | [] => []
  | e :: es => match delivery e with Some si => si :: caught es | None => caught es end
  end.

Definition q_after (m : gset Z) (e : event) : gset Z :=
  match e with
  | Called (Sigprocmask _ _) r =>
      if r_ret r =? -1 then m else s_mask (sig_after (SigState m (fun _ => Sigact 0 0 [])) e)
  | _ => m
  end.
Definition not_pending_call (e : event) : Prop := match e with Called Sigpending _ => False | _ => True end.

Inductive sigq_event : sigq -> event -> sigq -> Prop :=
  | q_delivered m a si b e : delivery e = Some si -> si_signo si ∉ m -> of_sig (si_signo si) a = [] ->
      sigq_event (Sigq m (a ++ si :: b)) e (Sigq m (a ++ b))
  | q_asked m p r :
      r_ret r <> -1 -> (forall n, n ∈ r_vals r <-> n ∈ m /\ of_sig n p <> []) ->
      sigq_event (Sigq m p) (Called Sigpending r) (Sigq m p)
  | q_other m p e : delivery e = None -> not_pending_call e -> sigq_event (Sigq m p) e (Sigq (q_after m e) p).

(** [sent] are the signals that other processes send meanwhile. *)
Inductive sigq_history : sigq -> list event -> list (list Z) -> sigq -> Prop :=
  | sq_nil q : sigq_history q [] [] q
  | sq_arrive q si es sent q' : sigq_history (arrive q si) es sent q' -> sigq_history q es (si :: sent) q'
  | sq_event q e q1 es sent q' : sigq_event q e q1 -> sigq_history q1 es sent q' -> sigq_history q (e :: es) sent q'.

Lemma of_sig_app n l1 l2 : of_sig n (l1 ++ l2) = of_sig n l1 ++ of_sig n l2.
Proof. apply List.filter_app. Qed.
Lemma count_app n l1 l2 : count n (l1 ++ l2) = count n l1 + count n l2.
Proof. unfold count. rewrite of_sig_app, length_app. lia. Qed.
Lemma count_pos n l : 0 <= count n l.
Proof. unfold count. lia. Qed.
Lemma caught_app es fs : caught (es ++ fs) = caught es ++ caught fs.
Proof. induction es as [|e es IH]; [done|]. simpl. destruct (delivery e); simpl; by rewrite IH. Qed.

Lemma of_sig_arrive n q si :
  standard n = false -> of_sig n (q_pend (arrive q si)) = of_sig n (q_pend q) ++ of_sig n [si].
Proof.
  intros Hn. unfold arrive. destruct (standard (si_signo si)) eqn:Es; cbn [andb q_pend]; [|by rewrite of_sig_app].
  destruct (negb _); cbn [q_pend]; [|by rewrite of_sig_app]. simpl.
  destruct (si_signo si =? n) eqn:E; [zbool; by rewrite E, Hn in Es|by rewrite app_nil_r].
Qed.
Lemma count_arrive n q si :
  count n (q_pend (arrive q si)) = count n (q_pend q) + count n [si]
  \/ count n (q_pend (arrive q si)) = count n (q_pend q) /\ (0 < count n [si] -> 0 < count n (q_pend q)).
Proof.
  unfold arrive. destruct (standard (si_signo si)); cbn [andb q_pend]; [|left; apply count_app].
  destruct (negb _) eqn:E; cbn [q_pend]; [right|left; apply count_app]. split; [done|]. zbool. pose proof (count_pos (si_signo si) (q_pend q)).
  unfold count at 1. simpl. destruct (si_signo si =? n) eqn:En; [|simpl; lia]. zbool. subst n. lia.
Qed.

(** A delivery takes the oldest instance of its signal; other events take none. *)
Lemma of_sig_event n q e q' : sigq_event q e q' -> of_sig n (q_pend q) = of_sig n (caught [e]) ++ of_sig n (q_pend q').
Proof.
  intros [m a si b e' Hd Hm Ha|m p r Hr Hp|m p e' Hd Hnp]; simpl.
  - rewrite Hd, !of_sig_app. simpl. destruct (si_signo si =? n) eqn:E; [|done]. zbool. subst n. by rewrite Ha.
  - done.
  - by rewrite Hd.
Qed.

(** Instances of a realtime signal are all delivered, in the order they were sent. *)
Lemma realtime_in_order q es sent q' n :
  standard n = false -> sigq_history q es sent q' ->
  of_sig n (q_pend q) ++ of_sig n sent = of_sig n (caught es) ++ of_sig n (q_pend q').
Proof.
  intros Hn. induction 1 as [q|q si es sent q' H IH|q e q1 es sent q' He H IH].
  - simpl. by rewrite app_nil_r.
  - rewrite of_sig_arrive in IH by done. rewrite <- IH. change (si :: sent) with ([si] ++ sent).
    by rewrite of_sig_app, app_assoc.
  - change (e :: es) with ([e] ++ es). rewrite caught_app, of_sig_app, <- app_assoc, <- IH, app_assoc.
    by rewrite <- (of_sig_event n _ _ _ He).
Qed.

(** Instances of a standard signal may merge, but at least one is left. *)
Lemma signals_merge q es sent q' n :
  sigq_history q es sent q' ->
  let before := count n (q_pend q) + count n sent in
  let after := count n (caught es) + count n (q_pend q') in
  after <= before /\ (0 < before -> 0 < after).
Proof.
  intros H. induction H as [q|q si es sent q' H IH|q e q1 es sent q' He H IH]; cbv zeta in *.
  - simpl. unfold count. simpl. lia.
  - change (si :: sent) with ([si] ++ sent). rewrite count_app.
    pose proof (count_pos n sent). pose proof (count_pos n [si]). pose proof (count_pos n (q_pend q)).
    destruct (count_arrive n q si) as [E|[E Hs]]; rewrite E in IH; lia.
  - change (e :: es) with ([e] ++ es). rewrite caught_app, count_app.
    pose proof (count_pos n (caught [e])). pose proof (count_pos n (caught es)). pose proof (count_pos n (q_pend q')).
    pose proof (count_pos n (q_pend q1)). pose proof (count_pos n sent).
    assert (count n (q_pend q) = count n (caught [e]) + count n (q_pend q1)); [|lia].
    unfold count. rewrite (of_sig_event n _ _ _ He), length_app. lia.
Qed.

(** ** [sig_receiver] *)

(** What the variables hold after the deliveries [d]. *)
Definition seen (n : Z) (d : list (list Z)) : Z := if n =? SIGINT then 0 else wrap_s32 (count n d).
Definition Counts (s : received) (d : list (list Z)) : Prop :=
  (forall n, sigCnt s n = seen n d)
  /\ gotSigint s = negb (count SIGINT d =? 0).

Lemma counts_nil : Counts (Received (fun _ => 0) false) [].
Proof. split; [|done]. intros n. unfold seen. by destruct (n =? SIGINT). Qed.
Lemma counts_handler s d si : Counts s d -> Counts (receiver_handler s (si_signo si)) (d ++ [si]).
Proof.
  intros [Hc Hg]. unfold receiver_handler.
  assert (Hone : forall n, count n [si] = if si_signo si =? n then 1 else 0)
    by (intros n; unfold count; simpl; by destruct (si_signo si =? n)).
  pose proof (count_pos SIGINT d). split.
  - intros n. specialize (Hc n) as Hn. unfold seen in *. rewrite count_app, Hone. destruct (si_signo si =? SIGINT) eqn:Ei; cbn [sigCnt]; zbool.
    + rewrite Hn, Ei. destruct (n =? SIGINT) eqn:En; [done|]. rewrite (Z.eqb_sym _ n), En. by rewrite Z.add_0_r.
    + rewrite Hn, (Z.eqb_sym _ n). destruct (n =? si_signo si) eqn:En; zbool; [|by rewrite Z.add_0_r].
      subst n. apply Z.eqb_neq in Ei as ->. apply wrap_s32_add.
  - rewrite count_app, Hone. destruct (si_signo si =? SIGINT) eqn:Ei; cbn [gotSigint].
    + symmetry. apply negb_true_iff, Z.eqb_neq. lia.
    + by rewrite Z.add_0_r.
Qed.

(** The deliveries before and after a point of the trace. *)
Section Receiver.
Context (law : call -> resp -> Prop) (d0 : list (list Z)).

Lemma counts_event s es r :
Counts s (d0 ++ caught es) ->
Counts (if r_ret r =? 0 then s else receiver_handler s (si_signo (r_vals r))) (d0 ++ caught (es ++ [Called (Lib "signal" [] []) r])).
Proof.
intros H. rewrite caught_app. cbn [caught delivery]. change (String.eqb "signal" "signal") with true.
destruct (r_ret r =? 0); cbn [negb andb]; rewrite ?app_nil_r; [done|]. rewrite app_assoc. by apply counts_handler.
Qed.

Definition only_signals (e : event) : Prop := match e with Called (Lib _ _ _) _ => True | _ => False end.

Lemma spec_receive_signals s w (Q : outcome received -> list event -> world -> Prop) :
Counts s d0 ->
(forall c es w', Q (Blocked c) es w') ->
(forall s' es w', Counts s' (d0 ++ caught es) -> printed Stdout es = EmptyString -> Q (Ret s') es w') ->
spec law (receive_signals s) w Q.
Proof.
intros Hs HB HR. unfold receive_signals, signals.
apply spec_loop with (I := fun s es _ => Counts s (d0 ++ caught es) /\ printed Stdout es = EmptyString);
[intros; apply _|intros; apply _|by rewrite app_nil_r|].
intros s1 es w1 [Hc Hp]. pose proof (counts_event s1 es) as Hev. spec_run; [apply HB|..]; rewrite ?app_nil_r.
- specialize (Hev r Hc). rewrite Heqb in Hev. apply HR; [done|]. by rewrite printed_app, Hp.
- specialize (Hev r Hc). rewrite Heqb in Hev. split; [done|]. by rewrite printed_app, Hp.
Qed.

Lemma spec_busy_wait s w (Q : outcome received -> list event -> world -> Prop) :
Counts s d0 ->
(forall c es w', Q (Blocked c) es w') ->
(forall s' es w', Counts s' (d0 ++ caught es) -> printed Stdout es = EmptyString -> gotSigint s' = true -> Q (Ret s') es w') ->
spec law (busy_wait s) w Q.
Proof.
intros Hs HB HR. unfold busy_wait.
apply spec_loop with (I := fun s es _ => Counts s (d0 ++ caught es) /\ printed Stdout es = EmptyString);
[intros; apply _|intros; apply _|by rewrite app_nil_r|].
intros s1 es w1 [Hc Hp]. pose proof (counts_event s1 es) as Hev. spec_run; [|apply HB|]; rewrite ?app_nil_r.
- by apply HR.
- split; [by apply Hev|]. by rewrite printed_app, Hp.
Qed.
End Receiver.

(** A line for each signal: its count after some of the deliveries, at least those
    before the report began. *)
Definition Reported (prog : string) (d0 d : list (list Z)) (ns : list Z) (out : string) : Prop :=
  exists ds, out = String.concat "" (zip_with (fun n d1 => report_line prog n (seen n d1)) ns ds)
    /\ length ds = length ns /\ Forall (fun d1 => d0 `prefix_of` d1 /\ d1 `prefix_of` d) ds.

Definition no_catch (e : event) : Prop := delivery e = None.
Lemma caught_none es : Forall no_catch es -> caught es = [].
Proof. induction 1 as [|e es He _ IH]; [done|]. simpl. by rewrite He. Qed.
Lemma diag_no_catch es : Forall diag es -> Forall no_catch es.
Proof. intros H. eapply Forall_impl; [exact H|]. by intros [[]| |]. Qed.
#[export] Instance printSigset_calm o p s : Calm (printSigset o p s).
Proof. unfold printSigset. apply _. Qed.

Lemma concat_cons x l : String.concat "" (x :: l) = x +:+ String.concat "" l.
Proof. destruct l; [by rewrite sapp_nil_r|done]. Qed.

Lemma spec_report law argv d0 s w (Q : outcome received -> list event -> world -> Prop) ns :
  Counts s d0 ->
  (forall c es w', Q (Blocked c) es w') ->
  (forall s' es w', Reported (argv_at argv 0) d0 (d0 ++ caught es) ns (printed Stdout es) -> Q (Ret s') es w') ->
  spec law (fold_m (report_signal argv) s ns) w Q.
Proof.
  revert d0 s w Q. induction ns as [|n ns IH]; intros d0 s w Q Hs HB HR; cbn [fold_m].
  - spec_run. apply HR. exists []. by split_and!.
  - spec_step. unfold report_signal at 1. spec_step. apply (spec_receive_signals law d0); [done|intros; apply HB|].
    intros s1 es1 w1 Hc1 Hp1. 
    assert (Hgo : forall k w2, Forall no_catch k -> printed Stdout k = report_line (argv_at argv 0) n (seen n (d0 ++ caught es1)) ->
      spec law (fold_m (report_signal argv) s1 ns) w2 (fun o es' w' => Q o ((es1 ++ k) ++ es') w')).
    { intros k w2 Hk Hpk. apply (IH (d0 ++ caught es1)); [done|intros; apply HB|].
      intros s2 es2 w3 (ds & Hout & Hlen & Hds). apply HR. exists ((d0 ++ caught es1) :: ds).
      rewrite !printed_app, Hp1, Hpk, Hout, !caught_app, (caught_none k), app_nil_r by done. split_and!.
      - simpl zip_with. by rewrite concat_cons.
      - simpl. by rewrite Hlen.
      - assert (Hpre : d0 `prefix_of` d0 ++ caught es1) by (by exists (caught es1)).
        constructor; [split; [done|by exists (caught es2); rewrite app_assoc]|].
        eapply Forall_impl; [exact Hds|]. cbn beta. intros d1 [H1 H2]. rewrite app_assoc. split; [by etrans|done]. }
    destruct Hc1 as [Hcnt Hgot]. unfold report_line in Hgo. rewrite <- Hcnt in Hgo.
    destruct (negb (sigCnt s1 n =? 0)) eqn:E.
    + spec_run. apply (Hgo [_]); [by repeat constructor|]. unfold report_line. rewrite E. simpl. by rewrite sapp_nil_r.
    + spec_run. by apply (Hgo []).
Qed.

Definition recv_post (argv : list string) (o : outcome Z) (es : list event) (_ : world) : Prop :=
  match o with
  | Halt (Exit 0) => exists es0 es1, es = es0 ++ es1 /\ 0 < count SIGINT (caught es0)
      /\ Reported (argv_at argv 0) (caught es0) (caught es) (seqZ 1 (NSIG - 1)) (printed Stdout es1)
  | Halt h => died h
  | Blocked _ => True
  | _ => False
  end.
Lemma recv_died argv h es w : died h -> recv_post argv (Halt h) es w.
Proof. by destruct h as [[]|[]| |]. Qed.

Definition disp_event (e : event) : Prop := match e with Called (Signal _ _ | Sigaction _ _ _ _) _ => True | _ => False end.
Lemma disp_no_catch es : Forall disp_event es -> Forall no_catch es.
Proof. intros H. eapply Forall_impl; [exact H|]. by intros [[]| |]. Qed.
#[export] Instance printSigset_no_catch o p s : Emits no_catch (printSigset o p s).
Proof. unfold printSigset. apply _. Qed.

Lemma spec_sig_receiver law argv w : spec law (sig_receiver_main argv) w (recv_post argv).
Proof.
  assert (HB : forall c es w', recv_post argv (Blocked c) es w') by done.
  assert (HD : forall h es w', died h -> recv_post argv (Halt h) es w') by (intros; by apply recv_died).
  assert (Hrest : forall s pre w1, Counts s (caught pre) ->
    spec law (s ← busy_wait s; _ ← fold_m (report_signal argv) s (seqZ 1 (NSIG - 1)); exit (A:=Z) EXIT_SUCCESS) w1
      (fun o es w' => recv_post argv o (pre ++ es) w')).
  { intros s pre w1 Hs. spec_step. apply (spec_busy_wait law (caught pre)); [done|intros; apply HB|].
    intros s1 es1 w2 Hc1 Hp1 Hg. spec_step. apply (spec_report law argv (caught pre ++ caught es1)); [done|intros; apply HB|].
    intros s2 es2 w3 Hrep. spec_run. rewrite app_nil_r. exists (pre ++ es1), es2.
    rewrite !caught_app, !app_assoc in *. split_and!; [done| |done].
    destruct Hc1 as [_ Hc1]. rewrite Hg in Hc1. symmetry in Hc1. zbool.
    pose proof (count_pos SIGINT (caught pre ++ caught es1)). lia. }
  unfold sig_receiver_main. do 2 spec_step; [apply HB|]. do 4 spec_step.
  spec_step. apply (spec_frame law disp_event); [apply _|apply _|intros; apply HB|]. intros [] es1 w2 Hes1.
  spec_step. apply (spec_receive_signals law []); [apply counts_nil|intros; apply HB|]. intros s es2 w3 Hc _. cbn [app] in Hc.
  match goal with |- context [?e1 ++ ?e2 ++ es1 ++ _] => set (head := e1 ++ e2) end.
  assert (Hgo : forall blk w, Forall no_catch blk ->
    spec law (s ← busy_wait s; _ ← fold_m (report_signal argv) s (seqZ 1 (NSIG - 1)); exit (A:=Z) EXIT_SUCCESS) w
      (fun o es w' => recv_post argv o (head ++ es1 ++ es2 ++ blk ++ es) w')).
  { intros blk w4 Hblk. eapply spec_mono; [|apply (Hrest s (head ++ es1 ++ es2 ++ blk))].
    - cbn beta. intros o fs w5. by rewrite <- !app_assoc.
    - rewrite !caught_app, (caught_none es1), (caught_none blk), app_nil_r by (done || by apply disp_no_catch). exact Hc. }
  spec_step. destruct (argc_of argv >? 1); spec_step.
  - die_run HB HD. apply spec_getInt; [|intros; apply HD; done]. intros n w4 _ _. die_run HB HD.
    apply (spec_frame law no_catch); [apply _|apply _|intros; apply HB|]. intros [] es3 w10 Hes3.
    do 2 spec_step; [apply HB|]. spec_step; [die_run HB HD|]. spec_step.
    match goal with |- context [es2 ++ ?b ++ _] => eapply spec_mono; [|apply (Hgo b)] end; [by intros|].
    rewrite !Forall_app. split_and!; try done; by repeat constructor.
  - spec_step. eapply spec_mono; [|apply (Hgo [])]; [by intros|done].
Qed.

(** ** [catch_rtsigs] *)

Definition stops_rt (si : list Z) : bool := (si_signo si =? SIGINT) || (si_signo si =? SIGTERM).
Definition reported (d : list (list Z)) : list (list Z) := List.filter (fun si => negb (stops_rt si)) d.
Definition rt_text (si : list Z) : string :=
  "caught signal " +:+ dec (si_signo si) +:+ nl
  +:+ "    si_signo=" +:+ dec (si_signo si) +:+ ", si_code=" +:+ dec (si_code si) +:+ " ("
  +:+ (if si_code si =? SI_USER then "SI_USER" else if si_code si =? SI_QUEUE then "SI_QUEUE" else "other")
  +:+ "), si_value=" +:+ dec (si_value si) +:+ nl
  +:+ "    si_pid=" +:+ dec (si_pid si) +:+ ", si_uid=" +:+ dec (si_uid si) +:+ nl.
Definition rt_texts (d : list (list Z)) : string := String.concat "" (map rt_text (reported d)).

Lemma rt_reported_app d1 d2 : reported (d1 ++ d2) = reported d1 ++ reported d2.
Proof. apply List.filter_app. Qed.
Lemma rt_texts_app d1 d2 : rt_texts (d1 ++ d2) = rt_texts d1 +:+ rt_texts d2.
Proof.
  unfold rt_texts. rewrite rt_reported_app, map_app. induction (map rt_text (reported d1)) as [|x l IH]; [done|].
  cbn [app]. by rewrite !concat_cons, IH, sapp_assoc.
Qed.

(** The variables after the deliveries [d]. *)
Definition RtState (s : rt_state) (d : list (list Z)) : Prop :=
  s = (wrap_s32 (Z.of_nat (length (reported d))), existsb stops_rt d).

Section CatchRt.
Context (law : call -> resp -> Prop) (nap : Z) (d0 : list (list Z)).

Lemma spec_siginfoHandler s si d w (Q : outcome rt_state -> list event -> world -> Prop) :
RtState s d ->
(forall c es w', Q (Blocked c) es w') ->
(forall s' es w', RtState s' (d ++ [si]) -> Forall no_catch es -> printed Stdout es = rt_texts [si] -> Q (Ret s') es w') ->
spec law (siginfoHandler nap s si) w Q.
Proof.
unfold RtState. intros -> HB HR. unfold siginfoHandler.
change ((si_signo si =? SIGINT) || (si_signo si =? SIGTERM)) with (stops_rt si).
assert (Hb : existsb stops_rt (d ++ [si]) = existsb stops_rt d || stops_rt si)
by (by rewrite existsb_app; simpl; rewrite orb_false_r).
assert (Hone : reported [si] = if stops_rt si then [] else [si]) by (unfold reported; simpl; by destruct (stops_rt si)).
rewrite rt_reported_app, Hone, Hb in HR. unfold rt_texts in HR. rewrite Hone in HR. destruct (stops_rt si).
- spec_run. apply HR; [by rewrite app_nil_r, orb_true_r|constructor|done].
- spec_run; [apply HB|]. apply HR; [|by repeat constructor|].
+ rewrite orb_false_r, wrap_s32_add, length_app. simpl. do 2 f_equal. lia.
+ simpl. unfold rt_text. rewrite !sapp_nil_r, <- !sapp_assoc. done.
Qed.

(** The events of deliveries only. *)
Definition RtEvents (s : rt_state) (es : list event) : Prop :=
RtState s (d0 ++ caught es) /\ printed Stdout es = rt_texts (caught es).

Lemma spec_rt_signals s w (Q : outcome rt_state -> list event -> world -> Prop) :
RtState s d0 ->
(forall c es w', Q (Blocked c) es w') ->
(forall s' es w', RtEvents s' es -> Q (Ret s') es w') ->
spec law (signals (siginfoHandler nap) s) w Q.
Proof.
intros Hs HB HR. unfold signals.
apply spec_loop with (I := fun s es _ => RtEvents s es); [intros; apply _|intros; apply _|split; [by rewrite app_nil_r|done]|].
intros s1 es w1 [Hc Hp]. spec_run; [apply HB|..]; rewrite ?app_nil_r.
- apply HR. split; rewrite ?caught_app, ?printed_app; cbn [caught delivery]; rewrite Heqb; cbn; by rewrite ?app_nil_r, ?sapp_nil_r.
- apply spec_siginfoHandler with (d := d0 ++ caught es); [done|intros; apply HB|].
intros s2 fs w3 Hc2 Hn Hp2. spec_run. rewrite app_nil_r. unfold RtEvents.
rewrite !caught_app, !printed_app, (caught_none fs) by done. cbn [caught delivery printed].
change (String.eqb "signal" "signal") with true. rewrite Heqb. cbn [negb andb].
rewrite app_nil_r, app_assoc, rt_texts_app, Hp, Hp2. by split.
Qed.
End CatchRt.

Lemma spec_wait_done law nap d0 s w (Q : outcome rt_state -> list event -> world -> Prop) :
  RtState s d0 ->
  (forall c es w', Q (Blocked c) es w') ->
  (forall s' es w', RtEvents d0 s' es -> existsb stops_rt (d0 ++ caught es) = true -> Q (Ret s') es w') ->
  spec law (wait_done nap s) w Q.
Proof.
  intros Hs HB HR. unfold wait_done.
  apply spec_loop with (I := fun s es _ => RtEvents d0 s es); [intros; apply _|intros; apply _|split; [by rewrite app_nil_r|done]|].
  intros s1 es w1 [Hc Hp]. spec_step.
  { spec_run. rewrite app_nil_r. apply HR; [done|]. unfold RtState in Hc. by subst s1. }
  spec_step. apply (spec_rt_signals law nap (d0 ++ caught es)); [done|intros; apply HB|].
  intros s2 es2 w2 [Hc2 Hp2]. do 2 spec_step; [apply HB|]. spec_step.
  apply spec_siginfoHandler with (d := (d0 ++ caught es) ++ caught es2); [done|intros; apply HB|].
  intros s3 es3 w4 Hc3 Hn3 Hp3. spec_step.
  apply (spec_rt_signals law nap (((d0 ++ caught es) ++ caught es2) ++ [r_vals r])); [done|intros; apply HB|].
  intros s4 es4 w5 [Hc4 Hp4]. spec_run. unfold RtEvents.
  rewrite app_nil_r, !caught_app, !printed_app, (caught_none es3) by done. cbn [caught delivery printed].
  rewrite <- !app_assoc in Hc4. cbn [app] in *. rewrite Hp, Hp2, Hp3, Hp4. split; [done|].
  change (r_vals r :: caught es4) with ([r_vals r] ++ caught es4). by rewrite !rt_texts_app.
Qed.

Definition blocked_text (argv : list string) : string :=
  cstr (argv_at argv 0) +:+ ": signals blocked - sleeping " +:+ cstr (argv_at argv 1) +:+ " seconds" +:+ nl.
Definition complete_text (argv : list string) : string := cstr (argv_at argv 0) +:+ ": sleep complete" +:+ nl.

Lemma spec_rt_block law argv nap d0 s w (Q : outcome rt_state -> list event -> world -> Prop) :
  RtState s d0 ->
  (forall c es w', Q (Blocked c) es w') ->
  (forall h es w', died h -> Q (Halt h) es w') ->
  (forall s' es d1 d2 d3 w', caught es = d1 ++ d2 ++ d3 -> RtState s' (d0 ++ caught es) ->
     printed Stdout es = rt_texts d1 +:+ blocked_text argv +:+ rt_texts d2 +:+ complete_text argv +:+ rt_texts d3 ->
     Q (Ret s') es w') ->
  spec law (rt_block argv nap s) w Q.
Proof.
  intros Hs HB HD HR. unfold rt_block. do 2 spec_step; [apply HB|]. spec_step; [die_run HB HD|].
  spec_step. apply (spec_rt_signals law nap d0); [done|intros; apply HB|]. intros s1 es1 w1 [Hc1 Hp1].
  do 5 spec_step. apply spec_getInt; [|intros; by apply HD]. intros n w3 _ _.
  do 2 spec_step; [apply HB|]. spec_step.
  apply (spec_rt_signals law nap (d0 ++ caught es1)); [done|intros; apply HB|]. intros s2 es2 w5 [Hc2 Hp2].
  do 3 spec_step. spec_step; [apply HB|]. spec_step; [die_run HB HD|].
  apply (spec_rt_signals law nap ((d0 ++ caught es1) ++ caught es2)); [done|intros; apply HB|]. intros s3 es3 w8 [Hc3 Hp3].
  apply (HR s3 _ (caught es1) (caught es2) (caught es3)).
  - by rewrite !caught_app.
  - rewrite !caught_app. by rewrite <- !app_assoc in Hc3.
  - rewrite !printed_app, Hp1, Hp2, Hp3. cbn [printed]. by rewrite !sapp_nil_r.
Qed.

Definition catch_post (argv : list string) (o : outcome Z) (es : list event) (_ : world) : Prop :=
  match o with
  | Halt (Exit 0) => exists d1 d2 d3 pid,
      caught es = d1 ++ d2 ++ d3 /\ existsb stops_rt (caught es) = true
      /\ printed Stdout es =
           cstr (argv_at argv 0) +:+ ": PID is " +:+ dec pid +:+ nl
           +:+ rt_texts d1
           +:+ (if argc_of argv >? 1 then blocked_text argv else "")
           +:+ rt_texts d2
           +:+ (if argc_of argv >? 1 then complete_text argv else "")
           +:+ rt_texts d3
           +:+ "Caught " +:+ dec (wrap_s32 (Z.of_nat (length (reported (caught es))))) +:+ " signals" +:+ nl
  | Halt h => died h
  | Blocked _ => True
  | _ => False
  end.
Lemma catch_died argv h es w : died h -> catch_post argv (Halt h) es w.
Proof. by destruct h as [[]|[]| |]. Qed.

Lemma printed_none es : Forall disp_event es -> printed Stdout es = EmptyString.
Proof. by induction 1 as [|[[]| |] es He _ IH]. Qed.

Lemma spec_catch_rtsigs law argv w : spec law (catch_rtsigs_main argv) w (catch_post argv).
Proof.
  assert (HB : forall c es w', catch_post argv (Blocked c) es w') by done.
  assert (HD : forall h es w', died h -> catch_post argv (Halt h) es w') by (intros; by apply catch_died).
  unfold catch_rtsigs_main. spec_step; [die_run HB HD|]. do 2 spec_step; [apply HB|]. do 4 spec_step.
  spec_step.
  apply spec_mono with (Q := fun o es w' => match o with Ret _ => es = [] | Halt h => died h | Blocked _ => True | Diverged => False end).
  2: { destruct (argc_of argv >? 2); [apply spec_getInt; done|by spec_run]. }
  intros [nap|h|c|] es w2; [intros ->|intros Hh; by apply HD|intros _; apply HB|by intros []].
  spec_step. apply (spec_frame law disp_event); [apply _|apply _|intros; apply HB|]. intros [] es1 w3 Hes1.
  spec_step. apply (spec_rt_signals law nap []); [done|intros; apply HB|]. intros s1 es2 w4 [Hc2 Hp2].
  spec_step.
  apply spec_mono with (Q := fun o es w' => match o with
    | Ret s' => exists d1 d2 d3, caught es = d1 ++ d2 ++ d3 /\ RtState s' (caught es2 ++ caught es)
        /\ printed Stdout es = rt_texts d1 +:+ (if argc_of argv >? 1 then blocked_text argv else "")
             +:+ rt_texts d2 +:+ (if argc_of argv >? 1 then complete_text argv else "") +:+ rt_texts d3
    | Halt h => died h | Blocked _ => True | Diverged => False end).
  2: { destruct (argc_of argv >? 1).
       - apply spec_rt_block with (d0 := caught es2); [exact Hc2|done|done|]. intros. by do 3 eexists.
       - spec_run. exists [], [], []. split_and!; [done|cbn; by rewrite app_nil_r|done]. }
  intros [s2|h|c|] es3 w5; [intros (d1 & d2 & d3 & H3 & Hc3 & Hp3)|intros Hh; by apply HD|intros _; apply HB|by intros []].
  spec_step. apply (spec_wait_done law nap (caught es2 ++ caught es3)); [done|intros; apply HB|].
  intros s3 es4 w6 [Hc4 Hp4] Hstop. spec_run. unfold catch_post.
  exists (caught es2 ++ d1), d2, (d3 ++ caught es4), (r_ret r).
  cbn [app]. cbn [caught delivery printed].
  rewrite !caught_app, !printed_app, (caught_none es1) by (by apply disp_no_catch). rewrite (printed_none es1) by done.
  rewrite H3 in *. rewrite Hp2, Hp3, Hp4, !rt_texts_app.
  cbn [caught delivery printed app]. rewrite !decide_True, !app_nil_r by done.
  unfold RtState in Hc4. rewrite <- !app_assoc in *. rewrite Hc4. cbn [fst]. split_and!; [done|exact Hstop|].
  by rewrite !sapp_nil_r, !sapp_nil_l, <- !sapp_assoc.
Qed.

(** ** The senders *)

(** A loop each of whose rounds makes one call. *)
Lemma spec_for_each_calls {X} law (f : X -> M unit) (g : X -> call) l w
    (Q : outcome unit -> list event -> world -> Prop) `{!forall x, Sane (f x)} :
  (forall x w1 (R : outcome unit -> list event -> world -> Prop),
     (forall c es w', R (Blocked c) es w') -> (forall h es w', died h -> R (Halt h) es w') ->
     (forall es w', calls es = [g x] -> R (Ret tt) es w') -> spec law (f x) w1 R) ->
  (forall c es w', Q (Blocked c) es w') -> (forall h es w', died h -> Q (Halt h) es w') ->
  (forall es w', calls es = map g l -> Q (Ret tt) es w') ->
  spec law (for_each f l) w Q.
Proof.
  intros Hf HB HD HR. unfold for_each. revert w Q HB HD HR. induction l as [|x l IH]; intros w Q HB HD HR; cbn [fold_m].
  - spec_run. by apply HR.
  - spec_step. apply Hf; [intros; apply HB|intros; by apply HD|]. intros es w1 He.
    apply IH; [intros; apply HB|intros; by apply HD|]. intros es' w2 He'. apply HR. by rewrite calls_app, He, He'.
Qed.

Lemma map_const_repeat {X Y} (y : Y) (l : list X) : map (fun _ => y) l = repeat y (length l).
Proof. induction l as [|x l IH]; simpl; by f_equal. Qed.

Lemma spec_send_signal law pid sig w (R : outcome unit -> list event -> world -> Prop) :
  (forall c es w', R (Blocked c) es w') -> (forall h es w', died h -> R (Halt h) es w') ->
  (forall es w', calls es = [Kill pid sig] -> R (Ret tt) es w') -> spec law (send_signal pid sig) w R.
Proof. intros HB HD HR. unfold send_signal. die_run HB HD. by apply HR. Qed.

Lemma spec_queue_signal law argv sig d j w (R : outcome unit -> list event -> world -> Prop) :
  (forall c es w', R (Blocked c) es w') -> (forall h es w', died h -> R (Halt h) es w') ->
  (forall pid es w', num_value 0 (argv_opt argv 1) = Some pid ->
     calls es = [Sigqueue (wrap_s32 pid) sig (wrap_s32 (d + j))] -> R (Ret tt) es w') ->
  spec law (queue_signal argv sig d j) w R.
Proof.
  intros HB HD HR. unfold queue_signal, getLong. spec_step. apply spec_getNum; [|intros; by apply HD].
  intros pid w1 Hp. die_run HB HD. by eapply HR.
Qed.

Definition sender_post (argv : list string) (o : outcome Z) (es : list event) (_ : world) : Prop :=
  match o with
  | Halt (Exit 0) => exists pid n sig,
      num_value 0 (argv_opt argv 1) = Some pid /\ num_value GN_GT_0 (argv_opt argv 2) = Some n
      /\ num_value 0 (argv_opt argv 3) = Some sig
      /\ calls es = repeat (Kill (wrap_s32 pid) sig) (Z.to_nat n)
           ++ (if argc_of argv >? 4 then [Kill (wrap_s32 pid) (default 0 (num_value 0 (argv_opt argv 4)))] else [])
  | Halt h => died h
  | Blocked _ => True
  | _ => False
  end.
Definition queuer_post (argv : list string) (o : outcome Z) (es : list event) (_ : world) : Prop :=
  match o with
  | Halt (Exit 0) => exists sig data n,
      num_value 0 (argv_opt argv 2) = Some sig /\ num_value GN_ANY_BASE (argv_opt argv 3) = Some data
      /\ (if argc_of argv >? 4 then num_value GN_GT_0 (argv_opt argv 4) = Some n else n = 1)
      /\ calls es = [Lib "getuid" [] []; Getpid]
           ++ map (fun j => Sigqueue (wrap_s32 (default 0 (num_value 0 (argv_opt argv 1)))) sig (wrap_s32 (data + j))) (seqZ 0 n)
  | Halt h => died h
  | Blocked _ => True
  | _ => False
  end.

Lemma spec_sig_sender law argv w : spec law (sig_sender_main argv) w (sender_post argv).
Proof.
  assert (HB : forall c es w', sender_post argv (Blocked c) es w') by done.
  assert (HD : forall h es w', died h -> sender_post argv (Halt h) es w') by (by intros [[]|[]| |]).
  unfold sig_sender_main, getLong. spec_step; [die_run HB HD|]. spec_step. apply spec_getNum; [|intros; by apply HD].
  intros pid w1 Hp. spec_step. apply spec_getInt; [|intros; by apply HD]. intros n w2 Hn _.
  spec_step. apply spec_getInt; [|intros; by apply HD]. intros sig w3 Hsig _. do 5 spec_step.
  apply (spec_for_each_calls _ _ (fun _ => Kill (wrap_s32 pid) sig)); [intros; apply _|intros; by apply spec_send_signal|intros; apply HB|intros; by apply HD|].
  intros es1 w5 He1. rewrite map_const_repeat, length_seqZ in He1. spec_step. destruct (argc_of argv >? 4) eqn:Ea; spec_step.
  - spec_step. apply spec_getInt; [|intros; by apply HD]. intros s2 w6 Hs2 _.
    apply spec_send_signal; [intros; apply HB|intros; by apply HD|]. intros es2 w7 He2. spec_run.
    exists pid, n, sig. rewrite Ea, Hs2. split_and!; [done..|]. cbn [app calls]. by rewrite !calls_app, He1, He2.
  - spec_run. exists pid, n, sig. rewrite Ea. split_and!; [done..|]. cbn [app calls]. by rewrite !calls_app, He1.
Qed.

Lemma spec_t_sigqueue law argv w : spec law (t_sigqueue_main argv) w (queuer_post argv).
Proof.
  assert (HB : forall c es w', queuer_post argv (Blocked c) es w') by done.
  assert (HD : forall h es w', died h -> queuer_post argv (Halt h) es w') by (by intros [[]|[]| |]).
  unfold t_sigqueue_main. spec_step; [die_run HB HD|]. do 2 spec_step; [apply HB|]. do 2 spec_step; [apply HB|].
  do 4 spec_step. spec_step. apply spec_getInt; [|intros; by apply HD]. intros sig w3 Hsig _.
  spec_step. apply spec_getInt; [|intros; by apply HD]. intros data w4 Hd _. spec_step.
  apply spec_mono with (Q := fun o es w' => match o with
    | Ret n => es = [] /\ (if argc_of argv >? 4 then num_value GN_GT_0 (argv_opt argv 4) = Some n else n = 1)
    | Halt h => died h | Blocked _ => True | Diverged => False end).
  2: { destruct (argc_of argv >? 4); [by apply spec_getInt|by spec_run]. }
  intros [n|h|c|] es w5; [intros [-> Hn]|intros Hh; by apply HD|intros _; apply HB|by intros []].
  spec_step. apply (spec_for_each_calls _ _ (fun j => Sigqueue (wrap_s32 (default 0 (num_value 0 (argv_opt argv 1)))) sig (wrap_s32 (data + j))));
    [intros; apply _| |intros; apply HB|intros; by apply HD|].
  - intros j w6 R HB' HD' HR'. apply spec_queue_signal; [done|done|]. intros pid es w7 Hp Hes. apply HR'. by rewrite Hp.
  - intros es1 w6 Hes. spec_run. exists sig, data, n. split_and!; [done..|]. rewrite !calls_app, Hes. cbn [calls app]. by rewrite ?app_nil_r.
Qed.



(** SIGINT delivered between the test of [allDone] and [pause]: the program has been
    told to stop, and waits. *)
Example catch_rtsigs_misses_stop :
  let told := Resp 1 0 "" (Vals [SIGINT; SI_USER; 0; 1; 0]) in
  fst (wait_done 1 (0, false) (start [told; ok 0])) = Blocked Pause
  /\ fst (siginfoHandler 1 (0, false) (r_vals told) (start [])) = Ret (0, true).
Proof. split; reflexivity. Qed.

(** Two instances of SIGUSR1 sent while it is pending are one, of signal 34 two. *)
Example merged_while_blocked :
  let si n d := [n; SI_QUEUE; d; 1; 0] in
  let q := fold_left arrive [si SIGUSR1 1; si 34 2; si SIGUSR1 3; si 34 4] (Sigq {[SIGUSR1; 34]} []) in
  map si_value (of_sig SIGUSR1 (q_pend q)) = [1] /\ map si_value (of_sig 34 (q_pend q)) = [2; 4].
Proof. split; reflexivity. Qed.


