(* ===== verification/Explore.v ===== *)
(** * Explore: processes with finitely many states

    A process whose steps are given by a function can be checked by computing the
    states it reaches: a list of states that contains the first one and every
    successor contains all reachable states, and a condition on them is decided by
    testing the list. *)

From S2P Require Import Prelude Threads.

Section Explore.
Context {St : Type} `{EqDecision St} (next : St -> list St).

Definition steps (s s' : St) : Prop := s' ∈ next s.

(** Breadth-first: [seen] grows by the successors of the states still to visit. *)
Fixpoint explore (fuel : nat) (todo seen : list St) : list St :=
match fuel, todo with
| S fuel, s :: todo =>
let new := List.filter (fun t => negb (bool_decide (t ∈ seen))) (remove_dups (next s)) in
explore fuel (todo ++ new) (seen ++ new)
| _, _ => seen
end.

(** [l] is closed under steps and contains [s]. *)
Definition closed (l : list St) : bool := forallb (fun s => forallb (fun t => bool_decide (t ∈ l)) (next s)) l.

Lemma closed_steps l s s' : closed l = true -> s ∈ l -> steps s s' -> s' ∈ l.
Proof.
unfold closed. rewrite forallb_forall. intros Hc Hs Hst. apply list_elem_of_In in Hs. specialize (Hc _ Hs).
rewrite forallb_forall in Hc. apply list_elem_of_In in Hst. by apply Hc, bool_decide_eq_true in Hst.
Qed.

Lemma closed_reaches l s0 s : closed l = true -> s0 ∈ l -> reaches steps s0 s -> s ∈ l.
Proof. intros Hc H0. apply (reaches_inv steps (fun s => s ∈ l)); [done|]. intros s1 s2 H1 H2. by eapply closed_steps. Qed.

(** What holds of the states of a closed list holds of every reachable state. *)
Lemma checked_reaches l s0 s (P : St -> bool) :
closed l = true -> s0 ∈ l -> forallb P l = true -> reaches steps s0 s -> P s = true.
Proof.
intros Hc H0 HP Hr. pose proof (closed_reaches l s0 s Hc H0 Hr) as Hin.
rewrite forallb_forall in HP. by apply HP, list_elem_of_In.
Qed.

(** A test of each state, and of each step, of a list. *)
Lemma checked (P : St -> bool) l s : forallb P l = true -> s ∈ l -> P s = true.
Proof. rewrite forallb_forall. intros H Hs. by apply H, list_elem_of_In. Qed.
Lemma checked_step (P : St -> St -> bool) l s s' :
forallb (fun s => forallb (P s) (next s)) l = true -> s ∈ l -> steps s s' -> P s s' = true.
Proof. intros H Hs Hst. eapply checked; [|exact Hst]. exact (checked _ _ _ H Hs). Qed.

(** A measure that decreases in every step of the list. *)
Lemma checked_terminates l s0 (m : St -> nat) :
(forall s s', s ∈ l -> steps s s' -> s' ∈ l) -> s0 ∈ l ->
forallb (fun s => forallb (fun t => (m t <? m s)%nat) (next s)) l = true ->
terminates steps s0.
Proof.
intros Hc H0 Hm. apply (terminates_measure steps (fun s => s ∈ l) m); [done|].
intros s1 s2 H1 H2. split; [by eapply Hc|].
apply Nat.ltb_lt. exact (checked_step (fun s t => (m t <? m s)%nat) _ _ _ Hm H1 H2).
Qed.

(** Some step is possible. *)
Definition can_move (running : St -> bool) (s : St) : bool :=
negb (running s) || match next s with [] => false | _ => true end.
Lemma can_move_steps running s : can_move running s = true -> running s = true -> exists s', steps s s'.
Proof.
unfold can_move, steps. intros H Hs. rewrite Hs in H. destruct (next s) as [|s' l]; [done|]. exists s'. left.
Qed.
End Explore.
