(* ===== verification/Cancel.v ===== *)
(** * Cancel: thread basics and cancellation
    (29-thread-basic/, 32-thread-cancel/)

    [thread_cancel] and [thread_cleanup] are step functions on the state of both
    threads: the list of the states that may come next.  A thread is cancelled only
    at a cancellation point: in [sleep], in [pthread_cond_wait], and possibly in
    [printf].  Both processes have finitely many states (the counter that
    [thread_cancel] prints is left out), so file Explore decides their properties. *)

From S2P Require Import Prelude Clib Sys Errors Frame Posix Status Threads Explore.

(** ** simple_thread.c, detached_attrib.c *)

Definition HELLO : string := "Hello world" +:+ nl.

(** The thread, as its own sequence of calls; [pthread_exit] ends it with a value. *)
Definition simple_threadFunc (arg : string) : M Z :=
  self ← scall PthreadSelf;
  tid ← scall Gettid;
  pid ← scall Getpid;
  _ ← printf ("[" +:+ dec pid +:+ ":" +:+ dec tid +:+ ":" +:+ dec self +:+ "] " +:+ cstr arg);
  mret (strlen arg).

(** [SIMPLE_THREAD] stands for the address of [threadFunc]. *)
Definition SIMPLE_THREAD : Z := 17.

Definition simple_thread_main : M Z :=
  c ← sys (PthreadCreate SIMPLE_THREAD 0);
  if negb (r_ret c =? 0) then errExitEN (r_ret c) "pthread_create" else
  self ← scall PthreadSelf;
  tid ← scall Gettid;
  pid ← scall Getpid;
  _ ← printf ("[" +:+ dec pid +:+ ":" +:+ dec tid +:+ ":" +:+ dec self +:+ "] Message from main()" +:+ nl);
  j ← sys (PthreadJoin (r_val 0 c));
  if negb (r_ret j =? 0) then errExitEN (r_ret j) "pthread_join" else
  _ ← printf ("Thread returned " +:+ dec (r_val 0 j) +:+ nl);
  _ ← stop "after join";
  exit EXIT_SUCCESS.

Definition PTHREAD_CREATE_DETACHED : Z := 1.
Definition detached_attrib_main : M Z :=
  s ← scall (Lib "pthread_attr_init" [] []);
  if negb (s =? 0) then errExitEN s "pthread_attr_init" else
  s ← scall (Lib "pthread_attr_setdetachstate" [] [PTHREAD_CREATE_DETACHED]);
  if negb (s =? 0) then errExitEN s "pthread_attr_setdetachstate" else
  c ← sys (PthreadCreate SIMPLE_THREAD 0);
  if negb (r_ret c =? 0) then errExitEN (r_ret c) "pthread_create" else
  s ← scall (Lib "pthread_attr_destroy" [] []);
  if negb (s =? 0) then errExitEN s "pthread_attr_setdetachstate" else
  s ← scall (PthreadJoin (r_val 0 c));
  if negb (s =? 0) then errExitEN s "pthread_join failed as expected" else
  exit EXIT_SUCCESS.

(** ** thread_cancel.c *)

(** [threadFunc]: not created, before the first [printf], before the one in the loop,
    before [sleep], cancelled. *)
Inductive lpc := L_new | L_start | L_print | L_sleep | L_canceled.
(** [main]: before [pthread_create], [sleep], [printf], [pthread_cancel],
    [pthread_join], the report; ended, having reported a cancellation or not. *)
Inductive kpc := K_create | K_sleep | K_print | K_cancel | K_join | K_report | K_exit (status : Z) (canceled : bool).
Record tc_state := TC { tc_main : kpc; tc_thread : lpc; tc_request : bool }.

#[export] Instance lpc_eq_dec : EqDecision lpc.
Proof. solve_decision. Defined.
#[export] Instance kpc_eq_dec : EqDecision kpc.
Proof. solve_decision. Defined.
#[export] Instance tc_state_eq_dec : EqDecision tc_state.
Proof. solve_decision. Defined.

Definition tc_start : tc_state := TC K_create L_new false.

(** At a cancellation point: the next step, or the end of the thread on request. *)
Definition loop_step (s : tc_state) : list tc_state :=
  let 'TC m t q := s in
  let canceled := if q then [TC m L_canceled q] else [] in
  match t with
  | L_start => TC m L_print q :: canceled
  | L_print => TC m L_sleep q :: canceled
  | L_sleep => if q then canceled else [TC m L_print q]
  | L_new | L_canceled => []
  end.

(** One step of [main]. *)
Definition cancel_step (s : tc_state) : list tc_state :=
  let 'TC m t q := s in
  match m with
  | K_create => [TC K_sleep L_start q]
  | K_sleep => [TC K_print t q]
  | K_print => [TC K_cancel t q]
  | K_cancel => [TC K_join t true]
  | K_join => if decide (t = L_canceled) then [TC K_report t q] else []
  | K_report => [TC (K_exit 0 (bool_decide (t = L_canceled))) t q]
  | K_exit _ _ => []
  end.

Definition tc_running (s : tc_state) : bool := match tc_main s with K_exit _ _ => false | _ => true end.
Definition thread_cancel (s : tc_state) : list tc_state :=
  if tc_running s then cancel_step s ++ loop_step s else [].
(** A call that fails ends the process by [errExitEN]. *)
Definition tc_fail (s : tc_state) : list tc_state :=
  if tc_running s then [TC (K_exit 1 false) (tc_thread s) (tc_request s)] else [].
Definition thread_cancel_any (s : tc_state) : list tc_state := thread_cancel s ++ tc_fail s.

(** ** thread_cleanup.c *)

(** [threadFunc]: before [malloc], the [printf] of the address, the lock, the push
    of the handler, the test of [glob], waiting for the condition, woken, waiting for
    the mutex after a cancellation, before the last [printf], and in the handler. *)
Inductive hpc := H_printf1 | H_free | H_printf2 | H_unlock.
Inductive cpc := C_new | C_malloc | C_printf | C_lock | C_push | C_test | C_wait | C_woken | C_relock | C_completed
               | C_handler (canceled : bool) (h : hpc) | C_end (canceled cleaned : bool).
(** [main]: the two branches join again. *)
Inductive dpc := D_create | D_sleep | D_printf | D_cancel | D_lock | D_set | D_unlock | D_signal
               | D_join | D_report | D_exit (status : Z) (canceled : bool).
(** The block, and the owner of the mutex ([true]: [main]). *)
Inductive block := B_none | B_null | B_live | B_freed | B_freed_again.
Record cl_state := CL { cl_main : dpc; cl_thread : cpc; mtx : option bool; glob : bool; request : bool; buf : block }.

#[export] Instance hpc_eq_dec : EqDecision hpc.
Proof. solve_decision. Defined.
#[export] Instance cpc_eq_dec : EqDecision cpc.
Proof. solve_decision. Defined.
#[export] Instance dpc_eq_dec : EqDecision dpc.
Proof. solve_decision. Defined.
#[export] Instance block_eq_dec : EqDecision block.
Proof. solve_decision. Defined.
#[export] Instance cl_state_eq_dec : EqDecision cl_state.
Proof. solve_decision. Defined.

Definition cl_start : cl_state := CL D_create C_new None false false B_none.

Definition free_block (b : block) : block :=
  match b with B_live => B_freed | B_freed => B_freed_again | b => b end.

(** [cleanupHandler], called on cancellation or by [pthread_cleanup_pop]: in the
    latter case a request can end the thread in a [printf], the handler having been
    removed already. *)
Definition cleanupHandler (canceled : bool) (h : hpc) (s : cl_state) : list cl_state :=
  let 'CL m _ mu g q b := s in
  let quits := if q && negb canceled then [CL m (C_end true false) mu g q b] else [] in
  match h with
  | H_printf1 => CL m (C_handler canceled H_free) mu g q b :: quits
  | H_free => [CL m (C_handler canceled H_printf2) mu g q (free_block b)]
  | H_printf2 => CL m (C_handler canceled H_unlock) mu g q b :: quits
  | H_unlock => [CL m (C_end canceled true) None g q b]
  end.

Definition cleanup_thread_step (s : cl_state) : list cl_state :=
  let 'CL m t mu g q b := s in
  match t with
  | C_new | C_end _ _ => []
  | C_malloc => [CL m C_printf mu g q B_live; CL m C_printf mu g q B_null]
  | C_printf => CL m C_lock mu g q b :: (if q then [CL m (C_end true false) mu g q b] else [])
  | C_lock => match mu with None => [CL m C_push (Some false) g q b] | Some _ => [] end
  | C_push => [CL m C_test mu g q b]
  | C_test => if g then [CL m C_completed mu g q b] else [CL m C_wait None g q b]
  | C_wait => if q then [CL m C_relock mu g q b] else []
  | C_woken => match mu with None => [CL m C_test (Some false) g q b] | Some _ => [] end
  | C_relock => match mu with None => [CL m (C_handler true H_printf1) (Some false) g q b] | Some _ => [] end
  | C_completed => CL m (C_handler false H_printf1) mu g q b
                   :: (if q then [CL m (C_handler true H_printf1) mu g q b] else [])
  | C_handler c h => cleanupHandler c h s
  end.

(** [one_arg]: [argc == 1], cancel the thread; otherwise signal the condition. *)
Definition cleanup_main_step (one_arg : bool) (s : cl_state) : list cl_state :=
  let 'CL m t mu g q b := s in
  match m with
  | D_create => [CL D_sleep C_malloc mu g q b]
  | D_sleep => [CL D_printf t mu g q b]
  | D_printf => [CL (if one_arg then D_cancel else D_lock) t mu g q b]
  | D_cancel => [CL D_join t mu g true b]
  | D_lock => match mu with None => [CL D_set t (Some true) g q b] | Some _ => [] end
  | D_set => [CL D_unlock t mu true q b]
  | D_unlock => [CL D_signal t None g q b]
  | D_signal => [CL D_join (if decide (t = C_wait) then C_woken else t) mu g q b]
  | D_join => match t with C_end _ _ => [CL D_report t mu g q b] | _ => [] end
  | D_report => [CL (D_exit 0 (match t with C_end c _ => c | _ => false end)) t mu g q b]
  | D_exit _ _ => []
  end.

Definition cl_running (s : cl_state) : bool := match cl_main s with D_exit _ _ => false | _ => true end.
Definition thread_cleanup (one_arg : bool) (s : cl_state) : list cl_state :=
  if cl_running s then cleanup_main_step one_arg s ++ cleanup_thread_step s else [].

(** A call fails and its thread ends the process; [pthread_cond_wait] returns
    without a signal. *)
Definition cl_fail (s : cl_state) : list cl_state :=
  if cl_running s then [CL (D_exit 1 false) (cl_thread s) (mtx s) (glob s) (request s) (buf s)] else [].
Definition spurious (s : cl_state) : list cl_state :=
  match cl_thread s with
  | C_wait => if cl_running s then [CL (cl_main s) C_woken (mtx s) (glob s) (request s) (buf s)] else []
  | _ => []
  end.
Definition thread_cleanup_any (one_arg : bool) (s : cl_state) : list cl_state :=
  thread_cleanup one_arg s ++ cl_fail s ++ spurious s.

(** ** thread_cancel: the thread is cancelled, and [main] says so *)

Definition tc_states : list tc_state := explore thread_cancel_any 1000 [tc_start] [tc_start].

(** [main] reports a cancellation, and has joined the thread by then. *)
Definition tc_ok (s : tc_state) : bool :=
  match tc_main s with
  | K_report => bool_decide (tc_thread s = L_canceled)
  | K_exit 0 c => c && bool_decide (tc_thread s = L_canceled)
  | _ => true
  end.
(** Once the request is made, the steps left. *)
Definition tc_left (s : tc_state) : nat :=
  (match tc_thread s with L_start => 3 | L_print => 2 | L_sleep => 1 | _ => 0 end
   + match tc_main s with K_exit _ _ => 0 | K_report => 1 | _ => 2 end)%nat.

Lemma tc_closed : closed thread_cancel_any tc_states = true.
Proof. vm_compute. reflexivity. Qed.
Lemma tc_in : tc_start ∈ tc_states.
Proof. apply (bool_decide_unpack _). vm_compute. exact I. Qed.
Lemma tc_check_ok : forallb tc_ok tc_states = true.
Proof. vm_compute. reflexivity. Qed.
Lemma tc_check_moves : forallb (can_move thread_cancel tc_running) tc_states = true.
Proof. vm_compute. reflexivity. Qed.
Lemma tc_check_left :
  forallb (fun s => forallb (fun t => negb (tc_request s) || ((tc_left t <? tc_left s)%nat && tc_request t)) (thread_cancel_any s)) tc_states = true.
Proof. vm_compute. reflexivity. Qed.

(** ** thread_cleanup *)

Definition cl_states (one_arg : bool) : list cl_state := explore (thread_cleanup_any one_arg) 2000 [cl_start] [cl_start].

Definition gone (b : block) : bool := match b with B_freed | B_null => true | _ => false end.
(** The handler has run exactly once when the thread has ended with the block freed
    and the mutex unlocked; it has not only when the thread was cancelled while it
    printed the address. *)
Definition cl_ok (one_arg : bool) (s : cl_state) : bool :=
  negb (bool_decide (buf s = B_freed_again))
  && match cl_thread s with
     | C_end c true => gone (buf s) && negb (bool_decide (mtx s = Some false)) && Bool.eqb c one_arg
     | C_end c false => c && one_arg && negb (bool_decide (buf s = B_freed)) && negb (bool_decide (mtx s = Some false))
     | _ => true
     end
  && match cl_main s with
     | D_exit 0 c => Bool.eqb c one_arg && match cl_thread s with C_end _ _ => true | _ => false end
     | _ => true
     end.

Definition cpc_left (t : cpc) : nat :=
  match t with
  | C_malloc => 20 | C_printf => 19 | C_lock => 18 | C_push => 17 | C_woken => 16 | C_test => 15 | C_wait => 14
  | C_relock | C_completed => 13
  | C_handler _ H_printf1 => 12 | C_handler _ H_free => 11 | C_handler _ H_printf2 => 10 | C_handler _ H_unlock => 9
  | C_new | C_end _ _ => 0
  end.
Definition dpc_left (m : dpc) : nat :=
  match m with
  | D_create => 10 | D_sleep => 9 | D_printf => 8 | D_cancel | D_lock => 7 | D_set => 6 | D_unlock => 5
  | D_signal => 4 | D_join => 3 | D_report => 2 | D_exit _ _ => 0
  end.
Definition cl_left (s : cl_state) : nat := (100 * dpc_left (cl_main s) + cpc_left (cl_thread s))%nat.

Lemma cl_closed one_arg : closed (thread_cleanup_any one_arg) (cl_states one_arg) = true.
Proof. destruct one_arg; vm_compute; reflexivity. Qed.
Lemma cl_in one_arg : cl_start ∈ cl_states one_arg.
Proof. destruct one_arg; apply (bool_decide_unpack _); vm_compute; exact I. Qed.
Lemma cl_check_ok one_arg : forallb (cl_ok one_arg) (cl_states one_arg) = true.
Proof. destruct one_arg; vm_compute; reflexivity. Qed.
Lemma cl_check_moves one_arg : forallb (can_move (thread_cleanup one_arg) cl_running) (cl_states one_arg) = true.
Proof. destruct one_arg; vm_compute; reflexivity. Qed.
Lemma cl_check_left one_arg :
  forallb (fun s => forallb (fun t => (cl_left t <? cl_left s)%nat) (thread_cleanup one_arg s ++ cl_fail s)) (cl_states one_arg) = true.
Proof. destruct one_arg; vm_compute; reflexivity. Qed.
Lemma cl_closed_steps one_arg s s' :
  s ∈ cl_states one_arg -> s' ∈ thread_cleanup_any one_arg s -> s' ∈ cl_states one_arg.
Proof. exact (closed_steps (thread_cleanup_any one_arg) (cl_states one_arg) s s' (cl_closed one_arg)). Qed.
#[local] Opaque cl_states tc_states.

(** ** What the checks mean *)

Section Meaning.
Context (one_arg : bool) (s : cl_state) (Hr : reaches (steps (thread_cleanup_any one_arg)) cl_start s).

Lemma cl_reached : s ∈ cl_states one_arg.
Proof using Hr. exact (closed_reaches _ _ _ _ (cl_closed one_arg) (cl_in one_arg) Hr). Qed.

Lemma cl_safe : cl_ok one_arg s = true.
Proof using Hr. exact (checked _ _ _ (cl_check_ok one_arg) cl_reached). Qed.

Lemma cl_moves : cl_running s = true -> exists s', steps (thread_cleanup one_arg) s s'.
Proof using Hr. apply can_move_steps. exact (checked _ _ _ (cl_check_moves one_arg) cl_reached). Qed.

Lemma cl_ends : terminates (steps (fun s => thread_cleanup one_arg s ++ cl_fail s)) s.
Proof using Hr.
refine (checked_terminates _ (cl_states one_arg) s cl_left _ cl_reached (cl_check_left one_arg)).
intros s1 s2 H1 H2. apply (cl_closed_steps one_arg s1); [exact H1|].
unfold thread_cleanup_any, steps in *. rewrite !elem_of_app in *. tauto.
Qed.
End Meaning.

(** C21.  [thread_cleanup], in every interleaving, with failing calls and spurious
    wakeups.  The block is never freed twice.  A thread whose cleanup handler ran has
    freed its block and unlocked the mutex; it was cancelled if and only if the
    program was started without arguments.  Without the handler a thread ends only by
    a cancellation, and never with the mutex.  When [main] ends with status 0 the
    thread has ended and what it reports is true.  No deadlock is possible, and no
    infinite run without endless spurious wakeups. *)
Theorem thread_cleanup_correct one_arg s :
  reaches (steps (thread_cleanup_any one_arg)) cl_start s ->
  buf s <> B_freed_again
  /\ (forall c, cl_thread s = C_end c true -> c = one_arg /\ (buf s = B_freed \/ buf s = B_null) /\ mtx s <> Some false)
  /\ (forall c, cl_thread s = C_end c false -> c = true /\ one_arg = true /\ mtx s <> Some false)
  /\ (forall c, cl_main s = D_exit 0 c -> c = one_arg /\ exists d b, cl_thread s = C_end d b)
  /\ (cl_running s = true -> exists s', steps (thread_cleanup one_arg) s s')
  /\ terminates (steps (fun s => thread_cleanup one_arg s ++ cl_fail s)) s.
Proof.
  intros Hr. pose proof (cl_safe _ _ Hr) as Hok. unfold cl_ok in Hok.
  apply andb_prop in Hok as [[H1 H2]%andb_prop H3]. apply negb_true_iff, bool_decide_eq_false in H1.
  split_and!; [done|..|by apply cl_moves|by apply cl_ends].
  - intros c Hc. rewrite Hc in H2. apply andb_prop in H2 as [[Hg Hm]%andb_prop He].
    apply negb_true_iff, bool_decide_eq_false in Hm. apply Bool.eqb_prop in He. split_and!; [done| |done].
    unfold gone in Hg. destruct (buf s); auto; done.
  - intros c Hc. rewrite Hc in H2. apply andb_prop in H2 as [[[Hg Ho]%andb_prop _]%andb_prop Hm].
    by apply negb_true_iff, bool_decide_eq_false in Hm.
  - intros c Hc. rewrite Hc in H3. apply andb_prop in H3 as [He Ht]. apply Bool.eqb_prop in He.
    split; [done|]. destruct (cl_thread s); try done. by do 2 eexists.
Qed.

(** A run without arguments: the thread waits, is cancelled and cleans up. *)
Definition cl_canceled : cl_state := CL (D_exit 0 true) (C_end true true) None false true B_freed.
Lemma in_next {St} `{EqDecision St} (next : St -> list St) s t : bool_decide (t ∈ next s) = true -> steps next s t.
Proof. by intros H%bool_decide_eq_true. Qed.
Lemma cl_canceled_reached : reaches (steps (thread_cleanup_any true)) cl_start cl_canceled.
Proof.
  pose (path := [CL D_sleep C_malloc None false false B_none; CL D_sleep C_printf None false false B_live;
    CL D_sleep C_lock None false false B_live; CL D_sleep C_push (Some false) false false B_live;
    CL D_sleep C_test (Some false) false false B_live; CL D_sleep C_wait None false false B_live;
    CL D_printf C_wait None false false B_live; CL D_cancel C_wait None false false B_live;
    CL D_join C_wait None false true B_live; CL D_join C_relock None false true B_live;
    CL D_join (C_handler true H_printf1) (Some false) false true B_live; CL D_join (C_handler true H_free) (Some false) false true B_live;
    CL D_join (C_handler true H_printf2) (Some false) false true B_freed;
    CL D_join (C_handler true H_unlock) (Some false) false true B_freed;
    CL D_join (C_end true true) None false true B_freed; CL D_report (C_end true true) None false true B_freed]).
  assert (Hpath : forall l s t, (fix ok s l := match l with [] => bool_decide (t ∈ thread_cleanup_any true s)
      | x :: l => bool_decide (x ∈ thread_cleanup_any true s) && ok x l end) s l = true ->
    reaches (steps (thread_cleanup_any true)) s t).
  { induction l as [|x l IH]; intros s t H.
    - eapply reaches_step; [apply reaches_refl|by apply in_next].
    - apply andb_prop in H as [H1 H2]. eapply reaches_trans; [|by apply IH].
      eapply reaches_step; [apply reaches_refl|by apply in_next]. }
  apply (Hpath path). vm_compute. reflexivity.
Qed.

Lemma thread_cleanup_correct_witness :
  reaches (steps (thread_cleanup_any true)) cl_start cl_canceled /\ (buf cl_canceled = B_freed \/ buf cl_canceled = B_null).
Proof.
  split; [exact cl_canceled_reached|].
  destruct (thread_cleanup_correct true cl_canceled cl_canceled_reached) as (_ & H & _). by apply (H true).
Defined.

(** Cancelled while it prints the address, before the handler is pushed, the thread
    leaves its block allocated. *)
Example canceled_early_leaks : CL (D_exit 0 true) (C_end true false) None false true B_live ∈ cl_states true.
Proof. apply (bool_decide_unpack _). vm_compute. exact I. Qed.

(** [thread_cancel]: in every reachable state either [main] has ended or somebody can
    move; it reports that the thread was cancelled, never anything else; and from the
    request on there are only finitely many steps. *)
Lemma thread_cancel_correct s :
  reaches (steps thread_cancel_any) tc_start s ->
  (forall c, tc_main s = K_exit 0 c -> c = true /\ tc_thread s = L_canceled)
  /\ (tc_running s = true -> exists s', steps thread_cancel s s')
  /\ (tc_request s = true -> terminates (steps thread_cancel_any) s).
Proof.
  intros Hr. pose proof (closed_reaches _ _ _ _ tc_closed tc_in Hr) as Hin. split_and!.
  - intros c Hc. pose proof (checked _ _ _ tc_check_ok Hin) as H1. unfold tc_ok in H1. rewrite Hc in H1.
    apply andb_prop in H1 as [-> H1]. by apply bool_decide_eq_true in H1.
  - apply can_move_steps. exact (checked _ _ _ tc_check_moves Hin).
  - intros Hq. apply (terminates_measure _ (fun s => s ∈ tc_states /\ tc_request s = true) tc_left); [done|].
    intros s1 s2 [Hs1 Hq1] Hst. pose proof (checked_step thread_cancel_any (fun s t => negb (tc_request s) || ((tc_left t <? tc_left s)%nat && tc_request t)) _ _ _ tc_check_left Hs1 Hst) as H3.
    cbn beta in H3. rewrite Hq1 in H3. apply andb_prop in H3 as [Hlt Hq2]. apply Nat.ltb_lt in Hlt. split; [|done]. split; [|done].
    exact (closed_steps _ _ _ _ tc_closed Hs1 Hst).
Qed.
