(* ===== verification/Dirs.v ===== *)
(** * Dirs: directories and links (18-directory-and-link/, 18-experimental/) *)

From S2P Require Import Prelude Clib Sys Errors Frame GetNum Getopt Posix Status Pipes.

(** ** list_files.c *)

(** What one entry prints. *)
Definition entry_line (dirpath name : string) : string :=
  (if strcmp_eq dirpath "." then "" else cstr dirpath +:+ "/") +:+ cstr name +:+ nl.
Definition dot_entry (name : string) : bool := strcmp_eq name "." || strcmp_eq name "..".

Definition listFiles (dirpath : string) : M unit :=
  o ← scall (Opendir dirpath);
  if o =? 0 then errMsg ("opendir failed on '" +:+ cstr dirpath +:+ "'") else
  _ ← loop (fun _ : unit =>
        _ ← set_errno 0;
        r ← sys (Readdir o);
        if r_ret r =? 0 then mret (inr tt)
        else if dot_entry (r_buf r) then mret (inl tt)
        else
          _ ← when (negb (strcmp_eq dirpath ".")) (printf (cstr dirpath +:+ "/"));
          _ ← printf (cstr (r_buf r) +:+ nl);
          mret (inl tt)) tt;
  e ← get_errno;
  if negb (e =? 0) then errExit "readdir" else
  c ← scall (Closedir o);
  when (c =? -1) (errMsg "closedir").

Definition list_files_main (argv : list string) : M Z :=
  if (argc_of argv >? 1) && wants_help argv then
    usageErr (cstr (argv_at argv 0) +:+ " [dir-path...]" +:+ nl) else
  _ ← (if argc_of argv =? 1 then listFiles "." else for_each listFiles (tail argv));
  exit EXIT_SUCCESS.

(** ** nftw_dir_tree.c

    [nftw] is a call of the library: after it, each answer of the environment is
    either an entry it passes to the call-back (its return value is 1) or the value
    it returns. *)

Definition FTW_F : Z := 0.
Definition FTW_D : Z := 1.
Definition FTW_DNR : Z := 2.
Definition FTW_NS : Z := 3.
Definition FTW_SL : Z := 4.
Definition FTW_DP : Z := 5.
Definition FTW_SLN : Z := 6.
Definition FTW_PHYS : Z := 1.
Definition FTW_MOUNT : Z := 2.
Definition FTW_DEPTH : Z := 8.

(** The arguments of the call-back: the path, [st_mode], [st_ino], the type,
    [base] and [level]. *)
Record ftw_entry := FtwEntry { f_path : string; f_mode : Z; f_ino : Z; f_type : Z; f_base : Z; f_level : Z }.
Definition entry_of (r : resp) : ftw_entry :=
  FtwEntry (r_buf r) (r_val 0 r) (r_val 1 r) (r_val 2 r) (r_val 3 r) (r_val 4 r).

Definition type_letter (mode : Z) : string :=
  let m := Z.land mode S_IFMT in
  if m =? 32768 then "-" else if m =? 16384 then "d" else if m =? 8192 then "c"
  else if m =? 24576 then "b" else if m =? 40960 then "l" else if m =? 4096 then "p"
  else if m =? 49152 then "s" else "?".

Definition type_name (t : Z) : string :=
  if t =? FTW_D then "D  " else if t =? FTW_DNR then "DNR" else if t =? FTW_DP then "DP "
  else if t =? FTW_F then "F  " else if t =? FTW_SL then "SL " else if t =? FTW_SLN then "SLN"
  else if t =? FTW_NS then "NS " else "  ".

Definition dirTree (e : ftw_entry) : M unit :=
  _ ← (if f_type e =? FTW_NS then printf "?" else printf (type_letter (f_mode e)));
  _ ← printf (" " +:+ type_name (f_type e) +:+ "  ");
  _ ← (if negb (f_type e =? FTW_NS) then printf (lpad 7 " " (dec (f_ino e)) +:+ " ") else printf "        ");
  _ ← printf (" " +:+ lpad (4 * f_level e) " " "");
  printf (cstr (zdrop (f_base e) (f_path e)) +:+ nl).

Definition ftw_usageError {A} (progName : string) (msg : option string) : M A :=
  _ ← match msg with Some m => fputs Stderr (cstr m +:+ nl) | None => mret tt end;
  _ ← fputs Stderr ("Usage: " +:+ cstr progName +:+ " [-d] [-m] [-p] [directory-path]" +:+ nl);
  _ ← fputs Stderr (tab +:+ "-d Use FTW_DEPTH flag" +:+ nl);
  _ ← fputs Stderr (tab +:+ "-m Use FTW_MOUNT flag" +:+ nl);
  _ ← fputs Stderr (tab +:+ "-p Use FTW_PHYS flag" +:+ nl);
  exit EXIT_FAILURE.

(** [nftw(path, dirTree, 10, flags)]. *)
Definition nftw_walk (path : string) (flags : Z) : M Z :=
  _ ← scall (Lib "nftw" [path] [10; flags]);
  loop (fun _ : unit =>
    r ← sys (Lib "nftw entry" [] []);
    if r_ret r =? 1 then _ ← dirTree (entry_of r); mret (inl tt)
    else mret (inr (r_ret r))) tt.

Definition ftw_option (argv : list string) (flags : Z) (opt : ascii) (_ : option string) : M Z :=
  if ceqb opt "d" then mret (flags .| FTW_DEPTH)
  else if ceqb opt "m" then mret (flags .| FTW_MOUNT)
  else if ceqb opt "p" then mret (flags .| FTW_PHYS)
  else ftw_usageError (argv_at argv 0) None.

Definition nftw_dir_tree_main (argv : list string) : M Z :=
  '(flags, operands) ← getopt_loop argv "dmp" (ftw_option argv) 0;
  if (1 <? length operands)%nat then ftw_usageError (argv_at argv 0) None else
  n ← nftw_walk (match operands with d :: _ => cstr d | [] => "." end) flags;
  if n =? -1 then
    e ← get_errno;
    t ← sys (Strerror e);
    _ ← fputs Stderr ("nftw: " +:+ cstr (r_buf t) +:+ nl);
    exit EXIT_FAILURE
  else exit EXIT_SUCCESS.

(** ** t_dirbasename.c

    [dirname] and [basename] of <libgen.h>. *)

Definition slash : ascii := "/".
Fixpoint srev (s acc : string) : string := match s with EmptyString => acc | String c s => srev s (String c acc) end.
Fixpoint drop_slashes (s : string) : string :=
  match s with String c s' => if ceqb c slash then drop_slashes s' else s | EmptyString => EmptyString end.
Fixpoint take_name (s : string) : string :=
  match s with String c s' => if ceqb c slash then EmptyString else String c (take_name s') | EmptyString => EmptyString end.
Fixpoint drop_name (s : string) : string :=
  match s with String c s' => if ceqb c slash then s else drop_name s' | EmptyString => EmptyString end.

(** Both work from the end of the path, here the beginning of its reverse. *)
Definition basename (path : string) : string :=
  match cstr path with
  | EmptyString => "."
  | p => match drop_slashes (srev p "") with EmptyString => "/" | r => srev (take_name r) "" end
  end.
Definition dirname (path : string) : string :=
  match cstr path with
  | EmptyString => "."
  | p =>
      match drop_slashes (srev p "") with
      | EmptyString => if strcmp_eq path "//" then "//" else "/"
      | r => match drop_name r with
             | EmptyString => "."
             | r' => match drop_slashes r' with
                     | EmptyString => if strcmp_eq (srev r' "") "//" then "//" else "/"
                     | r'' => srev r'' "" end
             end
      end
  end.

Definition split_arg (a : string) : M unit :=
  t1 ← scall (Lib "strdup" [a] []);
  if t1 =? 0 then errExit "strdup" else
  t2 ← scall (Lib "strdup" [a] []);
  if t2 =? 0 then errExit "strdup" else
  _ ← printf (cstr a +:+ " ==> " +:+ dirname a +:+ " + " +:+ basename a +:+ nl);
  _ ← scall (Free t1);
  _ ← scall (Free t2);
  mret tt.
Definition t_dirbasename_main (argv : list string) : M Z :=
  _ ← for_each split_arg (tail argv);
  exit EXIT_SUCCESS.

(** ** t_unlink.c; [junk] is what the uninitialised buffer holds *)

Definition UNLINK_CMD_SIZE : Z := 200.
Definition UNLINK_BUF_SIZE : Z := 1024.
Definition df_command (path : string) : string := snprintf UNLINK_CMD_SIZE ("df -k `dirname " +:+ cstr path +:+ "`").

Definition t_unlink_main (junk : string) (argv : list string) : M Z :=
  if (argc_of argv <? 2) || wants_help argv then
    usageErr (cstr (argv_at argv 0) +:+ " temp-file [num-1kB-blocks] " +:+ nl) else
  numBlocks ← (if argc_of argv >? 2 then getInt (argv_opt argv 2) GN_GT_0 (Some "num-1kB-blocks") else mret 100000);
  let path := argv_at argv 1 in
  fd ← scall (Open (cstr path) (O_WRONLY .| O_CREAT .| O_EXCL) (S_IRUSR .| S_IWUSR));
  if fd =? -1 then errExit "open" else
  _ ← printf ("********** Before write to file " +:+ nl);
  _ ← scall (System (df_command path));
  u ← scall (Unlink (cstr path));
  if u =? -1 then errExit "unlink" else
  _ ← for_each (fun _ : Z =>
        k ← scall (Write fd (ztake UNLINK_BUF_SIZE junk));
        when (negb (k =? UNLINK_BUF_SIZE)) (fatal "partial/failed write")) (seqZ 0 numBlocks);
  _ ← printf ("********** After write to unlinked file " +:+ nl);
  _ ← scall (System (df_command path));
  c ← scall (Close fd);
  if c =? -1 then errExit "close" else
  _ ← printf ("********** Closed file descriptor" +:+ nl);
  _ ← scall (System (df_command path));
  exit EXIT_SUCCESS.

(** ** view_symlink.c *)

Definition S_ISLNK (mode : Z) : bool := Z.land mode S_IFMT =? 40960.

Definition view_symlink_main (argv : list string) : M Z :=
  if negb (argc_of argv =? 2) || wants_help argv then
    usageErr (cstr (argv_at argv 0) +:+ " pathname" +:+ nl) else
  let path := cstr (argv_at argv 1) in
  l ← sys (Lstat path);
  if r_ret l =? -1 then errExit "lstat" else
  if negb (S_ISLNK (r_val 0 l)) then fatal (path +:+ " is not a symbolic link") else
  r ← sys (Readlink path (PATH_MAX - 1));
  if r_ret r =? -1 then errExit "readlink" else
  _ ← printf ("readlink: " +:+ path +:+ " --> " +:+ cstr (ztake (r_ret r) (r_buf r)) +:+ nl);
  p ← sys (Realpath path);
  if r_ret p =? 0 then errExit "realpath" else
  _ ← printf ("realpath: " +:+ path +:+ " --> " +:+ cstr (r_buf p) +:+ nl);
  exit EXIT_SUCCESS.

(** ** logging-unlink.c *)

Definition LOG_NAME : string := "dummy".
Definition logging_unlink_main : M Z :=
  logfd ← scall (Open LOG_NAME (O_WRONLY .| O_CREAT .| O_TRUNC .| O_APPEND) (S_IRUSR .| S_IWUSR));
  log ← scall (Lib "fdopen" ["a"%string] [logfd]);
  _ ← scall (Lib "setbuf" [] [log; 0]);
  _ ← scall (Unlink LOG_NAME);
  p ← scall Getpid;
  _ ← printf ("PID: " +:+ dec p +:+ nl);
  _ ← for_each (fun _ : Z => _ ← fputs (OtherStream log) ("dummy" +:+ nl); _ ← scall (Sleep 1); mret tt) (seqZ 0 50);
  exit EXIT_SUCCESS.

#[export] Instance listFiles_sane d : Sane (listFiles d).
Proof. unfold listFiles. apply _. Qed.
#[export] Instance list_files_main_sane a : Sane (list_files_main a).
Proof. unfold list_files_main. apply _. Qed.
#[export] Instance dirTree_sane e : Sane (dirTree e).
Proof. unfold dirTree. apply _. Qed.
#[export] Instance ftw_usageError_sane {A} p m : Sane (ftw_usageError (A:=A) p m).
Proof. unfold ftw_usageError. apply _. Qed.
#[export] Instance nftw_walk_sane p f : Sane (nftw_walk p f).
Proof. unfold nftw_walk. apply _. Qed.
#[export] Instance ftw_option_sane a f o x : Sane (ftw_option a f o x).
Proof. unfold ftw_option. apply _. Qed.
#[export] Instance nftw_dir_tree_main_sane a : Sane (nftw_dir_tree_main a).
Proof. unfold nftw_dir_tree_main. apply _. Qed.
#[export] Instance split_arg_sane a : Sane (split_arg a).
Proof. unfold split_arg. apply _. Qed.
#[export] Instance t_unlink_main_sane j a : Sane (t_unlink_main j a).
Proof. unfold t_unlink_main. apply _. Qed.
#[export] Instance view_symlink_main_sane a : Sane (view_symlink_main a).
Proof. unfold view_symlink_main. apply _. Qed.

Example dirname_examples :
  map (fun p => (dirname p, basename p)) ["/usr/lib"; "/usr/"; "usr"; "/"; "."; ".."; ""; "a//b//"; "//a"]%string
  = [("/usr", "lib"); ("/", "usr"); (".", "usr"); ("/", "/"); (".", "."); (".", ".."); (".", "."); ("a", "b"); ("//", "a")]%string.
Proof. reflexivity. Qed.

(** ** Listing directories *)

(** The entries read, in order. *)
Fixpoint names (es : list event) : list string :=
  match es with
  | [] => []
  | Called (Readdir _) r :: es => r_buf r :: names es
  | _ :: es => names es
  end.
Lemma names_app es fs : names (es ++ fs) = names es ++ names fs.
Proof. induction es as [|[[]| |] es IH]; simpl; try done; by rewrite IH. Qed.

(** What the names print: all but the two dots. *)
Definition listing (dirpath : string) (l : list string) : string :=
  String.concat "" (map (entry_line dirpath) (List.filter (fun n => negb (dot_entry n)) l)).
Lemma concat_snoc (l : list string) x : String.concat "" (l ++ [x]) = String.concat "" l +:+ x.
Proof.
  induction l as [|y l IH]; [done|]. cbn [app]. destruct l as [|z l]; [done|].
  change (String.concat "" (y :: z :: l)) with (y +:+ String.concat "" (z :: l)).
  change (String.concat "" (y :: (z :: l) ++ [x])) with (y +:+ String.concat "" ((z :: l) ++ [x])).
  by rewrite IH, sapp_assoc.
Qed.
Lemma listing_snoc d l n : listing d (l ++ [n]) = listing d l +:+ (if dot_entry n then "" else entry_line d n).
Proof.
  unfold listing. rewrite List.filter_app, map_app. simpl. destruct (dot_entry n); simpl; [by rewrite app_nil_r, sapp_nil_r|].
  apply concat_snoc.
Qed.

(** One directory: it could not be opened, which is reported; or it was read to the
    end without an error, listed, and closed. *)
Definition dir_listed (d : string) (es : list event) : Prop :=
  exists o, match r_ret o =? 0 with
    | true => exists tl, es = Called (Opendir d) o :: tl /\ Forall diag tl
    | false => exists es1 e c tl,
        es = Called (Opendir d) o :: es1 ++ Called (Readdir (r_ret o)) e :: Called (Closedir (r_ret o)) c :: tl
        /\ r_ret e = 0 /\ r_err e = 0 /\ Forall diag tl
        /\ calls es1 = repeat (Readdir (r_ret o)) (length (names es1)) /\ printed Stdout es1 = listing d (names es1)
    end.

Lemma repeat_snoc {A} (x : A) n : repeat x n ++ [x] = repeat x (S n).
Proof. induction n as [|n IH]; simpl; [done|by rewrite IH]. Qed.

Lemma spec_listFiles law d w (Q : outcome unit -> list event -> world -> Prop) :
  (forall c es w', Q (Blocked c) es w') ->
  (forall h es w', died h -> Q (Halt h) es w') ->
  (forall es w', dir_listed d es -> Q (Ret tt) es w') ->
  spec law (listFiles d) w Q.
Proof.
  intros HB HD HR. unfold listFiles. do 2 spec_step; [apply HB|]. spec_step.
  { apply spec_errMsg; [apply HB|]. intros es w1 _ Hd. apply HR. exists r. rewrite Heqb. by exists es. }
  spec_step. apply spec_loop with (I := fun _ es _ =>
    calls es = repeat (Readdir (r_ret r)) (length (names es)) /\ printed Stdout es = listing d (names es));
    [intros; apply _|intros; apply _|done|].
  intros [] es w1 [Hc Hp].
  assert (Hgo : forall e k, printed Stdout k = (if dot_entry (r_buf e) then "" else entry_line d (r_buf e)) -> calls k = [] -> names k = [] ->
    calls (es ++ Called (Readdir (r_ret r)) e :: k) = repeat (Readdir (r_ret r)) (length (names (es ++ Called (Readdir (r_ret r)) e :: k)))
    /\ printed Stdout (es ++ Called (Readdir (r_ret r)) e :: k) = listing d (names (es ++ Called (Readdir (r_ret r)) e :: k))).
  { intros e k Hpk Hck Hnk. rewrite calls_app, names_app, printed_app. cbn [calls names printed]. rewrite Hck, Hnk, Hpk, Hc, Hp.
    rewrite length_app. simpl. rewrite Nat.add_1_r, repeat_snoc. split; [done|]. by rewrite listing_snoc. }
  do 4 spec_step; [apply HB|]. spec_step.
  - assert (Hend : errno w3 = 0 -> r_err r0 = 0).
    { rewrite He1, He0. unfold errno_after. by destruct (r_err r0 =? 0) eqn:E; zbool. }
    assert (Hq : forall c tl w5, errno w3 = 0 -> Forall diag tl ->
      Q (Ret tt) (Called (Opendir d) r :: es ++ Called (Readdir (r_ret r)) r0 :: Called (Closedir (r_ret r)) c :: tl) w5).
    { intros c tl w5 H0 Htl. apply HR. exists r. rewrite Heqb. exists es, r0, c, tl. zbool. by split_and!; [..|apply Hend| | |]. }
    spec_run; try (by apply HB); [die_run HB HD| |]; zbool.
    + apply spec_errMsg; [apply HB|]. intros tl w5 _ Htl. rewrite app_nil_r, <- !app_assoc. by apply Hq.
    + rewrite !app_nil_r, <- !app_assoc. by apply Hq.
  - spec_step; [|spec_step; spec_step].
    + spec_run. rewrite app_nil_r. apply (Hgo r0 []); [by rewrite Heqb1|done|done].
    + spec_run; cbn [app]; (apply Hgo; [|done|done]); rewrite Heqb1; unfold entry_line; simpl; rewrite !sapp_nil_r.
      all: by destruct (strcmp_eq d ".").
Qed.

(** Each of several parts satisfies its own condition. *)
Definition in_parts {X} (P : X -> list event -> Prop) (l : list X) (es : list event) : Prop :=
  exists ess, es = List.concat ess /\ Forall2 P l ess.
Lemma in_parts_nil {X} (P : X -> list event -> Prop) : in_parts P [] [].
Proof. by exists []. Qed.
Lemma in_parts_cons {X} (P : X -> list event -> Prop) x l es fs : P x es -> in_parts P l fs -> in_parts P (x :: l) (es ++ fs).
Proof. intros Hx (ess & -> & H). exists (es :: ess). split; [done|by constructor]. Qed.
Lemma spec_parts {X} law (P : X -> list event -> Prop) (f : X -> M unit) l w
    (Q : outcome unit -> list event -> world -> Prop) `{!forall x, Sane (f x)} :
  (forall x w1 (R : outcome unit -> list event -> world -> Prop),
     (forall c es w', R (Blocked c) es w') -> (forall h es w', died h -> R (Halt h) es w') ->
     (forall es w', P x es -> R (Ret tt) es w') -> spec law (f x) w1 R) ->
  (forall c es w', Q (Blocked c) es w') -> (forall h es w', died h -> Q (Halt h) es w') ->
  (forall es w', in_parts P l es -> Q (Ret tt) es w') ->
  spec law (for_each f l) w Q.
Proof.
  intros Hf HB HD HR. unfold for_each. revert w Q HB HD HR. induction l as [|x l IH]; intros w Q HB HD HR; cbn [fold_m].
  - spec_run. apply HR, in_parts_nil.
  - spec_step. apply Hf; [intros; apply HB|intros; by apply HD|]. intros es w1 Hx.
    apply IH; [intros; apply HB|intros; by apply HD|]. intros fs w2 Hl. apply HR. by apply in_parts_cons.
Qed.

Definition dirs_of (argv : list string) : list string := if argc_of argv =? 1 then ["."%string] else tail argv.
Definition list_files_post (argv : list string) (o : outcome Z) (es : list event) (_ : world) : Prop :=
  match o with
  | Halt (Exit 0) => in_parts dir_listed (dirs_of argv) es
  | Halt h => died h
  | Blocked _ => True
  | _ => False
  end.

Lemma spec_list_files law argv w : spec law (list_files_main argv) w (list_files_post argv).
Proof.
  assert (HB : forall c es w', list_files_post argv (Blocked c) es w') by done.
  assert (HD : forall h es w', died h -> list_files_post argv (Halt h) es w') by (by intros [[]|[]| |]).
  unfold list_files_main. spec_step; [die_run HB HD|]. spec_step.
  assert (Hend : forall (Q : outcome unit -> list event -> world -> Prop) w1,
    (forall c es w', Q (Blocked c) es w') -> (forall h es w', died h -> Q (Halt h) es w') ->
    (forall es w', in_parts dir_listed (dirs_of argv) es -> Q (Ret tt) es w') ->
    spec law (if argc_of argv =? 1 then listFiles "." else for_each listFiles (tail argv)) w1 Q).
  { intros Q w1 HB' HD' HR'. unfold dirs_of in HR'. destruct (argc_of argv =? 1).
    - apply spec_listFiles; [done|done|]. intros es w' Hes. apply HR'. rewrite <- (app_nil_r es).
      by apply in_parts_cons; [|apply in_parts_nil].
    - apply (spec_parts law dir_listed); [intros; apply _|intros; by apply spec_listFiles|done|done|done]. }
  apply Hend; [intros; apply HB|intros; by apply HD|]. intros es w1 Hes. spec_run. by rewrite app_nil_r.
Qed.

(** ** Walking a tree *)

Definition entry_text (e : ftw_entry) : string :=
  (if f_type e =? FTW_NS then "?" else type_letter (f_mode e)) +:+ " " +:+ type_name (f_type e) +:+ "  "
  +:+ (if f_type e =? FTW_NS then "        " else lpad 7 " " (dec (f_ino e)) +:+ " ")
  +:+ " " +:+ lpad (4 * f_level e) " " "" +:+ cstr (zdrop (f_base e) (f_path e)) +:+ nl.

(** The entries the library passed on. *)
Fixpoint entries (es : list event) : list ftw_entry :=
  match es with
  | [] => []
  | Called (Lib f _ _) r :: es => if String.eqb f "nftw entry" && (r_ret r =? 1) then entry_of r :: entries es else entries es
  | _ :: es => entries es
  end.
Lemma entries_app es fs : entries (es ++ fs) = entries es ++ entries fs.
Proof. induction es as [|[[]| |] es IH]; simpl; try done. destruct (_ && _); simpl; by rewrite IH. Qed.

Lemma spec_nftw_walk law path flags w (Q : outcome Z -> list event -> world -> Prop) :
  (forall c es w', Q (Blocked c) es w') ->
  (forall n es w', printed Stdout es = String.concat "" (map entry_text (entries es)) ->
     hd_error (calls es) = Some (Lib "nftw" [path] [10; flags]) -> n <> 1 -> Q (Ret n) es w') ->
  spec law (nftw_walk path flags) w Q.
Proof.
  intros HB HR. unfold nftw_walk. do 2 spec_step; [apply HB|].
  apply spec_loop with (I := fun _ es _ => printed Stdout es = String.concat "" (map entry_text (entries es)));
    [intros; apply _|intros; apply _|done|].
  intros [] es w1 Hp. do 2 spec_step; [apply HB|]. spec_step.
  - spec_step. unfold dirTree.
    assert (Hgo : forall k, printed Stdout k = entry_text (entry_of r0) -> entries k = [] ->
      printed Stdout (es ++ Called (Lib "nftw entry" [] []) r0 :: k)
      = String.concat "" (map entry_text (entries (es ++ Called (Lib "nftw entry" [] []) r0 :: k)))).
    { intros k Hk Hek. rewrite printed_app, entries_app. cbn [printed entries]. rewrite Heqb, Hek, Hp, Hk. simpl.
      rewrite map_app. cbn [map]. by rewrite concat_snoc. }
    destruct (f_type (entry_of r0) =? FTW_NS) eqn:Et; cbn [negb]; spec_run; cbn [app]; (apply Hgo; [|done]);
      unfold entry_text; rewrite Et; simpl; by rewrite ?sapp_nil_r, <- ?sapp_assoc.
  - spec_run. rewrite app_nil_r. zbool. apply HR; [|done|done].
    change ([?a] ++ es ++ [?b]) with (a :: (es ++ [b])). cbn [printed entries]. change (String.eqb "nftw" "nftw entry") with false. cbn [andb].
    rewrite printed_app, entries_app. cbn [entries printed]. rewrite Hp. apply Z.eqb_neq in Heqb as ->. rewrite andb_false_r.
    by rewrite app_nil_r, sapp_nil_r.
Qed.

Lemma spec_ftw_usageError {A} law p m w (Q : outcome A -> list event -> world -> Prop) :
  (forall h es w', died h -> Forall diag es -> Q (Halt h) es w') -> spec law (ftw_usageError p m) w Q.
Proof. intros HD. unfold ftw_usageError. destruct m; spec_run; (apply HD; [done|by repeat constructor]). Qed.

Definition ftw_flag (flags : Z) (opt : ascii) (_ : option string) : Z :=
  if ceqb opt "d" then flags .| FTW_DEPTH else if ceqb opt "m" then flags .| FTW_MOUNT else flags .| FTW_PHYS.
Definition ftw_flags (argv : list string) : Z := opt_fold ftw_flag (fst (getopt_of argv "dmp")) 0.
Definition ftw_path (argv : list string) : string := match snd (getopt_of argv "dmp") with d :: _ => cstr d | [] => "." end.

Definition nftw_post (argv : list string) (o : outcome Z) (es : list event) (_ : world) : Prop :=
  match o with
  | Halt (Exit 0) => (length (snd (getopt_of argv "dmp")) <= 1)%nat
      /\ Lib "nftw" [ftw_path argv] [10; ftw_flags argv] ∈ calls es
      /\ printed Stdout es = String.concat "" (map entry_text (entries es))
  | Halt h => died h
  | Blocked _ => True
  | _ => False
  end.

Lemma spec_nftw_dir_tree law argv w : spec law (nftw_dir_tree_main argv) w (nftw_post argv).
Proof.
  assert (HB : forall c es w', nftw_post argv (Blocked c) es w') by done.
  assert (HD : forall h es w', died h -> nftw_post argv (Halt h) es w') by (by intros [[]|[]| |]).
  unfold nftw_dir_tree_main. spec_step. apply (spec_getopt_loop _ _ _ _ ftw_flag); [intros; apply _|..].
  - intros s c a w1 R HR _ HD'. unfold ftw_option, ftw_flag in *.
    repeat (destruct (ceqb c _); [by apply spec_ret|]). apply spec_ftw_usageError. intros h es w2 Hh Hd. by apply HD'.
  - intros; apply HB.
  - intros h es w1 Hh _. by apply HD.
  - intros es0 w1 Hd0. fold (ftw_flags argv). 
    destruct (1 <? length (snd (getopt_of argv "dmp")))%nat eqn:En; cbn beta iota match.
    { apply spec_ftw_usageError. intros h es w2 Hh _. by apply HD. }
    spec_step. fold (ftw_path argv). apply spec_nftw_walk; [intros; apply HB|].
    intros n es1 w2 Hp Hc Hn. spec_run; [apply HB|by apply HD|]. rewrite app_nil_r.
    assert (H0 : printed Stdout es0 = EmptyString /\ entries es0 = []).
    { clear -Hd0. induction Hd0 as [|[[]|[]|] es He _ [IH1 IH2]]; simpl in *; try done. }
    destruct H0 as [Hp0 He0]. split_and!.
    + apply Nat.ltb_ge in En. exact En.
    + rewrite calls_app. apply elem_of_app. right. destruct (calls es1); [done|]. injection Hc as ->. left.
    + by rewrite printed_app, entries_app, Hp0, He0, Hp.
Qed.


(** ** A file without a name *)

(** [t_unlink]: the name is gone before the first block is written, the blocks are
    all written, and the descriptor is closed between the last two [df]. *)
Definition t_unlink_post (junk : string) (argv : list string) (o : outcome Z) (es : list event) (_ : world) : Prop :=
  match o with
  | Halt (Exit 0) => exists fd n,
      (if argc_of argv >? 2 then num_value GN_GT_0 (argv_opt argv 2) = Some n else n = 100000)
      /\ calls es =
           [Open (cstr (argv_at argv 1)) (O_WRONLY .| O_CREAT .| O_EXCL) (S_IRUSR .| S_IWUSR);
            System (df_command (argv_at argv 1)); Unlink (cstr (argv_at argv 1))]
           ++ repeat (Write fd (ztake UNLINK_BUF_SIZE junk)) (Z.to_nat n)
           ++ [System (df_command (argv_at argv 1)); Close fd; System (df_command (argv_at argv 1))]
  | Halt h => died h
  | Blocked _ => True
  | _ => False
  end.

Lemma concat_repeat_calls {X} (c : call) (l : list X) es : in_parts (fun _ es => calls es = [c]) l es -> calls es = repeat c (length l).
Proof.
  intros (ess & -> & H). induction H as [|x e l ess Hx _ IH]; [done|]. simpl. by rewrite calls_app, Hx, IH.
Qed.

Theorem t_unlink_nameless law junk argv w :
  spec law (t_unlink_main junk argv) w (t_unlink_post junk argv)
  /\ (slen ("df -k `dirname " +:+ cstr (argv_at argv 1) +:+ "`") < UNLINK_CMD_SIZE ->
      df_command (argv_at argv 1) = "df -k `dirname " +:+ cstr (argv_at argv 1) +:+ "`").
Proof.
  split; [|intros H; unfold df_command, snprintf; apply ztake_all; lia].
  assert (HB : forall c es w', t_unlink_post junk argv (Blocked c) es w') by done.
  assert (HD : forall h es w', died h -> t_unlink_post junk argv (Halt h) es w') by (by intros [[]|[]| |]).
  unfold t_unlink_main. spec_step; [die_run HB HD|]. spec_step.
  apply spec_mono with (Q := fun o es w' => match o with
    | Ret n => es = [] /\ (if argc_of argv >? 2 then num_value GN_GT_0 (argv_opt argv 2) = Some n else n = 100000)
    | Halt h => died h | Blocked _ => True | Diverged => False end).
  2: { destruct (argc_of argv >? 2); [by apply spec_getInt|by spec_run]. }
  intros [n|h|c|] es w1; [intros [-> Hn]|intros Hh; by apply HD|intros _; apply HB|by intros []].
  do 2 spec_step; [apply HB|]. spec_step; [die_run HB HD|]. do 4 spec_step. do 2 spec_step; [apply HB|].
  do 2 spec_step; [apply HB|]. spec_step; [die_run HB HD|]. spec_step.
  apply (spec_parts law (fun _ es => calls es = [Write (r_ret r) (ztake UNLINK_BUF_SIZE junk)])).
  - intros; apply _.
  - intros _ w6 R HB' HD' HR'. die_run HB' HD'. by apply HR'.
  - intros; apply HB.
  - intros h es w6 Hh. by apply HD.
  - intros es1 w6 Hes. apply concat_repeat_calls in Hes. rewrite length_seqZ in Hes. die_run HB HD.
    exists (r_ret r), n. split; [done|]. cbn [app calls]. by rewrite !calls_app, Hes.
Qed.
