(* ===== verification/Clocks.v ===== *)
(** * Clocks: calendar time, process time and timers (10-time/, 23-timer/)

    Where a program prints seconds as a floating-point number, [fsecs] stands for
    the text of that conversion: the width, the digits, and the whole seconds and
    the millionths it is computed from. *)

From S2P Require Import Prelude Clib Sys Errors Frame GetNum RdWr Posix Sigs.

(** ** real_timer.c *)

Definition ITIMER_REAL : Z := 0.
Definition CLOCKS_PER_SEC : Z := 1000000.
Definition ALRM_HANDLER : Z := 18.

Section Floats.
Context (fsecs : Z -> Z -> Z -> Z -> string).

(** The static variables [start] and [callNum]. *)
Record times_state := TimesState { start_tv : Z * Z; callNum : Z }.

(** Answers of [gettimeofday] and [getitimer]: the seconds and microseconds (of the
value, then of the interval). *)
Definition tv_of (r : resp) : Z * Z := (r_val 0 r, r_val 1 r).

Definition displayTimes (s : times_state) (msg : string) (includeTimer : bool) : M times_state :=
start ← (if callNum s =? 0 then
       g ← sys Gettimeofday; if r_ret g =? -1 then errExit "gettimeofday" else mret (tv_of g)
     else mret (start_tv s));
_ ← when (Z.rem (callNum s) 20 =? 0) (printf ("       Elapsed   Value Interval" +:+ nl));
c ← sys Gettimeofday;
if r_ret c =? -1 then errExit "gettimeofday" else
let curr := tv_of c in
_ ← printf (rpad 7 msg +:+ " " +:+ fsecs 6 2 (fst curr - fst start) (snd curr - snd start));
_ ← when includeTimer (
  i ← sys (Getitimer ITIMER_REAL);
  if r_ret i =? -1 then errExit "getitimer" else
  printf ("  " +:+ fsecs 6 2 (r_val 0 i) (r_val 1 i) +:+ "  " +:+ fsecs 6 2 (r_val 2 i) (r_val 3 i)));
_ ← printf nl;
mret (TimesState start (wrap_s32 (callNum s + 1))).

(** What the loops carry: the display, [prevClock] and [sigCnt].  An answer of
[clock] also says whether SIGALRM was caught since the last one. *)
Record rt_loop := RtLoop { rt_times : times_state; prevClock : Z; rt_sigCnt : Z; gotAlarm : bool }.
Definition clock_call (s : rt_loop) : M (Z * rt_loop) :=
r ← sys Clock;
mret (r_ret r, RtLoop (rt_times s) (prevClock s) (rt_sigCnt s) (gotAlarm s || (r_val 0 r =? SIGALRM))).

(** The inner loop: until half a second of CPU time is used. *)
Definition consume (maxSigs : Z) (s : rt_loop) : M rt_loop :=
loop (fun s =>
'(c, s) ← clock_call s;
if Z.quot ((c - prevClock s) * 10) CLOCKS_PER_SEC <? 5 then
if gotAlarm s : bool then
  t ← displayTimes (rt_times s) "ALARM:" true;
  let sigCnt := rt_sigCnt s + 1 in
  if sigCnt >=? maxSigs then _ ← printf ("That's all folks" +:+ nl); exit EXIT_SUCCESS
  else mret (inl (RtLoop t (prevClock s) sigCnt false))
else mret (inl s)
else mret (inr s)) s.

Definition long_arg (argv : list string) (j : nat) (name : string) (dflt : Z) : M Z :=
if argc_of argv >? Z.of_nat j then getLong (argv_opt argv j) 0 (Some name) else mret dflt.

Definition real_timer_main (argv : list string) : M Z :=
if (argc_of argv >? 1) && wants_help argv then
usageErr (cstr (argv_at argv 0) +:+ " [secs [usecs [int-secs [int-usecs]]]]" +:+ nl) else
s ← scall (Sigaction SIGALRM ALRM_HANDLER 0 []);
if s =? -1 then errExit "sigaction" else
secs ← long_arg argv 1 "secs" 2;
usecs ← long_arg argv 2 "usecs" 0;
int_secs ← long_arg argv 3 "int-secs" 0;
int_usecs ← long_arg argv 4 "int-usecs" 0;
let maxSigs := if (int_secs =? 0) && (int_usecs =? 0) then 1 else 3 in
t ← displayTimes (TimesState (0, 0) 0) "START:" false;
s ← scall (Setitimer ITIMER_REAL (int_secs, int_usecs) (secs, usecs));
if s =? -1 then errExit "setitimer" else
c ← sys Clock;
loop (fun s =>
s ← consume maxSigs s;
'(c, s) ← clock_call s;
t ← displayTimes (rt_times s) "Main: " true;
mret (inl (RtLoop t c (rt_sigCnt s) (gotAlarm s)))) (RtLoop t (r_ret c) 0 (r_val 0 c =? SIGALRM)).

(** ** t_nanosleep.c *)

Definition NANO_HANDLER : Z := 19.

(** What an interrupted [nanosleep] stores. *)
Definition remain_of (r : resp) : timespec := Timespec (r_val 0 r) (r_val 1 r).

Definition sleep_on (start : Z * Z) (request : timespec) : M unit :=
loop (fun request =>
s ← sys (Nanosleep request);
e ← get_errno;
if (r_ret s =? -1) && negb (e =? EINTR) then errExit "nanosleep" else
f ← sys Gettimeofday;
if r_ret f =? -1 then errExit "gettimeofday" else
let finish := tv_of f in
_ ← printf ("Slept for: " +:+ fsecs 9 6 (fst finish - fst start) (snd finish - snd start) +:+ " secs" +:+ nl);
if r_ret s =? 0 then mret (inr tt) else
let remain := remain_of s in
_ ← printf ("Remaining: " +:+ lpad 2 " " (dec (tv_sec remain)) +:+ "." +:+ lpad 9 "0" (dec (tv_nsec remain)) +:+ nl);
mret (inl remain)) request.

Definition t_nanosleep_main (argv : list string) : M Z :=
if negb (argc_of argv =? 3) || wants_help argv then
usageErr (cstr (argv_at argv 0) +:+ " secs nanosecs" +:+ nl) else
secs ← getLong (argv_opt argv 1) 0 (Some "secs");
nsecs ← getLong (argv_opt argv 2) 0 (Some "nanosecs");
s ← scall (Sigaction SIGINT NANO_HANDLER 0 []);
if s =? -1 then errExit "sigaction" else
g ← sys Gettimeofday;
if r_ret g =? -1 then errExit "gettimeofday" else
_ ← sleep_on (tv_of g) (Timespec secs nsecs);
_ ← printf ("Sleep complete" +:+ nl);
exit EXIT_SUCCESS.

(** ** process_time.c *)

Definition _SC_CLK_TCK : Z := 2.
(** [fticks n d]: [%.2f] of a quotient. *)
Context (fticks : Z -> Z -> string).

(** The static variable [clockTicks] is the argument and the result. *)
Definition displayProcessTimes (clockTicks : Z) (msg : option string) : M Z :=
_ ← match msg with Some m => printf (cstr m) | None => mret tt end;
clockTicks ← (if clockTicks =? 0 then
            n ← scall (Sysconf _SC_CLK_TCK); if n =? -1 then errExit "sysconf" else mret n
          else mret clockTicks);
clockTime ← scall Clock;
if clockTime =? -1 then errExit "clock" else
_ ← printf ("        clock() returns: " +:+ dec clockTime +:+ " clocks-per-sec (" +:+ fticks clockTime CLOCKS_PER_SEC +:+ " secs)" +:+ nl);
t ← sys Times;
if r_ret t =? -1 then errExit "times" else
_ ← printf ("        times() yields: user CPU=" +:+ fticks (r_val 0 t) clockTicks +:+ "; system CPU: "
        +:+ fticks (r_val 1 t) clockTicks +:+ nl);
mret clockTicks.

Definition process_time_main (argv : list string) : M Z :=
n ← scall (Sysconf _SC_CLK_TCK);
_ ← printf ("CLOCKS_PER_SEC=" +:+ dec CLOCKS_PER_SEC +:+ "  sysconf(_SC_CLK_TCK)=" +:+ dec n +:+ nl +:+ nl);
ticks ← displayProcessTimes 0 (Some ("At program start:" +:+ nl));
numCalls ← (if argc_of argv >? 1 then getInt (argv_opt argv 1) GN_GT_0 (Some "num-calls") else mret 100000000);
_ ← for_each (fun _ : Z => _ ← scall Getppid; mret tt) (seqZ 0 numCalls);
_ ← displayProcessTimes ticks (Some ("After getppid() loop:" +:+ nl));
exit EXIT_SUCCESS.

(** ** calendar_time.c *)

(** The year number of a time, [%6.3f]. *)
Context (fyears : Z -> string).

(** A [struct tm] is the list of its nine numbers. *)
Definition tm_text (tm : list Z) : string :=
"  year=" +:+ dec (nth 5 tm 0) +:+ " mon=" +:+ dec (nth 4 tm 0) +:+ " mday=" +:+ dec (nth 3 tm 0)
+:+ " hour=" +:+ dec (nth 2 tm 0) +:+ " min=" +:+ dec (nth 1 tm 0) +:+ " sec=" +:+ dec (nth 0 tm 0) +:+ " ".
Definition day_text (tm : list Z) : string :=
"wday=" +:+ dec (nth 6 tm 0) +:+ " yday=" +:+ dec (nth 7 tm 0) +:+ " isdst=" +:+ dec (nth 8 tm 0) +:+ nl.
(** [%s] of a pointer that may be null. *)
Definition show_text (r : resp) : string := if r_ret r =? 0 then "(null)" else cstr (r_buf r).

Definition calendar_time_main : M Z :=
t ← scall Time;
_ ← printf ("Seconds since the Epoch (1 Jan 1970): " +:+ dec t);
_ ← printf (" (about " +:+ fyears t +:+ " years)" +:+ nl);
g ← sys Gettimeofday;
if r_ret g =? -1 then errExit "gettimeofday" else
_ ← printf ("  gettimeofday() returned " +:+ dec (r_val 0 g) +:+ " secs, " +:+ dec (r_val 1 g) +:+ " microsecs" +:+ nl);
gmp ← sys (Lib "gmtime" [] [t]);
if r_ret gmp =? 0 then errExit "gmtime" else
let gm := r_vals gmp in
_ ← printf ("Broken down by gmtime():" +:+ nl);
_ ← printf (tm_text gm);
_ ← printf (day_text gm);
locp ← sys (Localtime t);
if r_ret locp =? 0 then errExit "localtime" else
let loc := r_vals locp in
_ ← printf ("Broken down by localtime():" +:+ nl);
_ ← printf (tm_text loc);
_ ← printf (day_text loc +:+ nl);
a ← sys (Lib "asctime" [] gm);
_ ← printf ("asctime() formats the gmtime() value as: " +:+ show_text a);
c ← sys (Lib "ctime" [] [t]);
_ ← printf ("ctime() formats the time() value as:     " +:+ show_text c);
m ← scall (Lib "mktime" [] gm);
_ ← printf ("mktime() of gmtime() value:    " +:+ dec m +:+ " secs" +:+ nl);
m ← scall (Lib "mktime" [] loc);
_ ← printf ("mktime() of localtime() value: " +:+ dec m +:+ " secs" +:+ nl);
exit EXIT_SUCCESS.
End Floats.

(** ** show_time.c, strtime.c *)

Definition LC_ALL : Z := 6.
Definition SHOW_BUF_SIZE : Z := 200.
Definition show_time_main : M Z :=
  l ← scall (Lib "setlocale" [""%string] [LC_ALL]);
  if l =? 0 then errExit "setlocale" else
  t ← scall Time;
  c ← sys (Lib "ctime" [] [t]);
  _ ← printf ("ctime() of time() value is:  " +:+ show_text c);
  loc ← sys (Localtime t);
  if r_ret loc =? 0 then errExit "localtime" else
  a ← sys (Lib "asctime" [] (r_vals loc));
  _ ← printf ("asctime() of local time is:  " +:+ show_text a);
  s ← sys (Strftime SHOW_BUF_SIZE "%A, %d %B %Y, %H:%M:%S %Z" (r_vals loc));
  if r_ret s =? 0 then fatal "strftime returned 0" else
  _ ← printf ("strftime() of local time is: " +:+ cstr (r_buf s) +:+ nl);
  exit EXIT_SUCCESS.

Definition SBUF_SIZE : Z := 1000.
(** [tm_isdst] is the last number; [mktime] stores the normalised time. *)
Definition strtime_main (argv : list string) : M Z :=
  if (argc_of argv <? 3) || wants_help argv then
    usageErr (cstr (argv_at argv 0) +:+ " input-date-time in-format [out-format]" +:+ nl) else
  l ← scall (Lib "setlocale" [""%string] [LC_ALL]);
  if l =? 0 then errExit "setlocale" else
  p ← sys (Lib "strptime" [cstr (argv_at argv 1); cstr (argv_at argv 2)] (repeat 0 9));
  if r_ret p =? 0 then fatal "strptime" else
  let tm := <[8%nat := -1]> (r_vals p) in
  m ← sys (Lib "mktime" [] tm);
  _ ← printf ("calendar time (seconds since Epoch): " +:+ dec (r_ret m) +:+ nl);
  let ofmt := if argc_of argv >? 3 then cstr (argv_at argv 3) else "%H:%M:%S %A, %d %B %Y %Z" in
  s ← sys (Strftime SBUF_SIZE ofmt (r_vals m));
  if r_ret s =? 0 then fatal "strftime returned 0" else
  _ ← printf ("strftime() yields: " +:+ cstr (r_buf s) +:+ nl);
  exit EXIT_SUCCESS.

(** ** timed_read.c

    The answers of [alarm] and [read] say whether SIGALRM was caught meanwhile. *)

Definition TIMED_HANDLER : Z := 20.
Definition TIMED_BUF_SIZE : Z := 200.
Definition timed_handler : M unit := printf ("Caught signal" +:+ nl).

(** Turn the timer off and show the result of [read]. *)
Definition timed_report (numRead : Z) (buf : string) : M unit :=
  savedErrno ← get_errno;
  _ ← scall (Alarm 0);
  _ ← set_errno savedErrno;
  if numRead =? -1 then
    e ← get_errno;
    if e =? EINTR then printf ("Read timed out" +:+ nl) else errMsg "read"
  else printf ("Successful read (" +:+ dec numRead +:+ " bytes): " +:+ fmt_prec numRead buf).

Definition timed_read_main (argv : list string) : M Z :=
  if (argc_of argv >? 1) && wants_help argv then
    usageErr (cstr (argv_at argv 0) +:+ " [num-secs [restart-flag]]" +:+ nl) else
  s ← scall (Sigaction SIGALRM TIMED_HANDLER (if argc_of argv >? 2 then SA_RESTART else 0) []);
  if s =? -1 then errExit "sigaction" else
  n ← (if argc_of argv >? 1 then getInt (argv_opt argv 1) GN_NONNEG (Some "num-secs") else mret 10);
  a ← sys (Alarm n);
  _ ← when (r_val 0 a =? SIGALRM) timed_handler;
  r ← sys (Read STDIN_FILENO TIMED_BUF_SIZE);
  _ ← when (r_val 0 r =? SIGALRM) timed_handler;
  _ ← timed_report (r_ret r) (r_buf r);
  exit EXIT_SUCCESS.

#[export] Instance displayTimes_sane f s m b : Sane (displayTimes f s m b).
Proof. unfold displayTimes. apply _. Qed.
#[export] Instance clock_call_sane s : Sane (clock_call s).
Proof. unfold clock_call. apply _. Qed.
#[export] Instance clock_call_uses s : Uses (clock_call s).
Proof. unfold clock_call. apply _. Qed.
#[export] Instance consume_sane f m s : Sane (consume f m s).
Proof. unfold consume. apply _. Qed.
#[export] Instance long_arg_sane a j n d : Sane (long_arg a j n d).
Proof. unfold long_arg. apply _. Qed.
(** ** 10-experimental/tz-stat.c: the loop has no end. *)
Definition tz_stat_main : M Z :=
  _ ← printf ("Greetings!" +:+ nl);
  _ ← forever (A:=unit) (t ← scall Time; _ ← sys (Localtime t); mret tt);
  _ ← printf ("Godspeed, dear friend!" +:+ nl);
  mret 0.
#[export] Instance tz_stat_main_sane : Sane tz_stat_main.
Proof. unfold tz_stat_main. apply _. Qed.

#[export] Instance real_timer_main_sane f a : Sane (real_timer_main f a).
Proof. unfold real_timer_main. apply _. Qed.
#[export] Instance sleep_on_sane f s r : Sane (sleep_on f s r).
Proof. unfold sleep_on. apply _. Qed.
#[export] Instance t_nanosleep_main_sane f a : Sane (t_nanosleep_main f a).
Proof. unfold t_nanosleep_main. apply _. Qed.
#[export] Instance timed_report_sane n b : Sane (timed_report n b).
Proof. unfold timed_report. apply _. Qed.
#[export] Instance timed_read_main_sane a : Sane (timed_read_main a).
Proof. unfold timed_read_main. apply _. Qed.

(** ** [t_nanosleep]: the sleeps continue each other *)

(** The sleeps of a trace, with their answers. *)
Fixpoint sleeps (es : list event) : list (timespec * resp) :=
  match es with
  | [] => []
  | Called (Nanosleep t) r :: es => (t, r) :: sleeps es
  | _ :: es => sleeps es
  end.
Lemma sleeps_app es fs : sleeps (es ++ fs) = sleeps es ++ sleeps fs.
Proof. induction es as [|[[]| |] es IH]; simpl; try done; by rewrite IH. Qed.
Lemma sleeps_diag es : Forall diag es -> sleeps es = [].
Proof. induction 1 as [|[[]| |] es He _ IH]; simpl in *; done. Qed.

(** The first is [request]; each other one is what the one before left, which was
    interrupted; [next] is what is to be slept after them. *)
Inductive continued : timespec -> list (timespec * resp) -> timespec -> Prop :=
  | cont_nil t : continued t [] t
  | cont_more t r l u : r_ret r <> 0 -> continued (remain_of r) l u -> continued t ((t, r) :: l) u.
Lemma continued_snoc t l u r : continued t l u -> r_ret r <> 0 -> continued t (l ++ [(u, r)]) (remain_of r).
Proof. induction 1 as [t|t r0 l u H0 _ IH]; intros Hr; simpl; [by repeat constructor|]. constructor; auto. Qed.

(** The time slept, when each interrupted sleep stores the time that is left. *)
Definition ns (t : timespec) : Z := tv_sec t * 1000000000 + tv_nsec t.
Definition slept (es : list (timespec * resp)) (elapsed : list Z) : Prop :=
  Forall2 (fun '(t, r) d => if r_ret r =? 0 then ns t <= d else ns t - ns (remain_of r) <= d) es elapsed.
Definition total (l : list Z) : Z := fold_right Z.add 0 l.
Lemma total_slept_app l k : total (l ++ k) = total l + total k.
Proof. unfold total. induction l as [|x l IH]; simpl; [done|]. rewrite IH. lia. Qed.
Lemma continued_slept t l u ds : continued t l u -> slept l ds -> ns t - ns u <= total ds.
Proof.
  intros H. revert ds. induction H as [t|t r l u Hr _ IH]; intros ds Hs; inversion Hs as [|? d ? ds' Hd Hs']; subst; simpl; [lia|].
  apply Z.eqb_neq in Hr. rewrite Hr in Hd. specialize (IH _ Hs'). lia.
Qed.

Definition nano_post (request : timespec) (o : outcome unit) (es : list event) : Prop :=
  match o with
  | Ret _ => exists l t r, sleeps es = l ++ [(t, r)] /\ continued request l t /\ r_ret r = 0
  | Blocked (Nanosleep t) => exists l, sleeps es = l /\ continued request l t
  | Blocked _ => True
  | Halt h => died h
  | Diverged => False
  end.

Lemma spec_sleep_on fsecs law start request w :
  spec law (sleep_on fsecs start request) w (fun o es _ => nano_post request o es).
Proof.
  unfold sleep_on. apply spec_loop with (I := fun t es _ => continued request (sleeps es) t);
    [intros; apply _|intros; apply _|constructor|].
  intros t es w1 Hc.
  spec_run; cbn [pass]; try (apply spec_dies_in; [apply _|intros c ? ? Hd _; by destruct c|done]); try done.
  - rewrite app_nil_r. by exists (sleeps es).
  - exists (sleeps es), t, r. rewrite sleeps_app. cbn [app sleeps]. zbool. by split_and!.
  - rewrite sleeps_app. cbn [app sleeps]. zbool. by apply continued_snoc.
Qed.

Definition nano_main_post (argv : list string) (o : outcome Z) (es : list event) (_ : world) : Prop :=
  match o with
  | Halt (Exit 0) => exists secs nsecs l t r,
      num_value 0 (argv_opt argv 1) = Some secs /\ num_value 0 (argv_opt argv 2) = Some nsecs
      /\ sleeps es = l ++ [(t, r)] /\ continued (Timespec secs nsecs) l t /\ r_ret r = 0
      /\ forall ds, slept (sleeps es) ds -> secs * 1000000000 + nsecs <= total ds
  | Halt h => died h
  | Blocked _ => True
  | _ => False
  end.

Lemma spec_t_nanosleep fsecs law argv w : spec law (t_nanosleep_main fsecs argv) w (nano_main_post argv).
Proof.
  assert (HB : forall c es w', nano_main_post argv (Blocked c) es w') by done.
  assert (HD : forall h es w', died h -> nano_main_post argv (Halt h) es w') by (by intros [[]|[]| |]).
  unfold t_nanosleep_main, getLong. spec_step; [die_run HB HD|].
  spec_step. apply spec_getNum; [|intros; by apply HD]. intros secs w1 H1.
  spec_step. apply spec_getNum; [|intros; by apply HD]. intros nsecs w2 H2.
  do 2 spec_step; [apply HB|]. spec_step; [die_run HB HD|]. do 2 spec_step; [apply HB|]. spec_step; [die_run HB HD|].
  spec_step. eapply spec_mono; [|apply spec_sleep_on]. cbn beta. intros o es w5 Ho.
  destruct o as [[]|h|c|]; [|by apply HD|apply HB|by destruct Ho].
  destruct Ho as (l & t & r1 & Hs & Hc & Hr). spec_run. rewrite app_nil_r. cbn [app].
  assert (Hs' : forall tl, sleeps tl = [] -> sleeps (es ++ tl) = l ++ [(t, r1)]) by (intros tl Htl; by rewrite sleeps_app, Hs, Htl, app_nil_r).
  exists secs, nsecs, l, t, r1. cbn [sleeps]. rewrite Hs' by done. split_and!; try done.
  intros ds (d1 & d2 & Hd1 & Hd2 & ->)%Forall2_app_inv_l. rewrite total_slept_app.
  inversion Hd2 as [|? d ? ds' Hd Hn]; subst. inversion Hn; subst. rewrite Hr in Hd. simpl in Hd |- *.
  pose proof (continued_slept _ _ _ _ Hc Hd1) as Hle. unfold ns in Hle at 1. simpl in Hle. unfold total in *. simpl. lia.
Qed.

(** ** [timed_read] *)

Definition shown (e : event) : Prop := diag e \/ exists st s, e = Printed st s.
Definition timed_text (r : resp) : string :=
  if negb (r_ret r =? -1) then "Successful read (" +:+ dec (r_ret r) +:+ " bytes): " +:+ fmt_prec (r_ret r) (r_buf r)
  else if r_err r =? EINTR then "Read timed out" +:+ nl else "".

Lemma spec_timed_report law r w (Q : outcome unit -> list event -> world -> Prop) :
  (r_ret r = -1 -> errno w = r_err r) ->
  (forall c es w', Q (Blocked c) es w') ->
  (forall z es w', Forall shown es -> printed Stdout es = timed_text r ->
     Q (Ret tt) (Called (Alarm 0) z :: es) w') ->
  spec law (timed_report (r_ret r) (r_buf r)) w Q.
Proof.
  intros Herr HB HR. unfold timed_report, timed_text in *.
  assert (Hp : forall s, Forall shown [Printed Stdout s]) by (intros s; constructor; [right; eauto|constructor]).
  spec_run; try apply HB.
  - apply HR; [apply Hp|]. apply Z.eqb_eq in Heqb. rewrite <- Herr, <- He0, Heqb by done. by rewrite Heqb0.
  - apply spec_errMsg; [apply HB|]. intros es w2 _ Hd. apply Z.eqb_eq in Heqb. apply HR.
    + eapply Forall_impl; [exact Hd|]. intros e. by left.
    + rewrite printed_diag by done. rewrite <- Herr, <- He0, Heqb by done. by rewrite Heqb0.
  - apply HR; [apply Hp|]. try rewrite Heqb. simpl. by rewrite sapp_nil_r.
Qed.

(** The calls of [timed_read]: the handler, then the timer, then the one read, then the
    timer off; what it says afterwards is what the read answered. *)
Definition timed_seconds (argv : list string) (n : Z) : Prop :=
  if argc_of argv >? 1 then num_value GN_NONNEG (argv_opt argv 1) = Some n else n = 10.
Definition timed_post (argv : list string) (o : outcome Z) (es : list event) (_ : world) : Prop :=
  match o with
  | Halt (Exit 0) => exists n s a r z k1 k2 tl, timed_seconds argv n
      /\ es = [Called (Sigaction SIGALRM TIMED_HANDLER (if argc_of argv >? 2 then SA_RESTART else 0) []) s;
               Called (Alarm n) a] ++ k1 ++ Called (Read STDIN_FILENO TIMED_BUF_SIZE) r :: k2
              ++ Called (Alarm 0) z :: tl
      /\ Forall shown (k1 ++ k2 ++ tl) /\ printed Stdout tl = timed_text r
  | Halt h => died h
  | Blocked _ => True
  | _ => False
  end.
Lemma spec_timed_handler law b w (Q : outcome unit -> list event -> world -> Prop) :
  (forall k w', Forall shown k -> errno w' = errno w -> Q (Ret tt) k w') -> spec law (when b timed_handler) w Q.
Proof.
  intros HR. unfold when, timed_handler. spec_run; apply HR; try done.
  constructor; [right; eauto|constructor].
Qed.

Lemma spec_timed_read argv w : spec posix_io (timed_read_main argv) w (timed_post argv).
Proof.
  assert (HB : forall c es w', timed_post argv (Blocked c) es w') by done.
  assert (HD : forall h es w', died h -> timed_post argv (Halt h) es w') by (by intros [[]|[]| |]).
  unfold timed_read_main. spec_step; [die_run HB HD|]. do 2 spec_step; [apply HB|]. spec_step; [die_run HB HD|].
  spec_step. apply spec_mono with (Q := fun o es _ =>
    match o with Ret n => es = [] /\ timed_seconds argv n | Halt h => died h | Blocked _ => True | Diverged => False end); cycle 1.
  { unfold timed_seconds. destruct (argc_of argv >? 1); [|by spec_step].
    apply spec_getInt; [|intros; by cbn]. intros n w2 Hn _. by split. }
  intros [n|h|c|] es1 w2; [intros [-> Hn]|intros Hh; by apply HD|intros _; apply HB|by intros []].
  do 2 spec_step; [apply HB|]. spec_step. apply spec_timed_handler. intros k1 w4 Hk1 _.
  do 2 spec_step; [apply HB|]. spec_step. apply spec_timed_handler. intros k2 w6 Hk2 He6.
  spec_step. apply spec_timed_report; [|intros; apply HB|].
  - intros Hr. rewrite He6, He1. unfold errno_after. cbn in Hlaw1. destruct (r_err r1 =? 0) eqn:E; zbool; lia.
  - intros z tl w7 Htl Hp. spec_run. cbn [app].
    exists n, r, r0, r1, z, k1, k2, tl. rewrite ?app_nil_r, <- ?app_assoc. cbn [app]. split_and!; try done.
    rewrite !Forall_app. by split_and!.
Qed.

(** ** The property *)


(** [tz-stat] never gets to its farewell: however long it runs, it has greeted and is
    asking for the time. *)
Lemma tz_stat_endless law w : spec law tz_stat_main w (fun o es _ =>
  (exists c, o = Blocked c) /\ printed Stdout es = "Greetings!" +:+ nl).
Proof.
  assert (Hg : forall fs, printed Stdout fs = "" -> printed Stdout (Printed Stdout ("Greetings!" +:+ nl) :: fs) = "Greetings!" +:+ nl).
  { intros fs Hf. cbn [printed]. by rewrite decide_True, Hf, sapp_nil_r. }
  unfold tz_stat_main. do 4 spec_step. spec_step.
  apply spec_forever with (I := fun es _ => printed Stdout es = ""); [apply _|apply _|done|].
  intros es w1 Hp. spec_run; cbn [pass app]; [split; [by eexists|]; apply Hg..|]; by rewrite printed_app, Hp.
Qed.
