(* ===== verification/Buffering.v ===== *)
(** * Buffering: what reaches the file, and when
    (13-io-buffering, 13-experimental, 25-process-exit/fork_stdio_buf.c, 3)

    Programs that mix [printf] with [write], that write one file through two
    descriptors, and that read or write in blocks.  The text printed stays in the
    buffer of stdio until it is flushed; what a file holds is computed from a trace. *)

From S2P Require Import Prelude Clib Sys Errors Frame GetNum Posix.

(** ** stdio *)

Definition perror (s : string) : M unit :=
  e ← get_errno;
  t ← sys (Strerror e);
  fputs Stderr (cstr s +:+ ": " +:+ cstr (r_buf t) +:+ nl).

(** mix23_linebuff.c *)
Definition mix23_linebuff_main : M Z :=
  _ ← printf ("If I had more time, " +:+ nl);
  _ ← scall (Write STDOUT_FILENO ("I would have written you a shorter letter." +:+ nl));
  exit EXIT_SUCCESS.

(** fork_stdio_buf.c: parent and child both run the last line. *)
Definition fork_stdio_buf_main : M Z :=
  _ ← printf ("Hello world" +:+ nl);
  _ ← scall (Write STDOUT_FILENO ("Ciao" +:+ nl));
  childPid ← scall Fork;
  if childPid =? -1 then errExit "fork" else
  exit EXIT_SUCCESS.

(** stdio-buffering.c *)
Definition stdio_buffering_main : M Z :=
  p ← scall Getpid;
  _ ← fputs Stderr (dec p +:+ nl);
  _ ← loop (fun _ : unit =>
        l ← sys (Fgets 1024 Stdin);
        if negb (r_ret l =? 0) then _ ← printf (cstr (r_buf l)); mret (inl tt) else mret (inr tt)) tt;
  _ ← scall Pause;
  exit EXIT_SUCCESS.

(** ** Offsets *)

(** lseek-stdout.c *)
Definition lseek_stdout_main : M Z :=
  s ← scall (Lseek 1 10 SEEK_SET);
  if s =? -1 then _ ← perror "lseek"; exit 1 else
  _ ← scall (Write 1 "hoge");
  exit EXIT_SUCCESS.

Definition to_stdout : string := "stdout" +:+ nl.
Definition to_stderr : string := "stderr" +:+ nl.
Definition write_both (_ : Z) : M unit :=
  _ ← scall (Write STDOUT_FILENO to_stdout);
  _ ← scall (Write STDERR_FILENO to_stderr);
  mret tt.

(** redirect-stdout-stderr-buffring.c *)
Definition redirect_main : M Z :=
  _ ← for_each write_both (seqZ 0 1000);
  exit EXIT_SUCCESS.

Definition FILENAME : string := "./logging".
Definition LOG_FLAGS : Z := O_WRONLY .| O_CREAT .| O_TRUNC.
Definition LOG_MODE : Z := 511.      (* 0777 *)

(** [open(FILENAME, oflags, 0777)], then [perror] for a failure, which is not fatal. *)
Definition open_log (name : string) : M Z :=
  fd ← scall (Open FILENAME LOG_FLAGS LOG_MODE);
  _ ← when (fd =? -1) (perror name);
  mret fd.
Definition move_fd (fd std : Z) : M unit :=
  if negb (fd =? std) then
    _ ← scall (Dup2 fd std);
    _ ← scall (Close fd);
    mret tt
  else mret tt.
Definition fork_writer : M Z :=
  pid ← scall Fork;
  if pid =? 0 then _ ← for_each write_both (seqZ 0 1000); quick_exit 0 else
  _ ← scall Wait;
  exit EXIT_SUCCESS.

(** redirect-stdout-stderr-buffring2.c: the file is opened twice. *)
Definition redirect2_main : M Z :=
  f1 ← open_log "f1";
  f2 ← open_log "f2";
  _ ← move_fd f1 STDOUT_FILENO;
  _ ← move_fd f2 STDERR_FILENO;
  fork_writer.

(** redirect-stdout-stderr-buffring3.c: the file is opened once, and duplicated. *)
Definition redirect3_main : M Z :=
  f1 ← open_log "f1";
  _ ← move_fd f1 STDOUT_FILENO;
  _ ← scall (Dup2 STDOUT_FILENO STDERR_FILENO);
  fork_writer.

(** ** Blocks *)

(** 3/read-contextswitch.c *)
Definition read_contextswitch_main : M Z :=
  fd ← scall (Open "./out" O_RDONLY 0);
  if fd =? -1 then _ ← perror "open failed"; exit 1 else
  _ ← for_each (fun _ : Z =>
        n ← scall (Read fd 1);
        if n =? -1 then _ ← perror "read failed"; exit 1 else mret tt) (seqZ 0 1000);
  mret 0.

(** 3/bench-syscall.c *)
Definition bench_syscall_main : M Z :=
  _ ← for_each (fun _ : Z => _ ← scall (Sleep 1); mret tt) (seqZ 0 10);
  mret 0.

(** write_bytes.c, without its macros.  [junk] is the block [malloc] returns, which
    the program writes without initialising it; the sizes are [size_t]. *)
Definition write_bytes_main (junk : string) (argv : list string) : M Z :=
  if negb (argc_of argv =? 4) || wants_help argv then
    usageErr (cstr (argv_at argv 0) +:+ " file num-bytes buf-size" +:+ nl) else
  numBytes ← getLong (argv_opt argv 2) GN_GT_0 (Some "num-bytes");
  bufSize ← getLong (argv_opt argv 3) GN_GT_0 (Some "buf-size");
  b ← scall (Malloc bufSize);
  if b =? 0 then errExit "malloc" else
  fd ← scall (Open (cstr (argv_at argv 1)) (O_CREAT .| O_WRONLY) (S_IRUSR .| S_IWUSR));
  if fd =? -1 then errExit "open" else
  _ ← loop (fun totWritten =>
        if totWritten <? numBytes then
          let thisWrite := Z.min bufSize (numBytes - totWritten) in
          n ← scall (Write fd (ztake thisWrite junk));
          if negb (n =? thisWrite) then fatal "partial/failed write"
          else mret (inl (totWritten + thisWrite))
        else mret (inr tt)) 0;
  c ← scall (Close fd);
  if c =? -1 then errExit "close" else
  exit EXIT_SUCCESS.

(** direct_read.c: [memalign] is a library call; its sizes are [size_t]. *)
Definition direct_read_main (argv : list string) : M Z :=
  if (argc_of argv <? 3) || wants_help argv then
    usageErr (cstr (argv_at argv 0) +:+ " file length [offset [alignment]]" +:+ nl) else
  length ← getLong (argv_opt argv 2) GN_ANY_BASE (Some "length");
  offset ← (if argc_of argv >? 3 then getLong (argv_opt argv 3) GN_ANY_BASE (Some "offset") else mret 0);
  alignment ← (if argc_of argv >? 4 then getLong (argv_opt argv 4) GN_ANY_BASE (Some "alignment") else mret 4096);
  fd ← scall (Open (cstr (argv_at argv 1)) (O_RDONLY .| O_DIRECT) 0);
  if fd =? -1 then errExit "open" else
  buf ← scall (Lib "memalign" [] [wrap_u64 (alignment * 2); wrap_u64 (length + alignment)]);
  if buf =? 0 then errExit "memalign" else
  s ← scall (Lseek fd offset SEEK_SET);
  if s =? -1 then errExit "lseek" else
  numRead ← scall (Read fd (wrap_u64 length));
  if numRead =? -1 then errExit "read" else
  _ ← printf ("Read " +:+ dec numRead +:+ " bytes" +:+ nl);
  exit EXIT_SUCCESS.

#[export] Instance perror_sane s : Sane (perror s).
Proof. unfold perror. apply _. Qed.
#[export] Instance perror_calm s : Calm (perror s).
Proof. unfold perror. apply _. Qed.
#[export] Instance write_both_sane j : Sane (write_both j).
Proof. unfold write_both. apply _. Qed.
#[export] Instance open_log_sane s : Sane (open_log s).
Proof. unfold open_log. apply _. Qed.
#[export] Instance move_fd_sane a b : Sane (move_fd a b).
Proof. unfold move_fd. apply _. Qed.
#[export] Instance fork_writer_sane : Sane fork_writer.
Proof. unfold fork_writer. apply _. Qed.
#[export] Instance mix23_linebuff_main_sane : Sane mix23_linebuff_main.
Proof. unfold mix23_linebuff_main. apply _. Qed.
#[export] Instance fork_stdio_buf_main_sane : Sane fork_stdio_buf_main.
Proof. unfold fork_stdio_buf_main. apply _. Qed.
#[export] Instance redirect2_main_sane : Sane redirect2_main.
Proof. unfold redirect2_main. apply _. Qed.
#[export] Instance redirect3_main_sane : Sane redirect3_main.
Proof. unfold redirect3_main. apply _. Qed.
#[export] Instance write_bytes_main_sane j a : Sane (write_bytes_main j a).
Proof. unfold write_bytes_main. apply _. Qed.
#[export] Instance direct_read_main_sane a : Sane (direct_read_main a).
Proof. unfold direct_read_main. apply _. Qed.

(** ** The buffer of stdout *)

(** Buffered until the process exits, or until a line ends; short texts only, which
    do not fill the buffer. *)
Inductive buffering := FullBuffer | LineBuffer.

(** The text up to and with the last newline, and the rest. *)
Fixpoint split_line (s : string) : string * string :=
  match s with
  | EmptyString => ("", "")%string
  | String c s =>
      let '(a, b) := split_line s in
      match a with
      | EmptyString => if ceqb c "010" then (String c "", b) else ("", String c b)
      | _ => (String c a, b)
      end
  end%string.

(** The text pending in the buffer and what the process has written to descriptor 1.
    A child has a copy of the buffer and has written nothing itself. *)
Record stdio := Stdio { pending : string; written : string }.
Definition stdio_after (m : buffering) (s : stdio) (e : event) : stdio :=
  match e with
  | Printed Stdout t =>
      match m with
      | FullBuffer => Stdio (pending s +:+ t) (written s)
      | LineBuffer => let '(a, b) := split_line (pending s +:+ t) in Stdio b (written s +:+ a)
      end
  | Flushed Stdout => Stdio "" (written s +:+ pending s)
  | Called (Write fd d) r => if fd =? 1 then Stdio (pending s) (written s +:+ ztake (r_ret r) d) else s
  | Called Fork r => if r_ret r =? 0 then Stdio (pending s) "" else s
  | _ => s
  end.
(** [exit] flushes the buffer, [_exit] does not. *)
Definition wrote {A} (m : buffering) (o : outcome A) (es : list event) : string :=
  let s := fold_left (stdio_after m) es (Stdio "" "") in
  match o with Halt (Exit _) => written s +:+ pending s | _ => written s end.

(** Every [write] takes all its bytes. *)
Definition full_writes (c : call) (r : resp) : Prop :=
  match c with Write _ d => r_ret r = slen d | _ => True end.

Definition shorter_letter : string := "I would have written you a shorter letter." +:+ nl.
Definition mix23_post (o : outcome Z) (es : list event) (_ : world) : Prop :=
  match o with
  | Halt (Exit 0) =>
      wrote LineBuffer o es = "If I had more time, " +:+ nl +:+ shorter_letter
      /\ wrote FullBuffer o es = shorter_letter +:+ "If I had more time, " +:+ nl
  | Blocked _ => True
  | _ => False
  end.

Lemma spec_mix23 w : spec full_writes mix23_linebuff_main w mix23_post.
Proof. unfold mix23_linebuff_main. spec_run; [done|]. cbn in Hlaw. cbn. rewrite Hlaw. by split. Qed.

(** Parent and child together: what the file holds is the parent's output, then the
    child's, when the parent ends first. *)
Definition stdio_fork_post (o : outcome Z) (es : list event) (_ : world) : Prop :=
  match o with
  | Halt (Exit 0) => exists p r, es = p ++ [Called Fork r] /\
      (if r_ret r =? 0
       then wrote LineBuffer o es = EmptyString /\ wrote FullBuffer o es = "Hello world" +:+ nl
       else wrote LineBuffer o es = "Hello world" +:+ nl +:+ "Ciao" +:+ nl
            /\ wrote FullBuffer o es = "Ciao" +:+ nl +:+ "Hello world" +:+ nl)
  | Halt h => died h
  | Blocked _ => True
  | _ => False
  end.
Lemma spec_stdio_fork w : spec full_writes fork_stdio_buf_main w stdio_fork_post.
Proof.
  assert (HB : forall c es w', stdio_fork_post (Blocked c) es w') by done.
  assert (HD : forall h es w', died h -> stdio_fork_post (Halt h) es w') by (by intros [[]|[]| |]).
  unfold fork_stdio_buf_main. die_run HB HD.
  cbn in Hlaw. eexists [_; _], r0. split; [done|]. cbn. rewrite Hlaw. by destruct (r_ret r0 =? 0).
Qed.

(** ** One file behind two descriptors

    The descriptors of a process refer to open file descriptions; a description of
    the log has an offset of its own.  [open] with O_TRUNC empties the file and
    creates a description, [dup2] shares one, [write] writes at the offset and
    advances it. *)

Inductive target := Elsewhere | Log (id : nat).
Record logfile := LogFile { content : string; offset : nat -> Z; opened : nat; table : Z -> option target }.

(** [None]: not what the kernel answers to a call that succeeds. *)
Definition log_after (k : logfile) (e : event) : option logfile :=
  match e with
  | Called (Open _ _ _) r =>
      match table k (r_ret r) with
      | None => if r_ret r <? 0 then None else
          Some (LogFile EmptyString (fun i => if decide (i = opened k) then 0 else offset k i) (S (opened k))
                  (fun fd => if fd =? r_ret r then Some (Log (opened k)) else table k fd))
      | Some _ => None
      end
  | Called (Dup2 a b) r =>
      match table k a with
      | Some t => if r_ret r =? b then
                    Some (LogFile (content k) (offset k) (opened k) (fun fd => if fd =? b then Some t else table k fd))
                  else None
      | None => None
      end
  | Called (Close a) r => Some (LogFile (content k) (offset k) (opened k) (fun fd => if fd =? a then None else table k fd))
  | Called (Write fd d) r =>
      if negb (r_ret r =? slen d) then None else
      match table k fd with
      | Some (Log i) =>
          let o := offset k i in
          Some (LogFile (ztake o (content k) +:+ d +:+ zdrop (o + slen d) (content k))
                  (fun j => if decide (j = i) then o + slen d else offset k j) (opened k) (table k))
      | Some Elsewhere => Some k
      | None => None
      end
  | _ => Some k
  end.
Fixpoint log_run (k : logfile) (es : list event) : option logfile :=
  match es with
  | [] => Some k
  | e :: es => match log_after k e with Some k' => log_run k' es | None => None end
  end.
Lemma log_run_app k es fs : log_run k (es ++ fs) = match log_run k es with Some k' => log_run k' fs | None => None end.
Proof. revert k. induction es as [|e es IH]; intros k; simpl; [done|]. by destruct (log_after k e). Qed.

(** Descriptors 0, 1 and 2 are open on something else at first. *)
Definition log_start : logfile :=
  LogFile EmptyString (fun _ => 0) 0 (fun fd => if (0 <=? fd) && (fd <=? 2) then Some Elsewhere else None).

Fixpoint repeated (n : nat) (s : string) : string :=
  match n with O => EmptyString | S n => s +:+ repeated n s end.
Lemma repeated_snoc n s : repeated n s +:+ s = repeated (S n) s.
Proof. induction n as [|n IH]; cbn [repeated]; [by rewrite sapp_nil_r|]. by rewrite <- sapp_assoc, IH. Qed.
Lemma slen_repeated n s : slen (repeated n s) = Z.of_nat n * slen s.
Proof. induction n as [|n IH]; [done|]. cbn [repeated]. rewrite slen_app, IH. lia. Qed.

(** Writing at the end of a file appends; writing over the last bytes replaces them. *)
Lemma write_at_end c d : ztake (slen c) c +:+ d +:+ zdrop (slen c + slen d) c = c +:+ d.
Proof. rewrite ztake_all, zdrop_all, sapp_nil_r; [done|pose proof (slen_nonneg d); lia|lia]. Qed.
Lemma write_over c d d' : slen d = slen d' ->
  ztake (slen c) (c +:+ d) +:+ d' +:+ zdrop (slen c + slen d') (c +:+ d) = c +:+ d'.
Proof. intros H. rewrite ztake_app, zdrop_all, sapp_nil_r; [done|]. rewrite slen_app. lia. Qed.

(** The calls of [write_both], with their answers. *)
Definition boths (rs : list (resp * resp)) : list event :=
  flat_map (fun p => [Called (Write STDOUT_FILENO to_stdout) p.1; Called (Write STDERR_FILENO to_stderr) p.2]) rs.

Lemma spec_write_both law l w (Q : outcome unit -> list event -> world -> Prop) :
  (forall c es w', Q (Blocked c) es w') ->
  (forall rs w', length rs = length l -> Q (Ret tt) (boths rs) w') ->
  spec law (for_each write_both l) w Q.
Proof.
  intros HB HR. unfold for_each. revert w Q HB HR. induction l as [|x l IH]; intros w Q HB HR; cbn [fold_m].
  - spec_run. by apply (HR []).
  - spec_step. unfold write_both at 1. do 2 spec_step; [apply HB|]. do 2 spec_step; [apply HB|].
    spec_step. cbn [app]. apply IH; [intros; apply HB|]. intros rs w2 Hl.
    apply (HR ((r, r0) :: rs)). simpl. by rewrite Hl.
Qed.

Record log_at (k : logfile) (i j : nat) (o o' : Z) (c : string) : Prop := LogAt {
  at_out : table k STDOUT_FILENO = Some (Log i); at_err : table k STDERR_FILENO = Some (Log j);
  at_oi : offset k i = o; at_oj : offset k j = o'; at_content : content k = c }.

(** One round, by two descriptions and by one. *)
Lemma write_log k fd d r i k' : table k fd = Some (Log i) -> log_after k (Called (Write fd d) r) = Some k' ->
  k' = LogFile (ztake (offset k i) (content k) +:+ d +:+ zdrop (offset k i + slen d) (content k))
         (fun j => if decide (j = i) then offset k i + slen d else offset k j) (opened k) (table k).
Proof. cbn. intros ->. destruct (negb _); [done|]. by intros [= <-]. Qed.

Lemma boths_cons p rs k k' : log_run k (boths (p :: rs)) = Some k' ->
  exists k1 k2, log_after k (Called (Write STDOUT_FILENO to_stdout) p.1) = Some k1
    /\ log_after k1 (Called (Write STDERR_FILENO to_stderr) p.2) = Some k2 /\ log_run k2 (boths rs) = Some k'.
Proof.
  change (boths (p :: rs)) with ([Called (Write STDOUT_FILENO to_stdout) p.1; Called (Write STDERR_FILENO to_stderr) p.2] ++ boths rs).
  rewrite log_run_app. cbn [log_run]. destruct (log_after k _) as [k1|] eqn:E1; [|done].
  destruct (log_after k1 _) as [k2|] eqn:E2; [|done]. intros H. by exists k1, k2.
Qed.

Lemma boths_apart i j c rs k k' : i <> j -> log_at k i j (slen c) (slen c) c ->
  log_run k (boths rs) = Some k' -> content k' = c +:+ repeated (length rs) to_stderr.
Proof.
  intros Hij. revert c k. induction rs as [|p rs IH]; intros c k [Ho He Hi Hj Hc].
  - intros [= <-]. by rewrite sapp_nil_r.
  - intros (k1 & k2 & H1 & H2 & H)%boths_cons.
    apply write_log with (i := i) in H1; [|done]. subst k1. apply write_log with (i := j) in H2; [|done]. subst k2.
    cbn [length repeated]. rewrite sapp_assoc. eapply IH; [|exact H]. cbn [table offset content] in *.
    rewrite decide_False by congruence. rewrite Hi, Hj, Hc, write_at_end.
    replace (slen c + slen to_stderr) with (slen (c +:+ to_stderr)) by (by rewrite slen_app).
    split; cbn [table offset content]; try done.
    + rewrite decide_False, decide_True by congruence. by rewrite slen_app.
    + by rewrite decide_True.
    + rewrite slen_app. by rewrite write_over.
Qed.

Lemma boths_together i c rs k k' : log_at k i i (slen c) (slen c) c ->
  log_run k (boths rs) = Some k' -> content k' = c +:+ repeated (length rs) (to_stdout +:+ to_stderr).
Proof.
  revert c k. induction rs as [|p rs IH]; intros c k [Ho He Hi _ Hc].
  - intros [= <-]. by rewrite sapp_nil_r.
  - intros (k1 & k2 & H1 & H2 & H)%boths_cons.
    apply write_log with (i := i) in H1; [|done]. subst k1. apply write_log with (i := i) in H2; [|done]. subst k2.
    cbn [length repeated]. rewrite sapp_assoc. eapply IH; [|exact H]. cbn [table offset content] in *.
    rewrite !decide_True, Hi, Hc, write_at_end, <- slen_app, write_at_end by done.
    split; cbn [table offset content]; rewrite ?decide_True by done; try done; by rewrite ?slen_app, ?sapp_assoc, ?Z.add_assoc.
Qed.

(** ** The two logs *)

Definition logged (per_round : string) (o : outcome Z) (es : list event) (_ : world) : Prop :=
  match o with
  | Halt (QuickExit 0) => forall k, log_run log_start es = Some k -> content k = repeated 1000 per_round
  | Halt h => h = Exit 0
  | Blocked _ => True
  | _ => False
  end.

(** After the descriptors are set up the writer fills the file. *)
Lemma spec_fork_writer law per_round pre w (Q : outcome Z -> list event -> world -> Prop) :
  (forall c es w', Q (Blocked c) es w') -> (forall es w', Q (Halt (Exit 0)) es w') ->
  (forall rs k k1, length rs = 1000%nat -> log_run log_start pre = Some k -> log_run k (boths rs) = Some k1 ->
     content k1 = repeated 1000 per_round) ->
  (forall es w', (forall k, log_run log_start (pre ++ es) = Some k -> content k = repeated 1000 per_round) ->
     Q (Halt (QuickExit 0)) es w') ->
  spec law fork_writer w Q.
Proof.
  intros HB HE Hk HQ. unfold fork_writer. do 2 spec_step; [apply HB|]. spec_step.
  - spec_step. apply spec_write_both; [intros; apply HB|]. intros rs w2 Hl. spec_run. apply HQ. rewrite app_nil_r.
    intros k. change ([Called Fork r] ++ boths rs) with (Called Fork r :: boths rs).
    rewrite log_run_app. destruct (log_run log_start pre) as [k0|] eqn:E; [|done]. cbn [log_run log_after].
    intros H. by eapply Hk.
  - spec_run; [apply HB|apply HE].
Qed.

Lemma spec_open_log law name w (Q : outcome Z -> list event -> world -> Prop) :
  (forall c es w', Q (Blocked c) es w') ->
  (forall r es w', (forall k, log_run k es = log_run k [Called (Open FILENAME LOG_FLAGS LOG_MODE) r]) -> Q (Ret (r_ret r)) es w') ->
  spec law (open_log name) w Q.
Proof.
  intros HB HR. unfold open_log, perror. spec_run; try apply HB; apply HR; intros k; rewrite ?app_nil_r; [|done].
  rewrite log_run_app. cbn. by repeat case_match.
Qed.
Lemma spec_move_fd law fd std w (Q : outcome unit -> list event -> world -> Prop) :
  (forall c es w', Q (Blocked c) es w') ->
  (forall es w', (fd = std /\ es = [] \/ exists r r', es = [Called (Dup2 fd std) r; Called (Close fd) r']) -> Q (Ret tt) es w') ->
  spec law (move_fd fd std) w Q.
Proof.
  intros HB HR. unfold move_fd. destruct (fd =? std) eqn:E; cbn [negb]; spec_run; try apply HB; apply HR; zbool; [by left|].
  right. by eexists _, _.
Qed.

(** What the calls that succeed do to the tables. *)
Lemma open_after k r k' : log_after k (Called (Open FILENAME LOG_FLAGS LOG_MODE) r) = Some k' ->
  table k (r_ret r) = None /\ 0 <= r_ret r
  /\ k' = LogFile EmptyString (fun i => if decide (i = opened k) then 0 else offset k i) (S (opened k))
            (fun fd => if fd =? r_ret r then Some (Log (opened k)) else table k fd).
Proof. cbn. destruct (table k (r_ret r)); [done|]. destruct (r_ret r <? 0) eqn:E; [done|]. intros [= <-]. zbool. split_and!; [done|lia|done]. Qed.
Lemma dup_after k a b r t k' : log_after k (Called (Dup2 a b) r) = Some k' -> table k a = Some t ->
  k' = LogFile (content k) (offset k) (opened k) (fun fd => if fd =? b then Some t else table k fd).
Proof. intros H Ht. cbn in H. rewrite Ht in H. destruct (r_ret r =? b); [|done]. by injection H. Qed.
Lemma start_closed fd : table log_start fd = None -> 0 <= fd -> 3 <= fd.
Proof. cbn. destruct ((0 <=? fd) && (fd <=? 2)) eqn:E; [done|]. intros _ H. apply andb_false_iff in E as [E|E]; zbool; lia. Qed.

(** A descriptor moved to 1 or 2. *)
Lemma moved k fd std es t k' : fd = std /\ es = [] \/ (exists r r', es = [Called (Dup2 fd std) r; Called (Close fd) r']) ->
  3 <= fd -> 0 <= std <= 2 -> table k fd = Some t -> log_run k es = Some k' ->
  content k' = content k /\ offset k' = offset k /\ opened k' = opened k
  /\ forall x, table k' x = if x =? fd then None else if x =? std then Some t else table k x.
Proof.
  intros [[-> _]|(r & r' & ->)] Hfd Hstd Ht; [lia|]. cbn [log_run]. destruct (log_after k _) as [k1|] eqn:E1; [|done].
  rewrite (dup_after _ _ _ _ _ _ E1 Ht). cbn. by intros [= <-].
Qed.

Lemma redirect2_log es1 es2 es3 es4 r1 r2 k rs k' :
  (forall k, log_run k es1 = log_run k [Called (Open FILENAME LOG_FLAGS LOG_MODE) r1]) ->
  (forall k, log_run k es2 = log_run k [Called (Open FILENAME LOG_FLAGS LOG_MODE) r2]) ->
  (r_ret r1 = STDOUT_FILENO /\ es3 = [] \/ exists r r', es3 = [Called (Dup2 (r_ret r1) STDOUT_FILENO) r; Called (Close (r_ret r1)) r']) ->
  (r_ret r2 = STDERR_FILENO /\ es4 = [] \/ exists r r', es4 = [Called (Dup2 (r_ret r2) STDERR_FILENO) r; Called (Close (r_ret r2)) r']) ->
  log_run log_start (es1 ++ es2 ++ es3 ++ es4) = Some k -> length rs = 1000%nat -> log_run k (boths rs) = Some k' ->
  content k' = repeated 1000 to_stderr.
Proof.
  intros H1 H2 H3 H4 H Hl Hr. rewrite !log_run_app, H1 in H. cbn [log_run] in H.
  destruct (log_after log_start _) as [k1|] eqn:E1; [|done]. apply open_after in E1 as (Ht1 & Hn1 & Hk1).
  pose proof (start_closed _ Ht1 Hn1) as Hf1. rewrite log_run_app, H2 in H. cbn [log_run] in H.
  destruct (log_after k1 _) as [k2|] eqn:E2; [|done]. apply open_after in E2 as (Ht2 & Hn2 & Hk2).
  rewrite Hk1 in Ht2. cbn [table] in Ht2. destruct (r_ret r2 =? r_ret r1) eqn:E12; [done|]. apply Z.eqb_neq in E12.
  pose proof (start_closed _ Ht2 Hn2) as Hf2. rewrite log_run_app in H.
  destruct (log_run k2 es3) as [k3|] eqn:E3; [|done].
  eapply moved with (t := Log 0) in E3 as (Hc3 & Ho3 & _ & Ht3); [|exact H3|done|by unfold STDOUT_FILENO|].
  2:{ rewrite Hk2, Hk1. cbn [table]. rewrite (proj2 (Z.eqb_neq _ _)) by congruence. by rewrite Z.eqb_refl. }
  eapply moved with (t := Log 1) in H as (Hc4 & Ho4 & _ & Ht4); [|exact H4|done|by unfold STDERR_FILENO|].
  2:{ rewrite Ht3, Hk2, Hk1. cbn [table opened]. rewrite !(proj2 (Z.eqb_neq _ _)) by (unfold STDOUT_FILENO; congruence || lia). by rewrite Z.eqb_refl. }
  rewrite <- Hl. apply (boths_apart 0 1 EmptyString rs k k'); [done| |done].
  unfold STDOUT_FILENO, STDERR_FILENO in *.
  split; rewrite ?Ht4, ?Ht3, ?Ho4, ?Ho3, ?Hc4, ?Hc3, ?Hk2, ?Hk1; unfold STDOUT_FILENO, STDERR_FILENO; cbn [table offset content opened];
    rewrite ?(proj2 (Z.eqb_neq 1 (r_ret r1))), ?(proj2 (Z.eqb_neq 1 (r_ret r2))), ?(proj2 (Z.eqb_neq 2 (r_ret r2))) by lia; reflexivity.
Qed.

Lemma redirect3_log es1 es2 r1 r2 k rs k' :
  (forall k, log_run k es1 = log_run k [Called (Open FILENAME LOG_FLAGS LOG_MODE) r1]) ->
  (r_ret r1 = STDOUT_FILENO /\ es2 = [] \/ exists r r', es2 = [Called (Dup2 (r_ret r1) STDOUT_FILENO) r; Called (Close (r_ret r1)) r']) ->
  log_run log_start (es1 ++ es2 ++ [Called (Dup2 STDOUT_FILENO STDERR_FILENO) r2]) = Some k -> length rs = 1000%nat ->
  log_run k (boths rs) = Some k' -> content k' = repeated 1000 (to_stdout +:+ to_stderr).
Proof.
  intros H1 H2 H Hl Hr. rewrite !log_run_app, H1 in H. cbn [log_run] in H.
  destruct (log_after log_start _) as [k1|] eqn:E1; [|done]. apply open_after in E1 as (Ht1 & Hn1 & Hk1).
  pose proof (start_closed _ Ht1 Hn1) as Hf1. rewrite log_run_app in H.
  destruct (log_run k1 es2) as [k2|] eqn:E2; [|done].
  eapply moved with (t := Log 0) in E2 as (Hc2 & Ho2 & _ & Ht2); [|exact H2|done|by unfold STDOUT_FILENO|].
  2:{ rewrite Hk1. cbn [table]. by rewrite Z.eqb_refl. }
  cbn [log_run] in H. destruct (log_after k2 _) as [k3|] eqn:E3; [|done]. injection H as ->.
  assert (Hout : table k2 STDOUT_FILENO = Some (Log 0)).
  { rewrite Ht2. unfold STDOUT_FILENO. by rewrite (proj2 (Z.eqb_neq 1 (r_ret r1))) by lia. }
  apply dup_after with (t := Log 0) in E3; [|done]. subst k.
  rewrite <- Hl. eapply (boths_together 0 EmptyString rs); [|exact Hr].
  split; cbn [table offset content]; rewrite ?Ho2, ?Hc2, ?Hk1; done.
Qed.

Lemma spec_redirect2 law w : spec law redirect2_main w (logged to_stderr).
Proof.
  assert (HB : forall c es w', logged to_stderr (Blocked c) es w') by done.
  assert (HE : forall es w', logged to_stderr (Halt (Exit 0)) es w') by reflexivity.
  unfold redirect2_main. spec_step. apply spec_open_log; [intros; apply HB|]. intros r1 es1 w1 H1.
  spec_step. apply spec_open_log; [intros; apply HB|]. intros r2 es2 w2 H2.
  spec_step. apply spec_move_fd; [intros; apply HB|]. intros es3 w3 H3.
  spec_step. apply spec_move_fd; [intros; apply HB|]. intros es4 w4 H4.
  apply spec_fork_writer with (per_round := to_stderr) (pre := es1 ++ es2 ++ es3 ++ es4); [done|done| |].
  - intros rs k k1 Hl Hp Hr. exact (redirect2_log es1 es2 es3 es4 r1 r2 k rs k1 H1 H2 H3 H4 Hp Hl Hr).
  - intros es w5 Hk. cbn [logged]. rewrite <- !app_assoc in Hk. exact Hk.
Qed.

Lemma spec_redirect3 law w : spec law redirect3_main w (logged (to_stdout +:+ to_stderr)).
Proof.
  assert (HB : forall c es w', logged (to_stdout +:+ to_stderr) (Blocked c) es w') by done.
  assert (HE : forall es w', logged (to_stdout +:+ to_stderr) (Halt (Exit 0)) es w') by reflexivity.
  unfold redirect3_main. spec_step. apply spec_open_log; [intros; apply HB|]. intros r1 es1 w1 H1.
  spec_step. apply spec_move_fd; [intros; apply HB|]. intros es2 w2 H2.
  do 2 spec_step; [apply HB|].
  apply spec_fork_writer with (per_round := to_stdout +:+ to_stderr) (pre := es1 ++ es2 ++ [Called (Dup2 STDOUT_FILENO STDERR_FILENO) r]);
    [done|done| |].
  - intros rs k k1 Hl Hp Hr. exact (redirect3_log es1 es2 r1 r k rs k1 H1 H2 Hp Hl Hr).
  - intros es w4 Hk. cbn [logged]. rewrite <- !app_assoc in Hk. exact Hk.
Qed.

(** ** [write_bytes] *)

(** The block sizes of a total. *)
Inductive blocks (size : Z) : Z -> list Z -> Prop :=
  | blocks_end : blocks size 0 []
  | blocks_more n l : 0 < n -> blocks size (n - Z.min size n) l -> blocks size n (Z.min size n :: l).
Definition write_sizes (fd : Z) (es : list event) : list Z :=
  flat_map (fun e => match e with Called (Write fd' d) _ => if fd' =? fd then [slen d] else [] | _ => [] end) es.
Lemma write_sizes_app fd es fs : write_sizes fd (es ++ fs) = write_sizes fd es ++ write_sizes fd fs.
Proof. apply flat_map_app. Qed.

Definition written_all (size total left : Z) (l : list Z) : Prop :=
  forall l', blocks size left l' -> blocks size total (l ++ l').

Definition write_bytes_post (argv : list string) (o : outcome Z) (es : list event) (_ : world) : Prop :=
  match o with
  | Halt (Exit 0) => exists numBytes bufSize fd, num_value GN_GT_0 (argv_opt argv 2) = Some numBytes
      /\ num_value GN_GT_0 (argv_opt argv 3) = Some bufSize /\ blocks bufSize numBytes (write_sizes fd es)
  | Halt h => died h
  | Blocked _ => True
  | _ => False
  end.

Lemma spec_write_bytes law junk argv w :
  (forall n, num_value GN_GT_0 (argv_opt argv 3) = Some n -> slen junk = n) ->
  spec law (write_bytes_main junk argv) w (write_bytes_post argv).
Proof.
  intros Hj.
  assert (HB : forall c es w', write_bytes_post argv (Blocked c) es w') by done.
  assert (HD : forall h es w', died h -> write_bytes_post argv (Halt h) es w') by (by intros [[]|[]| |]).
  unfold write_bytes_main, getLong. spec_step; [die_run HB HD|].
  spec_step. apply spec_getNum; [|intros; by apply HD]. intros numBytes w1 H1.
  spec_step. apply spec_getNum; [|intros; by apply HD]. intros bufSize w2 H2. specialize (Hj _ H2).
  pose proof (num_value_pos _ _ H1) as Hn. pose proof (num_value_pos _ _ H2) as Hb.
  do 2 spec_step; [apply HB|]. spec_step; [die_run HB HD|].
  do 2 spec_step; [apply HB|]. spec_step; [die_run HB HD|]. set (fd := r_ret r0).
  spec_step. eapply spec_mono; [|apply spec_loop with
    (I := fun tot es _ => 0 <= tot <= numBytes /\ written_all bufSize numBytes (numBytes - tot) (write_sizes fd es))
    (Q := fun o es _ => match o with Ret _ => blocks bufSize numBytes (write_sizes fd es) | Halt h => died h | Blocked _ => True | Diverged => False end)].
  - cbn beta. intros [[]|h|c|] es w4 Ho; [|by apply HD|apply HB|by destruct Ho].
    do 2 spec_step; [apply HB|]. spec_step; [die_run HB HD|]. spec_run. rewrite app_nil_r. cbn [app].
    exists numBytes, bufSize, fd. unfold write_sizes in *. cbn [flat_map]. rewrite flat_map_app. cbn [flat_map]. rewrite ?app_nil_r. by split_and!.
  - intros; apply _.
  - intros; apply _.
  - rewrite Z.sub_0_r. split; [lia|]. by intros l' Hl.
  - intros tot es w4 [Ht Hw]. spec_step.
    + zbool. assert (Hs : slen (ztake (Z.min bufSize (numBytes - tot)) junk) = Z.min bufSize (numBytes - tot)) by (rewrite slen_ztake; lia).
      do 2 spec_step; [done|]. spec_step; [apply spec_dies; [apply _|done|by intros]|]. spec_run. split; [lia|].
      intros l' Hl. rewrite write_sizes_app. unfold write_sizes at 2. cbn [app flat_map]. rewrite Z.eqb_refl, Hs, <- app_assoc.
      apply Hw. cbn [app]. constructor; [lia|]. by replace (numBytes - tot - _) with (numBytes - (tot + Z.min bufSize (numBytes - tot))) by lia.
    + spec_run. zbool. rewrite app_nil_r. rewrite <- (app_nil_r (write_sizes fd es)). apply Hw.
      replace (numBytes - tot) with 0 by lia. constructor.
Qed.

(** ** The property *)

(** C26.  What reaches a file.  The line [mix23_linebuff] prints comes before the line it
    writes on a terminal and after it in a file; of what [fork_stdio_buf] prints, a file
    receives a copy from the parent and one from the child, a terminal one.  The two
    descriptors of [redirect-stdout-stderr-buffring2] overwrite each other, so the log
    holds the second thousand of lines only, and the duplicated descriptor of
    [redirect-stdout-stderr-buffring3] loses none.  [write_bytes] writes its total in
    blocks of the given size, the last one shorter. *)
Theorem outputs_buffered :
  (forall w, spec full_writes mix23_linebuff_main w mix23_post)
  /\ (forall w, spec full_writes fork_stdio_buf_main w stdio_fork_post)
  /\ (forall law w, spec law redirect2_main w (logged to_stderr))
  /\ (forall law w, spec law redirect3_main w (logged (to_stdout +:+ to_stderr)))
  /\ (forall law argv w junk, (forall n, num_value GN_GT_0 (argv_opt argv 3) = Some n -> slen junk = n) ->
       spec law (write_bytes_main junk argv) w (write_bytes_post argv)).
Proof.
  split_and!; [apply spec_mix23|apply spec_stdio_fork|apply spec_redirect2|apply spec_redirect3|].
  intros law argv w junk. apply spec_write_bytes.
Qed.

(** Five bytes in blocks of two. *)
Lemma outputs_buffered_witness :
  let argv := ["write_bytes"; "f"; "5"; "2"]%string in
  (forall n, num_value GN_GT_0 (argv_opt argv 3) = Some n -> slen "ab" = n)
  /\ spec any_answer (write_bytes_main "ab" argv) (start []) (write_bytes_post argv).
Proof.
  intros argv. assert (H : forall n, num_value GN_GT_0 (argv_opt argv 3) = Some n -> slen "ab" = n) by (intros n Hn; by injection Hn).
  split; [exact H|]. destruct outputs_buffered as (_ & _ & _ & _ & Hw). exact (Hw any_answer argv (start []) "ab"%string H).
Defined.
