(* ===== verification/Forks.v ===== *)
(** * Forks: creating and watching processes
    (24-process-create, 25-process-exit, 26-process-watch, 26-experimantal, 28-process-detail)

    A theorem about a program that forks speaks of the parent's trace and of the
    child's, which begins with the events before the fork.  [fork_sig_sync] is
    modelled a second time as a pair of processes, to see every interleaving. *)

From S2P Require Import Prelude Clib Sys Errors Frame GetNum Posix Status Threads Explore Dirs Reaper Buffering.

(** ** 24-process-create *)

(** t_fork.c: the variables of the data segment and of the stack. *)
Definition T_IDATA : Z := 111.
Definition T_ISTACK : Z := 222.
Definition t_fork_main : M Z :=
  _ ← scall (Write 2 ("before fork:" +:+ nl));
  childPid ← scall Fork;
  if childPid =? -1 then errExit "fork" else
  '(idata, istack) ← (if childPid =? 0 then mret (T_IDATA * 3, T_ISTACK * 3)
                      else _ ← scall (Sleep 3); mret (T_IDATA, T_ISTACK));
  p ← scall Getpid;
  _ ← printf ("PID=" +:+ dec p +:+ " " +:+ (if childPid =? 0 then "(child)" else "(parent)")
              +:+ " idata=" +:+ dec idata +:+ " istack=" +:+ dec istack +:+ nl);
  exit EXIT_SUCCESS.

(** fork_whos_on_first.c *)
Definition race_once (j : Z) : M unit :=
  childPid ← scall Fork;
  if childPid =? -1 then errExit "fork"
  else if childPid =? 0 then
    _ ← printf (dec j +:+ " child" +:+ nl);
    quick_exit EXIT_SUCCESS
  else
    _ ← printf (dec j +:+ " parent" +:+ nl);
    _ ← scall Wait;
    mret tt.
Definition fork_whos_on_first_main (argv : list string) : M Z :=
  if (argc_of argv >? 1) && wants_help argv then
    usageErr (cstr (argv_at argv 0) +:+ " [num-children]" +:+ nl) else
  numChildren ← (if argc_of argv >? 1 then getInt (argv_opt argv 1) GN_GT_0 (Some "num-children") else mret 1);
  _ ← scall (Lib "setbuf" ["stdout"%string] []);
  _ ← for_each race_once (seqZ 0 numChildren);
  exit EXIT_SUCCESS.

(** fork_file_sharing.c *)
Definition append_state (flags : Z) : string := if has flags O_APPEND then "on" else "off".
Definition get_flags (fd : Z) : M Z :=
  flags ← scall (FcntlInt fd F_GETFL 0);
  if flags =? -1 then errExit "fcntl - F_GETFL" else mret flags.
Definition sharing_child (fd : Z) : M Z :=
  s ← scall (Lseek fd 1000 SEEK_SET);
  if s =? -1 then errExit "lseek" else
  _ ← stop "child: before O_APPEND";
  flags ← get_flags fd;
  f ← scall (FcntlInt fd F_SETFL (flags .| O_APPEND));
  if f =? -1 then errExit "fcntl - F_SETFL" else
  _ ← stop "child: before exit";
  quick_exit EXIT_SUCCESS.
Definition sharing_parent (fd : Z) : M Z :=
  w ← scall Wait;
  if w =? -1 then errExit "wait" else
  _ ← printf ("Child has exited" +:+ nl);
  o ← scall (Lseek fd 0 SEEK_CUR);
  _ ← printf ("File offset in parent: " +:+ dec o +:+ nl);
  flags ← get_flags fd;
  _ ← printf ("O_APPEND flag in parent is: " +:+ append_state flags +:+ nl);
  _ ← stop "parent: before exit";
  exit EXIT_SUCCESS.
Definition fork_file_sharing_main : M Z :=
  _ ← scall (Lib "setbuf" ["stdout"%string] []);
  fd ← scall (Lib "mkstemp" ["/tmp/testXXXXXX"%string] []);
  if fd =? -1 then errExit "mkstemp" else
  o ← scall (Lseek fd 0 SEEK_CUR);
  _ ← printf ("File offset before fork(): " +:+ dec o +:+ nl);
  flags ← get_flags fd;
  _ ← printf ("O_APPEND flag before fork() is: " +:+ append_state flags +:+ nl);
  _ ← stop "parent: before fork";
  pid ← scall Fork;
  if pid =? -1 then errExit "fork"
  else if pid =? 0 then sharing_child fd
  else sharing_parent fd.

(** ** 25-process-exit/exit_handlers.c *)

(** [on_exit(h, arg)]: as [with_atexit], but [h] is given the exit status. *)
Definition with_on_exit {A} (h : Z -> M unit) (m : M A) : M A := fun w =>
  match m w with
  | (Halt (Exit n), w') =>
      match h n w' with
      | (Ret _, w'') => (Halt (Exit n), w'')
      | (Halt k, w'') => (Halt k, w'')
      | (Blocked c, w'') => (Blocked c, w'')
      | (Diverged, w'') => (Diverged, w'')
      end
  | ow => ow
  end.

Definition atexitFunc1 : M unit := printf ("atexit function 1 called" +:+ nl).
Definition atexitFunc2 : M unit := printf ("atexit function 2 called" +:+ nl).
Definition onexitFunc (arg exitStatus : Z) : M unit :=
  printf ("on_exit function called: status=" +:+ dec exitStatus +:+ ", arg=" +:+ dec arg +:+ nl).

(** A handler is called if it could be registered; the program goes on inside. *)
Definition register (call failure : string) (m : M Z -> M Z) (rest : M Z) : M Z :=
  s ← scall (Lib call [] []);
  if negb (s =? 0) then fatal failure else m rest.
Definition exit_handlers_main : M Z :=
  register "on_exit" "on_exit 1" (with_on_exit (onexitFunc 10))
  (register "atexit" "atexit 1" (with_atexit atexitFunc1)
  (register "atexit" "atexit 2" (with_atexit atexitFunc2)
  (register "on_exit" "on_exit 2" (with_on_exit (onexitFunc 20))
  (exit 2)))).

(** ** 26-process-watch, 26-experimantal *)

(** make_orphan.c *)
Definition make_orphan_main : M Z :=
  _ ← scall (Lib "setbuf" ["stdout"%string] []);
  p ← scall Getpid;
  _ ← printf ("Parent PID=" +:+ dec p +:+ nl);
  childPid ← scall Fork;
  if childPid =? -1 then errExit "fork"
  else if childPid =? 0 then
    p ← scall Getpid;
    _ ← printf ("Child (PID=" +:+ dec p +:+ ")" +:+ nl);
    _ ← scall Pause;
    quick_exit EXIT_SUCCESS
  else exit EXIT_SUCCESS.

(** make_zombie.c *)
Definition ZOMBIE_CMD_SIZE : Z := 200.
Definition make_zombie_main (argv : list string) : M Z :=
  _ ← scall (Lib "setbuf" ["stdout"%string] []);
  p ← scall Getpid;
  _ ← printf ("Parent PID=" +:+ dec p +:+ nl);
  childPid ← scall Fork;
  if childPid =? -1 then errExit "fork"
  else if childPid =? 0 then
    p ← scall Getpid;
    _ ← printf ("Child (PID=" +:+ dec p +:+ ") exiting" +:+ nl);
    quick_exit EXIT_SUCCESS
  else
    _ ← scall (Sleep 3);
    let cmd := snprintf ZOMBIE_CMD_SIZE ("ps | grep " +:+ Dirs.basename (argv_at argv 0)) in
    _ ← scall (System cmd);
    k ← scall (Kill childPid SIGKILL);
    _ ← when (k =? -1) (errMsg "kill");
    _ ← scall (Sleep 3);
    _ ← printf ("After sending SIGKILL to zombie (PID=" +:+ dec childPid +:+ "):" +:+ nl);
    _ ← scall (System cmd);
    _ ← stop "before exit";
    exit EXIT_SUCCESS.

(** child_status.c *)
Definition status_child (argv : list string) : M Z :=
  p ← scall Getpid;
  _ ← printf ("Child started with PID = " +:+ dec p +:+ nl);
  if argc_of argv >? 1 then
    n ← getInt (argv_opt argv 1) 0 (Some "exit-status");
    exit n
  else forever (_ ← scall Pause; mret tt).
Definition status_parent : M Z :=
  loop (fun _ : unit =>
    r ← sys (Waitpid (-1) (WUNTRACED .| WCONTINUED));
    if r_ret r =? -1 then errExit "waitpid" else
    let status := r_val 0 r in
    _ ← printf ("waitpid() returned: PID=" +:+ dec (r_ret r) +:+ "; status=0x" +:+ lpad 4 "0" (hex (wrap_u32 status))
                +:+ " (" +:+ dec (Z.shiftr status 8) +:+ "," +:+ dec (status .& 255) +:+ ")" +:+ nl);
    _ ← printWaitStatus None status;
    if WIFEXITED status || WIFSIGNALED status then exit EXIT_SUCCESS else mret (inl tt)) tt.
Definition child_status_main (argv : list string) : M Z :=
  if (argc_of argv >? 1) && wants_help argv then
    usageErr (cstr (argv_at argv 0) +:+ " [exit-status]" +:+ nl) else
  pid ← scall Fork;
  if pid =? -1 then errExit "fork"
  else if pid =? 0 then status_child argv
  else status_parent.

(** ** 28-process-detail/t_clone.c *)

Definition EBADF : Z := 9.
Definition CLONE_FILES : Z := 1024.
Definition CLONE_CHILD_SIG : Z := SIGUSR1.
Definition STACK_SIZE : Z := 65536.
Definition __WCLONE : Z := -2147483648.

(** The start function of the cloned child; its result is the child's exit status. *)
Definition childFunc (fd : Z) : M Z :=
  c ← scall (Close fd);
  if c =? -1 then errExit "close" else mret 0.

Definition t_clone_main (argv : list string) : M Z :=
  fd ← scall (Open "/dev/null" O_RDWR 0);
  if fd =? -1 then errExit "open" else
  let flags := if argc_of argv >? 1 then CLONE_FILES else 0 in
  stack ← scall (Malloc STACK_SIZE);
  if stack =? 0 then errExit "malloc" else
  _ ← when (negb (CLONE_CHILD_SIG =? 0) && negb (CLONE_CHILD_SIG =? SIGCHLD))
        (s ← scall (Signal CLONE_CHILD_SIG SIG_IGN); when (s =? SIG_ERR) (errExit "signal"));
  c ← scall (Lib "clone" [] [flags .| CLONE_CHILD_SIG; fd]);
  if c =? -1 then errExit "clone" else
  w ← scall (Waitpid (-1) (if negb (CLONE_CHILD_SIG =? SIGCHLD) then __WCLONE else 0));
  if w =? -1 then errExit "waitpid" else
  _ ← printf ("child has terminated" +:+ nl);
  s ← scall (Write fd "x");
  e ← get_errno;
  _ ← (if (s =? -1) && (e =? EBADF) then printf ("file descriptor " +:+ dec fd +:+ " has been closed" +:+ nl)
       else if s =? -1 then
         t ← sys (Strerror e);
         printf ("write() on file descriptor " +:+ dec fd +:+ " failed enexpectedly (" +:+ cstr (r_buf t) +:+ ")" +:+ nl)
       else printf ("write() on file descriptor " +:+ dec fd +:+ " succeeded" +:+ nl));
  exit EXIT_SUCCESS.

(** ** fork_sig_sync.c

    As one process at a time, and as the two processes. *)

Definition SYNC_SIG : Z := SIGUSR1.
Definition SYNC_HANDLER : Z := 21.
Definition sync_handler : M unit := _ ← scall (Write 1 ("sighandler called" +:+ nl)); mret tt.

(** "[time pid] message" *)
Definition stamped (message : string) : M unit :=
  p ← scall Getpid;
  t ← currTime (Some "%T");
  printf ("[" +:+ show_opt t +:+ " " +:+ dec p +:+ "] " +:+ message +:+ nl).
Definition sync_child : M Z :=
  _ ← stamped "Child started - doing some work";
  _ ← scall (Sleep 2);
  _ ← stamped "Child about to signal parent";
  pp ← scall Getppid;
  k ← scall (Kill pp SYNC_SIG);
  if k =? -1 then errExit "kill" else
  quick_exit EXIT_SUCCESS.
(** The handler runs inside [sigsuspend]. *)
Definition sync_parent (origMask : list Z) : M Z :=
  _ ← stamped "Parent about to wait for signal";
  r ← sys (Sigsuspend []);
  _ ← when (r_val 0 r =? SYNC_SIG) sync_handler;
  e ← get_errno;
  if (r_ret r =? -1) && negb (e =? EINTR) then errExit "sigsuspend" else
  _ ← stamped "Parent got signal";
  s ← scall (Sigprocmask SIG_SETMASK (Some origMask));
  if s =? -1 then errExit "sigprocmask" else
  exit EXIT_SUCCESS.
Definition fork_sig_sync_main : M Z :=
  _ ← scall (Lib "setbuf" ["stdout"%string] []);
  m ← sys (Sigprocmask SIG_BLOCK (Some [SYNC_SIG]));
  if r_ret m =? -1 then errExit "sigprocmask" else
  a ← scall (Sigaction SYNC_SIG SYNC_HANDLER SA_RESTART []);
  if a =? -1 then errExit "sigaction" else
  childPid ← scall Fork;
  if childPid =? -1 then errExit "fork"
  else if childPid =? 0 then sync_child
  else sync_parent (r_vals m).

(** Before each step of the parent and of the child; the signal is blocked in the
    parent, pending for it. *)
Inductive parent_pc := P_block | P_action | P_fork | P_print | P_suspend | P_report | P_unblock | P_exit (status : Z).
Inductive child_pc := K_none | K_start | K_sleep | K_about | K_kill | K_exit (status : Z).
Record sync_state := Sync { sy_parent : parent_pc; sy_child : child_pc; sy_blocked : bool; sy_pending : bool }.
#[export] Instance parent_pc_eq_dec : EqDecision parent_pc.
Proof. solve_decision. Defined.
#[export] Instance child_pc_eq_dec : EqDecision child_pc.
Proof. solve_decision. Defined.
#[export] Instance sync_state_eq_dec : EqDecision sync_state.
Proof. solve_decision. Defined.
Definition sync_start : sync_state := Sync P_block K_none false false.

(** [sigsuspend] unblocks the signal and waits for it in one step. *)
Definition sync_parent_step (s : sync_state) : list sync_state :=
  let 'Sync p k b q := s in
  match p with
  | P_block => [Sync P_action k true q]
  | P_action => [Sync P_fork k b q]
  | P_fork => [Sync P_print K_start b q]
  | P_print => [Sync P_suspend k b q]
  | P_suspend => if q then [Sync P_report k b false] else []
  | P_report => [Sync P_unblock k b q]
  | P_unblock => [Sync (P_exit 0) k false q]
  | P_exit _ => []
  end.
(** A signal that is not blocked is caught where the parent happens to be, and gone. *)
Definition sync_child_step (s : sync_state) : list sync_state :=
  let 'Sync p k b q := s in
  match k with
  | K_start => [Sync p K_sleep b q]
  | K_sleep => [Sync p K_about b q]
  | K_about => [Sync p K_kill b q]
  | K_kill => [Sync p (K_exit 0) b (q || b)]
  | K_none | K_exit _ => []
  end.
Definition fork_sig_sync (s : sync_state) : list sync_state := sync_parent_step s ++ sync_child_step s.
(** A call that fails ends its process. *)
Definition sync_fail (s : sync_state) : list sync_state :=
  let 'Sync p k b q := s in
  match p with P_block | P_action | P_fork | P_unblock => [Sync (P_exit 1) k b q] | _ => [] end
  ++ match k with K_kill => [Sync p (K_exit 1) b q] | _ => [] end.
Definition fork_sig_sync_any (s : sync_state) : list sync_state := fork_sig_sync s ++ sync_fail s.

#[export] Instance t_fork_main_sane : Sane t_fork_main.
Proof. unfold t_fork_main. apply _. Qed.
#[export] Instance race_once_sane j : Sane (race_once j).
Proof. unfold race_once. apply _. Qed.
#[export] Instance fork_whos_on_first_main_sane a : Sane (fork_whos_on_first_main a).
Proof. unfold fork_whos_on_first_main. apply _. Qed.
#[export] Instance get_flags_sane fd : Sane (get_flags fd).
Proof. unfold get_flags. apply _. Qed.
#[export] Instance sharing_child_sane fd : Sane (sharing_child fd).
Proof. unfold sharing_child. apply _. Qed.
#[export] Instance sharing_parent_sane fd : Sane (sharing_parent fd).
Proof. unfold sharing_parent. apply _. Qed.
#[export] Instance fork_file_sharing_main_sane : Sane fork_file_sharing_main.
Proof. unfold fork_file_sharing_main. apply _. Qed.
#[export] Instance make_orphan_main_sane : Sane make_orphan_main.
Proof. unfold make_orphan_main. apply _. Qed.
#[export] Instance make_zombie_main_sane a : Sane (make_zombie_main a).
Proof. unfold make_zombie_main. apply _. Qed.
#[export] Instance status_child_sane a : Sane (status_child a).
Proof. unfold status_child. apply _. Qed.
#[export] Instance status_parent_sane : Sane status_parent.
Proof. unfold status_parent. apply _. Qed.
#[export] Instance child_status_main_sane a : Sane (child_status_main a).
Proof. unfold child_status_main. apply _. Qed.
#[export] Instance t_clone_main_sane a : Sane (t_clone_main a).
Proof. unfold t_clone_main. apply _. Qed.
#[export] Instance stamped_sane m : Sane (stamped m).
Proof. unfold stamped. apply _. Qed.
#[export] Instance fork_sig_sync_main_sane : Sane fork_sig_sync_main.
Proof. unfold fork_sig_sync_main, sync_child, sync_parent, sync_handler. apply _. Qed.
#[export] Instance with_on_exit_sane {A} (h : Z -> M unit) (m : M A) :
  Sane m -> (forall n, Sane (h n)) -> Sane (with_on_exit h m).
Proof.
  intros Hm Hh w. destruct (Hm w) as (es & Hl & Hs & HP). unfold with_on_exit.
  destruct (m w) as [[a|[n|n| |c]|c|] w']; simpl in *; try (by exists es).
  destruct (Hh n w') as (fs & Hl' & Hs' & HP'). destruct (h n w') as [o w'']; simpl in *.
  exists (es ++ fs). rewrite rev_app_distr, <- app_assoc, answers_app, <- app_assoc.
  destruct o; simpl; rewrite ?Hl', Hl, <- Hs'; (split_and!; [done|done|]; by apply Forall_app).
Qed.

(** ** The two processes of [fork_sig_sync] *)

Definition sync_states : list sync_state := explore fork_sig_sync_any 500 [sync_start] [sync_start].
Definition sync_good : list sync_state := explore fork_sig_sync 500 [sync_start] [sync_start].
Definition after_signal (p : parent_pc) : bool := match p with P_report | P_unblock | P_exit 0 => true | _ => false end.
Definition sync_ok (s : sync_state) : bool := implb (after_signal (sy_parent s)) (bool_decide (sy_child s = K_exit 0)).
Definition sync_running (s : sync_state) : bool :=
  negb (bool_decide (sy_parent s = P_exit 0) && bool_decide (sy_child s = K_exit 0)).
Definition sync_left (s : sync_state) : nat :=
  (match sy_parent s with
   | P_block => 14 | P_action => 13 | P_fork => 12 | P_print => 5 | P_suspend => 4 | P_report => 3 | P_unblock => 2 | P_exit _ => 0
   end
   + match sy_child s with K_start => 4 | K_sleep => 3 | K_about => 2 | K_kill => 1 | _ => 0 end)%nat.

Lemma sync_closed : closed fork_sig_sync_any sync_states = true.
Proof. vm_compute. reflexivity. Qed.
Lemma sync_in : sync_start ∈ sync_states.
Proof. apply (bool_decide_unpack _). vm_compute. exact I. Qed.
Lemma good_closed : closed fork_sig_sync sync_good = true.
Proof. vm_compute. reflexivity. Qed.
Lemma good_in : sync_start ∈ sync_good.
Proof. apply (bool_decide_unpack _). vm_compute. exact I. Qed.
Lemma sync_check_ok : forallb sync_ok sync_states = true.
Proof. vm_compute. reflexivity. Qed.
Lemma good_check_moves : forallb (can_move fork_sig_sync sync_running) sync_good = true.
Proof. vm_compute. reflexivity. Qed.
Lemma sync_check_left :
  forallb (fun s => forallb (fun t => (sync_left t <? sync_left s)%nat) (fork_sig_sync_any s)) sync_states = true.
Proof. vm_compute. reflexivity. Qed.

Lemma sync_orders s : reaches (steps fork_sig_sync_any) sync_start s ->
  after_signal (sy_parent s) = true -> sy_child s = K_exit 0.
Proof.
  intros Hr Ha. pose proof (checked_reaches fork_sig_sync_any _ _ s sync_ok sync_closed sync_in sync_check_ok Hr) as H.
  unfold sync_ok in H. rewrite Ha in H. by apply bool_decide_eq_true in H.
Qed.
Lemma sync_ends s : reaches (steps fork_sig_sync_any) sync_start s -> terminates (steps fork_sig_sync_any) s.
Proof.
  intros Hr. refine (checked_terminates _ sync_states s sync_left _ (closed_reaches _ _ _ _ sync_closed sync_in Hr) sync_check_left).
  intros s1 s2 H1 H2. exact (closed_steps _ _ _ _ sync_closed H1 H2).
Qed.
Lemma sync_moves s : reaches (steps fork_sig_sync) sync_start s -> sync_running s = true -> exists s', steps fork_sig_sync s s'.
Proof.
  intros Hr. apply (can_move_steps fork_sig_sync).
  exact (checked_reaches _ _ _ s (can_move fork_sig_sync sync_running) good_closed good_in good_check_moves Hr).
Qed.

(** ** Endless loops *)

(** ** Parent and child after a fork *)

Definition is_fork (r : resp) (es : list event) : Prop := exists p q, es = p ++ Called Fork r :: q.

(** The child changes its own copies of the variables only. *)
Definition t_fork_post (o : outcome Z) (es : list event) (_ : world) : Prop :=
  match o with
  | Halt (Exit 0) => exists f pid, is_fork f es /\
      printed Stdout es = "PID=" +:+ dec pid +:+
        (if r_ret f =? 0 then " (child) idata=333 istack=666" else " (parent) idata=111 istack=222") +:+ nl
  | Halt h => died h
  | Blocked _ => True
  | _ => False
  end.
Lemma spec_t_fork law w : spec law t_fork_main w t_fork_post.
Proof.
  assert (HB : forall c es w', t_fork_post (Blocked c) es w') by done.
  assert (HD : forall h es w', died h -> t_fork_post (Halt h) es w') by (by intros [[]|[]| |]).
  unfold t_fork_main. die_run HB HD.
  - exists r0, (r_ret r1). split; [by eexists [_], _|].
    cbn. rewrite Heqb0. by rewrite ?sapp_nil_r.
  - exists r0, (r_ret r2). split; [by eexists [_], _|].
    cbn. rewrite Heqb0. by rewrite ?sapp_nil_r.
Qed.

(** The parent forks and waits in turn; the [k]-th child prints one line. *)
Definition parent_lines (n : nat) : string := String.concat "" (map (fun j => dec j +:+ " parent" +:+ nl) (seqZ 0 (Z.of_nat n))).
Definition race_call (c : call) : bool := match c with Fork | Wait => true | _ => false end.
Fixpoint fork_waits (n : nat) : list call := match n with O => [] | S n => Fork :: Wait :: fork_waits n end.
Definition num_children (argv : list string) (n : Z) : Prop :=
  if argc_of argv >? 1 then num_value GN_GT_0 (argv_opt argv 1) = Some n else n = 1.
Definition race_post (argv : list string) (o : outcome Z) (es : list event) (_ : world) : Prop :=
  match o with
  | Halt (Exit 0) => exists n, num_children argv n
      /\ List.filter race_call (calls es) = fork_waits (Z.to_nat n) /\ printed Stdout es = parent_lines (Z.to_nat n)
  | Halt (QuickExit 0) => exists k, List.filter race_call (calls es) = fork_waits k ++ [Fork]
      /\ printed Stdout es = parent_lines k +:+ dec (Z.of_nat k) +:+ " child" +:+ nl
  | Halt h => died h
  | Blocked _ => True
  | _ => False
  end.

(** ** [child_status] *)

Definition child_ended (s : Z) : bool := WIFEXITED s || WIFSIGNALED s.
Fixpoint waited (es : list event) : list Z :=
  match es with
  | [] => []
  | Called (Waitpid _ _) r :: es => if r_ret r =? -1 then waited es else r_val 0 r :: waited es
  | _ :: es => waited es
  end.
Lemma waited_app es fs : waited (es ++ fs) = waited es ++ waited fs.
Proof. induction es as [|[[]| |] es IH]; simpl; try done. destruct (r_ret r =? -1); simpl; by rewrite IH. Qed.
Lemma waited_status es : Forall status_event es -> waited es = [].
Proof. induction 1 as [|[[]| |] es He _ IH]; simpl in *; done. Qed.
Definition still_there (es : list event) : Prop := Forall (fun s => child_ended s = false) (waited es).

Definition watch_post (o : outcome Z) (es : list event) : Prop :=
  match o with
  | Halt (Exit 0) => exists l s, waited es = l ++ [s] /\ child_ended s = true /\ Forall (fun s => child_ended s = false) l
  | Halt h => died h
  | Blocked (Waitpid _ _) => still_there es
  | Blocked _ => True
  | _ => False
  end.
(** [printWaitStatus] waits for the name of a signal at most. *)
Definition names_signal (c : call) : Prop := match c with Strsignal _ => True | _ => False end.
#[export] Instance printWaitStatus_names m s : Waits names_signal (printWaitStatus m s).
Proof. unfold printWaitStatus. apply _. Qed.
#[export] Instance printWaitStatus_status m s : Emits status_event (printWaitStatus m s).
Proof. unfold printWaitStatus. apply _. Qed.

Lemma spec_status_parent law w : spec law status_parent w (fun o es _ => watch_post o es).
Proof.
  unfold status_parent.
  apply spec_loop with (I := fun _ es _ => still_there es) (Q := fun o es _ => watch_post o es);
    [intros; apply _|intros; apply _|constructor|].
  intros [] es w1 Hs. do 2 spec_step; [cbn; by rewrite app_nil_r|].
  spec_step; [apply spec_dies_in; [apply _|intros c ? ? Hd _; by destruct c|by intros [[]|[]| |]]|].
  assert (Hw : forall p st es0, Forall status_event es0 ->
    waited (es ++ [Called (Waitpid (-1) (WUNTRACED .| WCONTINUED)) r] ++ [Printed p st] ++ es0 ++ []) = waited es ++ [r_val 0 r]).
  { intros p st es0 H0. rewrite waited_app. rewrite app_nil_r. cbn [app waited]. by rewrite Heqb, (waited_status es0). }
  do 5 spec_step. apply (spec_frame_waits _ status_event _ names_signal); [intros c es0 w3 Hc H0; by destruct c|intros [] es0 w3 H0].
  destruct (WIFEXITED (r_val 0 r) || WIFSIGNALED (r_val 0 r)) eqn:E; spec_run; cbn [pass].
  - exists (waited es), (r_val 0 r). rewrite Hw by done. by split_and!.
  - unfold still_there. rewrite Hw, Forall_app by done. split; [done|by constructor].
Qed.

(** The child ends with the status asked for, or waits for signals; the parent watches it. *)
Definition child_status_post (argv : list string) (o : outcome Z) (es : list event) (_ : world) : Prop :=
  match o with
  | Halt (Exit n) => n = EXIT_FAILURE \/ exists f, is_fork f es /\
      if r_ret f =? 0 then num_value 0 (argv_opt argv 1) = Some n else watch_post o es
  | Halt h => died h
  | Blocked (Waitpid _ _) => still_there es
  | Blocked _ => True
  | _ => False
  end.
Lemma spec_child_status law argv w : spec law (child_status_main argv) w (child_status_post argv).
Proof.
  assert (HB : forall c es w', diag_call c -> child_status_post argv (Blocked c) es w') by (by intros []).
  assert (HD : forall h es w', died h -> child_status_post argv (Halt h) es w').
  { intros [n|n| |] es w' Hh; try done. left. cbn in Hh. done. }
  unfold child_status_main. spec_step.
  { apply spec_dies_in; [apply _|intros; by apply HB|intros; by apply HD]. }
  do 2 spec_step; [done|]. spec_step.
  { apply spec_dies_in; [apply _|intros; by apply HB|intros; by apply HD]. }
  spec_step.
  - unfold status_child. do 2 spec_step; [done|]. do 4 spec_step. spec_step.
    + spec_step. apply spec_getInt; [|intros es w4 _ _; by left]. intros n w4 Hn _. spec_run.
      right. exists r. split; [by eexists [], _|]. by rewrite Heqb1.
    + apply spec_forever with (I := fun _ _ => True); [apply _|apply _|done|]. intros es w3 _. by spec_run.
  - eapply spec_mono; [|apply spec_status_parent]. intros o es w2 Ho. unfold child_status_post.
    destruct o as [|[n|n| |]|c|]; try done.
    right. exists r. split; [by eexists [], _|]. by rewrite Heqb1.
Qed.

(** ** Races *)

Lemma filter_race_app es fs : List.filter race_call (calls (es ++ fs)) = List.filter race_call (calls es) ++ List.filter race_call (calls fs).
Proof. by rewrite calls_app, List.filter_app. Qed.
Lemma fork_waits_snoc n : fork_waits n ++ [Fork; Wait] = fork_waits (S n).
Proof. induction n as [|n IH]; [done|]. cbn [fork_waits app]. by rewrite IH. Qed.
Lemma parent_lines_snoc n : parent_lines n +:+ dec (Z.of_nat n) +:+ " parent" +:+ nl = parent_lines (S n).
Proof.
  unfold parent_lines. rewrite Nat2Z.inj_succ, <- Z.add_1_r, seqZ_app, map_app by lia.
  rewrite (seqZ_cons _ 1), (seqZ_nil _ (Z.pred 1)) by lia. cbn [map]. by rewrite Dirs.concat_snoc, Z.add_0_l.
Qed.

Definition raced (n : Z) (l : list Z) (es : list event) : Prop := exists k, 0 <= Z.of_nat k <= n /\ l = seqZ (Z.of_nat k) (n - Z.of_nat k)
  /\ List.filter race_call (calls es) = fork_waits k /\ printed Stdout es = parent_lines k.
Lemma spec_race_once law argv n j l es w : raced n (j :: l) es ->
  spec law (race_once j) w (fun o es' w' =>
    match o with
    | Ret _ => raced n l (es ++ es')
    | Diverged => False
    | _ => race_post argv (pass o) (es ++ es') w'
    end).
Proof.
  intros (k & Hk & Hl & Hc & Hp).
  assert (Hlt : Z.of_nat k < n) by (destruct (decide (Z.of_nat k < n)); [done|rewrite seqZ_nil in Hl by lia; done]).
  rewrite seqZ_cons in Hl by lia. injection Hl as -> ->.
  unfold race_once. do 2 spec_step; [done|]. spec_step.
  { apply spec_dies; [apply _|done|]. by intros [[]|[]| |]. }
  spec_step.
  - spec_run. cbn [pass]. exists k. rewrite filter_race_app, Hc, printed_app, Hp. split; [done|]. cbn. by rewrite ?sapp_nil_r.
  - spec_run; [done|]. exists (S k). rewrite filter_race_app, Hc, printed_app, Hp, <- fork_waits_snoc, <- parent_lines_snoc.
    split_and!; [lia..| |done|cbn; by rewrite ?sapp_nil_r]. f_equal; lia.
Qed.

Lemma spec_fork_whos_on_first law argv w : spec law (fork_whos_on_first_main argv) w (race_post argv).
Proof.
  assert (HB : forall c es w', race_post argv (Blocked c) es w') by done.
  assert (HD : forall h es w', died h -> race_post argv (Halt h) es w') by (by intros [[]|[]| |]).
  unfold fork_whos_on_first_main. spec_step; [die_run HB HD|].
  spec_step. apply spec_mono with (Q := fun o es _ =>
    match o with Ret n => es = [] /\ num_children argv n /\ 0 < n | Halt h => died h | Blocked _ => True | Diverged => False end); cycle 1.
  { unfold num_children. destruct (argc_of argv >? 1); [|by spec_step].
    apply spec_getInt; [|intros; by cbn]. intros n w2 Hn _. split_and!; [done|done|]. by eapply num_value_pos. }
  intros [n|h|c|] es1 w2; [intros (-> & Hn & H0)|intros Hh; by apply HD|intros _; apply HB|by intros []].
  do 2 spec_step; [apply HB|]. spec_step. unfold for_each.
  eapply spec_mono; [|apply (spec_fold_m law (fun _ x => race_once x) (fun _ l es _ => raced n l ([Called (Lib "setbuf" ["stdout"%string] []) r] ++ es))
     (fun o es w => match o with Ret _ => raced n [] ([Called (Lib "setbuf" ["stdout"%string] []) r] ++ es) | _ => race_post argv (pass o) ([Called (Lib "setbuf" ["stdout"%string] []) r] ++ es) w end) _ tt [])].
  - cbn beta. cbn [app]. intros [[]|h|c|] es w4 H; try done. spec_run. destruct H as (k & Hk & Hl & Hc & Hp).
    assert (Z.of_nat k = n) as <-.
    { destruct (decide (Z.of_nat k < n)); [|lia]. by rewrite seqZ_cons in Hl by lia. }
    exists (Z.of_nat k). rewrite Nat2Z.id, app_nil_r. by split_and!.
  - intros; apply _.
  - exists O. rewrite Z.sub_0_r. split_and!; [lia..|done|done|done].
  - done.
  - intros [] j l es w4 Hr. eapply spec_mono; [|apply (spec_race_once law argv n j l _ w4 Hr)].
    cbn beta. by intros [|h|c|] es' w5.
Qed.

(** ** Exit handlers *)

Lemma spec_with_on_exit law {A} (h : Z -> M unit) (m : M A) w (Q : outcome A -> list event -> world -> Prop)
    `{Hm : !Sane m} `{Hh : !forall n, Sane (h n)} :
  spec law m w (fun o es w1 =>
    match o with
    | Halt (Exit n) => spec law (h n) w1 (fun o' es' w2 =>
        match o' with Ret _ => Q (Halt (Exit n)) (es ++ es') w2 | _ => Q (pass o') (es ++ es') w2 end)
    | _ => Q o es w1
    end) ->
  spec law (with_on_exit h m) w Q.
Proof.
  intros H. destruct (Hm w) as (es & Hl & _ & _).
  unfold spec, with_on_exit in *. destruct (m w) as [o w1]. simpl in Hl.
  destruct o as [a|[n|n| |c]|c|]; try done.
  destruct (Hh n w1) as (es' & Hl' & _ & _). destruct (h n w1) as [o' w2]. simpl in Hl'.
  assert (Hgen : forall es0, log w2 = rev es0 ++ log w -> es0 = es ++ es').
  { intros es0 H0. rewrite Hl', Hl, app_assoc in H0. apply app_inv_tail in H0.
    apply (f_equal (@rev event)) in H0. by rewrite rev_app_distr, !rev_involutive in H0. }
  destruct o'; intros es0 H0 Hlaw; rewrite (Hgen es0 H0) in *;
    apply Forall_app in Hlaw as [??]; by eapply H.
Qed.

(** What the handlers print, for an exit status, in the order of registration. *)
Definition handler_texts (status : Z) : list string := [
  "on_exit function called: status=" +:+ dec status +:+ ", arg=10" +:+ nl;
  "atexit function 1 called" +:+ nl; "atexit function 2 called" +:+ nl;
  "on_exit function called: status=" +:+ dec status +:+ ", arg=20" +:+ nl].
(** After [k] registrations: the ones that follow run, the last one first. *)
Definition handlers_from (k : nat) (o : outcome Z) (es : list event) (_ : world) : Prop :=
  match o with
  | Halt (Exit n) => exists j, (k <= j)%nat /\ (n = 2 /\ j = 4%nat \/ n = EXIT_FAILURE /\ (j < 4)%nat)
      /\ printed Stdout es = String.concat "" (rev (drop k (take j (handler_texts n))))
  | Halt _ | Blocked _ => True
  | _ => False
  end.
(** A handler that prints [t] of the exit status last. *)
Definition runs_last (law : call -> resp -> Prop) (m : M Z -> M Z) (t : Z -> string) : Prop :=
  forall rest w (Q : outcome Z -> list event -> world -> Prop), Sane rest ->
    spec law rest w (fun o es w1 =>
      match o with Halt (Exit n) => forall w2, Q (Halt (Exit n)) (es ++ [Printed Stdout (t n)]) w2 | _ => Q o es w1 end) ->
    spec law (m rest) w Q.
Lemma on_exit_last law arg : runs_last law (with_on_exit (onexitFunc arg))
  (fun n => "on_exit function called: status=" +:+ dec n +:+ ", arg=" +:+ dec arg +:+ nl).
Proof.
  intros rest w Q Hs H. apply spec_with_on_exit; [apply _|intros; unfold onexitFunc; apply _|]. eapply spec_mono; [|exact H].
  intros [a|[n|n| |]|c|] es w1 HQ; try done. unfold onexitFunc. spec_run. apply HQ.
Qed.
Lemma atexit_last law s : runs_last law (with_atexit (printf s)) (fun _ => s).
Proof.
  intros rest w Q Hs H. apply spec_with_atexit; [apply _|apply _|]. eapply spec_mono; [|exact H].
  intros [a|[n|n| |]|c|] es w1 HQ; try done. spec_run. apply HQ.
Qed.
Lemma spec_register law k call failure m t rest w : (k < 4)%nat -> runs_last law m t -> Sane rest -> Sane (m rest) ->
  (forall n, handler_texts n !! k = Some (t n)) ->
  (forall w, spec law rest w (handlers_from (S k))) -> spec law (register call failure m rest) w (handlers_from k).
Proof.
  intros Hk Hm Hr Hmr Ht H. unfold register. do 2 spec_step; [done|]. spec_step.
  { apply spec_fatal. intros o es w1 Ho Hd. destruct o as [|[n|n| |]|c|]; try done. exists k.
    split_and!; [lia|by right|]. cbn [app printed]. rewrite printed_diag by done.
    by rewrite drop_ge by (rewrite length_take; lia). }
  apply Hm; [done|]. eapply spec_mono; [|apply H].
  intros [a|[n|n| |]|c|] es w1 Ho; try done. intros w2. destruct Ho as (j & Hj & Hn & Hp). exists j.
  split_and!; [lia|done|]. cbn [app printed]. rewrite printed_app, Hp.
  assert (drop k (take j (handler_texts n)) = t n :: drop (S k) (take j (handler_texts n))) as ->.
  { apply drop_S. rewrite lookup_take_lt by lia. apply Ht. }
  cbn [rev]. rewrite Dirs.concat_snoc. cbn. by rewrite sapp_nil_r.
Qed.

#[export] Instance register_sane c f m rest : Sane (m rest) -> Sane (register c f m rest).
Proof. intros. unfold register. apply _. Qed.
#[export] Instance onexitFunc_sane a n : Sane (onexitFunc a n).
Proof. unfold onexitFunc. apply _. Qed.
#[export] Instance atexitFunc1_sane : Sane atexitFunc1.
Proof. unfold atexitFunc1. apply _. Qed.
#[export] Instance atexitFunc2_sane : Sane atexitFunc2.
Proof. unfold atexitFunc2. apply _. Qed.

Lemma spec_exit_handlers law w : spec law exit_handlers_main w (handlers_from 0).
Proof.
  unfold exit_handlers_main. revert w.
  intros w. eapply spec_register; [lia|apply on_exit_last|apply _|apply _|done|]. clear w.
  intros w. eapply spec_register; [lia|apply atexit_last|apply _|apply _|done|]. clear w.
  intros w. eapply spec_register; [lia|apply atexit_last|apply _|apply _|done|]. clear w.
  intros w. eapply spec_register; [lia|apply on_exit_last|apply _|apply _|done|]. clear w.
  intros w. spec_run. exists 4%nat. split_and!; [lia|by left|done].
Qed.

(** ** The properties *)

(** What a fork separates and what it orders.  The child of [t_fork] changes its copies
    of the variables, the parent's keep their values.  [fork_whos_on_first] creates its
    children one at a time, each being waited for before the next, and both processes
    print their line.  [child_status] watches its child until a status says that it has
    ended, and not a status longer; the child ends with the status of its argument.  The
    exit handlers run in the reverse order of their registration, those registered so
    far when a registration fails. *)
Theorem forks_ordered law argv w :
  spec law t_fork_main w t_fork_post
  /\ spec law (fork_whos_on_first_main argv) w (race_post argv)
  /\ spec law (child_status_main argv) w (child_status_post argv)
  /\ spec law exit_handlers_main w (handlers_from 0).
Proof. split_and!; [apply spec_t_fork|apply spec_fork_whos_on_first|apply spec_child_status|apply spec_exit_handlers]. Qed.

(** C22. The parent of [fork_sig_sync] waits for its child.  In every interleaving of the two
    processes, also when calls fail, it goes on only after the child has done its work
    and signalled; when no call has failed, the two cannot get stuck before both have
    ended, the signal being blocked while it may arrive too early; and no run is
    infinite. *)
Theorem fork_sig_sync_correct s :
  reaches (steps fork_sig_sync_any) sync_start s ->
  (after_signal (sy_parent s) = true -> sy_child s = K_exit 0)
  /\ (reaches (steps fork_sig_sync) sync_start s -> sync_running s = true -> exists s', steps fork_sig_sync s s')
  /\ terminates (steps fork_sig_sync_any) s.
Proof. intros Hr. split_and!; [by apply sync_orders|apply sync_moves|by apply sync_ends]. Qed.

(** The child signals before the parent waits. *)
Definition sync_path : list sync_state := [
  Sync P_action K_none true false; Sync P_fork K_none true false; Sync P_print K_start true false;
  Sync P_print K_sleep true false; Sync P_print K_about true false; Sync P_print K_kill true false;
  Sync P_print (K_exit 0) true true; Sync P_suspend (K_exit 0) true true].
Lemma path_reaches {St} `{EqDecision St} (next : St -> list St) l s0 s t : reaches (steps next) s0 s ->
  (fix ok s l := match l with [] => bool_decide (s = t) | x :: l => bool_decide (x ∈ next s) && ok x l end) s l = true ->
  reaches (steps next) s0 t.
Proof.
  revert s. induction l as [|x l IH]; intros s Hr H.
  - by apply bool_decide_eq_true in H as <-.
  - apply andb_prop in H as [H1%bool_decide_eq_true H2]. apply (IH x); [|done]. by eapply reaches_step.
Qed.
Lemma fork_sig_sync_correct_witness :
  let s := Sync P_report (K_exit 0) true false in
  reaches (steps fork_sig_sync_any) sync_start s /\ sy_child s = K_exit 0.
Proof.
  intros s. assert (Hr : reaches (steps fork_sig_sync_any) sync_start s).
  { apply (path_reaches _ (sync_path ++ [s]) sync_start sync_start); [apply reaches_refl|vm_compute; reflexivity]. }
  split; [exact Hr|]. exact (proj1 (fork_sig_sync_correct s Hr) eq_refl).
Defined.
