(* ===== verification/Sessions.v ===== *)
(** * Sessions: process groups, sessions and their signals
    (34-process-credentials, 34-experimental)

    A handler runs while its process pauses: the answer of [pause] says which
    signal was caught. *)

From S2P Require Import Prelude Clib Sys Errors Frame GetNum Posix Status Buffering Forks.

(** [printf("... PID=%ld; PPID=%ld; PGID=%ld; SID=%ld")]: the calls are made from
    the last to the first. *)
Definition ids : M (Z * Z * Z * Z) :=
  s ← scall (Getsid 0);
  g ← scall Getpgrp;
  pp ← scall Getppid;
  p ← scall Getpid;
  mret (p, pp, g, s).
Definition ids_text (who sep : string) (i : Z * Z * Z * Z) : string :=
  let '(p, pp, g, s) := i in
  who +:+ "PID=" +:+ dec p +:+ sep +:+ "PPID=" +:+ dec pp +:+ sep +:+ "PGID=" +:+ dec g +:+ sep +:+ "SID=" +:+ dec s +:+ nl.

(** Wait for signals for ever; [handler] runs for each one. *)
Definition pauses {A} (handler : Z -> M unit) : M A :=
  forever (r ← sys Pause; handler (r_val 0 r)).

(** ** catch_SIGHUP.c *)
Definition HUP_HANDLER : Z := 31.
Definition catch_SIGHUP_main (argv : list string) : M Z :=
  _ ← scall (Lib "setbuf" ["stdout"%string] []);
  a ← scall (Sigaction SIGHUP HUP_HANDLER 0 []);
  if a =? -1 then errExit "sigaction" else
  childPid ← scall Fork;
  if childPid =? -1 then errExit "fork" else
  _ ← when ((childPid =? 0) && (argc_of argv >? 1))
        (g ← scall (Setpgid 0 0); when (g =? -1) (errExit "setpgid"));
  i ← ids;
  _ ← printf (ids_text (if childPid =? 0 then "Child  " else "Parent ") "; " i);
  _ ← scall (Alarm 60);
  forever (
    _ ← scall Pause;
    p ← scall Getpid;
    printf (dec p +:+ ": caught SIGHUP" +:+ nl)).

(** ** disc_SIGHUP.c *)
Definition DISC_HANDLER : Z := 32.
Definition disc_handler (sig : Z) : M unit :=
  t ← sys (Strsignal sig);
  p ← scall Getpid;
  printf ("PID " +:+ dec p +:+ ": caught signal " +:+ lpad 2 " " (dec sig) +:+ " (" +:+ cstr (r_buf t) +:+ ")" +:+ nl).

(** The creation loop: [childPid] when it ends, 0 in a child, which leaves it. *)
Fixpoint disc_children (argv : list string) (js : list nat) (childPid : Z) : M Z :=
  match js with
  | [] => mret childPid
  | j :: js =>
      childPid ← scall Fork;
      if childPid =? -1 then errExit "fork"
      else if childPid =? 0 then
        _ ← when (ceqb (schar 0 (argv_at argv j)) "d")
              (g ← scall (Setpgid 0 0); when (g =? -1) (errExit "setpgid"));
        a ← scall (Sigaction SIGHUP DISC_HANDLER 0 []);
        if a =? -1 then errExit "sigaction" else mret 0
      else disc_children argv js childPid
  end.
Definition disc_SIGHUP_main (argv : list string) : M Z :=
  if (argc_of argv <? 2) || wants_help argv then
    usageErr (cstr (argv_at argv 0) +:+ " {d|s}... [ > sig.log 2>&1 ]" +:+ nl) else
  _ ← scall (Lib "setbuf" ["stdout"%string] []);
  parentPid ← scall Getpid;
  _ ← printf ("PID of parent process is:         " +:+ dec parentPid +:+ nl);
  fg ← scall (Tcgetpgrp STDIN_FILENO);
  _ ← printf ("Foreground process group ID is:   " +:+ dec fg +:+ nl);
  childPid ← disc_children argv (seq 1 (length argv - 1)) 1;
  _ ← scall (Alarm 300);
  i ← ids;
  _ ← printf (ids_text (if childPid =? 0 then "Child  " else "Parent ") "; " i);
  pauses (fun sig => when (sig =? SIGHUP) (disc_handler sig)).

(** ** job_mon.c *)
Definition JOB_HANDLER : Z := 33.
Definition job_handler (cmdNum sig : Z) : M unit :=
  g ← scall Getpgrp;
  p ← scall Getpid;
  _ ← when (p =? g) (
        fg ← scall (Tcgetpgrp STDERR_FILENO);
        fputs Stderr ("Terminal FG process group: " +:+ dec fg +:+ nl));
  t ← sys (Strsignal sig);
  p ← scall Getpid;
  _ ← fputs Stderr ("Process " +:+ dec p +:+ " (" +:+ dec cmdNum +:+ ") received signal " +:+ dec sig
                    +:+ " (" +:+ cstr (r_buf t) +:+ ")" +:+ nl);
  when (sig =? SIGTSTP) (_ ← scall (Raise SIGSTOP); mret tt).

(** The position of the process before this one: of a pipeline's first, 0. *)
Definition job_position : M Z :=
  t ← scall (Isatty STDIN_FILENO);
  if negb (t =? 0) then
    fg ← scall (Tcgetpgrp STDIN_FILENO);
    _ ← fputs Stderr ("Terminal FG process group: " +:+ dec fg +:+ nl);
    _ ← fputs Stderr ("Command     PID  PPID  PGRP   SIG" +:+ nl);
    mret 0
  else
    r ← sys (Read STDIN_FILENO 4);
    if r_ret r <=? 0 then fatal "read got EOF or error" else mret (int_of_bytes (ztake (r_ret r) (r_buf r))).
Definition job_catch (sig : Z) : M unit :=
  a ← scall (Sigaction sig JOB_HANDLER SA_RESTART []);
  when (a =? -1) (errExit "sigaction").
Definition job_line (cmdNum : Z) (i : Z * Z * Z * Z) : string :=
  let '(p, pp, g, s) := i in
  "   " +:+ lpad 4 " " (dec cmdNum) +:+ ("   " +:+ lpad 5 " " (dec p) +:+ " " +:+ lpad 5 " " (dec pp)
    +:+ " " +:+ lpad 5 " " (dec g) +:+ " " +:+ lpad 5 " " (dec s) +:+ nl).
Definition job_mon_main (argv : list string) : M Z :=
  _ ← job_catch SIGINT;
  _ ← job_catch SIGTSTP;
  _ ← job_catch SIGCONT;
  n ← job_position;
  let cmdNum := wrap_s32 (n + 1) in
  i ← ids;
  _ ← fputs Stderr (job_line cmdNum i);
  t ← scall (Isatty STDOUT_FILENO);
  _ ← when (t =? 0) (
        k ← scall (Write STDOUT_FILENO (int_bytes cmdNum));
        when (k =? -1) (errMsg "write"));
  pauses (job_handler cmdNum).

(** ** orphaned_pgrp_SIGHUP.c *)
Definition ORPHAN_HANDLER : Z := 34.
Definition orphan_handler (sig : Z) : M unit :=
  t ← sys (Strsignal sig);
  p ← scall Getpid;
  printf ("PID=" +:+ dec p +:+ ": caught signal " +:+ dec sig +:+ " (" +:+ cstr (r_buf t) +:+ ")" +:+ nl).
(** The signals caught while the process stops or waits in a call. *)
Definition orphan_signals (r : resp) : M unit := for_each orphan_handler (r_vals r).
Definition orphan_child (argv : list string) (j : Z) : M unit :=
  i ← ids;
  _ ← printf (ids_text "child:  " ", " i);
  _ ← (if ceqb (schar 0 (argv_at argv (Z.to_nat j))) "s" then
         p ← scall Getpid;
         _ ← printf ("PID=" +:+ dec p +:+ " stopping" +:+ nl);
         r ← sys (Raise SIGSTOP);
         orphan_signals r
       else
         _ ← scall (Alarm 60);
         p ← scall Getpid;
         _ ← printf ("PID=" +:+ dec p +:+ " pausing" +:+ nl);
         r ← sys Pause;
         orphan_signals r);
  quick_exit EXIT_SUCCESS.
Definition orphan_start (argv : list string) (j : Z) : M unit :=
  pid ← scall Fork;
  if pid =? -1 then errExit "fork"
  else when (pid =? 0) (orphan_child argv j).
Definition orphaned_pgrp_SIGHUP_main (argv : list string) : M Z :=
  if (argc_of argv <? 2) || wants_help argv then
    usageErr (cstr (argv_at argv 0) +:+ " {s|p} ..." +:+ nl) else
  _ ← scall (Lib "setbuf" ["stdout"%string] []);
  h ← scall (Sigaction SIGHUP ORPHAN_HANDLER 0 []);
  if h =? -1 then errExit "sigaction" else
  c ← scall (Sigaction SIGCONT ORPHAN_HANDLER 0 []);
  if c =? -1 then errExit "sigaction" else
  i ← ids;
  _ ← printf (ids_text "parent: " ", " i);
  _ ← for_each (orphan_start argv) (seqZ 1 (argc_of argv - 1));
  r ← sys (Sleep 10);
  _ ← orphan_signals r;
  _ ← printf ("parent exiting" +:+ nl);
  exit EXIT_SUCCESS.

(** ** t_setsid.c: [fork() != 0] is also a failure, which ends the program. *)
Definition t_setsid_ids (who : string) : M unit :=
  s ← scall (Getsid 0);
  g ← scall Getpgrp;
  p ← scall Getpid;
  printf (who +:+ "PID=" +:+ dec p +:+ ", PGID=" +:+ dec g +:+ ", SID=" +:+ dec s +:+ nl).
Definition t_setsid_main : M Z :=
  _ ← scall (Lib "setbuf" ["stdout"%string] []);
  _ ← t_setsid_ids "Parent: ";
  pid ← scall Fork;
  if negb (pid =? 0) then quick_exit EXIT_SUCCESS else
  _ ← t_setsid_ids "Child:  ";
  ttyFD ← scall (Open "/dev/tty" O_RDWR 0);
  if ttyFD =? -1 then errExit "open /dev/tty" else
  _ ← scall (Write ttyFD ("dummy write to tty" +:+ nl));
  exit EXIT_SUCCESS.

(** ** 34-experimental *)

(** is-tty.c *)
Definition is_tty_main : M Z :=
  _ ← scall (Write 2 ("start" +:+ nl));
  t ← scall (Isatty 0);
  _ ← fputs Stderr ("stdin is " +:+ (if negb (t =? 0) then "t" else "n") +:+ nl);
  _ ← scall (Write 2 ("end" +:+ nl));
  exit EXIT_SUCCESS.

(** redirect-tty.c; [junk] is [strBuf] before [fgets]. *)
Definition redirect_tty_main (junk : string) : M Z :=
  _ ← scall (Lib "setbuf" ["stdout"%string] []);
  n ← sys (Lib "ctermid" [] []);
  _ ← printf ("controlling terminal path name: " +:+ cstr (r_buf n) +:+ nl);
  _ ← printf ("write to stdout!" +:+ nl);
  _ ← printf ("write to stdout2!" +:+ nl);
  _ ← fputs Stderr ("write to stderr!" +:+ nl);
  _ ← fputs Stderr ("write to stderr2!" +:+ nl);
  ttyFd ← scall (Open "/dev/tty" O_RDWR 0);
  if ttyFd =? -1 then _ ← perror "failed to open tty"; exit EXIT_FAILURE else
  _ ← scall (Lib "fdopen" ["w"%string] [ttyFd]);
  _ ← scall (Lib "fdopen" ["r"%string] [ttyFd]);
  _ ← scall (Lib "setbuf" ["ttyOut"%string] []);
  let ttyOut := OtherStream ttyFd in
  _ ← fputs ttyOut ("write to /dev/tty" +:+ nl);
  _ ← fputs ttyOut "reading from /dev/tty: ";
  l ← sys (Fgets 256 ttyOut);
  _ ← fputs ttyOut (nl +:+ "read: " +:+ cstr (if r_ret l =? 0 then junk else r_buf l));
  _ ← stop "exit";
  exit EXIT_SUCCESS.

(** sighup-process.c *)
Definition HUP2_HANDLER : Z := 35.
Definition sigHupHandler : M unit := _ ← scall (Write 1 ("call sighup!" +:+ nl)); mret tt.
Definition sighup_process_main : M Z :=
  _ ← scall (Lib "setbuf" ["stdout"%string] []);
  _ ← scall (Signal SIGHUP HUP2_HANDLER);
  _ ← printf ("install signal handler" +:+ nl);
  _ ← scall Pause;
  _ ← sigHupHandler;
  _ ← printf ("exit" +:+ nl);
  exit EXIT_SUCCESS.

(** sigttou.c *)
Definition sigttou_main : M Z :=
  _ ← scall (Lib "setbuf" ["stdout"%string] []);
  pid ← scall Fork;
  if pid =? -1 then errExit "fork"
  else if pid =? 0 then
    _ ← scall (Setpgid 0 0);
    _ ← exec (Execp "stty" ["stty"; "intr"; "q"]%string);
    exit EXIT_SUCCESS
  else
    _ ← printf ("write from parent!" +:+ nl);
    _ ← scall Wait;
    exit EXIT_SUCCESS.

#[export] Instance ids_sane : Sane ids.
Proof. unfold ids. apply _. Qed.
#[export] Instance pauses_sane {A} h : (forall s, Sane (h s)) -> Sane (pauses (A:=A) h).
Proof. intros. unfold pauses. apply _. Qed.
#[export] Instance catch_SIGHUP_main_sane a : Sane (catch_SIGHUP_main a).
Proof. unfold catch_SIGHUP_main. apply _. Qed.
#[export] Instance disc_handler_sane s : Sane (disc_handler s).
Proof. unfold disc_handler. apply _. Qed.
#[export] Instance disc_children_sane a js p : Sane (disc_children a js p).
Proof. revert p. induction js as [|j js IH]; intros p; cbn [disc_children]; apply _. Qed.
#[export] Instance disc_SIGHUP_main_sane a : Sane (disc_SIGHUP_main a).
Proof. unfold disc_SIGHUP_main. apply _. Qed.
#[export] Instance job_handler_sane n s : Sane (job_handler n s).
Proof. unfold job_handler. apply _. Qed.
#[export] Instance job_position_sane : Sane job_position.
Proof. unfold job_position. apply _. Qed.
#[export] Instance job_catch_sane s : Sane (job_catch s).
Proof. unfold job_catch. apply _. Qed.
#[export] Instance job_mon_main_sane a : Sane (job_mon_main a).
Proof. unfold job_mon_main. apply _. Qed.
#[export] Instance orphan_handler_sane s : Sane (orphan_handler s).
Proof. unfold orphan_handler. apply _. Qed.
#[export] Instance orphan_signals_sane s : Sane (orphan_signals s).
Proof. unfold orphan_signals. apply _. Qed.
#[export] Instance orphan_child_sane a s : Sane (orphan_child a s).
Proof. unfold orphan_child. apply _. Qed.
#[export] Instance orphan_start_sane a s : Sane (orphan_start a s).
Proof. unfold orphan_start. apply _. Qed.
#[export] Instance orphaned_pgrp_SIGHUP_main_sane a : Sane (orphaned_pgrp_SIGHUP_main a).
Proof. unfold orphaned_pgrp_SIGHUP_main. apply _. Qed.

(** ** The numbers of a pipeline *)

(** What a process of the pipeline reads from the one before and writes to the next. *)
Fixpoint job_read (es : list event) : option string :=
  match es with
  | [] => None
  | Called (Read _ _) r :: _ => Some (ztake (r_ret r) (r_buf r))
  | _ :: es => job_read es
  end.
Fixpoint job_write (es : list event) : option string :=
  match es with
  | [] => None
  | Called (Write _ d) _ :: _ => Some d
  | _ :: es => job_write es
  end.
Definition no_transfer (e : event) : Prop := match e with Called (Read _ _ | Write _ _) _ => False | _ => True end.
Lemma job_read_app es fs : job_read (es ++ fs) = match job_read es with Some v => Some v | None => job_read fs end.
Proof. by induction es as [|[[]| |] es IH]. Qed.
Lemma job_write_app es fs : job_write (es ++ fs) = match job_write es with Some v => Some v | None => job_write fs end.
Proof. by induction es as [|[[]| |] es IH]. Qed.
Lemma job_none es : Forall no_transfer es -> job_read es = None /\ job_write es = None.
Proof. induction 1 as [|[[]| |] es He _ IH]; simpl in *; try done; by split. Qed.

Definition job_number (es : list event) : Z :=
  wrap_s32 (match job_read es with Some d => int_of_bytes d | None => 0 end + 1).
(** The line of the process, and what it hands on. *)
Definition job_shown (es : list event) : Prop :=
  (exists t, In (Printed Stderr ("   " +:+ lpad 4 " " (dec (job_number es)) +:+ t)) es)
  /\ (job_write es = None \/ job_write es = Some (int_bytes (job_number es))).
Definition job_post {A} (o : outcome A) (es : list event) : Prop :=
  match o with
  | Halt h => died h
  | Blocked Pause => job_shown es
  | Blocked _ => True
  | _ => False
  end.

Definition not_pause (c : call) : Prop := match c with Pause => False | _ => True end.
Lemma job_shown_app es fs : job_shown es -> Forall no_transfer fs -> job_shown (es ++ fs).
Proof.
  intros [[t Ht] Hw] Hf. destruct (job_none fs Hf) as [Hr Hw'].
  assert (Hn : job_number (es ++ fs) = job_number es) by (unfold job_number; rewrite job_read_app, Hr; by destruct (job_read es)).
  split; rewrite Hn.
  - exists t. apply in_app_iff. by left.
  - rewrite job_write_app, Hw'. by destruct (job_write es).
Qed.

Lemma spec_job_catch law s w (Q : outcome unit -> list event -> world -> Prop) :
  (forall c es w', not_pause c -> Q (Blocked c) es w') -> (forall h es w', died h -> Q (Halt h) es w') ->
  (forall es w', Forall no_transfer es -> Q (Ret tt) es w') -> spec law (job_catch s) w Q.
Proof.
  intros HB HD HR. unfold job_catch. do 2 spec_step; [by apply HB|]. spec_step. spec_step.
  - apply spec_dies_in; [apply _|intros c ? ? Hc _; apply HB; by destruct c|intros; by apply HD].
  - spec_step. apply HR. by repeat constructor.
Qed.

(** The number found, and the events so far. *)
Lemma spec_job_position law w (Q : outcome Z -> list event -> world -> Prop) :
  (forall c es w', not_pause c -> Q (Blocked c) es w') -> (forall h es w', died h -> Q (Halt h) es w') ->
  (forall n es w', n = match job_read es with Some d => int_of_bytes d | None => 0 end -> job_write es = None -> Q (Ret n) es w') ->
  spec law job_position w Q.
Proof.
  intros HB HD HR. unfold job_position. do 2 spec_step; [by apply HB|]. spec_step.
  - spec_run; try by apply HB. by apply HR.
  - do 2 spec_step; [by apply HB|]. spec_step.
    + apply spec_dies_in; [apply _|intros c ? ? Hc _; apply HB; by destruct c|intros; by apply HD].
    + spec_step. by apply HR.
Qed.
#[export] Instance job_handler_calm n s : Calm (job_handler n s).
Proof. unfold job_handler. apply _. Qed.
#[export] Instance job_handler_quiet n s : Emits no_transfer (job_handler n s).
Proof. unfold job_handler. apply _. Qed.
#[export] Instance job_handler_waits n s : Waits not_pause (job_handler n s).
Proof. unfold job_handler. apply _. Qed.

#[export] Instance errMsg_not_pause m : Waits not_pause (errMsg m).
Proof. unfold errMsg, outputError. apply _. Qed.
#[export] Instance errMsg_no_transfer m : Emits no_transfer (errMsg m).
Proof. emits_tac. Qed.

(** The message to the next process, and the signals. *)
Definition job_rest (cmdNum t : Z) : M Z :=
  _ ← when (t =? 0) (
        k ← scall (Write STDOUT_FILENO (int_bytes cmdNum));
        when (k =? -1) (errMsg "write"));
  pauses (job_handler cmdNum).
Lemma spec_job_rest law pre t w : job_write pre = None ->
  (exists tl, In (Printed Stderr ("   " +:+ lpad 4 " " (dec (job_number pre)) +:+ tl)) pre) ->
  spec law (job_rest (job_number pre) t) w (fun o es _ => job_post o (pre ++ es)).
Proof.
  intros Hw Hl. unfold job_rest, pauses.
  apply spec_bind; [apply _|intros; apply _|].
  apply spec_mono with (Q := fun o es _ => match o with
    | Ret _ => job_shown (pre ++ es) | Halt h => died h | Blocked c => not_pause c | Diverged => False end).
  { intros [[]|h|c|] es w1 Ho; try done; [|by destruct c].
    apply spec_forever with (I := fun fs _ => job_shown (pre ++ es ++ fs)); [apply _|apply _|by rewrite app_nil_r|].
    intros fs w2 Hs. do 2 spec_step; [by rewrite app_nil_r|].
    apply (spec_frame_waits _ no_transfer _ not_pause); cbn [pass].
    - intros c es' w4 Hc _. by destruct c.
    - intros [] es' w4 He'.
      replace (pre ++ es ++ fs ++ [Called Pause r] ++ es') with ((pre ++ es ++ fs) ++ [Called Pause r] ++ es') by (by rewrite <- !app_assoc).
      apply job_shown_app; [done|]. by constructor. }
  assert (H0 : job_shown pre) by (split; [done|by left]).
  unfold when. destruct (t =? 0).
  - do 2 spec_step; [done|].
    assert (Hk : job_shown (pre ++ [Called (Write STDOUT_FILENO (int_bytes (job_number pre))) r])).
    { assert (Hn : job_number (pre ++ [Called (Write STDOUT_FILENO (int_bytes (job_number pre))) r]) = job_number pre)
        by (unfold job_number; rewrite job_read_app; cbn; by destruct (job_read pre)).
      split; rewrite Hn; [destruct Hl as [tl Hl]; exists tl; apply in_app_iff; by left|].
      rewrite job_write_app, Hw. by right. }
    spec_step; [|spec_step; by rewrite app_nil_r].
    apply (spec_frame_waits _ no_transfer _ not_pause).
    + intros c es w2 Hc _. by destruct c.
    + intros [] es w2 He2. rewrite app_assoc. by apply job_shown_app.
  - spec_step. by rewrite app_nil_r.
Qed.

Lemma spec_job_mon law argv w : spec law (job_mon_main argv) w (fun o es _ => job_post o es).
Proof.
  assert (HB : forall c es, not_pause c -> job_post (A:=Z) (Blocked c) es) by (by intros []).
  assert (HD : forall h es, died h -> job_post (A:=Z) (Halt h) es) by done.
  unfold job_mon_main.
  do 3 (spec_step; apply spec_job_catch; [intros; by apply HB|intros; by apply HD|]; let e := fresh "e" in let w' := fresh "w" in let H := fresh "H" in intros e w' H).
  spec_step. apply spec_job_position; [intros; by apply HB|intros; by apply HD|]. intros n e2 w3 Hn Hw.
  spec_step. unfold ids. do 2 spec_step; [by apply HB|]. do 2 spec_step; [by apply HB|].
  do 2 spec_step; [by apply HB|]. do 2 spec_step; [by apply HB|]. spec_step. do 3 spec_step.
  do 2 spec_step; [by apply HB|].
  assert (Hpre : job_read (e ++ e0 ++ e1) = None /\ job_write (e ++ e0 ++ e1) = None).
  { apply job_none. by rewrite !Forall_app. }
  set (q := [Called (Getsid 0) r; Called Getpgrp r0; Called Getppid r1; Called Getpid r2;
             Printed Stderr (job_line (wrap_s32 (n + 1)) (r_ret r2, r_ret r1, r_ret r0, r_ret r)); Called (Isatty STDOUT_FILENO) r3]).
  assert (Hq : job_read (((e ++ e0 ++ e1) ++ e2) ++ q) = job_read e2 /\ job_write (((e ++ e0 ++ e1) ++ e2) ++ q) = None).
  { rewrite !(job_read_app _ q), !(job_write_app _ q), (job_read_app _ e2), (job_write_app _ e2). destruct Hpre as [-> ->]. rewrite Hw.
    split; [by destruct (job_read e2)|done]. }
  destruct Hq as [Hq1 Hq2].
  assert (Hnum : job_number (((e ++ e0 ++ e1) ++ e2) ++ q) = wrap_s32 (n + 1)) by (unfold job_number; by rewrite Hq1, Hn).
  eapply spec_mono; [|rewrite <- Hnum; apply (spec_job_rest law _ (r_ret r3) w9 Hq2)].
  - cbn beta. intros o es w10. rewrite <- !app_assoc. done.
  - rewrite Hnum. eexists. apply in_app_iff. right. do 4 right. left. reflexivity.
Qed.

(** Processes joined by pipes: the first reads from the terminal, each other one what the
    one before has written. *)
Definition pipeline (ts : list (list event)) : Prop :=
  (forall es, ts !! 0%nat = Some es -> job_read es = None)
  /\ (forall i es es', ts !! i = Some es -> ts !! S i = Some es' -> exists d, job_write es = Some d /\ job_read es' = Some d).
Lemma pipeline_numbers ts : Forall job_shown ts -> pipeline ts -> Z.of_nat (length ts) <= INT_MAX ->
  forall i es, ts !! i = Some es -> job_number es = Z.of_nat i + 1.
Proof.
  intros Hs [H0 Hn] Hl. induction i as [|i IH]; intros es Hi.
  - unfold job_number. by rewrite (H0 es Hi).
  - destruct (lookup_lt_is_Some_2 ts i) as [es0 Hi0]; [apply lookup_lt_Some in Hi; lia|].
    destruct (Hn i es0 es Hi0 Hi) as (d & Hw & Hr). specialize (IH es0 Hi0).
    rewrite Forall_lookup in Hs. destruct (Hs i es0 Hi0) as [_ [Hw'|Hw']]; [congruence|].
    apply lookup_lt_Some in Hi. unfold job_number at 1. rewrite Hr.
    assert (d = int_bytes (Z.of_nat i + 1)) as -> by congruence.
    rewrite int_of_bytes_bytes, wrap_s32_id; unfold in_int, INT_MIN, INT_MAX in *; lia.
Qed.

(** ** [disc_SIGHUP] *)

Definition disc_call (c : call) : bool := match c with Fork | Setpgid _ _ | Sigaction _ _ _ _ => true | _ => false end.
Definition disc_calls (es : list event) : list call := List.filter disc_call (calls es).
Definition disc_child (a : string) : list call :=
  (if ceqb (schar 0 a) "d" then [Setpgid 0 0] else []) ++ [Sigaction SIGHUP DISC_HANDLER 0 []].
(** What a process of the program has done when it waits for signals: the parent has
    created a child for each argument, the child for the [k]-th argument has changed
    its group, if asked to, before it catches SIGHUP. *)
Definition disc_done (args : list string) (child : bool) (cs : list call) : Prop :=
  if child then exists k a, args !! k = Some a /\ cs = repeat Fork (S k) ++ disc_child a
  else cs = repeat Fork (length args).
Definition disc_post {A} (argv : list string) (o : outcome A) (es : list event) : Prop :=
  match o with
  | Halt h => died h
  | Blocked Pause => exists child, disc_done (tail argv) child (disc_calls es)
  | Blocked _ => True
  | _ => False
  end.
Lemma disc_calls_app es fs : disc_calls (es ++ fs) = disc_calls es ++ disc_calls fs.
Proof. unfold disc_calls. by rewrite calls_app, List.filter_app. Qed.

Ltac die_in HB HD := apply spec_dies_in; [apply _|intros c ? ? Hc _; apply HB; by destruct c|intros; by apply HD].
Lemma spec_disc_children law argv js pid w (Q : outcome Z -> list event -> world -> Prop) :
  (forall c es w', not_pause c -> Q (Blocked c) es w') -> (forall h es w', died h -> Q (Halt h) es w') ->
  (forall child pid' es w', disc_done (map (argv_at argv) js) child (disc_calls es) -> Q (Ret pid') es w') ->
  spec law (disc_children argv js pid) w Q.
Proof.
  intros HB HD HR. revert pid w Q HB HD HR. induction js as [|j js IH]; intros pid w Q HB HD HR; cbn [disc_children].
  - spec_step. by apply (HR false).
  - do 2 spec_step; [by apply HB|]. spec_step.
    { die_in HB HD. }
    spec_step.
    + spec_step. unfold when. spec_step.
      * do 2 spec_step; [by apply HB|]. unfold when. spec_step.
        { die_in HB HD. }
        spec_step. do 2 spec_step; [by apply HB|]. spec_step.
        { die_in HB HD. }
        spec_step. apply (HR true). exists O, (argv_at argv j). split; [done|]. unfold disc_child. by rewrite Heqb1.
      * spec_step. do 2 spec_step; [by apply HB|]. spec_step.
        { die_in HB HD. }
        spec_step. apply (HR true). exists O, (argv_at argv j). split; [done|]. unfold disc_child. by rewrite Heqb1.
    + apply IH; [intros; by apply HB|intros; by apply HD|]. intros child pid' es w2 Hd. apply (HR child).
      rewrite disc_calls_app. destruct child.
      * destruct Hd as (k & a & Ha & ->). exists (S k), a. by split.
      * cbn in Hd |- *. by rewrite Hd.
Qed.
Lemma argv_tail argv : map (argv_at argv) (seq 1 (length argv - 1)) = tail argv.
Proof.
  destruct argv as [|a l]; [done|]. cbn [length tail]. rewrite Nat.sub_succ, Nat.sub_0_r, <- seq_shift, map_map. cbn.
  induction l as [|b l IH]; [done|]. cbn [length seq map]. f_equal. rewrite <- seq_shift, map_map. exact IH.
Qed.

#[export] Instance disc_handler_calm s : Calm (disc_handler s).
Proof. unfold disc_handler. apply _. Qed.
#[export] Instance disc_handler_waits s : Waits not_pause (disc_handler s).
Proof. unfold disc_handler. apply _. Qed.
Definition no_disc (e : event) : Prop := match e with Called c _ => disc_call c = false | _ => True end.
#[export] Instance disc_handler_quiet s : Emits no_disc (disc_handler s).
Proof. unfold disc_handler. apply _. Qed.
Lemma disc_calls_none es : Forall no_disc es -> disc_calls es = [].
Proof. unfold disc_calls. induction 1 as [|[c r| |] es He _ IH]; cbn in *; try done. by rewrite He. Qed.

Lemma spec_disc_SIGHUP law argv w : spec law (disc_SIGHUP_main argv) w (fun o es _ => disc_post argv o es).
Proof.
  assert (HB : forall c es, not_pause c -> disc_post (A:=Z) argv (Blocked c) es) by (by intros []).
  assert (HD : forall h es, died h -> disc_post (A:=Z) argv (Halt h) es) by done.
  unfold disc_SIGHUP_main. spec_step; [die_in HB HD|]. do 2 spec_step; [by apply HB|]. do 2 spec_step; [by apply HB|].
  do 4 spec_step. do 2 spec_step; [by apply HB|]. do 2 spec_step.
  spec_step. apply spec_disc_children; [intros; by apply HB|intros; by apply HD|].
  rewrite argv_tail. intros child pid' es w6 Hd. do 2 spec_step; [by apply HB|].
  spec_step. unfold ids. do 2 spec_step; [by apply HB|]. do 2 spec_step; [by apply HB|].
  do 2 spec_step; [by apply HB|]. do 2 spec_step; [by apply HB|]. spec_step. do 2 spec_step.
  unfold pauses. apply spec_forever with (I := fun fs _ => Forall no_disc fs); [apply _|apply _|constructor|].
  intros fs w12 Hf. do 2 spec_step.
  - exists child. rewrite !disc_calls_app, (disc_calls_none fs) by done. by rewrite ?app_nil_r.
  - unfold when. spec_step; [|spec_step; rewrite app_nil_r; apply Forall_app; split; [done|by repeat constructor]].
    apply (spec_frame_waits _ no_disc _ not_pause); cbn [pass].
    + intros c es' wz Hc _. by destruct c.
    + intros [] es' wz He'. apply Forall_app. split; [done|]. by constructor.
Qed.

(** ** The property *)


