(* ===== verification/Mappings.v ===== *)
(** * Mappings: memory mappings (49-mmap, 50-mmap-control, 7-memory-allocate)

    Memory that a mapping shares is read and written by the calls ReadMem and
    WriteMem; sizes are [size_t], addresses numbers. *)

From S2P Require Import Prelude Clib Sys Errors Frame GetNum Posix Status PosixIpc.

Definition PROT_NONE : Z := 0.
Definition MAP_PRIVATE : Z := 2.
Definition MAP_ANONYMOUS : Z := 32.
Definition MCL_CURRENT : Z := 1.
Definition MS_SYNC : Z := 4.
Definition _SC_PAGESIZE : Z := 30.

(** ** 49-mmap *)

(** mmcat.c.  [errExit(EXIT_SUCCESS)] for an empty file passes a null pointer as the
    format: what that prints is [null_format]. *)
Definition mmcat_main (null_format : string) (argv : list string) : M Z :=
  if negb (argc_of argv =? 2) || wants_help argv then
    usageErr (cstr (argv_at argv 0) +:+ " file" +:+ nl) else
  fd ← scall (Open (cstr (argv_at argv 1)) O_RDONLY 0);
  if fd =? -1 then errExit "open" else
  sb ← sys (Fstat fd);
  if r_ret sb =? -1 then errExit "fstat" else
  let st_size := r_val 0 sb in
  if st_size =? 0 then errExit null_format else
  addr ← scall (Mmap st_size PROT_READ MAP_PRIVATE fd 0);
  if addr =? MAP_FAILED then errExit "mmap" else
  m ← sys (ReadMem addr st_size);
  k ← scall (Write STDOUT_FILENO (r_buf m));
  if negb (k =? st_size) then fatal "partial/failed write" else
  _ ← stop "exit";
  exit EXIT_SUCCESS.

(** t_mmap.c *)
Definition MEM_SIZE : Z := 10.
(** [memset(addr, 0, MEM_SIZE); strncpy(addr, s, MEM_SIZE - 1)]: [strncpy] pads with null bytes. *)
Definition mem_value (s : string) : string :=
  let v := strncpy_str s (MEM_SIZE - 1) in v +:+ srep (Z.to_nat (MEM_SIZE - slen v)) nul.
Definition t_mmap_main (argv : list string) : M Z :=
  if (argc_of argv <? 2) || wants_help argv then
    usageErr (cstr (argv_at argv 0) +:+ " file [new-value]" +:+ nl) else
  fd ← scall (Open (cstr (argv_at argv 1)) O_RDWR 0);
  if fd =? -1 then errExit "open" else
  addr ← scall (Mmap MEM_SIZE (PROT_READ .| PROT_WRITE) MAP_SHARED fd 0);
  if addr =? MAP_FAILED then errExit "mmap" else
  c ← scall (Close fd);
  if c =? -1 then errExit "close" else
  m ← sys (ReadMem addr MEM_SIZE);
  _ ← printf ("Current string=" +:+ fmt_prec MEM_SIZE (r_buf m) +:+ nl);
  if argc_of argv >? 2 then
    if strlen (argv_at argv 2) >=? MEM_SIZE then cmdLineErr ("'new-value' too large" +:+ nl) else
    _ ← sys (WriteMem addr (mem_value (argv_at argv 2)));
    s ← scall (Lib "msync" [] [addr; MEM_SIZE; MS_SYNC]);
    if s =? -1 then errExit "msync" else
    _ ← printf ("Copied " +:+ dquote +:+ cstr (argv_at argv 2) +:+ dquote +:+ " to shared memory" +:+ nl);
    exit EXIT_SUCCESS
  else exit EXIT_SUCCESS.

(** anon_mmap.c; [anon] is the conditional USE_MAP_ANON. *)
Definition read_int (addr : Z) : M Z := m ← sys (ReadMem addr 4); mret (int_of_bytes (r_buf m)).
Definition write_int (addr v : Z) : M unit := _ ← sys (WriteMem addr (int_bytes v)); mret tt.
Definition anon_map (anon : bool) : M Z :=
  if anon then
    addr ← scall (Mmap 4 (PROT_READ .| PROT_WRITE) (MAP_SHARED .| MAP_ANONYMOUS) (-1) 0);
    if addr =? MAP_FAILED then errExit "mmap" else mret addr
  else
    fd ← scall (Open "/dev/zero" O_RDWR 0);
    if fd =? -1 then errExit "open" else
    addr ← scall (Mmap 4 (PROT_READ .| PROT_WRITE) MAP_SHARED fd 0);
    if addr =? MAP_FAILED then errExit "mmap" else
    c ← scall (Close fd);
    if c =? -1 then errExit "close" else mret addr.
Definition unmap_exit (addr : Z) : M Z :=
  u ← scall (Munmap addr 4);
  if u =? -1 then errExit "munmap" else exit EXIT_SUCCESS.
Definition anon_child (addr : Z) : M Z :=
  v ← read_int addr;
  _ ← printf ("Child started, value = " +:+ dec v +:+ nl);
  v ← read_int addr;
  _ ← write_int addr (wrap_s32 (v + 1));
  unmap_exit addr.
Definition anon_parent (addr : Z) : M Z :=
  w ← scall Wait;
  if w =? -1 then errExit "wait" else
  v ← read_int addr;
  _ ← printf ("In parent, value = " +:+ dec v +:+ nl);
  unmap_exit addr.
Definition anon_mmap_main (anon : bool) : M Z :=
  addr ← anon_map anon;
  _ ← write_int addr 10000000;
  _ ← stop "before fork";
  pid ← scall Fork;
  if pid =? -1 then errExit "fork"
  else if pid =? 0 then anon_child addr
  else anon_parent addr.

(** ** 50-mmap-control *)

(** t_mprotect.c: [sizeof(SHELL_FMT)] is 31. *)
Definition MPROTECT_LEN : Z := 1024 * 1024.
Definition MPROTECT_CMD_SIZE : Z := 31 + 20.
Definition maps_command (pid : Z) : string :=
  snprintf MPROTECT_CMD_SIZE ("cat /proc/" +:+ dec pid +:+ "/maps | grep zero").
Definition t_mprotect_main : M Z :=
  addr ← scall (Mmap MPROTECT_LEN PROT_NONE (MAP_SHARED .| MAP_ANONYMOUS) (-1) 0);
  if addr =? MAP_FAILED then errExit "mmap" else
  _ ← printf ("Before mprotect()" +:+ nl);
  p ← scall Getpid;
  let cmd := maps_command p in
  _ ← scall (System cmd);
  m ← scall (Mprotect addr MPROTECT_LEN (PROT_READ .| PROT_WRITE));
  if m =? -1 then errExit "mprotect" else
  _ ← printf ("After mprotect()" +:+ nl);
  _ ← scall (System cmd);
  exit EXIT_SUCCESS.

(** memlock.c *)
Definition residency (addr pageSize : Z) (vec : string) (j : Z) : string :=
  (if j mod 64 =? 0 then (if j =? 0 then "" else nl) +:+ lpad 10 " " (hex_alt (addr + j * pageSize)) +:+ ": " else "")
  +:+ (if Z.odd (ascii_Z (schar (Z.to_nat j) vec)) then "*" else ".").
Definition displayMincore (addr len : Z) : M unit :=
  pageSize ← scall (Sysconf _SC_PAGESIZE);
  let numPages := wrap_s64 (wrap_u64 (len + pageSize - 1) / wrap_u64 pageSize) in
  vec ← scall (Malloc numPages);
  if vec =? 0 then errExit "malloc" else
  m ← sys (Mincore addr len);
  if r_ret m =? -1 then errExit "mincore" else
  _ ← for_each (fun j => printf (residency addr pageSize (r_buf m) j)) (seqZ 0 numPages);
  _ ← printf nl;
  _ ← sys (Free vec);
  mret tt.
(** [for (j = 0; j + lockLen <= len; j += stepSize)]: the sum is a [size_t]. *)
Definition lock_pages (addr len stepSize lockLen : Z) : M unit :=
  loop (fun j =>
    if wrap_u64 (wrap_u64 j + lockLen) <=? len then
      k ← scall (Mlock (addr + j) lockLen);
      if k =? -1 then errExit "mlock" else mret (inl (wrap_s64 (j + stepSize)))
    else mret (inr tt)) 0.
Definition pages_arg (argv : list string) (j : nat) (name : string) (pageSize : Z) : M Z :=
  n ← getInt (argv_opt argv j) GN_GT_0 (Some name); mret (wrap_s64 (n * pageSize)).
(** What is shown once the ranges are locked, and all that follows the mapping. *)
Definition show_locked (addr len : Z) : M Z :=
  _ ← printf ("After mlock:" +:+ nl);
  _ ← displayMincore addr len;
  a ← scall (Lib "mlockall" [] [MCL_CURRENT]);
  if a =? -1 then errExit "mlockall" else
  _ ← printf ("After mlockall:" +:+ nl);
  _ ← displayMincore addr len;
  exit EXIT_SUCCESS.
Definition lock_and_show (addr len stepSize lockLen : Z) : M Z :=
  _ ← printf ("Allocated " +:+ dec (wrap_s64 len) +:+ " (" +:+ hex_alt len +:+ ") bytes starting at " +:+ hex_alt addr +:+ nl);
  _ ← printf ("Before mlock:" +:+ nl);
  _ ← displayMincore addr len;
  _ ← lock_pages addr len stepSize lockLen;
  show_locked addr len.
Definition memlock_main (argv : list string) : M Z :=
  if negb (argc_of argv =? 4) || wants_help argv then
    usageErr (cstr (argv_at argv 0) +:+ " num-pages lock-page-step lock-page-len" +:+ nl) else
  pageSize ← scall (Sysconf _SC_PAGESIZE);
  if pageSize =? -1 then errExit "sysconf(_SC_PAGESIZE)" else
  len ← pages_arg argv 1 "num-pages" pageSize;
  stepSize ← pages_arg argv 2 "lock-page-step" pageSize;
  lockLen ← pages_arg argv 3 "lock-page-len" pageSize;
  let len := wrap_u64 len in
  let lockLen := wrap_u64 lockLen in
  addr ← scall (Mmap len PROT_READ (MAP_SHARED .| MAP_ANONYMOUS) (-1) 0);
  if addr =? MAP_FAILED then errExit "mmap" else
  lock_and_show addr len stepSize lockLen.

#[export] Instance mmcat_main_sane f a : Sane (mmcat_main f a).
Proof. unfold mmcat_main. apply _. Qed.
#[export] Instance t_mmap_main_sane a : Sane (t_mmap_main a).
Proof. unfold t_mmap_main. apply _. Qed.
#[export] Instance anon_map_sane b : Sane (anon_map b).
Proof. unfold anon_map. apply _. Qed.
#[export] Instance anon_child_sane a : Sane (anon_child a).
Proof. unfold anon_child, read_int, write_int, unmap_exit. apply _. Qed.
#[export] Instance anon_parent_sane a : Sane (anon_parent a).
Proof. unfold anon_parent, read_int, unmap_exit. apply _. Qed.
#[export] Instance anon_mmap_main_sane b : Sane (anon_mmap_main b).
Proof. unfold anon_mmap_main, write_int. apply _. Qed.
#[export] Instance t_mprotect_main_sane : Sane t_mprotect_main.
Proof. unfold t_mprotect_main. apply _. Qed.
#[export] Instance displayMincore_sane a l : Sane (displayMincore a l).
Proof. unfold displayMincore. apply _. Qed.
#[export] Instance lock_pages_sane a l s k : Sane (lock_pages a l s k).
Proof. unfold lock_pages. apply _. Qed.
#[export] Instance pages_arg_sane a j n p : Sane (pages_arg a j n p).
Proof. unfold pages_arg. apply _. Qed.
#[export] Instance show_locked_sane a l : Sane (show_locked a l).
Proof. unfold show_locked. apply _. Qed.
#[export] Instance lock_and_show_sane a l s k : Sane (lock_and_show a l s k).
Proof. unfold lock_and_show. apply _. Qed.
#[export] Instance memlock_main_sane a : Sane (memlock_main a).
Proof. unfold memlock_main. apply _. Qed.

(** ** The ranges that [memlock] locks *)

Definition is_lock (c : call) : bool := match c with Mlock _ _ => true | _ => false end.
Definition locks (es : list event) : list call := List.filter is_lock (calls es).
Fixpoint mapping (es : list event) : option (Z * Z) :=
  match es with
  | [] => None
  | Called (Mmap len _ _ _ _) r :: _ => Some (r_ret r, len)
  | _ :: es => mapping es
  end.
(** Ranges of [k] bytes, [step] apart, for as long as they lie within [len] bytes. *)
Definition lock_plan (base len step k : Z) : list call :=
  map (fun i => Mlock (base + i * step) k) (seqZ 0 (stride_count len step k)).

Definition no_lock (e : event) : Prop := match e with Called (Mlock _ _ | Mmap _ _ _ _ _) _ => False | _ => True end.
Lemma locks_app es fs : locks (es ++ fs) = locks es ++ locks fs.
Proof. unfold locks. by rewrite calls_app, List.filter_app. Qed.
Lemma mapping_app es fs : mapping (es ++ fs) = match mapping es with Some m => Some m | None => mapping fs end.
Proof. by induction es as [|[[]| |] es IH]. Qed.
Lemma no_lock_none es : Forall no_lock es -> locks es = [] /\ mapping es = None.
Proof. unfold locks. induction 1 as [|[[]| |] es He _ IH]; simpl in *; try done; by split. Qed.

Section LockPlan.
Context (base len step k : Z).
Context (Hlen : 0 <= len) (Hstep : 0 < step) (Hk : 0 < k).

Lemma lock_plan_within a l : In (Mlock a l) (lock_plan base len step k) ->
base <= a /\ a + l <= base + len /\ l = k /\ exists i, a = base + i * step.
Proof using Hlen Hstep Hk.
unfold lock_plan. rewrite in_map_iff. intros (i & [= <- <-] & Hi).
apply list_elem_of_In, elem_of_seqZ in Hi as [H0 Hi]. apply stride_count_lt in Hi; [|done..].
split_and!; [nia|lia|done|by exists i].
Qed.
Lemma lock_plan_prefix i : 0 <= i <= stride_count len step k ->
map (fun i => Mlock (base + i * step) k) (seqZ 0 i) `prefix_of` lock_plan base len step k.
Proof using.
intros Hi. unfold lock_plan. replace (stride_count len step k) with (i + (stride_count len step k - i)) by lia.
rewrite seqZ_app by lia. rewrite map_app. by eexists.
Qed.

Lemma spec_lock_pages law w (Q : outcome unit -> list event -> world -> Prop) :
len < 2 ^ 62 -> step < 2 ^ 62 -> k < 2 ^ 62 ->
let plan := lock_plan base len step k in
(forall c es w', locks es `prefix_of` plan -> mapping es = None -> Q (Blocked c) es w') ->
(forall h es w', died h -> locks es `prefix_of` plan -> mapping es = None -> Q (Halt h) es w') ->
(forall es w', locks es = plan -> mapping es = None -> Q (Ret tt) es w') ->
spec law (lock_pages base len step k) w Q.
Proof using Hlen Hstep Hk.
intros H1 H2 H3 plan HB HD HR. unfold lock_pages.
apply spec_loop with (I := fun j es _ => exists i, j = i * step /\ 0 <= i <= stride_count len step k
  /\ locks es = map (fun i => Mlock (base + i * step) k) (seqZ 0 i) /\ mapping es = None).
- intros. apply _.
- intros. apply _.
- exists 0. pose proof (stride_count_nonneg len step k Hstep). split_and!; [lia..|done|done].
- intros j es w1 (i & -> & Hi & He & Hm). pose proof (lock_plan_prefix i Hi) as Hp.
  assert (Hb : i * step <= len + step) by (destruct (decide (i = 0)); [lia|pose proof (proj1 (stride_count_lt len step k (i - 1) ltac:(lia) ltac:(lia))); nia]).
  rewrite (wrap_u64_id (i * step)), wrap_u64_id by nia.
  destruct (i * step + k <=? len) eqn:E; zbool.
  + pose proof E as E'. apply stride_count_lt in E; [|lia..]. do 2 spec_step; [rewrite app_nil_r; apply HB; [by rewrite He|done]|].
    assert (Hl : locks (es ++ [Called (Mlock (base + i * step) k) r]) = map (fun i => Mlock (base + i * step) k) (seqZ 0 (i + 1))).
    { rewrite locks_app, He, seqZ_app, map_app by lia. done. }
    assert (Hm' : mapping (es ++ [Called (Mlock (base + i * step) k) r]) = None) by (by rewrite mapping_app, Hm).
    assert (Hp' := lock_plan_prefix (i + 1) ltac:(lia)). rewrite <- Hl in Hp'.
    spec_step.
    * assert (Hn : forall fs, Forall diag fs -> locks (es ++ Called (Mlock (base + i * step) k) r :: fs) `prefix_of` plan
          /\ mapping (es ++ Called (Mlock (base + i * step) k) r :: fs) = None).
      { intros fs Hd. destruct (no_lock_none fs) as [Hn1 Hn2]; [by eapply Forall_impl; [exact Hd|intros [[]| |]]|].
        rewrite (cons_middle _ es fs), app_assoc, locks_app, mapping_app, Hn1, Hm', Hn2, app_nil_r. done. }
      apply spec_dies; [apply _|..]; intros; cbn [pass]; [apply HB|apply HD; [done|..]]; by apply Hn.
    * spec_step. exists (i + 1). rewrite wrap_s64_id by nia. split_and!; [lia..|done|done].
  + spec_step. rewrite app_nil_r. apply HR; [|done]. rewrite He. unfold plan, lock_plan. f_equal. f_equal.
    pose proof (stride_count_lt len step k i). lia.
Qed.
End LockPlan.

(** The answers of [sysconf]. *)
Definition paged (P : Z) (c : call) (r : resp) : Prop :=
  match c with Sysconf n => n = _SC_PAGESIZE -> r_ret r = P | _ => True end.

#[export] Instance displayMincore_total a l : Total (displayMincore a l).
Proof. unfold displayMincore. apply _. Qed.
#[export] Instance displayMincore_no_lock a l : Emits no_lock (displayMincore a l).
Proof. unfold displayMincore, errExit, outputError, terminate. emits_tac. Qed.
Lemma spec_displayMincore law a l w (Q : outcome unit -> list event -> world -> Prop) :
  (forall c es w', Forall no_lock es -> Q (Blocked c) es w') ->
  (forall h es w', died h -> Forall no_lock es -> Q (Halt h) es w') ->
  (forall es w', Forall no_lock es -> Q (Ret tt) es w') ->
  spec law (displayMincore a l) w Q.
Proof.
  intros HB HD HR. apply (spec_with_emits law no_lock (displayMincore a l)).
  apply spec_mono with (Q := fun o _ _ => match o with Halt h => died h | Diverged => False | _ => True end).
  { intros [[]|h|c|] es w' Ho Hn; [by apply HR|by apply HD|by apply HB|done]. }
  unfold displayMincore. die_run I I; try done.
  apply (spec_frame law no_lock); [apply _|apply _|done|]. intros [] es w' _. cbn beta iota. by spec_run.
Qed.

Definition lock_args (P : Z) (argv : list string) (len step k : Z) : Prop :=
  exists n1 n2 n3, num_value GN_GT_0 (argv_opt argv 1) = Some n1 /\ num_value GN_GT_0 (argv_opt argv 2) = Some n2
  /\ num_value GN_GT_0 (argv_opt argv 3) = Some n3 /\ len = n1 * P /\ step = n2 * P /\ k = n3 * P.
Definition lock_post (P : Z) (argv : list string) {A} (o : outcome A) (es : list event) : Prop :=
  match mapping es with
  | None => locks es = [] /\ match o with Halt h => died h | Blocked _ => True | _ => False end
  | Some (base, len) => exists step k, lock_args P argv len step k
      /\ let plan := lock_plan base len step k in
         locks es `prefix_of` plan
         /\ match o with Halt (Exit 0) => locks es = plan | Halt h => died h | Blocked _ => True | _ => False end
  end.

(** A page count is below 2^31, so that its size is below 2^62. *)
Lemma spec_pages_arg law P argv j name w (Q : outcome Z -> list event -> world -> Prop) :
  0 < P <= 2 ^ 31 ->
  (forall h es w', died h -> Forall diag es -> Q (Halt h) es w') ->
  (forall n w', num_value GN_GT_0 (argv_opt argv j) = Some n -> 0 < n * P < 2 ^ 62 -> Q (Ret (n * P)) [] w') ->
  spec law (pages_arg argv j name P) w Q.
Proof.
  intros HP HD HR. unfold pages_arg. spec_step. apply spec_getInt; cbn [pass].
  - intros n w1 Hn Hi. spec_step. pose proof (num_value_pos _ _ Hn) as H0. unfold in_int, INT_MAX in Hi.
    rewrite wrap_s64_id by nia. apply HR; [done|nia].
  - intros es w' _ Hd. by apply HD.
Qed.

Lemma lock_post_none P argv {A} (o : outcome A) es : Forall no_lock es ->
  match o with Halt h => died h | Blocked _ => True | _ => False end -> lock_post P argv o es.
Proof. intros Hn Ho. unfold lock_post. by destruct (no_lock_none es Hn) as [-> ->]. Qed.

Definition lock_inv (base len step k : Z) {A} (o : outcome A) (es : list event) : Prop :=
  let plan := lock_plan base len step k in
  mapping es = None /\ locks es `prefix_of` plan
  /\ match o with Halt (Exit 0) | Ret _ => locks es = plan | Halt h => died h | Blocked _ => True | Diverged => False end.
Lemma lock_inv_pre base len step k {A} (o : outcome A) pre es : Forall no_lock pre ->
  lock_inv base len step k o es -> lock_inv base len step k o (pre ++ es).
Proof.
  intros [Hl Hm]%no_lock_none (Hm' & Hp & Ho). unfold lock_inv. rewrite mapping_app, locks_app, Hl, Hm. by split_and!.
Qed.
Lemma lock_inv_post base len step k {A B} (a : A) (o : outcome B) pre es :
  lock_inv base len step k (Ret a) pre -> Forall no_lock es ->
  match o with Halt (Exit 0) | Ret _ => True | Halt h => died h | Blocked _ => True | Diverged => False end ->
  lock_inv base len step k o (pre ++ es).
Proof.
  intros (Hm' & Hp & Ho) [Hl Hm]%no_lock_none Ho'. unfold lock_inv. rewrite mapping_app, locks_app, Hl, Hm, Hm', app_nil_r.
  split_and!; [done..|]. by destruct o as [|[[]| | |]| |].
Qed.
(** Once the ranges are locked nothing else is. *)
#[export] Instance show_locked_no_lock a l : Emits no_lock (show_locked a l).
Proof. unfold show_locked, errExit, outputError, terminate. emits_tac. Qed.
Lemma spec_show_locked law a l w : spec law (show_locked a l) w (fun o es _ => Forall no_lock es /\
  match o with Halt (Exit 0) => True | Halt h => died h | Blocked _ => True | _ => False end).
Proof.
  apply (spec_with_emits law no_lock (show_locked a l)).
  apply spec_mono with (Q := fun o _ _ => match o with Halt (Exit 0) => True | Halt h => died h | Blocked _ => True | _ => False end).
  { intros [|[[]| | |]| |] es w' Ho Hn; by split. }
  unfold show_locked. spec_step. do 3 spec_step. spec_step. apply spec_displayMincore; cbn [pass]; [done|by intros [[]| | |]|].
  intros e1 w1 _. do 2 spec_step; [done|]. spec_step.
  { apply spec_dies; [apply _|done|by intros [[]| | |]]. }
  do 2 spec_step. spec_step. apply spec_displayMincore; cbn [pass]; [done|by intros [[]| | |]|]. intros. by spec_run.
Qed.
Lemma lock_inv_none base len step k {A} (o : outcome A) es : Forall no_lock es ->
  match o with Halt h => died h | Blocked _ => True | _ => False end -> lock_inv base len step k o es.
Proof.
  intros [E1 E2]%no_lock_none Ho. unfold lock_inv. rewrite E1, E2. split_and!; [done|apply prefix_nil|].
  by destruct o as [|[[]| | |]| |].
Qed.

Lemma spec_lock_and_show law base len step k w :
  0 <= len < 2 ^ 62 -> 0 < step < 2 ^ 62 -> 0 < k < 2 ^ 62 ->
  spec law (lock_and_show base len step k) w (fun o es _ => lock_inv base len step k o es /\ forall z, o <> Ret z).
Proof.
  intros Hl Hs Hk. unfold lock_and_show.
  do 6 spec_step. spec_step. apply spec_displayMincore; cbn [pass].
  - intros. split; [|done]. apply lock_inv_none; [by repeat constructor|done].
  - intros. split; [|done]. apply lock_inv_none; [by repeat constructor|done].
  - intros e1 w9 Hn1. spec_step.
    assert (Hpre : forall A (o : outcome A) es, lock_inv base len step k o es -> lock_inv base len step k o ([Printed Stdout ("Allocated " +:+ dec (wrap_s64 len) +:+ " (" +:+ hex_alt len
      +:+ ") bytes starting at " +:+ hex_alt base +:+ nl)] ++ [Printed Stdout ("Before mlock:" +:+ nl)] ++ e1 ++ es)).
    { intros A o es. rewrite !app_assoc. apply lock_inv_pre. rewrite Forall_app. split; [by repeat constructor|done]. }
    apply spec_lock_pages; cbn [pass]; [lia..| | |].
    + intros c es w8 Hp Hm. split; [|done]. by apply Hpre.
    + intros h es w8 Hh Hp Hm. split; [|done]. apply Hpre. split_and!; [done..|]. by destruct h as [[]| | |].
    + intros es w8 Hp Hm. eapply spec_mono; [|apply spec_show_locked]. intros o es' w7 [Hn Ho]. split; [|by intros z ->].
      apply Hpre. apply (lock_inv_post _ _ _ _ tt); [by split_and!; [|rewrite Hp|]|done|by destruct o].
Qed.

Lemma spec_memlock P argv w : 0 < P <= 2 ^ 31 ->
  spec (paged P) (memlock_main argv) w (fun o es _ => lock_post P argv o es).
Proof.
  intros HP. unfold memlock_main.
  assert (HD0 : forall pre h es, Forall no_lock pre -> died h -> Forall diag es -> lock_post P argv (A:=Z) (Halt h) (pre ++ es)).
  { intros pre h es Hpre Hh Hd. apply lock_post_none; [|done]. apply Forall_app. split; [done|]. eapply Forall_impl; [exact Hd|by intros [[]| |]]. }
  assert (HB0 : forall pre c es, Forall no_lock pre -> Forall diag es -> lock_post P argv (A:=Z) (Blocked c) (pre ++ es)).
  { intros pre c es Hpre Hd. apply lock_post_none; [|done]. apply Forall_app. split; [done|]. eapply Forall_impl; [exact Hd|by intros [[]| |]]. }
  spec_step; [apply spec_dies; [apply _|intros; by apply (HB0 []); [constructor|]|intros; by apply (HD0 []); [constructor|..]]|].
  do 2 spec_step; [by apply (HB0 [] _ []); constructor|]. spec_step.
  { apply spec_dies; [apply _|intros; by apply (HB0 [_]); [repeat constructor|]|intros; by apply (HD0 [_]); [repeat constructor|..]]. }
  cbn in Hlaw. rewrite Hlaw by done.
  do 3 (spec_step; apply spec_pages_arg; [done|intros; by apply (HD0 [_]); [repeat constructor|..]|let n := fresh "n" in let w := fresh "w" in let H := fresh "H" in intros n w H ?]).
  rewrite !wrap_u64_id by lia. do 2 spec_step; [by apply (HB0 [_] _ []); repeat constructor|].
  assert (Hin : forall (o : outcome Z) es, lock_inv (r_ret r0) (n * P) (n0 * P) (n1 * P) o es -> (forall z, o <> Ret z) ->
    lock_post P argv o ([Called (Sysconf _SC_PAGESIZE) r] ++ [Called (Mmap (n * P) PROT_READ (MAP_SHARED .| MAP_ANONYMOUS) (-1) 0) r0] ++ es)).
  { intros o es (Hm & Hp & Ho) Hz. unfold lock_post. cbn. exists (n0 * P), (n1 * P). split; [by exists n, n0, n1|]. split; [done|].
    destruct o as [z|[[]| | |]| |]; try done. by destruct (Hz z). }
  spec_step.
  - apply spec_dies; [apply _|..]; intros; cbn [pass]; apply Hin; try done; apply lock_inv_none; try done;
      (eapply Forall_impl; [eassumption|by intros [[]| |]]).
  - eapply spec_mono; [|by apply (spec_lock_and_show (paged P) (r_ret r0) (n * P) (n0 * P) (n1 * P)); lia].
    intros o es w5 [Hi Ho]. by apply Hin.
Qed.

(** C27.  [memlock] locks exactly the planned ranges of its mapping: when it ends with
    status 0 it has locked [lock-page-len] pages at every multiple of [lock-page-step]
    pages from which that many pages still lie in the mapping, each once and in order;
    when a call fails or has not returned it has locked the first of them.  Every range
    lies within the mapped bytes, no size or address computation overflows, and the
    locking loop ends. *)
Theorem memlock_bounds P argv w : 0 < P <= 2 ^ 31 ->
  spec (paged P) (memlock_main argv) w (fun o es _ =>
    lock_post P argv o es /\
    forall base len a l, mapping es = Some (base, len) -> In (Mlock a l) (calls es) ->
      0 < l /\ base <= a /\ a + l <= base + len /\ (P | l) /\ (P | a - base)).
Proof.
  intros HP. eapply spec_mono; [|by apply spec_memlock]. cbn beta. intros o es w' Hp. split; [done|].
  intros base len a l Hm Ha. unfold lock_post in Hp. rewrite Hm in Hp.
  destruct Hp as (step & k & (n1 & n2 & n3 & H1 & H2 & H3 & -> & -> & ->) & Hpre & _).
  apply num_value_pos in H1, H2, H3.
  assert (Hl : In (Mlock a l) (locks es)) by (apply List.filter_In; by split).
  apply (elem_of_prefix _ _ _ (proj2 (list_elem_of_In _ _) Hl)), list_elem_of_In in Hpre.
  apply lock_plan_within in Hpre as (Hb & He & -> & i & ->); [|nia..].
  split_and!; [nia|done|done|by exists n3|exists (i * n2); lia].
Qed.

(** Four pages, every second one locked: two ranges. *)
Lemma memlock_bounds_witness :
  let argv := ["memlock"; "4"; "2"; "1"]%string in
  0 < 4096 <= 2 ^ 31
  /\ lock_plan 65536 (4 * 4096) (2 * 4096) 4096 = [Mlock 65536 4096; Mlock 73728 4096]
  /\ spec (paged 4096) (memlock_main argv) (start []) (fun o es _ => lock_post 4096 argv o es /\
       forall base len a l, mapping es = Some (base, len) -> In (Mlock a l) (calls es) ->
         0 < l /\ base <= a /\ a + l <= base + len /\ (4096 | l) /\ (4096 | a - base)).
Proof.
  intros argv. split; [lia|]. split; [reflexivity|]. apply (memlock_bounds 4096 argv (start [])). lia.
Defined.

(** A complete run. *)
Example memlock_run :
  locks (snd (run (memlock_main ["memlock"; "4"; "2"; "1"]%string)
    ([ok 4096; ok 65536; ok 4096; ok 1; ok 0; ok 0; ok 0; ok 0; ok 4096; ok 1; ok 0; ok 0; ok 0; ok 4096; ok 1; ok 0; ok 0])))
  = [Mlock 65536 4096; Mlock 73728 4096].
Proof. reflexivity. Qed.

(** ** What the mappings hold *)

Definition mmcat_post (argv : list string) {A} (o : outcome A) (es : list event) (w : world) : Prop :=
  match o with
  | Halt (Exit 0) => exists o f m c k g t, let n := r_val 0 f in
      n <> 0 /\ r_ret k = n /\
      es = [Called (Open (cstr (argv_at argv 1)) O_RDONLY 0) o; Called (Fstat (r_ret o)) f;
            Called (Mmap n PROT_READ MAP_PRIVATE (r_ret o) 0) m; Called (ReadMem (r_ret m) n) c;
            Called (Write STDOUT_FILENO (r_buf c)) k; Called Getpid g;
            Printed Stdout ("# [PID:" +:+ dec (r_ret g) +:+ "] exit" +:+ nl); Called Getchar t]
  | Halt h => died h
  | Blocked _ => True
  | _ => False
  end.
(** [mmcat] hands the whole mapping of the file to one write. *)
Lemma mmcat_correct law nf argv w : spec law (mmcat_main nf argv) w (mmcat_post argv).
Proof.
  assert (HB : forall c es w', mmcat_post argv (A:=Z) (Blocked c) es w') by done.
  assert (HD : forall h es w', died h -> mmcat_post argv (A:=Z) (Halt h) es w') by (by intros [[]| | |]).
  unfold mmcat_main, stop. die_run HB HD. zbool. cbn. do 7 eexists. split_and!; [|done..]. done.
Qed.

Definition t_mmap_post (argv : list string) {A} (o : outcome A) (es : list event) (w : world) : Prop :=
  match o with
  | Halt (Exit 0) => exists f m k c, let a := r_ret m in
      let shows := Printed Stdout ("Current string=" +:+ fmt_prec MEM_SIZE (r_buf c) +:+ nl) in
      let pre := [Called (Open (cstr (argv_at argv 1)) O_RDWR 0) f; Called (Mmap MEM_SIZE (PROT_READ .| PROT_WRITE) MAP_SHARED (r_ret f) 0) m;
                  Called (Close (r_ret f)) k; Called (ReadMem a MEM_SIZE) c; shows] in
      if argc_of argv >? 2 then
        let v := cstr (argv_at argv 2) in
        slen v < MEM_SIZE /\ exists u s, es = pre ++ [Called (WriteMem a (v +:+ srep (Z.to_nat (MEM_SIZE - slen v)) nul)) u;
           Called (Lib "msync" [] [a; MEM_SIZE; MS_SYNC]) s; Printed Stdout ("Copied " +:+ dquote +:+ v +:+ dquote +:+ " to shared memory" +:+ nl)]
      else es = pre
  | Halt h => died h
  | Blocked _ => True
  | _ => False
  end.
(** [t_mmap] shows at most the mapped bytes, and stores a value only if it fits with its
    terminator; what it stores fills the mapping exactly. *)
Lemma t_mmap_correct law argv w : spec law (t_mmap_main argv) w (t_mmap_post argv).
Proof.
  assert (HB : forall c es w', t_mmap_post argv (A:=Z) (Blocked c) es w') by done.
  assert (HD : forall h es w', died h -> t_mmap_post argv (A:=Z) (Halt h) es w') by (by intros [[]| | |]).
  unfold t_mmap_main. die_run HB HD.
  2: { unfold t_mmap_post. exists r, r0, r1, r2. cbn zeta. by rewrite Heqb3. }
  unfold t_mmap_post. exists r, r0, r1, r2. cbn zeta. rewrite Heqb3.
  rewrite Z.geb_leb in Heqb4. apply Z.leb_gt in Heqb4. unfold strlen in *.
  split; [done|]. do 2 eexists. unfold mem_value. rewrite strncpy_str_short by (unfold strlen, MEM_SIZE in *; lia). reflexivity.
Qed.
Lemma mem_value_length v : slen v < MEM_SIZE -> slen (v +:+ srep (Z.to_nat (MEM_SIZE - slen v)) nul) = MEM_SIZE.
Proof. intros H. rewrite slen_app, slen_srep. lia. Qed.

(** The integer that [anon_mmap]'s processes share: the child's store is what the parent,
    which waits for it, prints. *)
Definition mem_holds (addr v : Z) (c : call) (r : resp) : Prop := c = ReadMem addr 4 -> r_buf r = int_bytes v.
Definition anon_child_post (addr v : Z) {A} (o : outcome A) (es : list event) (w : world) : Prop :=
  match o with
  | Halt (Exit 0) => exists a b c d, es =
      [Called (ReadMem addr 4) a; Printed Stdout ("Child started, value = " +:+ dec v +:+ nl); Called (ReadMem addr 4) b;
       Called (WriteMem addr (int_bytes (wrap_s32 (v + 1)))) c; Called (Munmap addr 4) d]
  | Halt h => died h | Blocked _ => True | _ => False
  end.
Definition anon_parent_post (addr v : Z) {A} (o : outcome A) (es : list event) (w : world) : Prop :=
  match o with
  | Halt (Exit 0) => exists a b c, es =
      [Called Wait a; Called (ReadMem addr 4) b; Printed Stdout ("In parent, value = " +:+ dec v +:+ nl); Called (Munmap addr 4) c]
  | Halt h => died h | Blocked _ => True | _ => False
  end.
Lemma anon_mmap_correct addr v w : in_int v ->
  spec (mem_holds addr v) (anon_child addr) w (anon_child_post addr v)
  /\ spec (mem_holds addr v) (anon_parent addr) w (anon_parent_post addr v).
Proof.
  intros Hv. split.
  - assert (HB : forall c es w', anon_child_post addr v (A:=Z) (Blocked c) es w') by done.
    assert (HD : forall h es w', died h -> anon_child_post addr v (A:=Z) (Halt h) es w') by (by intros [[]| | |]).
    unfold anon_child, read_int, write_int, unmap_exit. die_run HB HD.
    rewrite (Hlaw eq_refl), (Hlaw0 eq_refl), int_of_bytes_bytes by done. cbn. by do 4 eexists.
  - assert (HB : forall c es w', anon_parent_post addr v (A:=Z) (Blocked c) es w') by done.
    assert (HD : forall h es w', died h -> anon_parent_post addr v (A:=Z) (Halt h) es w') by (by intros [[]| | |]).
    unfold anon_parent, read_int, unmap_exit. die_run HB HD.
    rewrite (Hlaw0 eq_refl), int_of_bytes_bytes by done. cbn. by do 3 eexists.
Qed.
