(* ===== verification/SysInfo.v ===== *)
(** * SysInfo: the environment, jumps, the heap, passwords and system limits
    (6-process, 7-memory-allocate, 8-user-group, 11-limit, 12-system-process-info,
    42-shlibs-advanced) *)

From S2P Require Import Prelude Clib Sys Errors Frame GetNum Posix Status.

Definition puts (s : string) : M unit := printf (cstr s +:+ nl).

(** ** 6-process: the environment

    The C library keeps the environment as a list of strings [name=value]. *)

(** The name of a definition, and whether there is an equals sign after it. *)
Fixpoint env_name (s : string) : string :=
  match s with
  | EmptyString => EmptyString
  | String c s => if ceqb c "=" then EmptyString else String c (env_name s)
  end.
Fixpoint env_value (s : string) : option string :=
  match s with
  | EmptyString => None
  | String c s => if ceqb c "=" then Some s else env_value s
  end.
Definition defines (name entry : string) : bool :=
  String.eqb (env_name entry) name && match env_value entry with Some _ => true | None => false end.
(** [unsetenv] removes the definitions of a name, which is not empty; [putenv] puts a definition in the
    place of that of the same name, or at the end, and removes a name alone;
    [setenv] keeps an existing definition if [overwrite] is 0. *)
Definition env_unset (name : string) (env : list string) : list string :=
  if String.eqb name "" then env else List.filter (fun e => negb (defines name e)) env.
Fixpoint env_add (entry : string) (env : list string) : list string :=
  match env with
  | [] => [entry]
  | e :: env => if defines (env_name entry) e then entry :: env else e :: env_add entry env
  end.
Definition env_put (s : string) (env : list string) : list string :=
  match env_value s with Some _ => env_add s env | None => env_unset s env end.
Definition env_set (name value : string) (overwrite : Z) (env : list string) : list string :=
  if (overwrite =? 0) && existsb (defines name) env then env else env_add (name +:+ "=" +:+ value) env.

(** display_env.c *)
Definition display_env_main (environ : list string) : M Z :=
  _ ← for_each puts environ;
  exit EXIT_SUCCESS.

(** modify_env.c: what the calls do to [environ] is carried along. *)
Definition modify_put (env : list string) (arg : string) : M (list string) :=
  k ← scall (Putenv arg);
  if negb (k =? 0) then errExit ("putenv: " +:+ cstr arg) else mret (env_put (cstr arg) env).
Definition modify_env_main (argv : list string) : M Z :=
  _ ← scall Clearenv;
  env ← fold_m modify_put [] (drop 1 argv);
  s ← scall (Setenv "GREET" "Hello world" 0);
  if s =? -1 then errExit "setenv" else
  let env := env_set "GREET" "Hello world" 0 env in
  _ ← scall (Unsetenv "BYE");
  let env := env_unset "BYE" env in
  _ ← for_each puts env;
  exit EXIT_SUCCESS.

(** necho.c: by the count, then up to the null pointer. *)
Definition necho_line (argv : list string) (j : Z) : M unit :=
  printf ("argv[" +:+ dec j +:+ "] = " +:+ cstr (argv_at argv (Z.to_nat j)) +:+ nl).
Fixpoint necho_rest (i : Z) (p : list string) : M unit :=
  match p with
  | [] => mret tt
  | s :: p => _ ← printf ("argv[" +:+ dec i +:+ "] = " +:+ cstr s +:+ nl); necho_rest (wrap_s32 (i + 1)) p
  end.
Definition necho_main (argv : list string) : M Z :=
  _ ← for_each (necho_line argv) (seqZ 0 (argc_of argv));
  _ ← puts "";
  _ ← necho_rest 0 argv;
  exit EXIT_SUCCESS.

(** end.c: the addresses of the linker's symbols. *)
Definition end_main (etext edata end_ : Z) : M Z :=
  _ ← printf ("First address past:" +:+ nl);
  _ ← printf ("    program text (etext)      " +:+ lpad 10 " " (hex_alt etext) +:+ nl);
  _ ← printf ("    initialized data (edata)  " +:+ lpad 10 " " (hex_alt edata) +:+ nl);
  _ ← printf ("    uninitialized data (end)  " +:+ lpad 10 " " (hex_alt end_) +:+ nl);
  exit EXIT_SUCCESS.

(** mem_segments.c *)
Definition square (x : Z) : Z := wrap_s32 (x * x).
Definition doCalc (val : Z) : M unit :=
  _ ← printf ("The square of " +:+ dec val +:+ " is " +:+ dec (square val) +:+ nl);
  when (val <? 1000)
    (let t := wrap_s32 (wrap_s32 (val * val) * val) in
     printf ("The cube of " +:+ dec val +:+ " is " +:+ dec t +:+ nl)).
Definition mem_segments_main : M Z :=
  _ ← scall (Malloc 1024);
  _ ← doCalc 9973;
  exit EXIT_SUCCESS.

(** *** Jumps: a function returns [inl v] when it jumps to [setjmp] with the value [v]. *)

(** longjmp.c *)
Definition f2 : M (Z + unit) := mret (inl 2).
Definition f1 (argc : Z) : M (Z + unit) :=
  if argc =? 1 then mret (inl 1) else
  j ← f2;
  match j with
  | inl v => mret (inl v)
  | inr _ => _ ← printf ("f1: not reached" +:+ nl); mret (inr tt)
  end.
(** The switch on the value [setjmp] returns; a jump returns from it again. *)
Definition longjmp_switch (argc : Z) (v : Z) : M (Z + unit) :=
  if v =? 0 then _ ← printf ("Calling f1() after initial setjmp()" +:+ nl); f1 argc
  else if v =? 1 then _ ← printf ("We jumped back from f1()" +:+ nl); mret (inr tt)
  else if v =? 2 then _ ← printf ("We jumped back from f2()" +:+ nl); mret (inr tt)
  else mret (inr tt).
Fixpoint setjmps (fuel : nat) (switch : Z -> M (Z + unit)) (v : Z) : M unit :=
  match fuel with
  | O => fun w => (Diverged, w)
  | S fuel => j ← switch v; match j with inl v => setjmps fuel switch v | inr _ => mret tt end
  end.
Definition longjmp_main (argv : list string) : M Z :=
  _ ← setjmps 2 (longjmp_switch (argc_of argv)) 0;
  exit EXIT_SUCCESS.

(** setjmp_vars.c: after the jump [nvar] and [rvar] are indeterminate ([nvar'], [rvar']);
    [vvar] is volatile and keeps its value. *)
Definition doJump (nvar rvar vvar : Z) : M (Z + unit) :=
  _ ← printf ("Inside doJump(): nvar=" +:+ dec nvar +:+ " rvar=" +:+ dec rvar +:+ " vvar=" +:+ dec vvar +:+ nl);
  mret (inl 1).
Definition vars_switch (nvar' rvar' v : Z) : M (Z + unit) :=
  if v =? 0 then doJump 777 888 999
  else _ ← printf ("After longjmp(): nvar=" +:+ dec nvar' +:+ " rvar=" +:+ dec rvar' +:+ " vvar=" +:+ dec 999 +:+ nl); mret (inr tt).
Definition setjmp_vars_main (nvar' rvar' : Z) : M Z :=
  _ ← setjmps 2 (vars_switch nvar' rvar') 0;
  exit EXIT_SUCCESS.

(** ** 7-memory-allocate *)

Definition MAX_ALLOCS : Z := 1000000.
Definition break_line (label : string) : M unit :=
  b ← scall (Sbrk 0); printf (label +:+ lpad 10 " " (hex_alt b) +:+ nl).
Definition opt_int (argv : list string) (j : nat) (name : string) (default : Z) : M Z :=
  if argc_of argv >? Z.of_nat j then getInt (argv_opt argv j) GN_GT_0 (Some name) else mret default.
(** The blocks, in order. *)
Definition alloc_block (blockSize : Z) (ptr : list Z) (_ : Z) : M (list Z) :=
  p ← scall (Malloc blockSize);
  if p =? 0 then errExit "malloc" else mret (ptr ++ [p]).
(** [ptr[j]]; [stray j] is the word found when [j] is no index of an allocated block. *)
Definition block_at (stray : Z -> Z) (ptr : list Z) (j : Z) : Z :=
  if j <? 0 then stray j else nth (Z.to_nat j) ptr (stray j).
(** [for (j = freeMin - 1; j < freeMax; j += freeStep) free(ptr[j])]: [j] is an [int]. *)
Definition free_blocks (stray : Z -> Z) (ptr : list Z) (freeMin freeMax freeStep : Z) : M unit :=
  loop (fun j =>
    if j <? freeMax then _ ← sys (Free (block_at stray ptr j)); mret (inl (wrap_s32 (j + freeStep)))
    else mret (inr tt)) (freeMin - 1).
Definition alloc_and_free (stray : Z -> Z) (numAllocs blockSize freeStep freeMin freeMax : Z) : M Z :=
  _ ← break_line "Initial program break:          ";
  _ ← printf ("Allocating " +:+ dec numAllocs +:+ "*" +:+ dec blockSize +:+ " bytes" +:+ nl);
  ptr ← fold_m (alloc_block blockSize) [] (seqZ 0 numAllocs);
  _ ← break_line "Program break is now:           ";
  _ ← printf ("Freeing blocks from " +:+ dec freeMin +:+ " to " +:+ dec freeMax +:+ " in steps of " +:+ dec freeStep +:+ nl);
  _ ← free_blocks stray ptr freeMin freeMax freeStep;
  _ ← break_line "After free(), program break is: ";
  exit EXIT_SUCCESS.
Definition free_and_sbrk_main (stray : Z -> Z) (argv : list string) : M Z :=
  _ ← printf nl;
  if (argc_of argv <? 3) || wants_help argv then
    usageErr (cstr (argv_at argv 0) +:+ " num-allocs block-size [step [min [max]]]" +:+ nl) else
  numAllocs ← getInt (argv_opt argv 1) GN_GT_0 (Some "num-allocs"%string);
  if numAllocs >? MAX_ALLOCS then cmdLineErr ("num-allocs > " +:+ dec MAX_ALLOCS +:+ nl) else
  blockSize ← getInt (argv_opt argv 2) (GN_GT_0 .| GN_ANY_BASE) (Some "block-size"%string);
  freeStep ← opt_int argv 3 "step" 1;
  freeMin ← opt_int argv 4 "min" 1;
  freeMax ← opt_int argv 5 "max" numAllocs;
  if freeMax >? numAllocs then cmdLineErr ("free-max > num-allocs" +:+ nl) else
  alloc_and_free stray numAllocs blockSize freeStep freeMin freeMax.

(** sbrk_and_malloc.c: the arguments of [printf] are made from the last to the first. *)
Definition sbrk_and_malloc_main : M Z :=
  v ← scall (Lib "setvbuf" ["stdout"%string] [2]);
  if negb (v =? 0) then errExit "setvbuf" else
  _ ← scall (Write 0 ("INIT_DONE" +:+ nl));
  b ← scall (Sbrk 0);
  _ ← printf ("first: " +:+ hex_alt b +:+ nl);
  small ← scall (Malloc 10000);
  b ← scall (Sbrk 0);
  _ ← printf ("after small malloc: program break=" +:+ hex_alt b +:+ ", ptr=" +:+ hex_alt small +:+ nl);
  big ← scall (Malloc (100 * 1024 * 1024));
  b ← scall (Sbrk 0);
  _ ← printf ("after big malloc: program break=" +:+ hex_alt b +:+ ", ptr=" +:+ hex_alt big +:+ nl);
  pid ← scall Getpid;
  _ ← scall (System (snprintf 4096 ("cat /proc/" +:+ dec pid +:+ "/maps")));
  _ ← sys (Free small);
  _ ← sys (Free big);
  exit 0.

(** 7-experimental/stack-memory.c *)
Definition stack_memory_main : M Z :=
  p ← scall Getpid;
  _ ← printf ("pid: " +:+ dec p +:+ nl);
  _ ← sys Getchar;
  exit EXIT_SUCCESS.

(** ** 8-user-group: check_password.c *)

Definition _SC_LOGIN_NAME_MAX : Z := 71.
(** The trailing newline is removed.  (Of an empty string the byte before it is tested.) *)
Definition strip_newline (s : string) : string :=
  let len := strlen s in
  if ceqb (schar (Z.to_nat (len - 1)) s) nlc then ztake (len - 1) (cstr s) else cstr s.
(** The records of a user: [r_ret] 0 stands for a null pointer. *)
Definition getpwnam (name : string) : M resp := sys (Lib "getpwnam" [name] []).
Definition getspnam (name : string) : M resp := sys (Lib "getspnam" [name] []).
Definition pw_passwd (r : resp) : string := cstr (nth 0 (r_strs r) "").
(** The password read, at the address [at]: encrypted, then overwritten with null bytes. *)
Definition crypt_and_erase (at_ : Z) (password salt : string) : M resp :=
  e ← sys (Lib "crypt" [password; salt] []);
  _ ← sys (WriteMem at_ (srep (Z.to_nat (slen password)) nul));
  mret e.
Definition authenticate (uid : Z) (hash : string) : M Z :=
  p ← sys (Lib "getpass" ["Password: "%string] []);
  if r_ret p =? 0 then halt_ Abort (* a null pointer is used: the process is killed *) else
  e ← crypt_and_erase (r_ret p) (cstr (r_buf p)) hash;
  if r_ret e =? 0 then errExit "crypt" else
  if negb (strcmp_eq (r_buf e) hash) then _ ← printf ("Incorrect password" +:+ nl); exit EXIT_FAILURE else
  _ ← printf ("Successfully authenticated: UID=" +:+ dec uid +:+ nl);
  exit EXIT_SUCCESS.
Definition check_password_main : M Z :=
  n ← scall (Sysconf _SC_LOGIN_NAME_MAX);
  let lnmax := if n =? -1 then 256 else n in
  username ← scall (Malloc lnmax);
  if username =? 0 then errExit "malloc" else
  _ ← printf "Username: ";
  _ ← fflush Stdout;
  u ← sys (Fgets (wrap_s32 lnmax) Stdin);
  if r_ret u =? 0 then exit EXIT_FAILURE else
  let name := strip_newline (r_buf u) in
  pwd ← getpwnam name;
  if r_ret pwd =? 0 then fatal "couldn't get password record" else
  spwd ← getspnam name;
  e ← get_errno;
  if (r_ret spwd =? 0) && (e =? EACCES) then fatal "no permission to read shadow password file" else
  authenticate (r_val 0 pwd) (if r_ret spwd =? 0 then pw_passwd pwd else pw_passwd spwd).

(** ** 11-limit: t_sysconf.c *)

Definition sysconfPrint (msg : string) (name : Z) : M unit :=
  _ ← set_errno 0;
  lim ← scall (Sysconf name);
  if negb (lim =? -1) then printf (msg +:+ " " +:+ dec lim +:+ nl) else
  e ← get_errno;
  if e =? 0 then printf (msg +:+ " (indeterminate)" +:+ nl) else errExit ("sysconf " +:+ msg).
Definition sysconf_names : list (string * Z) :=
  [("_SC_ARG_MAX:        ", 0); ("_SC_LOGIN_NAME_MAX: ", 71); ("_SC_OPEN_MAX:       ", 4);
   ("_SC_NGROUPS_MAX:    ", 3); ("_SC_PAGESIZE:       ", 30); ("_SC_RTSIG_MAX:      ", 31)]%string.
Definition t_sysconf_main : M Z :=
  _ ← for_each (fun '(msg, name) => sysconfPrint msg name) sysconf_names;
  exit EXIT_SUCCESS.

(** ** 12-system-process-info *)

(** procfs_pidmax.c *)
Definition PID_MAX : string := "/proc/sys/kernel/pid_max".
Definition MAX_LINE : Z := 100.
Definition pidmax_set (fd : Z) (value : string) : M unit :=
  k ← scall (Lseek fd 0 SEEK_SET);
  if k =? -1 then errExit "lseek" else
  n ← scall (Write fd value);
  if negb (n =? slen value) then fatal "write() failed" else
  _ ← scall (System ("echo /proc/sys/kernel/pid_max now contains `cat /proc/sys/kernel/pid_max`"));
  mret tt.
Definition procfs_pidmax_main (argv : list string) : M Z :=
  let sets := argc_of argv >? 1 in
  fd ← scall (Open PID_MAX (if sets then O_RDWR else O_RDONLY) 0);
  if fd =? -1 then errExit "open" else
  r ← sys (Read fd MAX_LINE);
  if r_ret r =? -1 then errExit "read" else
  _ ← when sets (printf "Old value: ");
  _ ← printf (fmt_prec (r_ret r) (r_buf r));
  _ ← when sets (pidmax_set fd (cstr (argv_at argv 1)));
  exit EXIT_SUCCESS.

(** t_uname.c: [r_strs] holds the fields in the order of the lines. *)
Definition uname_labels : list string :=
  ["Node name:   "; "System name: "; "Release:     "; "Version:     "; "Machine:     "; "Domain name: "]%string.
Definition t_uname_main : M Z :=
  u ← sys Uname;
  if r_ret u =? -1 then errExit "uname" else
  _ ← for_each (fun '(i, label) => printf (label +:+ cstr (nth i (r_strs u) "") +:+ nl)) (imap pair uname_labels);
  exit EXIT_SUCCESS.

(** ** 42-shlibs-advanced: dynload.c; the function called is the library's. *)
Definition RTLD_LAZY : Z := 1.
Definition dynload_main (argv : list string) : M Z :=
  if negb (argc_of argv =? 3) || wants_help argv then
    usageErr (cstr (argv_at argv 0) +:+ " lib-path func-name" +:+ nl) else
  _ ← stop "before dlopen()";
  libHandle ← scall (Lib "dlopen" [cstr (argv_at argv 1)] [RTLD_LAZY]);
  if libHandle =? 0 then e ← sys (Lib "dlerror" [] []); fatal ("dlopen: " +:+ cstr (r_buf e)) else
  _ ← sys (Lib "dlerror" [] []);
  funcp ← scall (Lib "dlsym" [cstr (argv_at argv 2)] [libHandle]);
  e ← sys (Lib "dlerror" [] []);
  if negb (r_ret e =? 0) then fatal ("dlsym: " +:+ cstr (r_buf e)) else
  _ ← stop "before call function";
  _ ← sys (Lib "(*funcp)" [] [funcp]);
  _ ← stop "after call function";
  _ ← scall (Lib "dlclose" [] [libHandle]);
  _ ← stop "after dlclose";
  exit EXIT_SUCCESS.

#[export] Instance display_env_main_sane e : Sane (display_env_main e).
Proof. unfold display_env_main, puts. apply _. Qed.
#[export] Instance modify_put_sane e a : Sane (modify_put e a).
Proof. unfold modify_put. apply _. Qed.
#[export] Instance puts_sane s : Sane (puts s).
Proof. unfold puts. apply _. Qed.
#[export] Instance modify_env_main_sane a : Sane (modify_env_main a).
Proof. unfold modify_env_main. apply _. Qed.

(** ** The environment as a finite map *)

Definition entry_pair (e : string) : string * string := (env_name e, default "" (env_value e)).
Definition env_map (env : list string) : gmap string string := list_to_map (map entry_pair env).
Definition has_value (e : string) : Prop := is_Some (env_value e).
Record env_wf (env : list string) : Prop :=
  { wf_values : Forall has_value env; wf_names : NoDup (map env_name env) }.

Lemma defines_true name e : defines name e = true <-> env_name e = name /\ has_value e.
Proof.
  unfold defines, has_value. rewrite andb_true_iff, String.eqb_eq. destruct (env_value e) as [v|].
  - split; [by intros [? _]; split; [|exists v]|by intros [? _]].
  - split; [by intros []|by intros [_ [? ?]]].
Qed.
Lemma defines_name name e : has_value e -> defines name e = bool_decide (env_name e = name).
Proof.
  intros He. apply eq_true_iff_eq. rewrite defines_true, bool_decide_eq_true. tauto.
Qed.

Lemma env_map_add s env : has_value s -> Forall has_value env ->
  env_map (env_add s env) = <[env_name s := default "" (env_value s)]> (env_map env).
Proof.
  intros Hs. induction 1 as [|e env He _ IH]; [done|]. cbn [env_add]. rewrite defines_name by done.
  case_bool_decide as Hn; unfold env_map in *; simpl.
  - by rewrite Hn, insert_insert_eq.
  - by rewrite IH, insert_insert_ne.
Qed.
Lemma env_map_unset name env : name <> "" -> Forall has_value env -> env_map (env_unset name env) = delete name (env_map env).
Proof.
  intros H0 H. unfold env_unset. rewrite (proj2 (String.eqb_neq _ _) H0).
  induction H as [|e env He _ IH]; [symmetry; apply delete_empty|]. simpl. rewrite defines_name by done.
  case_bool_decide as Hn; unfold env_map in *; simpl.
  - by rewrite IH, Hn, delete_insert_eq.
  - by rewrite IH, delete_insert_ne.
Qed.

Lemma env_add_names s env n : n ∈ map env_name (env_add s env) -> n = env_name s \/ n ∈ map env_name env.
Proof.
  induction env as [|e env IH]; cbn [env_add]; [set_solver|].
  destruct (defines (env_name s) e); simpl; rewrite !elem_of_cons; tauto.
Qed.
Lemma env_add_wf s env : has_value s -> env_wf env -> env_wf (env_add s env).
Proof.
  intros Hs [Hv Hn]. induction env as [|e env IH]; cbn [env_add].
  { split; [by repeat constructor|apply NoDup_singleton]. }
  inversion_clear Hv as [|? ? He Hv']. apply NoDup_cons in Hn as [Hx Hn]. destruct (IH Hv' Hn) as [IHv IHn].
  rewrite defines_name by done. case_bool_decide as Hd.
  - split; [by constructor|]. simpl. rewrite <- Hd. by constructor.
  - split; [by constructor|]. simpl. constructor; [|done]. by intros [?|?]%env_add_names.
Qed.
Lemma env_unset_wf name env : env_wf env -> env_wf (env_unset name env).
Proof.
  intros [Hv Hn]. unfold env_unset. destruct (String.eqb name ""); [done|]. split.
  - apply List.Forall_forall. intros e [He _]%List.filter_In. by apply (proj1 (List.Forall_forall _ _) Hv).
  - induction env as [|e env IH]; [constructor|]. inversion_clear Hv as [|? ? He Hv']. apply NoDup_cons in Hn as [Hx Hn].
    simpl. destruct (negb (defines name e)); [|by apply IH]. simpl. constructor; [|by apply IH].
    intros (e' & He' & [Hi _]%List.filter_In)%list_elem_of_In%in_map_iff. apply Hx. apply list_elem_of_In, in_map_iff. by exists e'.
Qed.

(** What the definitions of a command line mean. *)
Definition env_step (m : gmap string string) (s : string) : gmap string string :=
  match env_value s with
  | Some v => <[env_name s := v]> m
  | None => if String.eqb s "" then m else delete s m
  end.
Lemma env_put_step s env : env_wf env -> env_wf (env_put s env) /\ env_map (env_put s env) = env_step (env_map env) s.
Proof.
  intros Hw. unfold env_put, env_step. destruct (env_value s) as [v|] eqn:E.
  - assert (Hs : has_value s) by by exists v. split; [by apply env_add_wf|]. rewrite env_map_add, E by (try done; apply Hw). done.
  - split; [by apply env_unset_wf|]. destruct (String.eqb s "") eqn:E0; [by unfold env_unset; rewrite E0|].
    apply String.eqb_neq in E0. apply env_map_unset; [done|apply Hw].
Qed.

Definition env_spec (argv : list string) : gmap string string :=
  let m := fold_left env_step (map cstr (drop 1 argv)) ∅ in
  delete "BYE"%string (match m !! "GREET"%string with Some _ => m | None => <["GREET"%string := "Hello world"%string]> m end).
Definition env_text (env : list string) : string := fold_right (fun e t => e +:+ nl +:+ t) "" env.
Definition env_calls (argv : list string) : list call :=
  Clearenv :: map Putenv (drop 1 argv) ++ [Setenv "GREET" "Hello world" 0; Unsetenv "BYE"].

Lemma env_set_keep env : env_wf env ->
  env_wf (env_set "GREET" "Hello world" 0 env)
  /\ env_map (env_set "GREET" "Hello world" 0 env)
     = match env_map env !! "GREET"%string with Some _ => env_map env | None => <["GREET"%string := "Hello world"%string]> (env_map env) end.
Proof.
  intros Hw. unfold env_set. cbn [Z.eqb andb].
  assert (Hex : existsb (defines "GREET") env = match env_map env !! "GREET"%string with Some _ => true | None => false end).
  { destruct Hw as [Hv _]. unfold env_map. induction Hv as [|e env He _ IH]; [done|]. simpl. rewrite IH, defines_name by done.
    case_bool_decide as Hn; simpl; [by rewrite Hn, lookup_insert_eq|by rewrite lookup_insert_ne]. }
  rewrite Hex. destruct (env_map env !! "GREET"%string); [done|].
  assert (Hs : has_value ("GREET" +:+ "=" +:+ "Hello world")) by by eexists.
  split; [by apply env_add_wf|]. rewrite env_map_add by (try done; apply Hw). done.
Qed.

Lemma spec_puts_all law l w : Forall (fun e => cstr e = e) l ->
  spec law (for_each puts l) w (fun o es _ => o = Ret tt /\ printed Stdout es = env_text l /\ calls es = []).
Proof.
  intros Hl. unfold for_each. eapply spec_mono; [|apply (spec_fold_m law (fun (_ : unit) x => puts x) (fun _ l' es _ =>
    Forall (fun e => cstr e = e) l' /\ printed Stdout es +:+ env_text l' = env_text l /\ calls es = [])
    (fun o es _ => o = Ret tt /\ printed Stdout es = env_text l /\ calls es = []) l tt [])].
  - cbn beta. done.
  - intros; apply _.
  - by split_and!.
  - intros [] es w1 (_ & Hp & Hc). cbn in Hp. rewrite sapp_nil_r in Hp. done.
  - intros [] x l' es w1 (Hx & Hp & Hc). inversion_clear Hx as [|? ? H1 H2]. unfold puts. do 3 spec_step.
    split_and!; [done| |by rewrite calls_app, Hc]. rewrite printed_app, <- Hp. cbn.
    rewrite decide_True by done. by rewrite H1, sapp_nil_r, <- !sapp_assoc.
Qed.

(** Strings without a null byte stay so in the environment. *)
Definition clean (e : string) : Prop := cstr e = e.
Lemma env_add_clean s env : clean s -> Forall clean env -> Forall clean (env_add s env).
Proof.
  intros Hs. induction 1 as [|e env He Hv IH]; cbn [env_add]; [by repeat constructor|].
  destruct (defines (env_name s) e); by constructor.
Qed.
Lemma env_unset_clean n env : Forall clean env -> Forall clean (env_unset n env).
Proof.
  intros H. unfold env_unset. destruct (String.eqb n ""); [done|].
  apply List.Forall_forall. intros e [He _]%List.filter_In. by apply (proj1 (List.Forall_forall _ _) H).
Qed.
Lemma env_put_clean s env : clean s -> Forall clean env -> Forall clean (env_put s env).
Proof. intros. unfold env_put. destruct (env_value s); [by apply env_add_clean|by apply env_unset_clean]. Qed.

Definition puts_inv (argv : list string) (env : list string) (l : list string) (es : list event) : Prop :=
  exists k, l = drop k (drop 1 argv) /\ env_wf env /\ Forall clean env
    /\ env_map env = fold_left env_step (map cstr (take k (drop 1 argv))) ∅
    /\ calls es = map Putenv (take k (drop 1 argv)) /\ printed Stdout es = "".
Definition modify_post (argv : list string) {A} (o : outcome A) (es : list event) (w : world) : Prop :=
  match o with
  | Halt (Exit 0) => exists env, env_wf env /\ env_map env = env_spec argv
      /\ printed Stdout es = env_text env /\ calls es = env_calls argv
  | Halt h => died h
  | Blocked _ => True
  | _ => False
  end.
Lemma spec_modify_puts law argv w (Q : outcome (list string) -> list event -> world -> Prop) :
  (forall c es w', Q (Blocked c) es w') -> (forall h es w', died h -> Q (Halt h) es w') ->
  (forall env es w', puts_inv argv env [] es -> Q (Ret env) es w') ->
  spec law (fold_m modify_put [] (drop 1 argv)) w Q.
Proof.
  intros HB HD HR. eapply spec_mono; [|apply (spec_fold_m law modify_put (fun env l es _ => puts_inv argv env l es) Q _ [] [])].
  - done.
  - intros; apply _.
  - exists O. split_and!; [done| |constructor|done|done|done]. split; constructor.
  - intros env es w1 Hi. by apply HR.
  - intros env x l es w1 (k & Hl & Hw & Hc & Hm & Hk & Hp). unfold modify_put. do 2 spec_step; [apply HB|].
    spec_step; [die_run HB HD|]. spec_step. exists (S k).
    assert (Hx : drop 1 argv !! k = Some x) by (by rewrite <- (Nat.add_0_r k), <- lookup_drop, <- Hl).
    destruct (env_put_step (cstr x) env Hw) as [Hw' Hm'].
    rewrite (take_S_r _ _ x) by done. rewrite !map_app, fold_left_app, calls_app, printed_app, Hk, Hp. cbn.
    split_and!; [|done|by apply env_put_clean; [apply cstr_idem|]|by rewrite Hm', Hm|done|done].
    by rewrite (drop_S _ x k) in Hl by done; injection Hl.
Qed.

(** C30.  [modify_env] refines operations on a finite map: whatever definitions the command
    line holds, the environment it shows has no name twice and is the map in which each
    name has its last definition, a name alone or BYE has none, and GREET is Hello world
    unless defined; [putenv] is called once for each argument in order, and the
    environment is shown in full. *)
Theorem modify_env_correct law argv w : spec law (modify_env_main argv) w (modify_post argv).
Proof.
  assert (HB : forall c es w', modify_post argv (A:=Z) (Blocked c) es w') by done.
  assert (HD : forall h es w', died h -> modify_post argv (A:=Z) (Halt h) es w') by (by intros [[]| | |]).
  unfold modify_env_main. do 2 spec_step; [apply HB|]. spec_step.
  apply spec_modify_puts; [intros; apply HB|intros; by apply HD|]. intros env es1 w1 (k & Hl & Hw & Hc & Hm & Hk & Hp).
  do 2 spec_step; [apply HB|]. spec_step; [die_run HB HD|]. do 2 spec_step; [apply HB|]. spec_step.
  destruct (env_set_keep env Hw) as [Hw1 Hm1].
  assert (Hc1 : Forall clean (env_unset "BYE" (env_set "GREET" "Hello world" 0 env))).
  { apply env_unset_clean. unfold env_set. destruct (_ && _); [done|by apply env_add_clean]. }
  eapply spec_mono; [|by apply spec_puts_all]. cbn beta. intros o es2 w4 (-> & Hp2 & Hc2). spec_run.
  exists (env_unset "BYE" (env_set "GREET" "Hello world" 0 env)).
  assert (Hk' : take k (drop 1 argv) = drop 1 argv) by (apply take_ge; apply (f_equal length) in Hl; rewrite length_drop in Hl; simpl in Hl; lia).
  rewrite Hk' in Hk, Hm. split_and!.
  - by apply env_unset_wf.
  - rewrite env_map_unset, Hm1, Hm by (try done; apply Hw1). done.
  - rewrite !printed_app, Hp, Hp2. cbn. by rewrite sapp_nil_r.
  - rewrite !calls_app, Hk, Hc2. done.
Qed.

#[export] Instance break_line_sane l : Sane (break_line l).
Proof. unfold break_line. apply _. Qed.
#[export] Instance opt_int_sane a j n d : Sane (opt_int a j n d).
Proof. unfold opt_int. apply _. Qed.
#[export] Instance alloc_block_sane b p j : Sane (alloc_block b p j).
Proof. unfold alloc_block. apply _. Qed.
#[export] Instance free_blocks_sane st p a b c : Sane (free_blocks st p a b c).
Proof. unfold free_blocks. apply _. Qed.
#[export] Instance alloc_and_free_sane st n b a c d : Sane (alloc_and_free st n b a c d).
Proof. unfold alloc_and_free. apply _. Qed.
#[export] Instance free_and_sbrk_main_sane st a : Sane (free_and_sbrk_main st a).
Proof. unfold free_and_sbrk_main. apply _. Qed.
#[export] Instance getpwnam_sane n : Sane (getpwnam n).
Proof. unfold getpwnam. apply _. Qed.
#[export] Instance getspnam_sane n : Sane (getspnam n).
Proof. unfold getspnam. apply _. Qed.
#[export] Instance crypt_and_erase_sane a p s : Sane (crypt_and_erase a p s).
Proof. unfold crypt_and_erase. apply _. Qed.
#[export] Instance authenticate_sane u h : Sane (authenticate u h).
Proof. unfold authenticate. apply _. Qed.
#[export] Instance check_password_main_sane : Sane check_password_main.
Proof. unfold check_password_main. apply _. Qed.
#[export] Instance sysconfPrint_sane m n : Sane (sysconfPrint m n).
Proof. unfold sysconfPrint. apply _. Qed.
#[export] Instance pidmax_set_sane f v : Sane (pidmax_set f v).
Proof. unfold pidmax_set. apply _. Qed.
#[export] Instance procfs_pidmax_main_sane a : Sane (procfs_pidmax_main a).
Proof. unfold procfs_pidmax_main. apply _. Qed.
#[export] Instance dynload_main_sane a : Sane (dynload_main a).
Proof. unfold dynload_main. apply _. Qed.

(** ** Authentication *)

(** The password that an event encrypts; each is overwritten at once. *)
Definition crypt_arg (e : event) : option string :=
  match e with
  | Called (Lib s (pw :: _) _) _ => if String.eqb s "crypt" then Some pw else None
  | _ => None
  end.
Definition erases (pw : string) (es : list event) : Prop :=
  match es with Called (WriteMem _ d) _ :: _ => d = srep (Z.to_nat (slen pw)) nul | _ => False end.
Fixpoint erased (es : list event) : Prop :=
  match es with
  | [] => True
  | e :: es => match crypt_arg e with Some pw => erases pw es | None => True end /\ erased es
  end.
Definition no_crypt (e : event) : Prop := crypt_arg e = None.
Lemma erased_none es : Forall no_crypt es -> erased es.
Proof. induction 1 as [|e es He _ IH]; simpl; [done|]. by rewrite He. Qed.
Lemma erased_app es fs : erased es -> Forall no_crypt fs -> erased (es ++ fs).
Proof.
  intros He Hf. induction es as [|e es IH]; [by apply erased_none|]. destruct He as [He Hs]. simpl. split; [|by apply IH].
  destruct (crypt_arg e); [|done]. by destruct es as [|[[]| |] es].
Qed.
Lemma diag_no_crypt es : Forall diag es -> Forall no_crypt es.
Proof. intros H. eapply Forall_impl; [exact H|]. by intros [[]| |]. Qed.

Definition accepted (uid : Z) (hash : string) (es : list event) : Prop :=
  exists p c u, r_ret p <> 0 /\ r_ret c <> 0 /\ cstr (r_buf c) = cstr hash /\
    es = [Called (Lib "getpass" ["Password: "%string] []) p; Called (Lib "crypt" [cstr (r_buf p); hash] []) c;
          Called (WriteMem (r_ret p) (srep (Z.to_nat (slen (cstr (r_buf p)))) nul)) u;
          Printed Stdout ("Successfully authenticated: UID=" +:+ dec uid +:+ nl)].
Definition auth_post (uid : Z) (hash : string) {A} (o : outcome A) (es : list event) (w : world) : Prop :=
  match o with
  | Halt (Exit 0) => accepted uid hash es
  | Halt h => died h /\ erased es
  | Blocked _ => True
  | _ => False
  end.
Lemma spec_authenticate law uid hash w : spec law (authenticate uid hash) w (auth_post uid hash).
Proof.
  unfold authenticate, crypt_and_erase. do 2 spec_step; [done|]. spec_step; [by spec_run|].
  spec_step. do 2 spec_step; [done|]. do 2 spec_step; [done|]. spec_step. spec_step.
  - apply spec_dies; [apply _|done|]. intros h es w4 Hh Hd. unfold auth_post.
    assert (Her : erased ([Called (Lib "getpass" ["Password: "%string] []) r] ++ [Called (Lib "crypt" [cstr (r_buf r); hash] []) r0]
       ++ [Called (WriteMem (r_ret r) (srep (Z.to_nat (slen (cstr (r_buf r)))) nul)) r1] ++ es)).
    { apply (erased_app [_; _; _]); [by cbn; split_and!|by apply diag_no_crypt]. }
    by destruct h as [[]| | |].
  - spec_run; cbn; [by split_and!|]. exists r, r0, r1. zbool. split_and!; try done. by apply String.eqb_eq.
Qed.

Ltac no_crypt := repeat (apply Forall_app; split); first [by apply diag_no_crypt|by repeat constructor].
Definition no_secret (e : event) : Prop := no_crypt e /\ match e with Printed Stdout s => s = "Username: " | _ => True end.
(** The user whose record was found, and the hash that counts. *)
Definition user_of (pwd spwd : resp) (uid : Z) (hash : string) : Prop :=
  r_ret pwd <> 0 /\ uid = r_val 0 pwd /\ hash = if r_ret spwd =? 0 then pw_passwd pwd else pw_passwd spwd.
Definition check_post {A} (o : outcome A) (es : list event) (w : world) : Prop :=
  match o with
  | Halt (Exit 0) => exists pre n u g s uid hash es', es = pre ++ [Called (Fgets n Stdin) u;
        Called (Lib "getpwnam" [strip_newline (r_buf u)] []) g; Called (Lib "getspnam" [strip_newline (r_buf u)] []) s] ++ es'
      /\ user_of g s uid hash /\ accepted uid hash es' /\ Forall no_secret pre
  | Halt h => died h /\ erased es
  | Blocked _ => True
  | _ => False
  end.

Lemma check_post_ends pre n u g s uid hash {A} (o : outcome A) es w :
  user_of g s uid hash -> Forall no_secret pre -> auth_post uid hash o es w ->
  check_post o (pre ++ [Called (Fgets n Stdin) u; Called (Lib "getpwnam" [strip_newline (r_buf u)] []) g;
    Called (Lib "getspnam" [strip_newline (r_buf u)] []) s] ++ es) w.
Proof.
  intros Hu Hp Ho.
  assert (He : erased es -> erased (pre ++ [Called (Fgets n Stdin) u; Called (Lib "getpwnam" [strip_newline (r_buf u)] []) g;
    Called (Lib "getspnam" [strip_newline (r_buf u)] []) s] ++ es)).
  { intros He. induction Hp as [|e pre [He0 _] _ IH]; [by cbn; split_and!|]. cbn [app erased]. by rewrite He0. }
  destruct o as [|[[]| | |]| |]; try done; try (destruct Ho; by split; [|apply He]).
  exists pre, n, u, g, s, uid, hash, es. by split_and!.
Qed.


(** ** The blocks that [free_and_sbrk] frees *)

Definition allocs (es : list event) : list Z :=
  flat_map (fun e => match e with Called (Malloc _) r => [r_ret r] | _ => [] end) es.
Definition frees (es : list event) : list Z :=
  flat_map (fun e => match e with Called (Free p) _ => [p] | _ => [] end) es.
Definition no_heap (e : event) : Prop := match e with Called (Malloc _ | Free _) _ => False | _ => True end.
Lemma allocs_app es fs : allocs (es ++ fs) = allocs es ++ allocs fs.
Proof. apply flat_map_app. Qed.
Lemma frees_app es fs : frees (es ++ fs) = frees es ++ frees fs.
Proof. apply flat_map_app. Qed.
Lemma no_heap_none es : Forall no_heap es -> allocs es = [] /\ frees es = [].
Proof. induction 1 as [|[[]| |] es He _ IH]; simpl in *; try done; by split. Qed.

(** The indices visited, and the blocks found there. *)
Definition free_index (mn st i : Z) : Z := mn - 1 + i * st.
Definition free_plan (bs : list Z) (mn mx st : Z) : list Z :=
  map (fun i => nth (Z.to_nat (free_index mn st i)) bs 0) (seqZ 0 (stride_count (mx - (mn - 1)) st 1)).
(** Only allocated blocks are freed, and none of them twice. *)
Definition freed_once (es : list event) : Prop :=
  exists idx, NoDup idx /\ Forall (fun j => 0 <= j < Z.of_nat (length (allocs es))) idx
    /\ frees es = map (fun j => nth (Z.to_nat j) (allocs es) 0) idx.

Lemma free_indices_ok mn mx st i (bs : list Z) : 1 <= mn -> 0 < st -> mx <= Z.of_nat (length bs) ->
  0 <= i <= stride_count (mx - (mn - 1)) st 1 ->
  NoDup (map (free_index mn st) (seqZ 0 i)) /\ Forall (fun j => 0 <= j < Z.of_nat (length bs)) (map (free_index mn st) (seqZ 0 i)).
Proof.
  intros Hmn Hst Hmx Hi. split.
  - assert (Inj eq eq (free_index mn st)) by (unfold free_index; intros x y Hxy; nia).
    apply (NoDup_fmap_2 (free_index mn st)), NoDup_seqZ.
  - apply List.Forall_map, List.Forall_forall. intros k Hk. apply list_elem_of_In, elem_of_seqZ in Hk. unfold free_index.
    pose proof (proj1 (stride_count_lt (mx - (mn - 1)) st 1 k Hst ltac:(lia)) ltac:(lia)). nia.
Qed.

Lemma spec_free_blocks law stray ptr mn mx st w (Q : outcome unit -> list event -> world -> Prop) :
  1 <= mn <= INT_MAX -> mx <= Z.of_nat (length ptr) <= MAX_ALLOCS -> 0 < st <= INT_MAX - MAX_ALLOCS ->
  let N := stride_count (mx - (mn - 1)) st 1 in
  let f i := nth (Z.to_nat (free_index mn st i)) ptr 0 in
  (forall c es w' i, allocs es = [] -> 0 <= i <= N -> frees es = map f (seqZ 0 i) -> Q (Blocked c) es w') ->
  (forall es w', allocs es = [] -> frees es = map f (seqZ 0 N) -> Q (Ret tt) es w') ->
  spec law (free_blocks stray ptr mn mx st) w Q.
Proof.
  intros Hmn Hmx Hst N f HB HR. unfold free_blocks. pose proof (stride_count_nonneg (mx - (mn - 1)) st 1 ltac:(lia)) as HN.
  apply spec_loop with (I := fun j es _ => exists i, j = free_index mn st i /\ 0 <= i <= N
    /\ allocs es = [] /\ frees es = map f (seqZ 0 i)).
  - intros; apply _.
  - intros; apply _.
  - exists 0. unfold free_index. split_and!; [lia..|done|done].
  - intros j es w1 (i & -> & Hi & Ha & Hf).
    assert (Hlt : i < N <-> free_index mn st i < mx) by (unfold N, free_index; rewrite stride_count_lt by lia; lia).
    destruct (free_index mn st i <? mx) eqn:E; zbool.
    + apply Hlt in E as E'. do 2 spec_step; [rewrite app_nil_r; by eapply (HB _ _ _ i)|]. spec_step.
      assert (Hj : 0 <= free_index mn st i) by (unfold free_index; nia).
      exists (i + 1). rewrite allocs_app, frees_app, Ha, Hf, (seqZ_app 0 i 1), map_app by lia. cbn [app allocs frees flat_map].
      split_and!; [|lia..|done|].
      * unfold INT_MAX, MAX_ALLOCS in *. rewrite wrap_s32_id by (unfold in_int, INT_MIN, INT_MAX; lia). unfold free_index. lia.
      * f_equal. unfold block_at. rewrite (proj2 (Z.ltb_ge _ _)) by done. by rewrite (nth_indep _ _ 0) by lia.
    + spec_step. rewrite app_nil_r. apply HR; [done|]. rewrite Hf. f_equal. f_equal. lia.
Qed.

Definition opt_value (argv : list string) (j : nat) (d v : Z) : Prop :=
  if argc_of argv >? Z.of_nat j then num_value GN_GT_0 (argv_opt argv j) = Some v else v = d.
Lemma spec_opt_int law argv j name d w (Q : outcome Z -> list event -> world -> Prop) : 0 < d ->
  (forall h es w', died h -> Forall diag es -> Q (Halt h) es w') ->
  (forall v w', opt_value argv j d v -> 0 < v -> in_int v \/ v = d -> Q (Ret v) [] w') ->
  spec law (opt_int argv j name d) w Q.
Proof.
  intros Hd HD HR. unfold opt_int, opt_value in *. destruct (argc_of argv >? Z.of_nat j).
  - apply spec_getInt; [|intros; by apply HD]. intros v w' Hv Hi. apply HR; [done|by eapply num_value_pos|by left].
  - spec_step. apply HR; [done|done|by right].
Qed.

Definition heap_post (argv : list string) {A} (o : outcome A) (es : list event) (w : world) : Prop :=
  freed_once es /\
  match o with
  | Halt (Exit 0) => exists n st mn mx, num_value GN_GT_0 (argv_opt argv 1) = Some n
      /\ opt_value argv 3 1 st /\ opt_value argv 4 1 mn /\ opt_value argv 5 n mx
      /\ Z.of_nat (length (allocs es)) = n /\ mx <= n /\ frees es = free_plan (allocs es) mn mx st
  | Halt h => died h
  | Blocked _ => True
  | _ => False
  end.
Lemma freed_none es : frees es = [] -> freed_once es.
Proof. intros He. exists []. split_and!; [constructor|constructor|done]. Qed.
Lemma heap_post_none argv {A} (o : outcome A) es w : frees es = [] ->
  match o with Halt h => died h | Blocked _ => True | _ => False end -> heap_post argv o es w.
Proof. intros He Ho. split; [by apply freed_none|]. by destruct o as [|[[]| | |]| |]. Qed.
Lemma diag_no_heap es : Forall diag es -> Forall no_heap es.
Proof. intros H. eapply Forall_impl; [exact H|]. by intros [[]| |]. Qed.

Lemma spec_allocs law n size w (Q : outcome (list Z) -> list event -> world -> Prop) : 0 <= n ->
  (forall c es w', frees es = [] -> Q (Blocked c) es w') ->
  (forall h es w', died h -> frees es = [] -> Q (Halt h) es w') ->
  (forall es w', frees es = [] -> Z.of_nat (length (allocs es)) = n -> Q (Ret (allocs es)) es w') ->
  spec law (fold_m (alloc_block size) [] (seqZ 0 n)) w Q.
Proof.
  intros Hn HB HD HR. eapply spec_mono; [|apply (spec_fold_m law (alloc_block size) (fun ptr l es _ =>
    l = seqZ (Z.of_nat (length ptr)) (n - Z.of_nat (length ptr)) /\ Z.of_nat (length ptr) <= n /\ allocs es = ptr /\ frees es = []) Q _ [] [])].
  - done.
  - intros; apply _.
  - split_and!; [by rewrite Z.sub_0_r|done|done|done].
  - intros ptr es w1 (Hl & Hle & <- & Hf). apply HR; [done|].
    destruct (decide (Z.of_nat (length (allocs es)) < n)); [by rewrite seqZ_cons in Hl by lia|lia].
  - intros ptr x l es w1 (Hl & Hle & <- & Hf). unfold alloc_block. do 2 spec_step; [rewrite app_nil_r; by apply HB|].
    assert (Hlt : Z.of_nat (length (allocs es)) < n) by (destruct (decide (Z.of_nat (length (allocs es)) < n)); [done|by rewrite seqZ_nil in Hl by lia]).
    spec_step.
    + assert (Hn0 : forall fs, Forall diag fs -> frees (es ++ [Called (Malloc size) r] ++ fs) = []).
      { intros fs Hd. rewrite !frees_app, Hf. by destruct (no_heap_none fs (diag_no_heap _ Hd)). }
      apply spec_dies; [apply _|..]; cbn [pass]; intros; [apply HB|apply HD; [done|]]; by apply Hn0.
    + spec_step. rewrite seqZ_cons in Hl by lia. injection Hl as -> ->. rewrite allocs_app, frees_app, Hf, length_app. cbn [length].
      split_and!; [f_equal; lia|lia|done|done].
Qed.

Lemma freed_once_intro es pre mn mx st i : allocs es = allocs pre -> 1 <= mn -> 0 < st -> mx <= Z.of_nat (length (allocs pre)) ->
  0 <= i <= stride_count (mx - (mn - 1)) st 1 ->
  frees es = map (fun i => nth (Z.to_nat (free_index mn st i)) (allocs pre) 0) (seqZ 0 i) -> freed_once es.
Proof.
  intros Ha Hmn Hst Hmx Hi Hf. destruct (free_indices_ok mn mx st i (allocs pre)) as [Hn Hr]; [done..|].
  exists (map (free_index mn st) (seqZ 0 i)). rewrite Ha. split_and!; [done|done|]. by rewrite Hf, map_map.
Qed.

Lemma spec_break_line law l w (Q : outcome unit -> list event -> world -> Prop) :
  (forall c w', Q (Blocked c) [] w') -> (forall es w', Forall no_heap es -> Q (Ret tt) es w') -> spec law (break_line l) w Q.
Proof. intros HB HR. unfold break_line. spec_run; [by apply HB|]. apply HR. by repeat constructor. Qed.

Lemma spec_break_end law l w (Q : outcome Z -> list event -> world -> Prop) :
  (forall o es w', match o with Halt (Exit 0) => True | Blocked _ => True | _ => False end -> Forall no_heap es -> Q o es w') ->
  spec law (_ ← break_line l; exit EXIT_SUCCESS) w Q.
Proof.
  intros HQ. spec_step. apply spec_break_line; cbn [pass]; [by intros; apply HQ|]. intros es w' Hn. spec_run.
  rewrite app_nil_r. by apply HQ.
Qed.

(** The events of the three phases: before the blocks are allocated, up to the first
    free, and from there. *)
Lemma heap_phases argv pre mid post n st mn mx i w {A} (o : outcome A) :
  Forall no_heap pre -> frees mid = [] -> allocs post = [] ->
  Z.of_nat (length (allocs mid)) = n -> mx <= n -> 1 <= mn -> 0 < st ->
  let N := stride_count (mx - (mn - 1)) st 1 in 0 <= i <= N ->
  frees post = map (fun i => nth (Z.to_nat (free_index mn st i)) (allocs mid) 0) (seqZ 0 i) ->
  num_value GN_GT_0 (argv_opt argv 1) = Some n -> opt_value argv 3 1 st -> opt_value argv 4 1 mn -> opt_value argv 5 n mx ->
  match o with Halt (Exit 0) => i = N | Blocked _ => True | _ => False end ->
  heap_post argv o (pre ++ mid ++ post) w.
Proof.
  intros [Ha Hf]%no_heap_none Hm Hp Hl Hmx Hmn Hst N Hi Hpf H1 H3 H4 H5 Ho.
  assert (Ea : allocs (pre ++ mid ++ post) = allocs mid) by (by rewrite !allocs_app, Ha, Hp, app_nil_r).
  assert (Ef : frees (pre ++ mid ++ post) = frees post) by (by rewrite !frees_app, Hf, Hm).
  split.
  - apply (freed_once_intro _ mid mn mx st i); try done; [lia|by rewrite Ef].
  - destruct o as [|[[]| | |]| |]; try done. exists n, st, mn, mx. rewrite Ea, Ef. split_and!; try done. by rewrite Hpf, Ho.
Qed.

Lemma spec_alloc_and_free law stray argv n b st mn mx w :
  num_value GN_GT_0 (argv_opt argv 1) = Some n -> opt_value argv 3 1 st -> opt_value argv 4 1 mn -> opt_value argv 5 n mx ->
  0 < n <= MAX_ALLOCS -> mx <= n -> 1 <= mn <= INT_MAX -> 0 < st <= INT_MAX - MAX_ALLOCS ->
  spec law (alloc_and_free stray n b st mn mx) w (heap_post argv).
Proof.
  intros H1 H3 H4 H5 Hn Hmx Hmn Hst. unfold alloc_and_free.
  assert (HB : forall c es w', frees es = [] -> heap_post argv (A:=Z) (Blocked c) es w') by (intros; by apply heap_post_none).
  assert (HF : forall es fs, Forall no_heap es -> frees fs = [] -> frees (es ++ fs) = []).
  { intros es fs [_ E]%no_heap_none E'. by rewrite frees_app, E, E'. }
  spec_step. apply spec_break_line; cbn [pass]; [by intros; apply HB|]. intros e0 w0 He0.
  do 4 spec_step. spec_step.
  apply spec_allocs; cbn [pass]; [lia| | |].
  - intros. apply heap_post_none; [by apply HF|done].
  - intros. apply heap_post_none; [by apply HF|done].
  - intros e1 w9 Hf Hl. spec_step. apply spec_break_line; cbn [pass].
    { intros. apply heap_post_none; [by apply HF; [|rewrite !frees_app, Hf]|done]. }
    intros e2 w8 He2. do 2 spec_step. spec_step. apply spec_free_blocks; [lia..| |]; cbn [pass].
    + intros c es w7 i Ha Hi Hfs. rewrite (app_assoc e0).
      apply (heap_phases argv _ e1 _ n st mn mx i); try done; try lia.
      * apply Forall_app. split; [done|by repeat constructor].
      * by rewrite !allocs_app, (proj1 (no_heap_none _ He2)), Ha.
      * by rewrite !frees_app, (proj2 (no_heap_none _ He2)), <- Hfs.
    + intros es w7 Ha Hfs. apply spec_break_end. intros o es3 w6 Ho Hn3.
      rewrite (app_assoc e0). apply (heap_phases argv _ e1 _ n st mn mx (stride_count (mx - (mn - 1)) st 1)); try done; try lia.
      * apply Forall_app. split; [done|by repeat constructor].
      * by rewrite !allocs_app, (proj1 (no_heap_none _ He2)), Ha, (proj1 (no_heap_none _ Hn3)).
      * pose proof (stride_count_nonneg (mx - (mn - 1)) st 1). lia.
      * by rewrite !frees_app, (proj2 (no_heap_none _ He2)), Hfs, (proj2 (no_heap_none _ Hn3)), app_nil_r.
      * by destruct o as [|[[]| | |]| |].
Qed.

Lemma heap_post_dies argv law {A} (m : M A) `{!Dies m} w pre : Forall no_heap pre ->
  spec law m w (fun o es w' => heap_post argv o (pre ++ es) w').
Proof.
  intros Hp. assert (H0 : forall fs, Forall diag fs -> frees (pre ++ fs) = []).
  { intros fs Hd. rewrite frees_app, (proj2 (no_heap_none _ Hp)). by destruct (no_heap_none fs (diag_no_heap _ Hd)). }
  apply spec_dies; [apply _|..]; intros; apply heap_post_none; try done; by apply H0.
Qed.

(** C28.  [free_and_sbrk] uses its blocks safely: only blocks that were allocated are freed
    and none of them twice, however the run ends; when it ends with status 0 it has
    allocated [num-allocs] blocks and freed exactly those from [min] to [max] in steps of
    [step], in order.  The step must leave room for the [int] index: see
    [free_index_overflows]. *)
Theorem free_and_sbrk_safe law stray argv w :
  (forall st, num_value GN_GT_0 (argv_opt argv 3) = Some st -> st <= INT_MAX - MAX_ALLOCS) ->
  spec law (free_and_sbrk_main stray argv) w (heap_post argv).
Proof.
  intros Hst. unfold free_and_sbrk_main.
  assert (HD : forall h es w', died h -> Forall diag es -> heap_post argv (A:=Z) (Halt h) ([Printed Stdout nl] ++ es) w').
  { intros h es w' Hh Hd. apply heap_post_none; [|done]. by destruct (no_heap_none es (diag_no_heap _ Hd)). }
  do 4 spec_step. spec_step; [by apply (heap_post_dies argv _ _ _ [_]); repeat constructor|].
  spec_step. apply spec_getInt; cbn [pass]; [|intros; by apply HD]. intros n w1 Hn _. apply num_value_pos in Hn as Hn0.
  spec_step; [by apply (heap_post_dies argv _ _ _ [_]); repeat constructor|]. zbool.
  spec_step. apply spec_getInt; cbn [pass]; [|intros; by apply HD]. intros b w2 _ _.
  spec_step. apply spec_opt_int; cbn [pass]; [lia|intros; by apply HD|]. intros st w3 H3 Hst0 _.
  spec_step. apply spec_opt_int; cbn [pass]; [lia|intros; by apply HD|]. intros mn w4 H4 Hmn Hmn'.
  spec_step. apply spec_opt_int; cbn [pass]; [lia|intros; by apply HD|]. intros mx w5 H5 Hmx _.
  spec_step; [by apply (heap_post_dies argv _ _ _ [_]); repeat constructor|]. zbool.
  assert (Hs : 0 < st <= INT_MAX - MAX_ALLOCS).
  { split; [done|]. unfold opt_value in H3. destruct (argc_of argv >? Z.of_nat 3); [by apply Hst|]. rewrite H3. done. }
  assert (Hm : 1 <= mn <= INT_MAX) by (unfold in_int, INT_MAX in *; lia).
  eapply spec_mono; [|by apply (spec_alloc_and_free law stray argv n b st mn mx w5 Hn H3 H4 H5)].
  intros o es w6 Ho. exact Ho.
Qed.
Lemma free_and_sbrk_safe_witness :
  let argv := ["free_and_sbrk"; "3"; "16"; "2"]%string in
  (forall st, num_value GN_GT_0 (argv_opt argv 3) = Some st -> st <= INT_MAX - MAX_ALLOCS)
  /\ free_plan [10; 20; 30] 1 3 2 = [10; 30]
  /\ spec any_answer (free_and_sbrk_main (fun _ => 0) argv) (start []) (heap_post argv).
Proof.
  intros argv.
  assert (H : forall st, num_value GN_GT_0 (argv_opt argv 3) = Some st -> st <= INT_MAX - MAX_ALLOCS) by (intros st [= <-]; done).
  split; [exact H|]. split; [reflexivity|]. exact (free_and_sbrk_safe any_answer (fun _ => 0) argv (start []) H).
Defined.

(** With a step near INT_MAX the index wraps round, and what is not a block is freed. *)
Example free_index_overflows :
  frees (snd (run (free_blocks (fun j => j) [10; 20; 30] 2 3 INT_MAX) (repeat (ok 0) 3))) = [20; - 2 ^ 31; -1].
Proof. vm_compute. reflexivity. Qed.

(** ** The smaller programs *)

(** [sysconfPrint] tells the three answers apart: a limit, none, and a failure. *)
Lemma sysconfPrint_exact law msg name w :
  spec law (sysconfPrint msg name) w (fun o es _ =>
    (exists c, o = Blocked c) \/
    exists r es', es = Called (Sysconf name) r :: es' /\
      if r_ret r =? -1 then
        if r_err r =? 0 then o = Ret tt /\ es' = [Printed Stdout (msg +:+ " (indeterminate)" +:+ nl)]
        else (exists h, o = Halt h /\ died h) \/ (exists c, o = Blocked c)
      else o = Ret tt /\ es' = [Printed Stdout (msg +:+ " " +:+ dec (r_ret r) +:+ nl)]).
Proof.
  unfold sysconfPrint. do 2 spec_step. do 2 spec_step; [by left; eexists|]. spec_step.
  - apply negb_true_iff in Heqb. spec_run. right. do 2 eexists. split; [reflexivity|]. by rewrite Heqb.
  - apply negb_false_iff in Heqb. spec_step. spec_step. rewrite He0, He. unfold errno_after. destruct (r_err r =? 0) eqn:E; cbn [Z.eqb].
    + spec_run. right. do 2 eexists. split; [reflexivity|]. by rewrite Heqb, E.
    + rewrite E. apply spec_dies; [apply _|..]; intros; right; do 2 eexists; (split; [reflexivity|]); rewrite Heqb, E; eauto.
Qed.

(** [longjmp] ends after one jump: from [f1] without an argument, from [f2] with one. *)
Lemma longjmp_correct argv sc : run (longjmp_main argv) sc =
  (Halt (Exit 0), [Printed Stdout ("Calling f1() after initial setjmp()" +:+ nl);
                   Printed Stdout ("We jumped back from f" +:+ (if argc_of argv =? 1 then "1" else "2") +:+ "()" +:+ nl)]).
Proof. unfold run, longjmp_main, longjmp_switch, f1. cbn. by destruct (argc_of argv =? 1). Qed.
Lemma setjmp_vars_correct n r sc : exists a b, run (setjmp_vars_main n r) sc =
  (Halt (Exit 0), [a; Printed Stdout ("After longjmp(): nvar=" +:+ dec n +:+ " rvar=" +:+ dec r +:+ " vvar=999" +:+ nl)]) /\ a = Printed Stdout b.
Proof. do 2 eexists. split; reflexivity. Qed.
Example mem_segments_run : run mem_segments_main [ok 4096] =
  (Halt (Exit 0), [Called (Malloc 1024) (ok 4096); Printed Stdout ("The square of 9973 is 99460729" +:+ nl)]).
Proof. reflexivity. Qed.

(** [procfs_pidmax] writes the argument, whole, only after reading the old value. *)
Definition pidmax_post (argv : list string) {A} (o : outcome A) (es : list event) (w : world) : Prop :=
  match o with
  | Halt (Exit 0) => exists f r, let old := Printed Stdout (fmt_prec (r_ret r) (r_buf r)) in
      if argc_of argv >? 1 then exists s k c t, r_ret k = slen (cstr (argv_at argv 1)) /\
        es = [Called (Open PID_MAX O_RDWR 0) f; Called (Read (r_ret f) MAX_LINE) r; Printed Stdout "Old value: "; old;
              Called (Lseek (r_ret f) 0 SEEK_SET) s; Called (Write (r_ret f) (cstr (argv_at argv 1))) k; Called (System t) c]
      else es = [Called (Open PID_MAX O_RDONLY 0) f; Called (Read (r_ret f) MAX_LINE) r; old]
  | Halt h => died h | Blocked _ => True | _ => False
  end.
Lemma procfs_pidmax_correct law argv w : spec law (procfs_pidmax_main argv) w (pidmax_post argv).
Proof.
  assert (HB : forall c es w', pidmax_post argv (A:=Z) (Blocked c) es w') by done.
  assert (HD : forall h es w', died h -> pidmax_post argv (A:=Z) (Halt h) es w') by (by intros [[]| | |]).
  unfold procfs_pidmax_main, pidmax_set. destruct (argc_of argv >? 1) eqn:E; die_run HB HD; unfold pidmax_post; rewrite E; zbool.
  - do 6 eexists. split; [done|reflexivity].
  - by do 2 eexists.
Qed.
