(* ===== verification/Types.v ===== *)
(** * Types: the terminal attributes the programs handle are well formed

    A computation has a type [T] if, as long as the terminal's attributes are well
    formed whenever they are read, its result is in [T] and the attributes it sets are
    well formed.  The rules below are those of a type system; a program is typed by
    following its text. *)

From S2P Require Import Prelude Clib Sys Errors Frame Posix Terminal Polling Stops Script.

(** A [tcflag_t] is an unsigned 32-bit word, a [cc_t] a byte, and there are NCCS of them. *)
Definition NCCS : nat := 32.
Definition tcflag (x : Z) : Prop := 0 <= x <= UINT_MAX.
Definition cc_t (x : Z) : Prop := 0 <= x < 256.
Record tc_wf (t : termios) : Prop := {
  wf_iflag : tcflag (c_iflag t); wf_oflag : tcflag (c_oflag t);
  wf_cflag : tcflag (c_cflag t); wf_lflag : tcflag (c_lflag t);
  wf_cc : Forall cc_t (c_cc t); wf_nccs : length (c_cc t) = NCCS }.

Definition tc_law (c : call) (r : resp) : Prop :=
  match c with Tcgetattr _ => r_ret r <> -1 -> tc_wf (r_termios r) | _ => True end.
Definition tc_event (e : event) : Prop := match e with Called (Tcsetattr _ _ t) _ => tc_wf t | _ => True end.
Definition no_tcset (e : event) : Prop := match e with Called (Tcsetattr _ _ _) _ => False | _ => True end.

Definition has_type {A} (m : M A) (T : A -> Prop) : Prop :=
  forall w, spec tc_law m w (fun o es _ => Forall tc_event es /\ match o with Ret a => T a | _ => True end).

(** ** The rules *)

Section Rules.
Context {A B : Type}.
Implicit Types (m : M A) (T : A -> Prop) (U : B -> Prop).

Lemma t_ret a T : T a -> has_type (mret a) T.
Proof. intros Ha w. by spec_step. Qed.
Lemma t_bind m (f : A -> M B) T U `{!Sane m} `{!forall a, Sane (f a)} :
has_type m T -> (forall a, T a -> has_type (f a) U) -> has_type (m ≫= f) U.
Proof.
intros Hm Hf w. spec_step. eapply spec_mono; [|apply Hm]. cbn beta. intros [a|h|c|] es w' [He Ha]; try by split.
eapply spec_mono; [|by apply Hf]. cbn beta. intros o es' w'' [He' Ho]. split; [by apply Forall_app|done].
Qed.
Lemma t_sub m T T' : has_type m T -> (forall a, T a -> T' a) -> has_type m T'.
Proof.
intros Hm HT w. eapply spec_mono; [|apply Hm]. intros [] es w' [He Ha]; (split; [done|]); auto.
Qed.
Lemma t_any m : Emits no_tcset m -> has_type m (fun _ => True).
Proof.
intros Hm w. apply (spec_emits _ no_tcset); [done|]. intros es w' He. split; [|by destruct (fst (m w))].
eapply Forall_impl; [exact He|by intros [[]| |]].
Qed.
Lemma t_dies m T : Dies m -> has_type m T.
Proof.
intros Hm w. apply spec_dies; [done|..]; intros; (split; [|done]); (eapply Forall_impl; [eassumption|by intros [[]| |]]).
Qed.
Lemma t_halt h T : has_type (halt_ h) T.
Proof. intros w. by spec_step. Qed.
End Rules.

Lemma t_get fd : has_type (sys (Tcgetattr fd)) (fun r => r_ret r <> -1 -> tc_wf (r_termios r)).
Proof. intros w. spec_step; [by split|]. split; [by repeat constructor|done]. Qed.
Lemma t_set fd a t : tc_wf t -> has_type (scall (Tcsetattr fd a t)) (fun _ => True).
Proof. intros Ht w. spec_step; [by split|]. split; [|done]. constructor; [done|constructor]. Qed.

Lemma t_loop_fuel {S A} n (body : S -> M (S + A)) (I : S -> Prop) (T : A -> Prop) s `{!forall s, Sane (body s)} :
  (forall s, I s -> has_type (body s) (fun x => match x with inl s' => I s' | inr a => T a end)) ->
  I s -> has_type (loop_fuel n body s) T.
Proof.
  intros Hb. revert s. induction n as [|n IH]; intros s Hs; cbn [loop_fuel].
  - by intros w es ->%log_same _.
  - eapply t_bind; [apply _|intros []; apply _|by apply Hb|]. intros [s'|a] Hx; [by apply IH|by apply t_ret].
Qed.
Lemma t_loop {S A} (body : S -> M (S + A)) (I : S -> Prop) (T : A -> Prop) s `{!forall s, Sane (body s)} :
  (forall s, I s -> has_type (body s) (fun x => match x with inl s' => I s' | inr a => T a end)) ->
  I s -> has_type (loop body s) T.
Proof. intros Hb Hs w. exact (t_loop_fuel _ body I T s Hb Hs w). Qed.
Lemma t_forever {A} (body : M unit) (T : A -> Prop) `{!Sane body} : has_type body (fun _ => True) -> has_type (forever body) T.
Proof.
  intros Hb. unfold forever. apply (t_loop _ (fun _ => True)); [intros; apply _| |done]. intros [] _.
  eapply t_bind; [apply _|intros; apply _|done|]. intros. by apply t_ret.
Qed.
Lemma t_with_atexit {A} (h : M unit) (m : M A) T `{!Sane m} `{!Sane h} :
  has_type h (fun _ => True) -> has_type m T -> has_type (with_atexit h m) T.
Proof.
  intros Hh Hm w. apply spec_with_atexit; [done|done|]. eapply spec_mono; [|apply Hm]. cbn beta.
  intros [a|[n|n| |c]|c|] es w' [He Ha]; try by split.
  eapply spec_mono; [|apply Hh]. cbn beta. intros o es' w'' [He' _]. destruct o; (split; [by apply Forall_app|done]).
Qed.

(** Type the program by its text: [t_off] passes over what does not touch the terminal's
    attributes, [t_end] what ends the process. *)
Ltac t_off := apply t_any; apply _.
Ltac t_next T := eapply (t_bind _ _ T); [apply _|intros; apply _| |].
Ltac t_step :=
  lazymatch goal with
  | |- has_type (sys (Tcgetattr _) ≫= _) _ => eapply t_bind; [apply _|intros; apply _|apply t_get|intros ?r ?Hr]
  | |- has_type (scall (Tcsetattr _ _ _) ≫= _) _ => eapply t_bind; [apply _|intros; apply _|apply t_set|intros ? _]
  | |- has_type (scall (Tcsetattr _ _ _)) _ => apply t_set
  | |- has_type (_ ≫= _) _ => eapply t_bind; [apply _|intros; apply _|solve [t_off]|intros ? _]
  | |- has_type (mret _) _ => apply t_ret
  | |- has_type (halt_ _) _ => apply t_halt
  | |- has_type (exit _) _ => apply t_halt
  | |- has_type (quick_exit _) _ => apply t_halt
  | |- has_type (when _ _) _ => unfold when
  | |- has_type (if ?b then _ else _) _ => destruct b eqn:?
  | |- has_type (match ?x with _ => _ end) _ => destruct x eqn:?
  | |- has_type _ _ => first [apply t_dies; apply _|t_off]
  end; cbn beta iota zeta.
Ltac t_run := repeat t_step; zbool.

(** ** The operations on attributes *)

Lemma tcflag_bits x : tcflag x <-> 0 <= x /\ forall n, 32 <= n -> Z.testbit x n = false.
Proof.
  unfold tcflag, UINT_MAX. split.
  - intros [H0 H]. split; [done|]. intros n Hn. destruct (decide (x = 0)) as [->|]; [apply Z.bits_0|].
    apply Z.bits_above_log2; [done|]. pose proof (Z.log2_lt_pow2 x 32). lia.
  - intros [H0 H]. split; [done|]. destruct (decide (x < 2 ^ 32)); [lia|]. exfalso.
    assert (Hl : 32 <= Z.log2 x) by (apply Z.log2_le_pow2; lia).
    pose proof (Z.bit_log2 x ltac:(lia)). rewrite H in *; [done|lia].
Qed.
Lemma tcflag_clear x y : tcflag x -> 0 <= y -> tcflag (clear x y).
Proof.
  intros [H0 H]%tcflag_bits Hy. apply tcflag_bits. unfold clear. split; [by apply Z.ldiff_nonneg; left|].
  intros n Hn. by rewrite Z.ldiff_spec, H.
Qed.
Lemma tcflag_lor x y : tcflag x -> tcflag y -> tcflag (Z.lor x y).
Proof.
  intros [H0 H]%tcflag_bits [H0' H']%tcflag_bits. apply tcflag_bits. split; [by apply Z.lor_nonneg|].
  intros n Hn. by rewrite Z.lor_spec, H, H'.
Qed.
Lemma cc_set i v cc : cc_t v -> Forall cc_t cc -> Forall cc_t (set_cc i v cc).
Proof. intros. unfold set_cc. by apply Forall_insert. Qed.
Lemma cc_set_length i v cc : length (set_cc i v cc) = length cc.
Proof. apply length_insert. Qed.

Ltac tc_fields := cbn [c_iflag c_oflag c_cflag c_lflag c_cc];
  repeat first [done|apply tcflag_clear|apply tcflag_lor|apply cc_set|rewrite !cc_set_length|by vm_compute].
Lemma cbreak_wf t : tc_wf t -> tc_wf (cbreak_termios t).
Proof. intros []. unfold cbreak_termios. split; tc_fields. Qed.
Lemma raw_wf t : tc_wf t -> tc_wf (raw_termios t).
Proof. intros []. unfold raw_termios. split; tc_fields. Qed.

Definition tty_result (want : bool) (x : Z * option termios) : Prop :=
  (if want then fst x <> -1 -> exists t, snd x = Some t /\ tc_wf t else snd x = None)
  /\ (forall t, snd x = Some t -> tc_wf t).
Lemma t_ttySetCbreak fd want : has_type (ttySetCbreak fd want) (tty_result want).
Proof. unfold ttySetCbreak. t_run; try (split; destruct want; naive_solver); by apply cbreak_wf, Hr. Qed.
Lemma t_ttySetRaw fd want : has_type (ttySetRaw fd want) (tty_result want).
Proof. unfold ttySetRaw. t_run; try (split; destruct want; naive_solver); by apply raw_wf, Hr. Qed.

(** ** The programs *)

Lemma t_exit_handler u T : tc_wf u -> has_type (exit_handler u) T.
Proof. intros Hu. unfold exit_handler. by t_run. Qed.
Lemma t_tty_tstpHandler u : tc_wf u -> has_type (tty_tstpHandler u) tc_wf.
Proof. intros Hu. unfold tty_tstpHandler. t_run; auto. Qed.
Lemma t_tty_signals u : tc_wf u -> has_type (tty_signals u) tc_wf.
Proof.
  intros Hu. unfold tty_signals. apply (t_loop _ tc_wf); [intros; apply _| |done]. intros v Hv. t_step. t_step; [by apply t_ret|].
  t_step.
  - eapply t_bind; [apply _|intros; apply _|by apply t_tty_tstpHandler|]. intros. by apply t_ret.
  - eapply t_bind; [apply _|intros; apply _|by apply (t_exit_handler v (fun _ => True))|]. intros. by apply t_ret.
Qed.
Lemma t_tty_echo_loop u : tc_wf u -> has_type (tty_echo_loop u) tc_wf.
Proof.
  intros Hu. unfold tty_echo_loop. apply (t_loop _ tc_wf); [intros; apply _| |done]. intros v Hv.
  eapply t_bind; [apply _|intros; apply _|by apply t_tty_signals|]. intros v' Hv'. by t_run.
Qed.
Lemma t_test_tty_functions argv T : has_type (test_tty_functions_main argv) T.
Proof.
  unfold test_tty_functions_main. eapply (t_bind _ _ tc_wf); [apply _|intros; apply _| |].
  - destruct (argc_of argv >? 1).
    + eapply t_bind; [apply _|intros []; apply _|apply t_ttySetCbreak|]. intros [b orig] [Hb Ho]. cbn [fst snd] in *. t_step; [apply t_dies; apply _|].
      t_run. by destruct (Hb Heqb0) as (t & -> & Ht).
    + eapply t_bind; [apply _|intros []; apply _|apply t_ttySetRaw|]. intros [b orig] [Hb Ho]. cbn [fst snd] in *. t_step; [apply t_dies; apply _|].
      apply t_ret. zbool. by destruct (Hb Heqb0) as (t & -> & Ht).
  - intros u Hu. t_step. t_step; [apply t_dies; apply _|]. t_step.
    eapply t_bind; [apply _|intros; apply _|by apply t_tty_echo_loop|]. intros v Hv. by t_run.
Qed.
Lemma t_no_echo argv T : has_type (no_echo_main argv) T.
Proof.
  unfold no_echo_main. t_run; try (by apply Hr).
  all: destruct (Hr ltac:(done)); split; tc_fields.
Qed.
Lemma t_new_intr argv T : has_type (new_intr_main argv) T.
Proof.
  unfold new_intr_main, intr_char. t_run. destruct (Hr ltac:(done)). split; tc_fields.
  unfold cc_t. apply Z.mod_pos_bound. lia.
Qed.

Lemma t_demo_sigio argv T : has_type (demo_sigio_main argv) T.
Proof.
  unfold demo_sigio_main, read_gotSigio. t_run.
  eapply t_bind; [apply _|intros []; apply _|apply t_ttySetCbreak|]. intros [b orig] [Hb Ho]. cbn [fst snd] in *.
  t_step; [apply t_dies; apply _|]. zbool. destruct (Hb ltac:(done)) as (t & -> & Ht). t_run; done.
Qed.

(** The terminal of the shell is set to the attributes of the terminal the program was
    started from. *)
Lemma t_ptyFork_child m n t ws : (forall u, t = Some u -> tc_wf u) -> has_type (ptyFork_child m n t ws) (fun _ => True).
Proof. intros Ht. unfold ptyFork_child. destruct t as [u|]; t_run; try done; by apply Ht. Qed.
Lemma t_ptyFork want n t ws : (forall u, t = Some u -> tc_wf u) -> has_type (ptyFork want n t ws) (fun _ => True).
Proof.
  intros Ht. unfold ptyFork. eapply t_bind; [apply _|intros []; apply _|t_off|]. intros [mfd slname] _. cbn beta iota.
  t_run; try done. eapply t_bind; [apply _|intros; apply _|by apply t_ptyFork_child|]. intros. by apply t_ret.
Qed.
Lemma t_ttyReset t : tc_wf t -> has_type (ttyReset t) (fun _ => True).
Proof. intros Ht. unfold ttyReset. by t_run. Qed.
Lemma t_script argv T : has_type (script_main argv) T.
Proof.
  unfold script_main. do 3 t_step; [by apply t_dies; apply _|]. zbool. do 2 t_step; [by apply t_dies; apply _|].
  eapply t_bind; [apply _|intros [[]]; apply _|apply t_ptyFork; by intros u [= <-]; apply Hr|]. intros [[childPid mfd] sn] _. cbn beta iota.
  t_step; [by apply t_dies; apply _|]. t_step. t_step. t_step; [by apply t_dies; apply _|].
  eapply t_bind; [apply _|intros []; apply _|apply t_ttySetRaw|]. intros [b orig] [_ Ho]. cbn beta iota. t_step.
  t_step; [by apply t_dies; apply _|]. apply t_with_atexit; [apply _|apply _| |].
  - apply t_ttyReset. destruct orig as [u|]; [by apply Ho|by apply Hr].
  - t_step. t_step. apply t_forever; [apply _|]. unfold relay_round, relay_in, relay_out. t_off.
Qed.

